(** * FlowSync: ingestion Lambda, capture layer, extraction call and linking core

    A shallow embedding of the FlowSync sources:
    - [infra/lambda/ingestion/index.js]: token helpers, validation, the
      [/api/v1/events] route and the Lambda handler, over an explicit model
      of the DynamoDB tables, the S3 bucket and the AI Lambda queue;
    - the extension's [gitUtils] and [handlePushEvent], its hook listener,
      notification, configuration file and project initialisation;
    - [backend/promptUtil.js] and [backend/bedrockApi.js];
    - the linking engine, branch resolver and semantic search, which the
      repository only describes: they are modelled from the specification.

    The Lambda is read twice: at the types of the extension's interfaces,
    and, in [Raw], on whatever JSON value a body parses to, with
    JavaScript's conversions written out. The two validators agree on the
    bodies of the first reading.

    Definitions come first, theorems after them. *)

From Stdlib Require Import ZArith QArith Reals Ascii String List Lia Lra.
From stdpp Require Import gmap strings pretty list sorting fin_maps finite infinite.

(** ** JavaScript strings

    A JS string is a [string] with one character per UTF-16 code unit; code
    units above 255 are outside the model. *)

Definition chars (s : string) : list ascii := list_ascii_of_string s.
Definition str (l : list ascii) : string := string_of_list_ascii l.

(** [s.length] *)
Definition js_length (s : string) : Z := Z.of_nat (String.length s).

(** [s.slice(0, n)] for a non-negative [n] *)
Definition slice0 (n : Z) (s : string) : string :=
  str (take (Z.to_nat n) (chars s)).

(** Truthiness of a value of type [string | undefined | null]. *)
Definition truthy (o : option string) : bool :=
  match o with
  | Some (String _ _) => true
  | _ => false
  end.

(** [o || ''] *)
Definition or_empty (o : option string) : string :=
  if truthy o then default "" o else "".

Fixpoint split_on (sep : ascii) (l : list ascii) : list (list ascii) :=
  match l with
  | [] => [[]]
  | c :: l' =>
      if Ascii.eqb c sep then [] :: split_on sep l'
      else match split_on sep l' with
           | w :: ws => (c :: w) :: ws
           | [] => [[c]]
           end
  end.

(** [s.split(sep)] for a one-character separator *)
Definition js_split (sep : ascii) (s : string) : list string :=
  str <$> split_on sep (chars s).

Fixpoint prefixb (p l : list ascii) : bool :=
  match p, l with
  | [], _ => true
  | a :: p', b :: l' => Ascii.eqb a b && prefixb p' l'
  | _ :: _, [] => false
  end.

Fixpoint infixb (p l : list ascii) : bool :=
  prefixb p l || match l with [] => false | _ :: l' => infixb p l' end.

(** A string holding one double quote. *)
Definition dquote : string := String (ascii_of_N 34) "".

(** [s.includes(p)] *)
Definition includes (p s : string) : bool := infixb (chars p) (chars s).

(** White space and line terminators below code unit 256. *)
Definition is_space (c : ascii) : bool :=
  let n := N_of_ascii c in
  ((9 <=? n) && (n <=? 13) || (n =? 32) || (n =? 160))%N.

Fixpoint drop_spaces (l : list ascii) : list ascii :=
  match l with
  | c :: l' => if is_space c then drop_spaces l' else l
  | [] => []
  end.

(** [s.trim()] *)
Definition trim (s : string) : string :=
  str (reverse (drop_spaces (reverse (drop_spaces (chars s))))).

(** ** Regular expressions of the ingestion Lambda

    Every pattern of [index.js] is anchored on both sides; the fixed-width
    ones are sequences of character classes. *)

Definition in_range (lo hi c : ascii) : bool :=
  (N_of_ascii lo <=? N_of_ascii c)%N && (N_of_ascii c <=? N_of_ascii hi)%N.

Definition is_char (a c : ascii) : bool := Ascii.eqb a c.

(** [\d] *)
Definition digit (c : ascii) : bool := in_range "0" "9" c.

(** [[0-9a-f]] under the [i] flag *)
Definition hex (c : ascii) : bool :=
  in_range "0" "9" c || in_range "a" "f" c || in_range "A" "F" c.

(** [[89ab]] under the [i] flag *)
Definition variant (c : ascii) : bool :=
  is_char "8" c || is_char "9" c || is_char "a" c || is_char "b" c
  || is_char "A" c || is_char "B" c.

(** [[a-zA-Z0-9_-]] *)
Definition name_char (c : ascii) : bool :=
  in_range "a" "z" c || in_range "A" "Z" c || in_range "0" "9" c
  || is_char "_" c || is_char "-" c.

Fixpoint match_classes (cs : list (ascii -> bool)) (l : list ascii) : bool :=
  match cs, l with
  | [], [] => true
  | k :: cs', c :: l' => k c && match_classes cs' l'
  | _, _ => false
  end.

(** [/^[0-9a-f]{8}-[0-9a-f]{4}-4[0-9a-f]{3}-[89ab][0-9a-f]{3}-[0-9a-f]{12}$/i] *)
Definition UUID_V4 (s : string) : bool :=
  match_classes
    (replicate 8 hex ++ [is_char "-"] ++ replicate 4 hex ++ [is_char "-"]
     ++ [is_char "4"] ++ replicate 3 hex ++ [is_char "-"]
     ++ [variant] ++ replicate 3 hex ++ [is_char "-"] ++ replicate 12 hex)
    (chars s).

(** [/^[0-9a-f]{40}$/i] *)
Definition COMMIT_HASH (s : string) : bool :=
  match_classes (replicate 40 hex) (chars s).

(** [(Z|[+-]\d{2}:?\d{2})$] *)
Definition iso_zone (l : list ascii) : bool :=
  let sign c := is_char "+" c || is_char "-" c in
  match_classes [is_char "Z"] l
  || match_classes [sign; digit; digit; is_char ":"; digit; digit] l
  || match_classes [sign; digit; digit; digit; digit] l.

Fixpoint drop_digits (l : list ascii) : list ascii :=
  match l with
  | c :: l' => if digit c then drop_digits l' else l
  | [] => []
  end.

(** [(\.\d+)?] followed by the zone: the digits of a fraction are consumed
    greedily, which loses nothing since no zone starts with a digit. *)
Definition iso_tail (l : list ascii) : bool :=
  match l with
  | c :: (d :: _) as l' =>
      if is_char "." c && digit d then iso_zone (drop_digits l')
      else iso_zone l
  | _ => iso_zone l
  end.

(** [/^\d{4}-\d{2}-\d{2}T\d{2}:\d{2}:\d{2}(\.\d+)?(Z|[+-]\d{2}:?\d{2})$/] *)
Definition ISO_8601 (s : string) : bool :=
  match_classes
    (replicate 4 digit ++ [is_char "-"] ++ replicate 2 digit ++ [is_char "-"]
     ++ replicate 2 digit ++ [is_char "T"] ++ replicate 2 digit
     ++ [is_char ":"] ++ replicate 2 digit ++ [is_char ":"]
     ++ replicate 2 digit)
    (take 19 (chars s))
  && iso_tail (drop 19 (chars s)).

(** [/^[a-zA-Z0-9_-]+$/] *)
Definition NAME_REGEX (s : string) : bool :=
  match chars s with
  | [] => false
  | l => forallb name_char l
  end.

(** ** Buffers and hexadecimal encoding *)

Global Instance byte_eq_dec : EqDecision Byte.byte.
Proof.
  refine (fun a b => cast_if (decide (Byte.to_N a = Byte.to_N b))).
  - abstract (apply (inj Some);
              rewrite <- (Byte.of_to_N a), <- (Byte.of_to_N b); congruence).
  - abstract congruence.
Defined.

Global Instance byte_finite : Finite Byte.byte.
Proof.
  refine (enc_finite Byte.to_nat
            (fun n => default Byte.x00 (Byte.of_nat n)) 256 _ _ _).
  - abstract (intros x; by rewrite Byte.of_to_nat).
  - abstract (intros x; pose proof (Byte.to_nat_bounded x); lia).
  - abstract (intros i Hi; destruct (Byte.of_nat i) as [x|] eqn:E;
              [by apply Byte.to_of_nat|];
              apply Byte.of_nat_None_iff in E; lia).
Defined.

Definition hex_digit (n : N) : ascii :=
  if (n <? 10)%N then ascii_of_N (48 + n) else ascii_of_N (87 + n).

(** [buf.toString('hex')] *)
Definition to_hex (bs : list Byte.byte) : string :=
  str (bs ≫= λ b, [hex_digit (Byte.to_N b / 16); hex_digit (Byte.to_N b mod 16)]).

Definition hex_value (c : ascii) : option N :=
  let n := N_of_ascii c in
  if in_range "0" "9" c then Some (n - 48)%N
  else if in_range "a" "f" c then Some (n - 87)%N
  else if in_range "A" "F" c then Some (n - 55)%N
  else None.

Fixpoint decode_hex (l : list ascii) : list Byte.byte :=
  match l with
  | a :: b :: l' =>
      match hex_value a, hex_value b with
      | Some h, Some lo =>
          match Byte.of_N (16 * h + lo) with
          | Some x => x :: decode_hex l'
          | None => []
          end
      | _, _ => []
      end
  | _ => []
  end.

(** [Buffer.from(s, 'hex')]: decoding stops at the first pair that is not
    two hexadecimal digits. *)
Definition from_hex (s : string) : list Byte.byte := decode_hex (chars s).

(** ** Exceptions *)

Inductive outcome (A : Type) : Type :=
| Ret (a : A)
| Throw (e : string).
Arguments Ret {A} a.
Arguments Throw {A} e.

Global Instance outcome_ret : MRet outcome := fun A a => Ret a.
Global Instance outcome_bind : MBind outcome := fun A B k m =>
  match m with
  | Ret a => k a
  | Throw e => Throw e
  end.

(** [crypto.timingSafeEqual(a, b)] throws on buffers of different lengths. *)
Definition timingSafeEqual (a b : list Byte.byte) : outcome bool :=
  if decide (length a = length b) then Ret (bool_decide (a = b))
  else Throw "ERR_CRYPTO_TIMING_SAFE_EQUAL_LENGTH".

(** The key derivation function of Node's [crypto], at the key length the
    Lambda asks for: [scryptSync p s] is [crypto.scryptSync(p, s, 64)]. *)
Class Scrypt := {
  scryptSync : string -> string -> list Byte.byte;
  scryptSync_length : forall p s, length (scryptSync p s) = 64
}.

(** ** Token helpers *)

Section Tokens.
Context `{Scrypt}.

(** [salt] is the buffer [crypto.randomBytes(16)] drew. *)
Definition hashToken (salt : list Byte.byte) (plaintext : string) : string :=
  let salt := to_hex salt in
  let hash := to_hex (scryptSync plaintext salt) in
  salt +:+ ":" +:+ hash.

Definition verifyToken (plaintext : string) (stored : option string)
  : outcome bool :=
  let parts := js_split ":" (default "" stored) in
  let salt := parts !! 0 in
  let hash := parts !! 1 in
  if negb (truthy salt) || negb (truthy hash) then Ret false
  else
    let candidate := to_hex (scryptSync plaintext (default "" salt)) in
    timingSafeEqual (from_hex (default "" hash)) (from_hex candidate).
End Tokens.

(** ** Requests of the ingestion Lambda

    A parsed JSON body is read at the types of the extension's
    [CapturedEvent] interface: every field the Lambda reads is a string or
    is missing ([undefined] or [null]). *)

(** A field that should hold an array: missing, an array, or another value
    of the given truthiness. *)
Inductive field (A : Type) : Type :=
| Missing
| Arr (l : list A)
| NotArray (is_truthy : bool).
Arguments Missing {A}.
Arguments Arr {A} l.
Arguments NotArray {A} is_truthy.

Definition isArray {A} (f : field A) : bool :=
  match f with Arr _ => true | _ => false end.

Definition field_truthy {A} (f : field A) : bool :=
  match f with
  | Missing => false
  | Arr _ => true
  | NotArray t => t
  end.

(** A JSON number: an integer or not. *)
Inductive number : Type :=
| Int (z : Z)
| NonInt.

Record Payload := {
  commitHash : option string;
  message : option string;
  author : option string;
  diff : option string;
  changedFiles : field string;
  parentBranch : option string;
  text : option string;
  filePath : option string;
  lineNumber : option number
}.

Record Event := {
  eventId : option string;
  projectId : option string;
  eventType : option string;
  timestamp : option string;
  branch : option string;
  payload : option Payload
}.

Record TeamMember := { member_name : option string; role : option string }.

Record ProjectInput := {
  name : option string;
  description : option string;
  languages : field string;
  frameworks : field string;
  defaultBranch : option string;
  teamMembers : field TeamMember
}.

(** ** Validation *)

(** [if (!v) errors.push(required); else if (!ok(v)) errors.push(invalid)] *)
Definition check (v : option string) (required : string)
    (ok : string -> bool) (invalid : string) : list string :=
  if negb (truthy v) then [required]
  else if negb (ok (default "" v)) then [invalid]
  else [].

Definition when (b : bool) (msg : string) : list string :=
  if b then [msg] else [].

Definition validateProjectInput (input : ProjectInput) : list string :=
  check (name input) "name: required"
        NAME_REGEX "name: alphanumeric, hyphens, underscores only"
  ++ when (negb (truthy (description input))) "description: required"
  ++ when (match languages input with Arr (_ :: _) => false | _ => true end)
          "languages: required, must be a non-empty array"
  ++ when (negb (truthy (defaultBranch input))) "defaultBranch: required"
  ++ when (field_truthy (frameworks input) && negb (isArray (frameworks input)))
          "frameworks: must be an array"
  ++ (if field_truthy (teamMembers input) && negb (isArray (teamMembers input))
      then ["teamMembers: must be an array"]
      else match teamMembers input with
           | Arr ms =>
               concat (imap (fun i m =>
                  when (negb (truthy (member_name m)))
                       ("teamMembers[" +:+ pretty i +:+ "].name: required")
                  ++ when (negb (truthy (role m)))
                       ("teamMembers[" +:+ pretty i +:+ "].role: required"))
                 ms)
           | _ => []
           end).

Definition push_errors (p : Payload) : list string :=
  check (commitHash p) "commitHash: required for push events"
        COMMIT_HASH "commitHash: must be exactly 40 hex characters"
  ++ when (bool_decide (message p = None)) "message: required for push events"
  ++ when (negb (truthy (author p))) "author: required for push events"
  ++ when (field_truthy (changedFiles p) && negb (isArray (changedFiles p)))
          "changedFiles: must be an array"
  ++ when (match diff p with
           | Some d => (js_length d >? 50000)%Z
           | None => false
           end)
          "diff: max 50000 characters".

Definition note_errors (p : Payload) : list string :=
  when (negb (truthy (text p))) "text: required for developer_note events"
  ++ check (filePath p) "filePath: required for developer_note events"
       (fun f => negb (includes ".." f))
       "filePath: directory traversal (..) not allowed"
  ++ match lineNumber p with
     | None => ["lineNumber: required for developer_note events"]
     | Some (Int z) =>
         when (z <? 0)%Z "lineNumber: must be a non-negative integer"
     | Some NonInt => ["lineNumber: must be a non-negative integer"]
     end.

Definition validateEvent (ev : Event) : list string :=
  let errors :=
    check (eventId ev) "eventId: required"
          UUID_V4 "eventId: must be a valid UUID v4"
    ++ when (negb (truthy (projectId ev))) "projectId: required"
    ++ when (negb (bool_decide (eventType ev = Some "push")
                   || bool_decide (eventType ev = Some "developer_note")))
            "eventType: must be push or developer_note"
    ++ check (timestamp ev) "timestamp: required"
          ISO_8601 "timestamp: must be valid ISO 8601 UTC"
    ++ check (branch ev) "branch: required"
          (fun b => negb (js_length b >? 255)%Z) "branch: max 255 characters" in
  match payload ev with
  | None => errors ++ ["payload: required"]
  | Some p =>
      errors
      ++ (if bool_decide (eventType ev = Some "push") then push_errors p else [])
      ++ (if bool_decide (eventType ev = Some "developer_note")
          then note_errors p else [])
  end.

(** ** The stores behind the Lambda

    A DynamoDB table is a finite map from its primary key (partition key,
    or partition and sort key) as declared in [infra-stack.ts] to the item;
    [PutCommand] without a condition replaces the item under the key. *)

Record Project := {
  p_projectId : string;
  p_name : string;
  p_description : string;
  p_languages : list string;
  p_frameworks : field string;
  p_defaultBranch : string;
  p_teamMembers : field TeamMember;
  apiTokenHash : option string;
  createdAt : string;
  lastActivityAt : string;
  eventCount : Z
}.

Record EventRecord := {
  r_projectId : string;
  timestampEventId : string;
  branchTimestamp : string;
  r_eventId : string;
  r_eventType : string;
  r_branch : string;
  r_parentBranch : option string;
  r_payload : Payload;
  receivedAt : string;
  processingStatus : string
}.

Inductive Changes : Type :=
| ProjectChanges (name defaultBranch : string)
| EventChanges (eventType branch : string) (commitHash : option string).

Record AuditItem := {
  entityId : string;
  a_timestamp : string;
  entityType : string;
  action : string;
  actor : string;
  changes : Changes;
  reason : option string
}.

(** The payload handed to the AI Processing Lambda. *)
Record Invocation := {
  i_eventId : string;
  i_projectId : string;
  i_eventType : string;
  i_branch : string;
  i_parentBranch : option string;
  i_payload : Payload;
  i_timestamp : string
}.

Record World := {
  projectsTable : gmap string Project;
  eventsTable : gmap (string * string) EventRecord;
  auditTable : gmap (string * string) AuditItem;
  rawEventsBucket : gmap string Event;
  aiQueue : list Invocation;
  console : list string
}.

(** Which calls to AWS throw during one invocation of the handler. *)
Record Faults := {
  getProjectFails : bool;
  putProjectFails : bool;
  putEventFails : bool;
  putObjectFails : bool;
  invokeFails : bool;
  putAuditFails : bool
}.

Definition no_faults : Faults :=
  {| getProjectFails := false; putProjectFails := false;
     putEventFails := false; putObjectFails := false;
     invokeFails := false; putAuditFails := false |}.

Definition set_projects (f : gmap string Project -> gmap string Project)
    (w : World) : World :=
  {| projectsTable := f (projectsTable w); eventsTable := eventsTable w;
     auditTable := auditTable w; rawEventsBucket := rawEventsBucket w;
     aiQueue := aiQueue w; console := console w |}.

Definition set_events
    (f : gmap (string * string) EventRecord -> gmap (string * string) EventRecord)
    (w : World) : World :=
  {| projectsTable := projectsTable w; eventsTable := f (eventsTable w);
     auditTable := auditTable w; rawEventsBucket := rawEventsBucket w;
     aiQueue := aiQueue w; console := console w |}.

Definition set_audit
    (f : gmap (string * string) AuditItem -> gmap (string * string) AuditItem)
    (w : World) : World :=
  {| projectsTable := projectsTable w; eventsTable := eventsTable w;
     auditTable := f (auditTable w); rawEventsBucket := rawEventsBucket w;
     aiQueue := aiQueue w; console := console w |}.

Definition set_bucket (f : gmap string Event -> gmap string Event)
    (w : World) : World :=
  {| projectsTable := projectsTable w; eventsTable := eventsTable w;
     auditTable := auditTable w; rawEventsBucket := f (rawEventsBucket w);
     aiQueue := aiQueue w; console := console w |}.

Definition set_queue (f : list Invocation -> list Invocation)
    (w : World) : World :=
  {| projectsTable := projectsTable w; eventsTable := eventsTable w;
     auditTable := auditTable w; rawEventsBucket := rawEventsBucket w;
     aiQueue := f (aiQueue w); console := console w |}.

(** [console.error(msg)] *)
Definition log (msg : string) (w : World) : World :=
  {| projectsTable := projectsTable w; eventsTable := eventsTable w;
     auditTable := auditTable w; rawEventsBucket := rawEventsBucket w;
     aiQueue := aiQueue w; console := console w ++ [msg] |}.

(** [try { await call } catch (err) { console.error(msg) }] *)
Definition non_fatal (fails : bool) (call : World -> World) (msg : string)
    (w : World) : World :=
  if fails then log msg w else call w.

(** ** The items the events route writes *)

(** A field that validation has found to be a string. *)
Definition str_of (o : option string) : string := default "" o.

(** The item put into [flowsync-events]. *)
Definition eventRecord (event : Event) (p : Payload) (receivedAt : string)
  : EventRecord :=
  {| r_projectId := str_of (projectId event);
     timestampEventId :=
       str_of (timestamp event) +:+ "#" +:+ str_of (eventId event);
     branchTimestamp :=
       str_of (branch event) +:+ "#" +:+ str_of (timestamp event);
     r_eventId := str_of (eventId event);
     r_eventType := str_of (eventType event);
     r_branch := str_of (branch event);
     r_parentBranch := parentBranch p;
     r_payload := p;
     receivedAt := receivedAt;
     processingStatus := "pending" |}.

(** The key of the raw event in the S3 bucket. *)
Definition archiveKey (event : Event) : string :=
  "raw-events/" +:+ str_of (projectId event) +:+ "/"
  +:+ str_of (eventId event) +:+ ".json".

(** The payload of the asynchronous call to the AI Processing Lambda. *)
Definition invocation (event : Event) (p : Payload) : Invocation :=
  {| i_eventId := str_of (eventId event);
     i_projectId := str_of (projectId event);
     i_eventType := str_of (eventType event);
     i_branch := str_of (branch event);
     i_parentBranch := parentBranch p;
     i_payload := p;
     i_timestamp := str_of (timestamp event) |}.

(** The item put into [flowsync-audit] for an event. *)
Definition auditEvent (event : Event) (p : Payload) (receivedAt : string)
  : AuditItem :=
  {| entityId := str_of (eventId event);
     a_timestamp := receivedAt;
     entityType := "event";
     action := "created";
     actor := default "system" (author p);
     changes := EventChanges (str_of (eventType event))
                  (str_of (branch event)) (commitHash p);
     reason := None |}.

(** ** Responses *)

Record ProjectView := {
  v_projectId : string;
  v_name : string;
  v_description : string;
  v_languages : list string;
  v_frameworks : field string;
  v_defaultBranch : string;
  v_teamMembers : field TeamMember;
  v_lastActivityAt : string;
  v_eventCount : Z
}.

Inductive Body : Type :=
| Error (error : string) (message : option string) (details : list string)
| Ok
| Created (projectId apiToken : string)
| Processing (eventId projectId branch status receivedAt : string)
| Info (p : ProjectView).

Record Response := { statusCode : Z; body : Body }.

Definition respond (statusCode : Z) (body : Body) : Response :=
  {| statusCode := statusCode; body := body |}.

(** ** Authentication *)

Record Headers := {
  Authorization : option string;
  authorization : option string
}.

Definition extractToken (headers : option Headers) : option string :=
  let raw :=
    match headers with
    | Some h =>
        match Authorization h with
        | Some a => Some a
        | None => authorization h
        end
    | None => None
    end in
  if negb (truthy raw) then None
  else
    let parts := js_split " " (default "" raw) in
    let scheme := parts !! 0 in
    let token := parts !! 1 in
    if bool_decide (scheme = Some "Bearer") && truthy token then token
    else None.

Inductive AuthResult : Type :=
| AuthError (statusCode : Z) (error : Body)
| AuthProject (project : Project).

(** [GetCommand] on the projects table; DynamoDB rejects a key whose
    attribute is missing or empty. *)
Definition getProjectItem (faults : Faults) (w : World)
    (projectId : option string) : outcome (option Project) :=
  if getProjectFails faults then Throw "GetCommand failed"
  else if negb (truthy projectId) then Throw "ValidationException"
  else Ret (projectsTable w !! default "" projectId).

(** ** Requests *)

(** The raw body of a request: text that [JSON.parse] rejects, no body, or
    an object, read through the fields of the route that receives it. *)
Inductive ReqBody : Type :=
| Malformed
| NoBody
| EventBody (e : Event)
| ProjectBody (p : ProjectInput).

Definition no_event : Event :=
  {| eventId := None; projectId := None; eventType := None;
     timestamp := None; branch := None; payload := None |}.

Definition no_project : ProjectInput :=
  {| name := None; description := None; languages := Missing;
     frameworks := Missing; defaultBranch := None; teamMembers := Missing |}.

(** [typeof body === 'string' ? JSON.parse(body) : body] *)
Definition parse_event (body : ReqBody) : outcome (option Event) :=
  match body with
  | Malformed => Throw "SyntaxError"
  | NoBody => Ret None
  | EventBody e => Ret (Some e)
  | ProjectBody _ => Ret (Some no_event)
  end.

Definition parse_project (body : ReqBody) : outcome (option ProjectInput) :=
  match body with
  | Malformed => Throw "SyntaxError"
  | NoBody => Ret None
  | ProjectBody p => Ret (Some p)
  | EventBody _ => Ret (Some no_project)
  end.

Record Request := {
  httpMethod : option string;
  resource : option string;
  headers : option Headers;
  req_body : ReqBody;
  pathProjectId : option string
}.

(** What [crypto.randomUUID()] and the two [crypto.randomBytes] calls of
    [createProject] draw. *)
Record Entropy := {
  randomUUID : string;
  tokenBytes : list Byte.byte;
  saltBytes : list Byte.byte
}.

Section Lambda.
Context `{Scrypt}.

Definition authenticate (faults : Faults) (w : World)
    (headers : option Headers) (projectId : option string)
  : outcome AuthResult :=
  match extractToken headers with
  | None =>
      Ret (AuthError 401
             (Error "invalid_token" (Some "Missing Authorization header") []))
  | Some token =>
      Item ← getProjectItem faults w projectId;
      match Item with
      | None => Ret (AuthError 401 (Error "invalid_token" None []))
      | Some Item =>
          if negb (truthy (apiTokenHash Item))
          then Ret (AuthError 401 (Error "invalid_token" None []))
          else
            ok ← verifyToken token (apiTokenHash Item);
            if negb ok
            then Ret (AuthError 401 (Error "invalid_token" None []))
            else Ret (AuthProject Item)
      end
  end.

(** *** POST /api/v1/events *)

Definition ingestEvent (faults : Faults) (now : string)
    (headers : option Headers) (body : ReqBody) (w : World)
  : outcome Response * World :=
  match parse_event body with
  | Throw _ =>
      (Ret (respond 400
              (Error "invalid_json" (Some "Body must be valid JSON") [])), w)
  | Ret None => (Throw "TypeError", w)
  | Ret (Some event) =>
      match authenticate faults w headers (projectId event) with
      | Throw e => (Throw e, w)
      | Ret (AuthError code err) => (Ret (respond code err), w)
      | Ret (AuthProject _) =>
          let errors := validateEvent event in
          if negb (bool_decide (errors = []))
          then (Ret (respond 400 (Error "validation_failed" None errors)), w)
          else
            match payload event with
            | None => (Throw "TypeError", w)
            | Some p =>
                let receivedAt := now in
                let record := eventRecord event p receivedAt in
                (* critical write: everything else is non-fatal *)
                if putEventFails faults then (Throw "PutCommand failed", w)
                else
                  let w :=
                    set_events
                      <[(r_projectId record, timestampEventId record)
                        := record]> w in
                  let w :=
                    non_fatal (putObjectFails faults)
                      (set_bucket <[archiveKey event := event]>)
                      "[non-fatal] S3 archive failed" w in
                  let w :=
                    non_fatal (invokeFails faults)
                      (set_queue (fun q => q ++ [invocation event p]))
                      "[non-fatal] AI invoke failed" w in
                  let w :=
                    non_fatal (putAuditFails faults)
                      (set_audit
                         <[(str_of (eventId event), receivedAt)
                           := auditEvent event p receivedAt]>)
                      "[non-fatal] Audit write failed" w in
                  (Ret (respond 200
                          (Processing (str_of (eventId event))
                             (str_of (projectId event))
                             (str_of (branch event))
                             "processing" receivedAt)), w)
            end
      end
  end.

(** *** POST /api/v1/projects *)

Definition createProject (faults : Faults) (entropy : Entropy)
    (now : string) (body : ReqBody) (w : World)
  : outcome Response * World :=
  match parse_project body with
  | Throw e => (Throw e, w)
  | Ret None => (Throw "TypeError", w)
  | Ret (Some input) =>
      let errors := validateProjectInput input in
      if negb (bool_decide (errors = []))
      then (Ret (respond 400 (Error "validation_failed" None errors)), w)
      else
        let projectId := randomUUID entropy in
        let apiToken := to_hex (tokenBytes entropy) in
        let apiTokenHash := hashToken (saltBytes entropy) apiToken in
        let record :=
          {| p_projectId := projectId;
             p_name := default "" (name input);
             p_description := default "" (description input);
             p_languages :=
               match languages input with Arr l => l | _ => [] end;
             p_frameworks :=
               match frameworks input with Missing => Arr [] | f => f end;
             p_defaultBranch := default "" (defaultBranch input);
             p_teamMembers :=
               match teamMembers input with Missing => Arr [] | f => f end;
             apiTokenHash := Some apiTokenHash;
             createdAt := now;
             lastActivityAt := now;
             eventCount := 0 |} in
        (* critical write *)
        if putProjectFails faults then (Throw "PutCommand failed", w)
        else
          let w := set_projects <[projectId := record]> w in
          let w := non_fatal (putAuditFails faults)
            (set_audit
               <[(projectId, now) :=
                 {| entityId := projectId;
                    a_timestamp := now;
                    entityType := "project";
                    action := "created";
                    actor := "system";
                    changes := ProjectChanges (p_name record)
                                 (p_defaultBranch record);
                    reason :=
                      Some "Project initialised via onboarding wizard" |}]>)
            "[non-fatal] Audit write failed" w in
          (Ret (respond 200 (Created projectId apiToken)), w)
  end.

(** *** GET /api/v1/projects/{projectId} *)

Definition getProject (faults : Faults) (headers : option Headers)
    (pathProjectId : option string) (w : World)
  : outcome Response * World :=
  if negb (truthy pathProjectId)
  then (Ret (respond 400
               (Error "validation_failed" None ["projectId: required"])), w)
  else
    match authenticate faults w headers pathProjectId with
    | Throw e => (Throw e, w)
    | Ret (AuthError code err) => (Ret (respond code err), w)
    | Ret (AuthProject p) =>
        (Ret (respond 200
                (Info {| v_projectId := p_projectId p;
                         v_name := p_name p;
                         v_description := p_description p;
                         v_languages := p_languages p;
                         v_frameworks := p_frameworks p;
                         v_defaultBranch := p_defaultBranch p;
                         v_teamMembers := p_teamMembers p;
                         v_lastActivityAt := lastActivityAt p;
                         v_eventCount := eventCount p |})), w)
    end.

(** *** The handler: every exception becomes a 500 response. *)

Definition route (faults : Faults) (entropy : Entropy) (now : string)
    (event : Request) (w : World) : outcome Response * World :=
  let method := default "" (httpMethod event) in
  let resource := default "" (resource event) in
  if String.eqb method "OPTIONS" then (Ret (respond 200 Ok), w)
  else if String.eqb method "POST" && String.eqb resource "/api/v1/projects"
  then createProject faults entropy now (req_body event) w
  else if String.eqb method "POST" && String.eqb resource "/api/v1/events"
  then ingestEvent faults now (headers event) (req_body event) w
  else if String.eqb method "GET"
          && String.eqb resource "/api/v1/projects/{projectId}"
  then getProject faults (headers event) (pathProjectId event) w
  else (Ret (respond 404
               (Error "not_found"
                  (Some ("No route for " +:+ method +:+ " " +:+ resource))
                  [])), w).

Definition handler (faults : Faults) (entropy : Entropy) (now : string)
    (event : Request) (w : World) : Response * World :=
  match route faults entropy now event w with
  | (Ret r, w') => (r, w')
  | (Throw _, w') =>
      (respond 500
         (Error "internal_error" (Some "An unexpected error occurred") []),
       log "Unhandled error" w')
  end.
End Lambda.

(** ** The extension: [gitUtils.ts] *)

Record Git := {
  getWorkspaceRoot : option string;
  (** [execSync(cmd, { cwd, encoding: "utf-8" })] *)
  execSync : string -> outcome string
}.

Record CommitInfo := {
  ci_commitHash : string;
  ci_message : string;
  ci_author : string;
  ci_timestamp : string
}.

Definition git (env : Git) (args : string) : option string :=
  let cwd := getWorkspaceRoot env in
  if negb (truthy cwd) then None
  else
    match execSync env ("git " +:+ args) with
    | Ret out => Some (trim out)
    | Throw _ => None
    end.

Definition getDiff (env : Git) : option string :=
  let diff := git env "diff HEAD~1 HEAD" in
  if negb (truthy diff) then None
  else
    let diff := default "" diff in
    Some (if (js_length diff >? 50000)%Z then slice0 50000 diff else diff).

Definition getLastCommitInfo (env : Git) : option CommitInfo :=
  let raw :=
    git env ("log -1 --format=" +:+ dquote +:+ "%H|%s|%an|%aI" +:+ dquote) in
  if negb (truthy raw) then None
  else
    let parts := js_split "|" (default "" raw) in
    let commitHash := parts !! 0 in
    let message := parts !! 1 in
    let author := parts !! 2 in
    let timestamp := parts !! 3 in
    if negb (truthy commitHash) || negb (truthy message)
       || negb (truthy author) || negb (truthy timestamp)
    then None
    else Some {| ci_commitHash := default "" commitHash;
                 ci_message := default "" message;
                 ci_author := default "" author;
                 ci_timestamp := default "" timestamp |}.

Definition getCurrentBranch (env : Git) : option string :=
  git env "branch --show-current".

Definition getGitUserName (env : Git) : option string :=
  git env "config user.name".

(** ** The extension: [eventTransmitter.ts] and [extension.ts] *)

Record PushPayload := {
  pp_commitHash : string;
  pp_message : string;
  pp_diff : string;
  pp_author : string;
  pp_parentBranch : option string
}.

Record CapturedEvent := {
  ce_eventId : string;
  ce_projectId : string;
  ce_eventType : string;
  ce_timestamp : string;
  ce_branch : string;
  ce_payload : PushPayload
}.

(** One [postJson] call. *)
Record Post := {
  post_url : string;
  post_token : string;
  post_body : CapturedEvent
}.

Definition retryDelays : list Z := [0; 1000; 2000; 4000]%Z.

(** The attempts of [transmitEvent] from attempt number [attempt] on;
    [net k] tells whether the [k]-th [postJson] resolves. The result lists
    the posts made and whether one of them resolved (otherwise the last
    error is thrown). *)
Fixpoint attempts (delays : list Z) (net : nat -> bool) (attempt : nat)
    (p : Post) : list Post * bool :=
  match delays with
  | [] => ([], false)
  | _ :: delays' =>
      if net attempt then ([p], true)
      else
        let '(ps, ok) := attempts delays' net (S attempt) p in
        (p :: ps, ok)
  end.

Definition transmitEvent (net : nat -> bool) (backendUrl apiToken : string)
    (event : CapturedEvent) : list Post * bool :=
  attempts retryDelays net 0
    {| post_url := backendUrl +:+ "/api/v1/events";
       post_token := apiToken;
       post_body := event |}.

(** What one run of [handlePushEvent] did. *)
Record PushRun := {
  posts : list Post;
  warned : bool;
  notified : bool
}.

Definition handlePushEvent (env : Git) (net : nat -> bool)
    (uuid now : string)
    (projectId backendUrl defaultBranch apiToken branch : string) : PushRun :=
  let diff := getDiff env in
  let commitInfo := getLastCommitInfo env in
  let gitUserName := getGitUserName env in
  match diff, commitInfo with
  | Some (String _ _ as diff), Some commitInfo =>
      let event :=
        {| ce_eventId := uuid;
           ce_projectId := projectId;
           ce_eventType := "push";
           ce_timestamp := now;
           ce_branch := branch;
           ce_payload :=
             {| pp_commitHash := ci_commitHash commitInfo;
                pp_message := ci_message commitInfo;
                pp_diff := diff;
                pp_author := ci_author commitInfo;
                pp_parentBranch :=
                  if negb (String.eqb defaultBranch branch)
                  then Some defaultBranch else None |} |} in
      let '(ps, ok) := transmitEvent net backendUrl apiToken event in
      if ok
      then {| posts := ps; warned := false; notified := truthy gitUserName |}
      else {| posts := ps; warned := true; notified := false |}
  | _, _ => {| posts := []; warned := false; notified := false |}
  end.

(** The JSON body of a post as the Lambda parses it. *)
Definition wire (e : CapturedEvent) : Event :=
  {| eventId := Some (ce_eventId e);
     projectId := Some (ce_projectId e);
     eventType := Some (ce_eventType e);
     timestamp := Some (ce_timestamp e);
     branch := Some (ce_branch e);
     payload :=
       Some {| commitHash := Some (pp_commitHash (ce_payload e));
               message := Some (pp_message (ce_payload e));
               author := Some (pp_author (ce_payload e));
               diff := Some (pp_diff (ce_payload e));
               changedFiles := Missing;
               parentBranch := pp_parentBranch (ce_payload e);
               text := None;
               filePath := None;
               lineNumber := None |} |}.

(** The request that API Gateway hands to the ingestion Lambda for one
    [postJson] to [<backendUrl>/api/v1/events]: [postJson] sends
    [JSON.stringify(body)] by [POST] under the header
    [Authorization: Bearer <token>], and [infra-stack.ts] routes
    [POST /api/v1/events] to the Lambda. *)
Definition delivered (p : Post) : Request :=
  {| httpMethod := Some "POST";
     resource := Some "/api/v1/events";
     headers := Some {| Authorization := Some ("Bearer " +:+ post_token p);
                        authorization := None |};
     req_body := EventBody (wire (post_body p));
     pathProjectId := None |}.

(** ** The extension: [notifications.ts] *)




(** ** The extension: [hookListener.ts] *)

(** The body of a request to the listener, as the handler reads it: text
    that [JSON.parse] rejects, the value [null] (on which the read of
    [parsed.event] throws), or a value with its fields [event] and
    [branch]. *)
Inductive HookBody : Type :=
| HookMalformed
| HookNull
| HookParsed (event branch : option string).

Record HookRequest := {
  hook_method : string;
  hook_url : string;
  hook_body : HookBody
}.

(** The answer of the listener: the status, the JSON body if there is one,
    and the branch that [onPush] was called with, if it was called. *)
Record HookResponse := {
  hook_status : Z;
  hook_reply : option (string * string);
  onPush : option string
}.

Definition onRequest (req : HookRequest) : HookResponse :=
  if String.eqb (hook_method req) "POST"
     && String.eqb (hook_url req) "/flowsync-hook"
  then
    match hook_body req with
    | HookParsed event branch =>
        if bool_decide (event = Some "post-push") && truthy branch
        then {| hook_status := 200;
                hook_reply := Some ("status", "received");
                onPush := branch |}
        else {| hook_status := 400;
                hook_reply := Some ("error", "invalid payload");
                onPush := None |}
    | _ => {| hook_status := 400;
              hook_reply := Some ("error", "invalid json");
              onPush := None |}
    end
  else {| hook_status := 404; hook_reply := None; onPush := None |}.

(** The listener as [initializeForProject] starts it: [onPush] is
    [branch => handlePushEvent(context, projectId, backendUrl,
    defaultBranch, apiToken, branch)]. *)
Definition onHook (env : Git) (net : nat -> bool) (uuid now : string)
    (projectId backendUrl defaultBranch apiToken : string)
    (req : HookRequest) : HookResponse * option PushRun :=
  let res := onRequest req in
  (res,
   match onPush res with
   | Some branch =>
       Some (handlePushEvent env net uuid now projectId backendUrl
               defaultBranch apiToken branch)
   | None => None
   end).

(** ** The extension: [config.ts] and the activation

    The files of the workspace are a finite map from paths to contents;
    [path.join], [JSON.stringify] and [JSON.parse] are parameters, with the
    one law that parsing what was written gives back the three fields. A
    write to the disk is taken to succeed. *)

Record FlowSyncConfig := {
  cfg_projectId : string;
  cfg_backendUrl : string;
  cfg_defaultBranch : string
}.

(** What [JSON.parse] makes of the content of a file: an exception, the
    value [null], or a value read through the three fields. *)
Inductive ParsedConfig : Type :=
| ConfigMalformed
| ConfigNull
| ConfigValue (projectId backendUrl defaultBranch : option string).

Class ConfigFiles := {
  path_join : string -> string -> string;
  stringify : FlowSyncConfig -> string;
  parseJson : string -> ParsedConfig;
  parse_stringify : forall c,
    parseJson (stringify c +:+ String (ascii_of_N 10) "")
    = ConfigValue (Some (cfg_projectId c)) (Some (cfg_backendUrl c))
        (Some (cfg_defaultBranch c))
}.

Section Config.
Context `{ConfigFiles}.

Definition readConfig (workspaceRoot : option string)
    (files : gmap string string) : option FlowSyncConfig :=
  if negb (truthy workspaceRoot) then None
  else
    let configPath := path_join (default "" workspaceRoot) ".flowsync.json" in
    match files !! configPath with
    | None => None
    | Some raw =>
        match parseJson raw with
        | ConfigValue projectId backendUrl defaultBranch =>
            if negb (truthy projectId) || negb (truthy backendUrl)
               || negb (truthy defaultBranch)
            then None
            else Some {| cfg_projectId := default "" projectId;
                         cfg_backendUrl := default "" backendUrl;
                         cfg_defaultBranch := default "" defaultBranch |}
        | _ => None
        end
    end.

Definition writeConfig (workspaceRoot : option string)
    (config : FlowSyncConfig) (files : gmap string string)
  : outcome (gmap string string) :=
  if negb (truthy workspaceRoot) then Throw "No workspace folder open"
  else
    let configPath := path_join (default "" workspaceRoot) ".flowsync.json" in
    Ret (<[configPath := stringify config +:+ String (ascii_of_N 10) ""]>
           files).

(** What the hook listener is started with. *)
Record Listener := {
  l_projectId : string;
  l_backendUrl : string;
  l_defaultBranch : string;
  l_apiToken : string
}.

(** [initializeForProject]: the listener is started when [SecretStorage]
    holds a token under [flowsync.token.<projectId>]. *)
Definition initializeForProject (secrets : gmap string string)
    (projectId backendUrl defaultBranch : string) : option Listener :=
  let apiToken := secrets !! ("flowsync.token." +:+ projectId) in
  if negb (truthy apiToken) then None
  else Some {| l_projectId := projectId; l_backendUrl := backendUrl;
               l_defaultBranch := defaultBranch;
               l_apiToken := default "" apiToken |}.

(** [activate], after the registration of the init command. *)
Definition activate (workspaceRoot : option string)
    (files secrets : gmap string string) : option Listener :=
  match readConfig workspaceRoot files with
  | Some config =>
      initializeForProject secrets (cfg_projectId config)
        (cfg_backendUrl config) (cfg_defaultBranch config)
  | None => None
  end.
End Config.

(** ** The extension: [commands/initProject.ts] *)

(** [c => { const r = (Math.random() * 16) | 0;
            const v = c === "x" ? r : (r & 0x3) | 0x8;
            return v.toString(16); }] *)
Definition tempDigit (c : ascii) (r : N) : ascii :=
  hex_digit (if is_char "x" c then r else N.lor (N.land r 3) 8).

(** [template.replace(/[xy]/g, f)]: the [i]-th call of [f] draws
    [random i] for [(Math.random() * 16) | 0], a number from 0 to 15. *)
Fixpoint fill_xy (template : list ascii) (random : nat -> N) (i : nat)
  : list ascii :=
  match template with
  | [] => []
  | c :: t =>
      if is_char "x" c || is_char "y" c
      then tempDigit c (random i) :: fill_xy t random (S i)
      else c :: fill_xy t random i
  end.

Definition generateTempId (random : nat -> N) : string :=
  str (fill_xy (chars "xxxxxxxx-xxxx-4xxx-yxxx-xxxxxxxxxxxx") random 0).

(** [validateInput] of the project name box: the message shown, if any. *)
Definition validateInput (value : option string) : option string :=
  let ok c := in_range "a" "z" c || in_range "A" "Z" c || in_range "0" "9" c
              || is_char "-" c || is_char "_" c in
  if negb (truthy value)
     || negb (match chars (default "" value) with
              | [] => false
              | l => forallb ok l
              end)
  then Some "Alphanumeric, hyphens, underscores only"
  else None.

(** ** The extraction call: [promptUtil.js] *)

(** The first occurrence of [p] in [l]: what precedes it and what follows. *)
Fixpoint find_first (p l : list ascii) : option (list ascii * list ascii) :=
  if prefixb p l then Some ([], drop (length p) l)
  else match l with
       | [] => None
       | c :: l' =>
           match find_first p l' with
           | Some (before, after) => Some (c :: before, after)
           | None => None
           end
       end.

(** The replacement patterns of [String.prototype.replace]: [$$], [$&],
    [$`] and [$']; with a string pattern there are no capture groups, so any
    other [$] stands for itself. *)
Fixpoint expand (matched before after r : list ascii) : list ascii :=
  match r with
  | [] => []
  | d :: rest =>
      if is_char "$" d then
        match rest with
        | c :: r' =>
            if is_char "$" c then d :: expand matched before after r'
            else if is_char "&" c then matched ++ expand matched before after r'
            else if is_char "`" c then before ++ expand matched before after r'
            else if is_char "'" c then after ++ expand matched before after r'
            else d :: expand matched before after rest
        | [] => [d]
        end
      else d :: expand matched before after rest
  end.

(** [s.replace(p, r)] for a string pattern [p] *)
Definition replace (p r s : string) : string :=
  match find_first (chars p) (chars s) with
  | Some (before, after) =>
      str (before ++ expand (chars p) before after (chars r) ++ after)
  | None => s
  end.

Record PromptEvent := {
  projectName : option string;
  pe_eventType : option string;
  pe_eventId : option string;
  pe_timestamp : option string;
  pe_author : option string;
  pe_projectId : option string;
  commitMessage : option string;
  codeDiff : option string;
  developerNote : option string;
  source : option string
}.

(** [template] is the content of [prompts/prompt_template.md]. *)
Definition buildBedrockPrompt (template : string) (event : PromptEvent)
  : string :=
  let template := replace "[Project Name]" (or_empty (projectName event)) template in
  let template := replace "[Commit/File Change/Developer Note]"
                    (or_empty (pe_eventType event)) template in
  let template := replace "[Unique Identifier]" (or_empty (pe_eventId event)) template in
  let template := replace "[YYYY-MM-DD HH:MM:SS]" (or_empty (pe_timestamp event)) template in
  let template := replace "[Name or ID]" (or_empty (pe_author event)) template in
  let template := replace "[Project Identifier]" (or_empty (pe_projectId event)) template in
  let template := replace "[If applicable]" (or_empty (commitMessage event)) template in
  let template := replace "[If applicable]" (or_empty (codeDiff event)) template in
  let template := replace "[If applicable]" (or_empty (developerNote event)) template in
  let template := replace "[Event ID]" (or_empty (pe_eventId event)) template in
  replace "[VS Code Extension/Event Ingestion Backend]"
    (or_empty (source event)) template.

(** ** The extraction call: [bedrockApi.js] *)

Record InferenceConfig := {
  maxTokens : Z;
  temperature : Q;
  topP : Q
}.

Record Message := { msg_role : string; content : string }.

Record InvokeModel := {
  modelId : string;
  contentType : string;
  accept : string;
  messages : list Message;
  inference_config : InferenceConfig;
  latency : string
}.

(** The Bedrock runtime behind [bedrockClient.send]: the response body is a
    function of the command and of the randomness [seed] the service draws
    for the call. [parse] is [JSON.parse], which fails on text that is not
    JSON. *)
Class Bedrock (Seed Json : Type) := {
  send : InvokeModel -> Seed -> string;
  parse : string -> option Json
}.

Section Extraction.
Context {Seed Json : Type} `{Bedrock Seed Json}.

Definition invokeModelCommand (prompt : string) : InvokeModel :=
  {| modelId := "openai.gpt-oss-120b-1:0";
     contentType := "application/json";
     accept := "application/json";
     messages := [{| msg_role := "user"; content := prompt |}];
     inference_config :=
       {| maxTokens := 512; temperature := 1; topP := 0.5 |};
     latency := "standard" |}.

Definition callBedrock (template : string) (event : PromptEvent)
    (seed : Seed) : Json + string :=
  let prompt := buildBedrockPrompt template event in
  let text := send (invokeModelCommand prompt) seed in
  match parse text with
  | Some json => inl json
  | None => inr text
  end.
End Extraction.

(** ** The context table

    [infra-stack.ts] declares [flowsync-context] with the partition key
    [eventId] and no sort key; the AI Processing Lambda that writes it is
    not part of the repository. *)

Record ContextItem := {
  c_eventId : string;
  c_projectId : string;
  c_extractedAt : string;
  branchExtractedAt : string;
  (** the attributes that are in no key schema *)
  c_attributes : list (string * string)
}.

(** [PutCommand] on [flowsync-context] *)
Definition putContext (item : ContextItem) (t : gmap string ContextItem)
  : gmap string ContextItem :=
  <[c_eventId item := item]> t.

(** The table after a sequence of puts, oldest first. *)
Definition contextTable (puts : list ContextItem) : gmap string ContextItem :=
  foldl (fun t item => putContext item t) ∅ puts.

(** The items of a table that carry a given event id. *)
Definition contextsOf (eid : string) (t : gmap string ContextItem)
  : list ContextItem :=
  filter (fun item => c_eventId item = eid) (map_to_list t).*2.

(** The records of the events table that carry a given event id. *)
Definition eventsOf (eid : string) (w : World) : list EventRecord :=
  filter (fun r => r_eventId r = eid) (map_to_list (eventsTable w)).*2.

(** ** The linking core

    The linking engine, the branch resolver and the semantic search are
    described by the specification only; none of them is under the sources.
    Times are milliseconds. *)

Module Core.

(** Modelled from the spec: the lifecycle status of a record (section 3). *)
Inductive Status : Type := complete | uncommitted | stale.

(** Modelled from the spec: the [stage] enum of the derived fields. *)
Inductive Stage : Type :=
| Setup | FeatureDevelopment | Refactoring | BugFix | Testing | Documentation.

Global Instance Status_eq_dec : EqDecision Status.
Proof. solve_decision. Defined.

(** Modelled from the spec: the derived fields, produced by the
    ExtractionPort once a push has been processed. *)
Record Derived := {
  feature : string;
  decision : option string;
  tasks : list string;
  stage : Stage;
  risk : option string;
  confidence : Q;
  entities : list string;
  modelVersion : string
}.

(** Modelled from the spec: the agent-authored bundle. *)
Record AgentReasoning := {
  reasoning : string;
  ar_decision : option string;
  ar_tasks : list string;
  ar_risk : option string
}.

(** Modelled from the spec: the ContextRecord of section 3. [pushedAt] is
    the event timestamp of the bound push, "that record's push timestamp"
    of [handleReasoning] step 1. *)
Record ContextRecord := {
  contextId : nat;
  projectId : string;
  branch : string;
  author : string;
  parentBranch : option string;
  commitHash : option string;
  sourceEventId : option string;
  pushedAt : option Z;
  derived : option Derived;
  agentReasoning : option AgentReasoning;
  embedding : option (list R);
  status : Status;
  extractedAt : option Z;
  loggedAt : option Z;
  mergedInto : option string;
  mergedAt : option Z
}.

(** Modelled from the spec: the raw facts of a push handed to the
    ExtractionPort. *)
Record Facts := {
  f_message : string;
  f_diff : string;
  f_changedFiles : list string
}.

(** Modelled from the spec: the input of [handlePush]. *)
Record PushEvent := {
  e_eventId : string;
  e_projectId : string;
  e_branch : string;
  e_parentBranch : option string;
  e_author : string;
  e_commitHash : string;
  e_timestamp : Z;
  e_facts : Facts
}.

(** Modelled from the spec: the input of [handleReasoning]. *)
Record Submission := {
  s_projectId : string;
  s_branch : string;
  s_author : string;
  s_reasoning : AgentReasoning;
  s_timestamp : Z
}.

(** Modelled from the spec: what the ExtractionPort returns, before schema
    validation. *)
Record Extraction := {
  x_feature : option string;
  x_decision : option string;
  x_tasks : option (list string);
  x_stage : string;
  x_risk : option string;
  x_confidence : option Q;
  x_entities : option (list string);
  x_modelVersion : option string
}.

(** Modelled from the spec: the ports of section 6. [extract codeOnly]
    is the extraction call, code-only when the push binds a record that
    already carries reasoning; [summarize] is the canonical textual
    summary that is embedded; [answer] is the generation port. *)
Class Ports := {
  extract : bool -> Facts -> Extraction;
  embed : string -> list R;
  summarize : Derived -> string;
  answer : string -> list string -> string * bool
}.

(** Modelled from the spec: the 30-minute matching window and the 7-day
    retention window. *)
Definition WINDOW : Z := 30 * 60 * 1000.
Definition RETENTION : Z := 7 * 24 * 60 * 60 * 1000.

(** Modelled from the spec: two times at most 30 minutes apart, whichever
    is the earlier. *)
Definition within_window (t1 t2 : Z) : bool :=
  (Z.abs (t1 - t2) <=? WINDOW)%Z.

(** Modelled from the spec: the matching key [(projectId, branch, author)]. *)
Definition same_key (r : ContextRecord) (p b a : string) : bool :=
  String.eqb (projectId r) p && String.eqb (branch r) b
  && String.eqb (author r) a.

(** Modelled from the spec: the [stage] names of section 3. *)
Definition parse_stage (s : string) : option Stage :=
  if String.eqb s "Setup" then Some Setup
  else if String.eqb s "FeatureDevelopment" then Some FeatureDevelopment
  else if String.eqb s "Refactoring" then Some Refactoring
  else if String.eqb s "BugFix" then Some BugFix
  else if String.eqb s "Testing" then Some Testing
  else if String.eqb s "Documentation" then Some Documentation
  else None.

(** Modelled from the spec: the schema validation of section 4.1
    (a required field missing, [confidence] outside [0,1], [stage] not in
    the enum). *)
Definition validate (x : Extraction) : option Derived :=
  f ← x_feature x;
  t ← x_tasks x;
  st ← parse_stage (x_stage x);
  c ← x_confidence x;
  en ← x_entities x;
  mv ← x_modelVersion x;
  if Qle_bool 0 c && Qle_bool c 1
  then Some {| feature := f; decision := x_decision x; tasks := t;
               stage := st; risk := x_risk x; confidence := c;
               entities := en; modelVersion := mv |}
  else None.

(** Modelled from the spec: the ContextStore, with the pushes marked
    failed. *)
Record Store := {
  records : list ContextRecord;
  failed : list string
}.

(** Modelled from the spec: what [handlePush] did: nothing for a known
    event id, a push marked failed, an uncommitted record bound, or a new
    record. *)
Inductive PushResult : Type :=
| Duplicate
| PushFailed
| Bound (r : ContextRecord)
| Fresh (r : ContextRecord).

(** Modelled from the spec: step 1 of [handlePush], an uncommitted record
    with the push's key whose reasoning was submitted within the window of
    the push. *)
Definition push_candidate (e : PushEvent) (r : ContextRecord) : bool :=
  same_key r (e_projectId e) (e_branch e) (e_author e)
  && bool_decide (status r = uncommitted)
  && match loggedAt r with
     | Some t => within_window t (e_timestamp e)
     | None => false
     end.

(** Modelled from the spec: the distance in time that the tie-break of
    [handlePush] step 1 minimises. *)
Definition distance (e : PushEvent) (r : ContextRecord) : Z :=
  match loggedAt r with
  | Some t => Z.abs (t - e_timestamp e)
  | None => 0
  end.

(** Modelled from the spec: the candidate closest in time, the earliest
    stored on a tie. *)
Fixpoint closest (e : PushEvent) (l : list ContextRecord)
  : option ContextRecord :=
  match l with
  | [] => None
  | r :: l' =>
      match closest e l' with
      | Some r' => if (distance e r' <? distance e r)%Z then Some r' else Some r
      | None => Some r
      end
  end.

(** Modelled from the spec: step 1 of [handleReasoning], a complete record
    with the submission's key and no reasoning yet, pushed within the window
    of the submission. *)
Definition reasoning_candidate (sub : Submission) (r : ContextRecord) : bool :=
  same_key r (s_projectId sub) (s_branch sub) (s_author sub)
  && bool_decide (status r = complete)
  && bool_decide (agentReasoning r = None)
  && match pushedAt r with
     | Some t => within_window (s_timestamp sub) t
     | None => false
     end.

(** Modelled from the spec: step 2 of [handlePush], the update of the
    matched record; its reasoning is kept. *)
Definition bind_push (e : PushEvent) (d : Derived) (v : list R) (now : Z)
    (r : ContextRecord) : ContextRecord :=
  {| contextId := contextId r; projectId := projectId r;
     branch := branch r; author := author r;
     parentBranch := parentBranch r;
     commitHash := Some (e_commitHash e);
     sourceEventId := Some (e_eventId e);
     pushedAt := Some (e_timestamp e);
     derived := Some d;
     agentReasoning := agentReasoning r;
     embedding := Some v;
     status := complete;
     extractedAt := Some now;
     loggedAt := loggedAt r;
     mergedInto := mergedInto r; mergedAt := mergedAt r |}.

(** Modelled from the spec: step 3 of [handlePush], the new complete
    record. *)
Definition new_complete (id : nat) (e : PushEvent) (d : Derived)
    (v : list R) (now : Z) : ContextRecord :=
  {| contextId := id; projectId := e_projectId e;
     branch := e_branch e; author := e_author e;
     parentBranch := e_parentBranch e;
     commitHash := Some (e_commitHash e);
     sourceEventId := Some (e_eventId e);
     pushedAt := Some (e_timestamp e);
     derived := Some d;
     agentReasoning := None;
     embedding := Some v;
     status := complete;
     extractedAt := Some now;
     loggedAt := None;
     mergedInto := None; mergedAt := None |}.

(** Modelled from the spec: step 2 of [handleReasoning]. *)
Definition attach (sub : Submission) (r : ContextRecord) : ContextRecord :=
  {| contextId := contextId r; projectId := projectId r;
     branch := branch r; author := author r;
     parentBranch := parentBranch r;
     commitHash := commitHash r;
     sourceEventId := sourceEventId r;
     pushedAt := pushedAt r;
     derived := derived r;
     agentReasoning := Some (s_reasoning sub);
     embedding := embedding r;
     status := complete;
     extractedAt := extractedAt r;
     loggedAt := Some (s_timestamp sub);
     mergedInto := mergedInto r; mergedAt := mergedAt r |}.

(** Modelled from the spec: step 3 of [handleReasoning], the new
    uncommitted record. *)
Definition new_uncommitted (id : nat) (sub : Submission) : ContextRecord :=
  {| contextId := id; projectId := s_projectId sub;
     branch := s_branch sub; author := s_author sub;
     parentBranch := None;
     commitHash := None;
     sourceEventId := None;
     pushedAt := None;
     derived := None;
     agentReasoning := Some (s_reasoning sub);
     embedding := None;
     status := uncommitted;
     extractedAt := None;
     loggedAt := Some (s_timestamp sub);
     mergedInto := None; mergedAt := None |}.

Section Engine.
Context `{Ports}.

(** Modelled from the spec: [handlePush] of section 4.1. A record's
    [contextId] is its position in the store, which never shrinks.
    [now] is the time at which the derived fields are produced. *)
Definition handlePush (now : Z) (e : PushEvent) (s : Store)
  : PushResult * Store :=
  if existsb (fun r => bool_decide (sourceEventId r = Some (e_eventId e)))
       (records s)
  then (Duplicate, s)
  else
    let found := closest e (filter (fun r => push_candidate e r) (records s)) in
    match validate (extract (bool_decide (is_Some found)) (e_facts e)) with
    | None =>
        (PushFailed,
         {| records := records s; failed := failed s ++ [e_eventId e] |})
    | Some d =>
        let v := embed (summarize d) in
        match found with
        | Some r =>
            let r' := bind_push e d v now r in
            (Bound r',
             {| records := <[contextId r := r']> (records s);
                failed := failed s |})
        | None =>
            let r' := new_complete (length (records s)) e d v now in
            (Fresh r',
             {| records := records s ++ [r']; failed := failed s |})
        end
    end.

(** Modelled from the spec: [handleReasoning] of section 4.1; of several
    candidates the earliest stored is taken. *)
Definition handleReasoning (sub : Submission) (s : Store)
  : Status * Store :=
  match list_find (fun r => reasoning_candidate sub r) (records s) with
  | Some (i, r) =>
      (complete,
       {| records := <[i := attach sub r]> (records s);
          failed := failed s |})
  | None =>
      (uncommitted,
       {| records := records s
                     ++ [new_uncommitted (length (records s)) sub];
          failed := failed s |})
  end.
End Engine.

(** Modelled from the spec: the staleness sweep of section 4.1, which
    flips the uncommitted records older than 7 days to stale. *)
Definition sweep (now : Z) (s : Store) : Store :=
  {| records :=
       (fun r =>
          if bool_decide (status r = uncommitted)
             && (RETENTION <? now - default 0 (loggedAt r))%Z
          then {| contextId := contextId r; projectId := projectId r;
                  branch := branch r; author := author r;
                  parentBranch := parentBranch r;
                  commitHash := commitHash r;
                  sourceEventId := sourceEventId r;
                  pushedAt := pushedAt r; derived := derived r;
                  agentReasoning := agentReasoning r;
                  embedding := embedding r; status := stale;
                  extractedAt := extractedAt r; loggedAt := loggedAt r;
                  mergedInto := mergedInto r; mergedAt := mergedAt r |}
          else r) <$> records s;
     failed := failed s |}.

(** *** BranchResolver *)

(** Modelled from the spec: the merge event of section 4.2 on one
    record. Only [mergedInto] and [mergedAt] are written. *)
Definition tag (target : string) (at_ : Z) (r : ContextRecord)
  : ContextRecord :=
  {| contextId := contextId r; projectId := projectId r;
     branch := branch r; author := author r;
     parentBranch := parentBranch r;
     commitHash := commitHash r; sourceEventId := sourceEventId r;
     pushedAt := pushedAt r; derived := derived r;
     agentReasoning := agentReasoning r; embedding := embedding r;
     status := status r; extractedAt := extractedAt r;
     loggedAt := loggedAt r;
     mergedInto := Some target; mergedAt := Some at_ |}.

(** Modelled from the spec: the records a merge of [source] tags, those
    with [branch = source] and [mergedInto] unset. *)
Definition mergeable (source : string) (r : ContextRecord) : bool :=
  String.eqb (branch r) source && bool_decide (mergedInto r = None).

(** Modelled from the spec: [onBranchMerged] of section 4.2. *)
Definition onBranchMerged (source target : string) (at_ : Z)
    (rs : list ContextRecord) : list ContextRecord :=
  (fun r => if mergeable source r then tag target at_ r else r) <$> rs.

(** Modelled from the spec: a record counts as native to [b] when it was
    created on [b] or its branch was merged into [b]. *)
Definition native_to (b : string) (r : ContextRecord) : bool :=
  String.eqb (branch r) b || bool_decide (mergedInto r = Some b).

(** Modelled from the spec: the time by which [resolve] and [search] order
    records. *)
Definition time (r : ContextRecord) : Z := default 0%Z (extractedAt r).

(** Modelled from the spec: [newer x y], [x] was extracted no earlier than
    [y]. *)
Definition newer (x y : ContextRecord) : Prop := (time y <= time x)%Z.

Global Instance newer_dec x y : Decision (newer x y).
Proof. unfold newer. apply _. Defined.

(** Modelled from the spec: the limit of [resolve]; [None] is the unbounded
    limit. *)
Definition limited {A} (limit : option nat) (l : list A) : list A :=
  match limit with
  | Some n => take n l
  | None => l
  end.

(** Modelled from the spec: the default limit of [resolve]. *)
Definition DEFAULT_LIMIT : nat := 10.

(** Modelled from the spec: step 1 of [resolve], the most recent [limit]
    complete records of project [p] that [sel] selects, by [extractedAt]
    descending. *)
Definition fetch (p : string) (sel : ContextRecord -> bool)
    (limit : option nat) (rs : list ContextRecord) : list ContextRecord :=
  limited limit
    (merge_sort newer
       (filter (fun r => String.eqb (projectId r) p
                         && bool_decide (status r = complete) && sel r) rs)).

(** Modelled from the spec: a resolved record with the branch it comes
    from. *)
Record Resolved := {
  origin : string;
  inherited : bool;
  record : ContextRecord
}.

(** Modelled from the spec: the parent recorded for branch [b], the
    [parentBranch] of the first record created on [b] that has one. *)
Definition parent_of (p b : string) (rs : list ContextRecord)
  : option string :=
  head (omap parentBranch
          (filter (fun r => String.eqb (projectId r) p
                            && String.eqb (branch r) b) rs)).

(** Modelled from the spec: [resolve] of section 4.2, listing history:
    the native records first, then the records created on the immediate
    parent, each tagged with its branch. *)
Definition resolve (p b : string) (limit : option nat)
    (rs : list ContextRecord) : list Resolved :=
  let native := fetch p (native_to b) limit rs in
  let parent :=
    match parent_of p b rs with
    | Some pb => fetch p (fun r => String.eqb (branch r) pb) limit rs
    | None => []
    end in
  ((fun r => {| origin := branch r; inherited := false; record := r |})
     <$> native)
  ++ ((fun r => {| origin := branch r; inherited := true; record := r |})
        <$> parent).

(** *** SemanticSearch *)

(** Modelled from the spec: the dot product and the magnitude of step 3 of
    [search]. *)
Definition dot (a b : list R) : R :=
  foldr Rplus 0%R (zip_with Rmult a b).

Definition magnitude (a : list R) : R := sqrt (dot a a).

(** Modelled from the spec: step 3 of [search],
    [dot(a,b) / (|a| * |b|)], and [0] when a magnitude is zero. *)
Definition cosine (a b : list R) : R :=
  if Req_dec_T (magnitude a) 0 then 0%R
  else if Req_dec_T (magnitude b) 0 then 0%R
  else (dot a b / (magnitude a * magnitude b))%R.

(** Modelled from the spec: a ranked result: score, record reference and
    excerpt. *)
Record Ranked := {
  score : R;
  ref : ContextRecord;
  excerpt : string
}.

(** Modelled from the spec: the confidence that breaks ties. *)
Definition conf (x : Ranked) : Q :=
  match derived (ref x) with
  | Some d => confidence d
  | None => 0
  end.

(** Modelled from the spec: step 4 of [search]. [ranks x y]: [x] comes
    no later than [y], by score descending, then by higher confidence,
    then by more recent [extractedAt]. *)
Definition ranks (x y : Ranked) : Prop :=
  (score y < score x)%R
  \/ (score x = score y
      /\ (Qlt (conf y) (conf x)
          \/ (Qeq (conf x) (conf y) /\ (time (ref y) <= time (ref x))%Z))).

Global Instance ranks_dec x y : Decision (ranks x y).
Proof.
  unfold ranks.
  destruct (Rlt_dec (score y) (score x)); [left; by left|].
  destruct (Req_dec_T (score x) (score y)); [|right; tauto].
  destruct (Qlt_le_dec (conf y) (conf x)) as [|Hle%Qle_not_lt];
    [left; tauto|].
  destruct (Qeq_dec (conf x) (conf y)); [|right; tauto].
  destruct (decide (time (ref y) <= time (ref x))%Z); [left; tauto|].
  right; tauto.
Defined.

(** Modelled from the spec: the output of [search]. *)
Record SearchResult := {
  results : list Ranked;
  answer_text : option string;
  grounded : bool;
  insufficient : bool
}.

Section Search.
Context `{Ports}.

(** Modelled from the spec: step 1 of [search], the resolved records
    that carry an embedding. *)
Definition candidates (p b : string) (rs : list ContextRecord)
  : list ContextRecord :=
  filter (fun r => is_Some (embedding r)) (record <$> resolve p b None rs).

(** Modelled from the spec: a candidate with its score against the query
    embedding [q]. *)
Definition rank (q : list R) (r : ContextRecord) : Ranked :=
  {| score := cosine (default [] (embedding r)) q;
     ref := r;
     excerpt := match derived r with
                | Some d => summarize d
                | None => ""
                end |}.

(** Modelled from the spec: [search] of section 4.3. The second
    component lists the calls made to the generation port. *)
Definition search (p b query : string) (limit : nat)
    (rs : list ContextRecord)
  : SearchResult * list (string * list string) :=
  match candidates p b rs with
  | [] =>
      ({| results := []; answer_text := None; grounded := false;
          insufficient := true |}, [])
  | cs =>
      let q := embed query in
      let top := take limit (merge_sort ranks (rank q <$> cs)) in
      let passages := excerpt <$> top in
      let '(text, g) := answer query passages in
      ({| results := top; answer_text := Some text; grounded := g;
          insufficient := false |}, [(query, passages)])
  end.
End Search.

End Core.

(** * Specification predicates *)

(** A field that holds a non-empty string accepted by [ok]. *)
Definition valid (ok : string -> bool) (v : option string) : Prop :=
  exists s, v = Some s /\ s <> "" /\ ok s = true.

(** Exactly 40 hexadecimal characters. *)
Definition hex40 (s : string) : Prop :=
  String.length s = 40 /\ Forall (fun c => hex c = true) (chars s).

(** The four conditions on a push event: a UUID v4 [eventId], an ISO 8601
    [timestamp], a non-empty [branch] and a [commitHash] of 40 hexadecimal
    characters. *)
Definition well_formed_push (ev : Event) : Prop :=
  valid UUID_V4 (eventId ev)
  /\ valid ISO_8601 (timestamp ev)
  /\ valid (fun _ => true) (branch ev)
  /\ exists p h, payload ev = Some p /\ commitHash p = Some h /\ hex40 h.

(** The response to an accepted event. *)
Definition accepted (out : outcome Response) : Prop :=
  exists r, out = Ret r /\ statusCode r = 200%Z.

(** The request [POST /api/v1/events] with the given headers and body. *)
Definition post_event (headers : option Headers) (ev : Event) : Request :=
  {| httpMethod := Some "POST"; resource := Some "/api/v1/events";
     headers := headers; req_body := EventBody ev; pathProjectId := None |}.

(** Two worlds with the same tables, bucket and queue. *)
Definition same_stores (w w' : World) : Prop :=
  projectsTable w' = projectsTable w /\ eventsTable w' = eventsTable w
  /\ auditTable w' = auditTable w /\ rawEventsBucket w' = rawEventsBucket w
  /\ aiQueue w' = aiQueue w.

(** The key of an event in [flowsync-events]. *)
(** The number of records of an events table that carry the event id
    [eid]. *)
Definition records_with (eid : string)
    (t : gmap (string * string) EventRecord) : nat :=
  length (filter (fun r => r_eventId r = eid) (map_to_list t).*2).


(** The lines that the three non-fatal steps of the events route log. *)
Definition non_fatal_lines (faults : Faults) : list string :=
  (if putObjectFails faults then ["[non-fatal] S3 archive failed"] else [])
  ++ (if invokeFails faults then ["[non-fatal] AI invoke failed"] else [])
  ++ (if putAuditFails faults then ["[non-fatal] Audit write failed"]
      else []).

Definition eventKey (ev : Event) : string * string :=
  (str_of (projectId ev),
   str_of (timestamp ev) +:+ "#" +:+ str_of (eventId ev)).

(** The determinism guarantee the design documents give for the model:
    with [temperature: 0] the response does not depend on the randomness of
    the call. *)
Definition greedy_deterministic {Seed Json} (B : Bedrock Seed Json) : Prop :=
  forall cmd s1 s2,
    Qeq (temperature (inference_config cmd)) 0 ->
    @send _ _ B cmd s1 = @send _ _ B cmd s2.

(** A text with placeholders: literal text and holes, in order. *)
Inductive Seg : Type :=
| Txt (l : list ascii)
| Hole (p : list ascii).

Definition flat (segs : list Seg) : list ascii :=
  segs ≫= fun s => match s with Txt l => l | Hole p => p end.

(** The text in which the first hole [p] is filled with [r]. *)
Fixpoint fill (p r : list ascii) (segs : list Seg) : list Seg :=
  match segs with
  | [] => []
  | Hole q :: segs' =>
      if decide (q = p) then Txt r :: segs' else Hole q :: fill p r segs'
  | s :: segs' => s :: fill p r segs'
  end.

(** A placeholder: an opening bracket, a text without brackets and a
    closing bracket. *)
Definition bracketed (p : list ascii) : Prop :=
  exists inner,
    p = "["%char :: inner ++ ["]"%char]
    /\ Forall (fun c => c <> "["%char /\ c <> "]"%char) inner.

Definition well_formed (segs : list Seg) : Prop :=
  Forall (fun s => match s with
                   | Txt l => Forall (fun c => c <> "["%char) l
                   | Hole p => bracketed p
                   end) segs.

Definition bracketedb (p : list ascii) : bool :=
  match p with
  | c :: rest =>
      Ascii.eqb c "["
      && match reverse rest with
         | d :: inner =>
             Ascii.eqb d "]"
             && forallb (fun c => negb (Ascii.eqb c "[")
                                  && negb (Ascii.eqb c "]")) inner
         | [] => false
         end
  | [] => false
  end.

Definition well_formedb (segs : list Seg) : bool :=
  forallb (fun s => match s with
                    | Txt l => forallb (fun c => negb (Ascii.eqb c "[")) l
                    | Hole p => bracketedb p
                    end) segs.

(** A field of an event whose text holds no opening bracket and no
    dollar sign. *)
Definition clean (o : option string) : Prop :=
  Forall (fun c => c <> "["%char /\ c <> "$"%char) (chars (or_empty o)).

(** [n] decimal digits. *)
Definition digits (n : nat) (l : list ascii) : Prop :=
  length l = n /\ Forall (fun c => digit c = true) l.

(** A timestamp as the pattern [ISO_8601] is written: a date and a time of
    digits, an optional fraction of one or more digits, and the zone [Z] or
    an offset of the form [+hh:mm] or [+hhmm], with either sign. *)
Definition iso_shape (s : string) : Prop :=
  exists y mo d h mi sec frac zone,
    chars s
    = y ++ "-"%char :: mo ++ "-"%char :: d ++ "T"%char :: h
        ++ ":"%char :: mi ++ ":"%char :: sec ++ frac ++ zone
    /\ digits 4 y /\ digits 2 mo /\ digits 2 d
    /\ digits 2 h /\ digits 2 mi /\ digits 2 sec
    /\ (frac = []
        \/ exists ds, frac = "."%char :: ds /\ ds <> []
                      /\ Forall (fun c => digit c = true) ds)
    /\ (zone = ["Z"%char]
        \/ exists sign hh mm,
             (sign = "+"%char \/ sign = "-"%char)
             /\ digits 2 hh /\ digits 2 mm
             /\ (zone = sign :: hh ++ ":"%char :: mm
                 \/ zone = sign :: hh ++ mm)).

(** The responses of the API: a success body under [200], and an error
    body under the status that belongs to its error code. *)
Definition response_ok (r : Response) : Prop :=
  match body r with
  | Error e m d =>
      (statusCode r = 400%Z /\ e = "invalid_json" /\ d = [])
      \/ (statusCode r = 400%Z /\ e = "validation_failed" /\ m = None
          /\ d <> [])
      \/ (statusCode r = 401%Z /\ e = "invalid_token" /\ d = [])
      \/ (statusCode r = 404%Z /\ e = "not_found" /\ d = [])
      \/ (statusCode r = 500%Z /\ e = "internal_error"
          /\ m = Some "An unexpected error occurred" /\ d = [])
  | _ => statusCode r = 200%Z
  end.

(** [parts.join(sep)] for a one-character separator. *)
Fixpoint join (sep : ascii) (parts : list string) : string :=
  match parts with
  | [] => ""
  | [part] => part
  | part :: parts' => part +:+ String sep "" +:+ join sep parts'
  end.

(** The number of [postJson] calls that [transmitEvent] makes: one more
    than the number of leading attempts that fail, and at most as many as
    there are delays. *)
Fixpoint tries (delays : nat) (net : nat -> bool) (attempt : nat) : nat :=
  match delays with
  | 0 => 0
  | S delays' =>
      if net attempt then 1 else S (tries delays' net (S attempt))
  end.

(** ** Sequences of invocations and what the tables keep

    The Lambda is invoked once per request; the tables, the bucket and the
    queue are what one invocation leaves to the next. *)

(** One invocation of the handler: the request, which calls to AWS fail,
    and what the random source and the clock give. *)
Record Call := {
  c_faults : Faults;
  c_entropy : Entropy;
  c_now : string;
  c_request : Request
}.

Definition run_all `{Scrypt} (calls : list Call) (w : World) : World :=
  foldl (fun w c =>
           (handler (c_faults c) (c_entropy c) (c_now c) (c_request c) w).2)
        w calls.

(** The item [createProject] puts into [flowsync-projects] for a valid
    input. *)
Definition newProject `{Scrypt} (entropy : Entropy) (now : string)
    (input : ProjectInput) : Project :=
  {| p_projectId := randomUUID entropy;
     p_name := default "" (name input);
     p_description := default "" (description input);
     p_languages := match languages input with Arr l => l | _ => [] end;
     p_frameworks :=
       match frameworks input with Missing => Arr [] | f => f end;
     p_defaultBranch := default "" (defaultBranch input);
     p_teamMembers :=
       match teamMembers input with Missing => Arr [] | f => f end;
     apiTokenHash :=
       Some (hashToken (saltBytes entropy) (to_hex (tokenBytes entropy)));
     createdAt := now;
     lastActivityAt := now;
     eventCount := 0 |}.

(** An item of [flowsync-projects] as [createProject] writes it. *)
Definition project_ok `{Scrypt} (k : string) (p : Project) : Prop :=
  p_projectId p = k
  /\ p_name p <> "" /\ NAME_REGEX (p_name p) = true
  /\ p_description p <> ""
  /\ p_languages p <> []
  /\ p_defaultBranch p <> ""
  /\ p_frameworks p <> NotArray true
  /\ p_teamMembers p <> NotArray true
  /\ (exists salt token, apiTokenHash p = Some (hashToken salt token))
  /\ lastActivityAt p = createdAt p
  /\ eventCount p = 0%Z.

(** An item of [flowsync-events] as [ingestEvent] writes it, in a world
    whose projects table knows its project. *)
Definition event_ok (w : World) (k : string * string) (r : EventRecord)
  : Prop :=
  k = (r_projectId r, timestampEventId r)
  /\ (exists ts, ISO_8601 ts = true
        /\ timestampEventId r = ts +:+ "#" +:+ r_eventId r
        /\ branchTimestamp r = r_branch r +:+ "#" +:+ ts)
  /\ UUID_V4 (r_eventId r) = true
  /\ r_branch r <> "" /\ (js_length (r_branch r) <= 255)%Z
  /\ (r_eventType r = "push" \/ r_eventType r = "developer_note")
  /\ (r_eventType r = "push" -> push_errors (r_payload r) = [])
  /\ (r_eventType r = "developer_note" -> note_errors (r_payload r) = [])
  /\ r_parentBranch r = parentBranch (r_payload r)
  /\ processingStatus r = "pending"
  /\ is_Some (projectsTable w !! r_projectId r).

Definition tables_ok `{Scrypt} (w : World) : Prop :=
  map_Forall project_ok (projectsTable w)
  /\ map_Forall (event_ok w) (eventsTable w).

(** The key of the event an invocation of the AI Lambda was made for. *)
Definition invocationKey (i : Invocation) : string * string :=
  (i_projectId i, i_timestamp i +:+ "#" +:+ i_eventId i).

(** The archive, the queue and the audit trail refer to what the tables
    hold: an archived object is a valid event, sits under its archive key
    and has an item in the events table, an invocation names an event of
    the events table, and an audit row sits under its own id and timestamp
    and records a creation. *)
Definition side_stores_ok (w : World) : Prop :=
  map_Forall (fun k ev =>
                k = archiveKey ev /\ validateEvent ev = []
                /\ is_Some (eventsTable w !! eventKey ev))
             (rawEventsBucket w)
  /\ Forall (fun i => is_Some (eventsTable w !! invocationKey i))
            (aiQueue w)
  /\ map_Forall (fun k a =>
                   k = (entityId a, a_timestamp a) /\ action a = "created"
                   /\ (entityType a = "project" \/ entityType a = "event"))
                (auditTable w).

(** Nothing is ever deleted: every key of [w] is a key of [w'], and the
    queue and the console of [w] are prefixes of those of [w']. *)
Definition grows (w w' : World) : Prop :=
  dom (projectsTable w) ⊆ dom (projectsTable w')
  /\ dom (eventsTable w) ⊆ dom (eventsTable w')
  /\ dom (auditTable w) ⊆ dom (auditTable w')
  /\ dom (rawEventsBucket w) ⊆ dom (rawEventsBucket w')
  /\ aiQueue w `prefix_of` aiQueue w'
  /\ console w `prefix_of` console w'.

(** ** Branch merges *)

(** What [onBranchMerged] does to one record. *)
Definition retag (source target : string) (at_ : Z) (r : Core.ContextRecord)
  : Core.ContextRecord :=
  if Core.mergeable source r then Core.tag target at_ r else r.

(** [retag] under the annotations of [resolve]. *)
Definition retagged (source target : string) (at_ : Z) (x : Core.Resolved)
  : Core.Resolved :=
  {| Core.origin := Core.origin x; Core.inherited := Core.inherited x;
     Core.record := retag source target at_ (Core.record x) |}.

(** The record that [r] would be had it been created on [target]: a record
    merged into [target] with its branch rewritten and its merge tag
    removed. *)
Definition adopted (target : string) (r : Core.ContextRecord)
  : Core.ContextRecord :=
  if bool_decide (Core.mergedInto r = Some target)
  then {| Core.contextId := Core.contextId r;
          Core.projectId := Core.projectId r;
          Core.branch := target; Core.author := Core.author r;
          Core.parentBranch := Core.parentBranch r;
          Core.commitHash := Core.commitHash r;
          Core.sourceEventId := Core.sourceEventId r;
          Core.pushedAt := Core.pushedAt r; Core.derived := Core.derived r;
          Core.agentReasoning := Core.agentReasoning r;
          Core.embedding := Core.embedding r; Core.status := Core.status r;
          Core.extractedAt := Core.extractedAt r;
          Core.loggedAt := Core.loggedAt r;
          Core.mergedInto := None; Core.mergedAt := None |}
  else r.

(** The records that [resolve] lists as native. *)
Definition natives (l : list Core.Resolved) : list Core.ContextRecord :=
  Core.record <$> filter (fun x => Core.inherited x = false) l.

(** ** The ingestion Lambda on arbitrary JSON

    The Lambda does not check the types of what [JSON.parse] returns: a
    field that the extension sends as a string may arrive as any JSON
    value, and the code then runs on it with JavaScript's conversions.
    This model of [index.js] reads a body as the value it parses to. *)

Module Raw.

(** Truthiness of a header or of a stored hash, which are strings. *)
Definition string_truthy (o : option string) : bool := truthy o.

(** A number as [JSON.parse] yields it: a finite double, taken as the
    rational it denotes, or an infinity (the literal [1e999]). *)
Inductive Num : Type :=
| Fin (q : Q)
| Inf (negative : bool).

#[warnings="-register-all"] Inductive Json : Type :=
| JNull
| JBool (b : bool)
| JNum (n : Num)
| JStr (s : string)
| JArr (l : list Json)
| JObj (fields : list (string * Json)).

(** The two conversions between numbers and strings, [Number::toString]
    and [StringToNumber] ([None] is [NaN]), which the model leaves open. *)
Class Numbers := {
  number_to_string : Num -> string;
  string_to_number : string -> option Num
}.

(** The own property [key] of an object from [JSON.parse]. An object is
    given by its properties, each key once; of a key that is listed twice
    the first entry counts. *)
Fixpoint lookup_field (key : string) (fields : list (string * Json))
  : option Json :=
  match fields with
  | [] => None
  | (k, v) :: fields' =>
      if String.eqb k key then Some v else lookup_field key fields'
  end.

(** [v.key] for a [v] other than [null], at a [key] that no prototype
    defines; [None] is [undefined]. *)
Definition field (key : string) (v : Json) : option Json :=
  match v with
  | JObj fields => lookup_field key fields
  | _ => None
  end.

(** Truthiness of a value or [undefined]. *)
Definition truthy (v : option Json) : bool :=
  match v with
  | None | Some JNull => false
  | Some (JBool b) => b
  | Some (JNum (Fin q)) => negb (Qeq_bool q 0)
  | Some (JNum (Inf _)) => true
  | Some (JStr s) => negb (String.eqb s "")
  | Some (JArr _) | Some (JObj _) => true
  end.

(** [v == null] *)
Definition nullish (v : option Json) : bool :=
  match v with
  | None | Some JNull => true
  | _ => false
  end.

(** [v ?? d] *)
Definition or_else (v : option Json) (d : Json) : Json :=
  match v with
  | None | Some JNull => d
  | Some x => x
  end.

(** [Array.isArray(v)] *)
Definition isArray (v : option Json) : bool :=
  match v with
  | Some (JArr _) => true
  | _ => false
  end.

Section Conversions.
Context `{Numbers}.

(** [ToString(v)], as [RegExp.prototype.test] and a template literal apply
    it. An array is joined with commas, [null] elements as empty strings;
    an object is [[object Object]], unless it has a property [toString] of
    its own, which is not callable and leaves no conversion. *)
Fixpoint to_string (v : Json) : outcome string :=
  match v with
  | JNull => Ret "null"
  | JBool true => Ret "true"
  | JBool false => Ret "false"
  | JNum n => Ret (number_to_string n)
  | JStr s => Ret s
  | JArr l =>
      (fix join (l : list Json) : outcome string :=
         match l with
         | [] => Ret ""
         | x :: l' =>
             s ← match x with JNull => Ret "" | _ => to_string x end;
             match l' with
             | [] => Ret s
             | _ :: _ => r ← join l'; Ret (s +:+ "," +:+ r)
             end
         end) l
  | JObj fields =>
      if bool_decide (is_Some (lookup_field "toString" fields))
      then Throw "TypeError"
      else Ret "[object Object]"
  end.

(** [ToString] of a value or [undefined]. *)
Definition to_string_opt (v : option Json) : outcome string :=
  match v with
  | None => Ret "undefined"
  | Some x => to_string x
  end.

(** [ToNumber(v)] of a value or [undefined]; [None] is [NaN]. *)
Definition to_number (v : option Json) : outcome (option Num) :=
  match v with
  | None => Ret None
  | Some JNull => Ret (Some (Fin 0))
  | Some (JBool b) => Ret (Some (Fin (if b then 1 else 0)))
  | Some (JNum n) => Ret (Some n)
  | Some (JStr s) => Ret (string_to_number s)
  | Some x => s ← to_string x; Ret (string_to_number s)
  end.

(** [v > n] *)
Definition greater_than (v : option Json) (n : Z) : outcome bool :=
  x ← to_number v;
  Ret match x with
      | Some (Fin q) => negb (Qle_bool q (inject_Z n))
      | Some (Inf negative) => negb negative
      | None => false
      end.
End Conversions.

(** *** Validation *)

Section Validation.
Context `{Numbers}.

(** [if (!v) errors.push(required);
     else if (!pattern.test(v)) errors.push(invalid)] *)
Definition check (v : option Json) (required : string)
    (pattern : string -> bool) (invalid : string) : outcome (list string) :=
  if negb (truthy v) then Ret [required]
  else s ← to_string_opt v; Ret (when (negb (pattern s)) invalid).

(** [v.length], for a truthy [v] *)
Definition length_of (v : option Json) : option Json :=
  match v with
  | Some (JStr s) => Some (JNum (Fin (inject_Z (js_length s))))
  | Some (JArr l) => Some (JNum (Fin (inject_Z (Z.of_nat (length l)))))
  | Some (JObj fields) => lookup_field "length" fields
  | _ => None
  end.

(** [v.includes('..')], for a truthy [v]: the method of strings, the
    method of arrays, and no method on anything else. *)
Definition includes_dots (v : option Json) : outcome bool :=
  match v with
  | Some (JStr s) => Ret (includes ".." s)
  | Some (JArr l) =>
      Ret (existsb (fun x => match x with
                             | JStr s => String.eqb s ".."
                             | _ => false
                             end) l)
  | _ => Throw "TypeError"
  end.

(** [Number.isInteger(v)] *)
Definition isInteger (v : option Json) : bool :=
  match v with
  | Some (JNum (Fin q)) => (Qnum q mod Zpos (Qden q) =? 0)%Z
  | _ => false
  end.

(** [v < 0], for a number [v] *)
Definition negative (v : option Json) : bool :=
  match v with
  | Some (JNum (Fin q)) => negb (Qle_bool 0 q)
  | Some (JNum (Inf negative)) => negative
  | _ => false
  end.

(** [v === s] *)
Definition is_string (s : string) (v : option Json) : bool :=
  match v with
  | Some (JStr s') => String.eqb s' s
  | _ => false
  end.

(** The checks of [validateProjectInput] on the team members. *)
Fixpoint member_errors (i : nat) (ms : list Json) : outcome (list string) :=
  match ms with
  | [] => Ret []
  | JNull :: _ => Throw "TypeError"
  | m :: ms' =>
      rest ← member_errors (S i) ms';
      Ret (when (negb (truthy (field "name" m)))
             ("teamMembers[" +:+ pretty i +:+ "].name: required")
           ++ when (negb (truthy (field "role" m)))
                ("teamMembers[" +:+ pretty i +:+ "].role: required")
           ++ rest)
  end.

Definition validateProjectInput (input : Json) : outcome (list string) :=
  match input with
  | JNull => Throw "TypeError"
  | _ =>
      name ← check (field "name" input) "name: required"
                NAME_REGEX "name: alphanumeric, hyphens, underscores only";
      members ←
        (let teamMembers := field "teamMembers" input in
         if truthy teamMembers && negb (isArray teamMembers)
         then Ret ["teamMembers: must be an array"]
         else match teamMembers with
              | Some (JArr ms) => member_errors 0 ms
              | _ => Ret []
              end);
      Ret (name
           ++ when (negb (truthy (field "description" input)))
                "description: required"
           ++ when (match field "languages" input with
                    | Some (JArr (_ :: _)) => false
                    | _ => true
                    end)
                "languages: required, must be a non-empty array"
           ++ when (negb (truthy (field "defaultBranch" input)))
                "defaultBranch: required"
           ++ when (truthy (field "frameworks" input)
                    && negb (isArray (field "frameworks" input)))
                "frameworks: must be an array"
           ++ members)
  end.

(** The checks of [validateEvent] on the branch. *)
Definition branch_errors (branch : option Json) : outcome (list string) :=
  if negb (truthy branch) then Ret ["branch: required"]
  else
    long ← greater_than (length_of branch) 255;
    Ret (when long "branch: max 255 characters").

Definition push_errors (p : Json) : outcome (list string) :=
  hash ← check (field "commitHash" p) "commitHash: required for push events"
            COMMIT_HASH "commitHash: must be exactly 40 hex characters";
  Ret (hash
       ++ when (nullish (field "message" p))
            "message: required for push events"
       ++ when (negb (truthy (field "author" p)))
            "author: required for push events"
       ++ when (truthy (field "changedFiles" p)
                && negb (isArray (field "changedFiles" p)))
            "changedFiles: must be an array"
       ++ when (match field "diff" p with
                | Some (JStr d) => (js_length d >? 50000)%Z
                | _ => false
                end)
            "diff: max 50000 characters").

Definition note_errors (p : Json) : outcome (list string) :=
  path ←
    (let filePath := field "filePath" p in
     if negb (truthy filePath)
     then Ret ["filePath: required for developer_note events"]
     else
       dots ← includes_dots filePath;
       Ret (when dots "filePath: directory traversal (..) not allowed"));
  Ret (when (negb (truthy (field "text" p)))
         "text: required for developer_note events"
       ++ path
       ++ (let lineNumber := field "lineNumber" p in
           if nullish lineNumber
           then ["lineNumber: required for developer_note events"]
           else when (negb (isInteger lineNumber) || negative lineNumber)
                  "lineNumber: must be a non-negative integer")).

Definition validateEvent (ev : Json) : outcome (list string) :=
  match ev with
  | JNull => Throw "TypeError"
  | _ =>
      id ← check (field "eventId" ev) "eventId: required"
              UUID_V4 "eventId: must be a valid UUID v4";
      time ← check (field "timestamp" ev) "timestamp: required"
                ISO_8601 "timestamp: must be valid ISO 8601 UTC";
      branch ← branch_errors (field "branch" ev);
      let errors :=
        id
        ++ when (negb (truthy (field "projectId" ev))) "projectId: required"
        ++ when (negb (is_string "push" (field "eventType" ev)
                       || is_string "developer_note" (field "eventType" ev)))
             "eventType: must be push or developer_note"
        ++ time ++ branch in
      match field "payload" ev with
      | Some p =>
          if negb (truthy (Some p)) then Ret (errors ++ ["payload: required"])
          else
            push ← (if is_string "push" (field "eventType" ev)
                    then push_errors p else Ret []);
            note ← (if is_string "developer_note" (field "eventType" ev)
                    then note_errors p else Ret []);
            Ret (errors ++ push ++ note)
      | None => Ret (errors ++ ["payload: required"])
      end
  end.
End Validation.

(** *** The stores

    The items as the Lambda builds them: an attribute taken from the body
    is the value found there, and [None] when it is [undefined], which the
    document client leaves out. A call to AWS that throws is a fault of
    [Faults], whatever the reason, a value that the document client cannot
    marshal among them; only the rejection of an item or a key that does
    not fit the key schema of its table is decided by the model itself.
    [console] holds what [console.error] writes, each line by its first
    argument; the request line that the handler writes with [console.log]
    is not recorded. *)

Record Project := {
  p_projectId : string;
  p_name : option Json;
  p_description : option Json;
  p_languages : option Json;
  p_frameworks : Json;
  p_defaultBranch : option Json;
  p_teamMembers : Json;
  apiTokenHash : option string;
  createdAt : string;
  lastActivityAt : string;
  eventCount : Z
}.

Record EventRecord := {
  r_projectId : option Json;
  timestampEventId : string;
  branchTimestamp : string;
  r_eventId : option Json;
  r_eventType : option Json;
  r_branch : option Json;
  r_parentBranch : Json;
  r_payload : Json;
  receivedAt : string;
  processingStatus : string
}.

Inductive Changes : Type :=
| ProjectChanges (name defaultBranch : option Json)
| EventChanges (eventType branch : option Json) (commitHash : Json).

Record AuditItem := {
  entityId : string;
  a_timestamp : string;
  entityType : string;
  action : string;
  actor : Json;
  changes : Changes;
  reason : option string
}.

(** The payload handed to the AI Processing Lambda. *)
Record Invocation := {
  i_eventId : option Json;
  i_projectId : option Json;
  i_eventType : option Json;
  i_branch : option Json;
  i_parentBranch : Json;
  i_payload : Json;
  i_timestamp : option Json
}.

Record World := {
  projectsTable : gmap string Project;
  eventsTable : gmap (string * string) EventRecord;
  auditTable : gmap (string * string) AuditItem;
  rawEventsBucket : gmap string Json;
  aiQueue : list Invocation;
  console : list string
}.

Definition set_projects (f : gmap string Project -> gmap string Project)
    (w : World) : World :=
  {| projectsTable := f (projectsTable w); eventsTable := eventsTable w;
     auditTable := auditTable w; rawEventsBucket := rawEventsBucket w;
     aiQueue := aiQueue w; console := console w |}.

Definition set_events
    (f : gmap (string * string) EventRecord -> gmap (string * string) EventRecord)
    (w : World) : World :=
  {| projectsTable := projectsTable w; eventsTable := f (eventsTable w);
     auditTable := auditTable w; rawEventsBucket := rawEventsBucket w;
     aiQueue := aiQueue w; console := console w |}.

Definition set_audit
    (f : gmap (string * string) AuditItem -> gmap (string * string) AuditItem)
    (w : World) : World :=
  {| projectsTable := projectsTable w; eventsTable := eventsTable w;
     auditTable := f (auditTable w); rawEventsBucket := rawEventsBucket w;
     aiQueue := aiQueue w; console := console w |}.

Definition set_bucket (f : gmap string Json -> gmap string Json)
    (w : World) : World :=
  {| projectsTable := projectsTable w; eventsTable := eventsTable w;
     auditTable := auditTable w; rawEventsBucket := f (rawEventsBucket w);
     aiQueue := aiQueue w; console := console w |}.

Definition set_queue (f : list Invocation -> list Invocation)
    (w : World) : World :=
  {| projectsTable := projectsTable w; eventsTable := eventsTable w;
     auditTable := auditTable w; rawEventsBucket := rawEventsBucket w;
     aiQueue := f (aiQueue w); console := console w |}.

(** [console.error(msg)] *)
Definition log (msg : string) (w : World) : World :=
  {| projectsTable := projectsTable w; eventsTable := eventsTable w;
     auditTable := auditTable w; rawEventsBucket := rawEventsBucket w;
     aiQueue := aiQueue w; console := console w ++ [msg] |}.

(** [try { await call } catch (err) { console.error(msg) }] *)
Definition non_fatal (fails : bool) (call : World -> World) (msg : string)
    (w : World) : World :=
  if fails then log msg w else call w.

(** *** Responses *)

Record ProjectView := {
  v_projectId : string;
  v_name : option Json;
  v_description : option Json;
  v_languages : option Json;
  v_frameworks : Json;
  v_defaultBranch : option Json;
  v_teamMembers : Json;
  v_lastActivityAt : string;
  v_eventCount : Z
}.

Inductive Body : Type :=
| Error (error : string) (message : option string) (details : list string)
| Ok
| Created (projectId apiToken : string)
| Processing (eventId projectId branch : option Json)
    (status receivedAt : string)
| Info (p : ProjectView).

Record Response := { statusCode : Z; body : Body }.

Definition respond (statusCode : Z) (body : Body) : Response :=
  {| statusCode := statusCode; body := body |}.

(** *** Authentication *)

Inductive AuthResult : Type :=
| AuthError (statusCode : Z) (error : Body)
| AuthProject (project : Project).

(** [GetCommand] on the projects table, whose partition key is a string
    ([infra-stack.ts]): DynamoDB rejects every key that is not a non-empty
    string. *)
Definition getProjectItem (faults : Faults) (w : World)
    (projectId : option Json) : outcome (option Project) :=
  if getProjectFails faults then Throw "GetCommand failed"
  else match projectId with
       | Some (JStr (String c s)) => Ret (projectsTable w !! String c s)
       | _ => Throw "ValidationException"
       end.

(** The body of a request: text that [JSON.parse] rejects, no body, or
    the value that the text parses to. *)
Inductive ReqBody : Type :=
| Unparsable
| Absent
| Parsed (v : Json).

(** [typeof body === 'string' ? JSON.parse(body) : body] *)
Definition parse (body : ReqBody) : outcome Json :=
  match body with
  | Unparsable => Throw "SyntaxError"
  | Absent => Ret JNull
  | Parsed v => Ret v
  end.

(** [v.key], which throws on [null] *)
Definition prop (key : string) (v : Json) : outcome (option Json) :=
  match v with
  | JNull => Throw "TypeError"
  | _ => Ret (field key v)
  end.

Record Request := {
  httpMethod : option string;
  resource : option string;
  headers : option Headers;
  req_body : ReqBody;
  pathProjectId : option string
}.

Section Lambda.
Context `{Scrypt} `{Numbers}.

Definition authenticate (faults : Faults) (w : World)
    (headers : option Headers) (projectId : option Json)
  : outcome AuthResult :=
  match extractToken headers with
  | None =>
      Ret (AuthError 401
             (Error "invalid_token" (Some "Missing Authorization header") []))
  | Some token =>
      Item ← getProjectItem faults w projectId;
      match Item with
      | None => Ret (AuthError 401 (Error "invalid_token" None []))
      | Some Item =>
          if negb (string_truthy (apiTokenHash Item))
          then Ret (AuthError 401 (Error "invalid_token" None []))
          else
            ok ← verifyToken token (apiTokenHash Item);
            if negb ok
            then Ret (AuthError 401 (Error "invalid_token" None []))
            else Ret (AuthProject Item)
      end
  end.

(** The item that [ingestEvent] builds; its two template literals convert
    the timestamp, the event id and the branch to strings. [p] is the
    payload of the event. *)
Definition eventRecord (event p : Json) (receivedAt : string)
  : outcome EventRecord :=
  time ← to_string_opt (field "timestamp" event);
  id ← to_string_opt (field "eventId" event);
  branch ← to_string_opt (field "branch" event);
  Ret {| r_projectId := field "projectId" event;
         timestampEventId := time +:+ "#" +:+ id;
         branchTimestamp := branch +:+ "#" +:+ time;
         r_eventId := field "eventId" event;
         r_eventType := field "eventType" event;
         r_branch := field "branch" event;
         r_parentBranch := or_else (field "parentBranch" p) JNull;
         r_payload := p;
         receivedAt := receivedAt;
         processingStatus := "pending" |}.

(** The payload of the asynchronous call to the AI Processing Lambda. *)
Definition invocation (event p : Json) : Invocation :=
  {| i_eventId := field "eventId" event;
     i_projectId := field "projectId" event;
     i_eventType := field "eventType" event;
     i_branch := field "branch" event;
     i_parentBranch := or_else (field "parentBranch" p) JNull;
     i_payload := p;
     i_timestamp := field "timestamp" event |}.

(** The item put into [flowsync-audit] for an event with the id [id]. *)
Definition auditEvent (event p : Json) (id receivedAt : string)
  : AuditItem :=
  {| entityId := id;
     a_timestamp := receivedAt;
     entityType := "event";
     action := "created";
     actor := or_else (field "author" p) (JStr "system");
     changes := EventChanges (field "eventType" event) (field "branch" event)
                  (or_else (field "commitHash" p) JNull);
     reason := None |}.

(** *** POST /api/v1/events

    [flowsync-events] has the string keys [projectId] and
    [timestampEventId], and the index [EventIdIndex] has the string key
    [eventId] ([infra-stack.ts]): DynamoDB rejects an item in which one of
    them is not a string. *)
Definition ingestEvent (faults : Faults) (now : string)
    (headers : option Headers) (body : ReqBody) (w : World)
  : outcome Response * World :=
  match parse body with
  | Throw _ =>
      (Ret (respond 400
              (Error "invalid_json" (Some "Body must be valid JSON") [])), w)
  | Ret event =>
      match projectId ← prop "projectId" event;
            authenticate faults w headers projectId with
      | Throw e => (Throw e, w)
      | Ret (AuthError code err) => (Ret (respond code err), w)
      | Ret (AuthProject _) =>
          match validateEvent event with
          | Throw e => (Throw e, w)
          | Ret errors =>
              if negb (bool_decide (errors = []))
              then (Ret (respond 400
                           (Error "validation_failed" None errors)), w)
              else
                if nullish (field "payload" event)
                then (Throw "TypeError", w)
                else
                  let p := or_else (field "payload" event) JNull in
                  match eventRecord event p now with
                    | Throw e => (Throw e, w)
                    | Ret record =>
                        (* critical write: everything else is non-fatal *)
                        match r_projectId record, r_eventId record with
                        | Some (JStr project), Some (JStr id) =>
                            if putEventFails faults
                            then (Throw "PutCommand failed", w)
                            else
                              let w :=
                                set_events
                                  <[(project, timestampEventId record)
                                    := record]> w in
                              let w :=
                                non_fatal (putObjectFails faults)
                                  (set_bucket
                                     <["raw-events/" +:+ project +:+ "/"
                                       +:+ id +:+ ".json" := event]>)
                                  "[non-fatal] S3 archive failed" w in
                              let w :=
                                non_fatal (invokeFails faults)
                                  (set_queue
                                     (fun q => q ++ [invocation event p]))
                                  "[non-fatal] AI invoke failed" w in
                              let w :=
                                non_fatal (putAuditFails faults)
                                  (set_audit
                                     <[(id, now)
                                       := auditEvent event p id now]>)
                                  "[non-fatal] Audit write failed" w in
                              (Ret (respond 200
                                      (Processing (field "eventId" event)
                                         (field "projectId" event)
                                         (field "branch" event)
                                         "processing" now)), w)
                        | _, _ => (Throw "ValidationException", w)
                        end
                  end
          end
      end
  end.

(** *** POST /api/v1/projects *)

Definition createProject (faults : Faults) (entropy : Entropy)
    (now : string) (body : ReqBody) (w : World)
  : outcome Response * World :=
  match input ← parse body; errors ← validateProjectInput input;
        Ret (input, errors) with
  | Throw e => (Throw e, w)
  | Ret (input, errors) =>
      if negb (bool_decide (errors = []))
      then (Ret (respond 400 (Error "validation_failed" None errors)), w)
      else
        let projectId := randomUUID entropy in
        let apiToken := to_hex (tokenBytes entropy) in
        let apiTokenHash := hashToken (saltBytes entropy) apiToken in
        let record :=
          {| p_projectId := projectId;
             p_name := field "name" input;
             p_description := field "description" input;
             p_languages := field "languages" input;
             p_frameworks := or_else (field "frameworks" input) (JArr []);
             p_defaultBranch := field "defaultBranch" input;
             p_teamMembers := or_else (field "teamMembers" input) (JArr []);
             apiTokenHash := Some apiTokenHash;
             createdAt := now;
             lastActivityAt := now;
             eventCount := 0 |} in
        (* critical write *)
        if putProjectFails faults then (Throw "PutCommand failed", w)
        else
          let w := set_projects <[projectId := record]> w in
          let w := non_fatal (putAuditFails faults)
            (set_audit
               <[(projectId, now) :=
                 {| entityId := projectId;
                    a_timestamp := now;
                    entityType := "project";
                    action := "created";
                    actor := JStr "system";
                    changes := ProjectChanges (field "name" input)
                                 (field "defaultBranch" input);
                    reason :=
                      Some "Project initialised via onboarding wizard" |}]>)
            "[non-fatal] Audit write failed" w in
          (Ret (respond 200 (Created projectId apiToken)), w)
  end.

(** *** GET /api/v1/projects/{projectId}

    The path parameter is a string or is missing. *)

Definition getProject (faults : Faults) (headers : option Headers)
    (pathProjectId : option string) (w : World)
  : outcome Response * World :=
  if negb (string_truthy pathProjectId)
  then (Ret (respond 400
               (Error "validation_failed" None ["projectId: required"])), w)
  else
    match authenticate faults w headers (JStr <$> pathProjectId) with
    | Throw e => (Throw e, w)
    | Ret (AuthError code err) => (Ret (respond code err), w)
    | Ret (AuthProject p) =>
        (Ret (respond 200
                (Info {| v_projectId := p_projectId p;
                         v_name := p_name p;
                         v_description := p_description p;
                         v_languages := p_languages p;
                         v_frameworks := p_frameworks p;
                         v_defaultBranch := p_defaultBranch p;
                         v_teamMembers := p_teamMembers p;
                         v_lastActivityAt := lastActivityAt p;
                         v_eventCount := eventCount p |})), w)
    end.

(** *** The handler: every exception becomes a 500 response. *)

Definition route (faults : Faults) (entropy : Entropy) (now : string)
    (event : Request) (w : World) : outcome Response * World :=
  let method := default "" (httpMethod event) in
  let resource := default "" (resource event) in
  if String.eqb method "OPTIONS" then (Ret (respond 200 Ok), w)
  else if String.eqb method "POST" && String.eqb resource "/api/v1/projects"
  then createProject faults entropy now (req_body event) w
  else if String.eqb method "POST" && String.eqb resource "/api/v1/events"
  then ingestEvent faults now (headers event) (req_body event) w
  else if String.eqb method "GET"
          && String.eqb resource "/api/v1/projects/{projectId}"
  then getProject faults (headers event) (pathProjectId event) w
  else (Ret (respond 404
               (Error "not_found"
                  (Some ("No route for " +:+ method +:+ " " +:+ resource))
                  [])), w).

Definition handler (faults : Faults) (entropy : Entropy) (now : string)
    (event : Request) (w : World) : Response * World :=
  match route faults entropy now event w with
  | (Ret r, w') => (r, w')
  | (Throw _, w') =>
      (respond 500
         (Error "internal_error" (Some "An unexpected error occurred") []),
       log "Unhandled error" w')
  end.
End Lambda.

(** *** Specification predicates *)

(** A truthy value whose string form [ok] accepts. *)
Definition reads_as `{Numbers} (ok : string -> bool)
    (v : option Json) : Prop :=
  truthy v = true
  /\ exists s, to_string_opt v = Ret s /\ ok s = true.

(** A rational that is an integer and not negative. *)
Definition natural (q : Q) : Prop :=
  (Qnum q mod Zpos (Qden q) = 0)%Z /\ (0 <= Qnum q)%Z.

(** What [validateEvent] asks of the payload of a push. *)
Definition push_ok `{Numbers} (p : Json) : Prop :=
  reads_as COMMIT_HASH (field "commitHash" p)
  /\ nullish (field "message" p) = false
  /\ truthy (field "author" p) = true
  /\ (truthy (field "changedFiles" p) = false
      \/ exists l, field "changedFiles" p = Some (JArr l))
  /\ (forall d, field "diff" p = Some (JStr d) ->
        (js_length d <= 50000)%Z).

(** What [validateEvent] asks of the payload of a developer note. *)
Definition note_ok (p : Json) : Prop :=
  truthy (field "text" p) = true
  /\ ((exists s, field "filePath" p = Some (JStr s)
         /\ s <> "" /\ includes ".." s = false)
      \/ (exists l, field "filePath" p = Some (JArr l)
            /\ JStr ".." ∉ l))
  /\ exists q, field "lineNumber" p = Some (JNum (Fin q))
       /\ natural q.

(** What [validateEvent] asks of an event. *)
Definition event_ok `{Numbers} (ev : Json) : Prop :=
  ev <> JNull
  /\ reads_as UUID_V4 (field "eventId" ev)
  /\ truthy (field "projectId" ev) = true
  /\ reads_as ISO_8601 (field "timestamp" ev)
  /\ truthy (field "branch" ev) = true
  /\ greater_than (length_of (field "branch" ev)) 255 = Ret false
  /\ exists p,
       field "payload" ev = Some p /\ truthy (Some p) = true
       /\ ((field "eventType" ev = Some (JStr "push") /\ push_ok p)
           \/ (field "eventType" ev = Some (JStr "developer_note")
               /\ note_ok p)).

(** A POST to the events route with the body [body]. *)
Definition post_event (headers : option Headers) (body : ReqBody)
  : Request :=
  {| httpMethod := Some "POST"; resource := Some "/api/v1/events";
     headers := headers; req_body := body;
     pathProjectId := None |}.

(** Two worlds with the same tables, bucket and queue. *)
Definition same_stores (w w' : World) : Prop :=
  projectsTable w' = projectsTable w
  /\ eventsTable w' = eventsTable w
  /\ auditTable w' = auditTable w
  /\ rawEventsBucket w' = rawEventsBucket w
  /\ aiQueue w' = aiQueue w.

(** What the events route does before it validates: it reads the project
    id of the event and authenticates against it. *)
Definition auth `{Scrypt} (faults : Faults) (w : World)
    (headers : option Headers) (event : Json)
  : outcome AuthResult :=
  projectId ← prop "projectId" event;
  authenticate faults w headers projectId.

(** An event that DynamoDB takes: the event id is a string, and so are
    the forms of the timestamp and the branch that make up its keys. *)
Definition storable `{Numbers} (ev : Json) (id time branch : string)
  : Prop :=
  field "eventId" ev = Some (JStr id)
  /\ to_string_opt (field "timestamp" ev) = Ret time
  /\ to_string_opt (field "branch" ev) = Ret branch.

(** The errors name every one of [eventId], [timestamp], [branch] and
    [commitHash] that is not as [validateEvent] asks, and a payload that is
    missing. *)
Definition lists_failures `{Numbers} (ev : Json)
    (errors : list string) : Prop :=
  (~ reads_as UUID_V4 (field "eventId" ev) ->
     "eventId: required" ∈ errors
     \/ "eventId: must be a valid UUID v4" ∈ errors)
  /\ (~ reads_as ISO_8601 (field "timestamp" ev) ->
        "timestamp: required" ∈ errors
        \/ "timestamp: must be valid ISO 8601 UTC" ∈ errors)
  /\ (truthy (field "branch" ev) = false ->
        "branch: required" ∈ errors)
  /\ (truthy (field "branch" ev) = true ->
        greater_than (length_of (field "branch" ev)) 255
        = Ret true ->
        "branch: max 255 characters" ∈ errors)
  /\ (truthy (field "payload" ev) = false ->
        "payload: required" ∈ errors)
  /\ (forall p,
        field "payload" ev = Some p -> truthy (Some p) = true ->
        field "eventType" ev = Some (JStr "push") ->
        ~ reads_as COMMIT_HASH (field "commitHash" p) ->
        "commitHash: required for push events" ∈ errors
        \/ "commitHash: must be exactly 40 hex characters" ∈ errors).

(** How the events route authenticates the request for the event [ev]:
    which requests are turned away with [401] and which make the lookup
    throw. *)
Definition authenticates `{Scrypt} (faults : Faults) (w : World)
    (headers : option Headers) (ev : Json) : Prop :=
  let auth := auth faults w headers ev in
  let invalid_token := AuthError 401 (Error "invalid_token" None []) in
  (ev = JNull -> auth = Throw "TypeError")
  /\ (ev <> JNull -> extractToken headers = None ->
        auth = Ret (AuthError 401
                      (Error "invalid_token"
                         (Some "Missing Authorization header") [])))
  /\ (forall token,
        ev <> JNull -> extractToken headers = Some token ->
        (getProjectFails faults = true -> auth = Throw "GetCommand failed")
        /\ (getProjectFails faults = false ->
            (forall pid, field "projectId" ev = Some (JStr pid) ->
                         pid = "") ->
            auth = Throw "ValidationException")
        /\ (forall pid,
              getProjectFails faults = false ->
              field "projectId" ev = Some (JStr pid) -> pid <> "" ->
              (projectsTable w !! pid = None -> auth = Ret invalid_token)
              /\ (forall project,
                    projectsTable w !! pid = Some project ->
                    (string_truthy (apiTokenHash project) = false ->
                       auth = Ret invalid_token)
                    /\ (string_truthy (apiTokenHash project) = true ->
                        (verifyToken token (apiTokenHash project)
                         = Ret false -> auth = Ret invalid_token)
                        /\ (verifyToken token (apiTokenHash project)
                            = Ret true ->
                            auth = Ret (AuthProject project))
                        /\ (forall e,
                              verifyToken token (apiTokenHash project)
                              = Throw e -> auth = Throw e))))).


(** What [validateProjectInput] asks of a team member. *)
Definition member_ok (m : Json) : Prop :=
  m <> JNull /\ truthy (field "name" m) = true
  /\ truthy (field "role" m) = true.

(** What [validateProjectInput] asks of an input. *)
Definition input_ok `{Numbers} (input : Json) : Prop :=
  input <> JNull
  /\ reads_as NAME_REGEX (field "name" input)
  /\ truthy (field "description" input) = true
  /\ (exists x l, field "languages" input = Some (JArr (x :: l)))
  /\ truthy (field "defaultBranch" input) = true
  /\ (truthy (field "frameworks" input) = false
      \/ exists l, field "frameworks" input = Some (JArr l))
  /\ (truthy (field "teamMembers" input) = false
      \/ exists ms, field "teamMembers" input = Some (JArr ms)
           /\ Forall member_ok ms).

(** The item [createProject] puts into [flowsync-projects]. *)
Definition newProject `{Scrypt} (entropy : Entropy) (now : string)
    (input : Json) : Project :=
  {| p_projectId := randomUUID entropy;
     p_name := field "name" input;
     p_description := field "description" input;
     p_languages := field "languages" input;
     p_frameworks := or_else (field "frameworks" input) (JArr []);
     p_defaultBranch := field "defaultBranch" input;
     p_teamMembers := or_else (field "teamMembers" input) (JArr []);
     apiTokenHash :=
       Some (hashToken (saltBytes entropy) (to_hex (tokenBytes entropy)));
     createdAt := now;
     lastActivityAt := now;
     eventCount := 0 |}.

(** The audit row of a new project. *)
Definition auditProject (entropy : Entropy) (now : string) (input : Json)
  : AuditItem :=
  {| entityId := randomUUID entropy;
     a_timestamp := now;
     entityType := "project";
     action := "created";
     actor := JStr "system";
     changes := ProjectChanges (field "name" input)
                  (field "defaultBranch" input);
     reason := Some "Project initialised via onboarding wizard" |}.

(** A POST to the projects route with the body [body]. *)
Definition post_project (body : ReqBody) : Request :=
  {| httpMethod := Some "POST"; resource := Some "/api/v1/projects";
     headers := None; req_body := body; pathProjectId := None |}.

(** One invocation of the handler: the request, which calls to AWS fail,
    and what the random source and the clock give. *)
Record Call := {
  c_faults : Faults;
  c_entropy : Entropy;
  c_now : string;
  c_request : Request
}.

Definition run_all `{Scrypt} `{Numbers} (calls : list Call) (w : World)
  : World :=
  foldl (fun w c =>
           (handler (c_faults c) (c_entropy c) (c_now c) (c_request c) w).2)
        w calls.

(** An array, or a value that is falsy and not [null]: what the check of
    an optional array lets through, with [[]] in the place of [null]. *)
Definition array_or_falsy (v : Json) : Prop :=
  v <> JNull /\ (truthy (Some v) = true -> exists l, v = JArr l).

(** An item of [flowsync-projects] as [createProject] writes it. *)
Definition project_ok `{Scrypt} `{Numbers} (k : string) (p : Project)
  : Prop :=
  p_projectId p = k
  /\ reads_as NAME_REGEX (p_name p)
  /\ truthy (p_description p) = true
  /\ (exists x l, p_languages p = Some (JArr (x :: l)))
  /\ truthy (p_defaultBranch p) = true
  /\ array_or_falsy (p_frameworks p)
  /\ array_or_falsy (p_teamMembers p)
  /\ (forall ms, p_teamMembers p = JArr ms -> Forall member_ok ms)
  /\ (exists salt token, apiTokenHash p = Some (hashToken salt token))
  /\ lastActivityAt p = createdAt p
  /\ eventCount p = 0%Z.

(** An item of [flowsync-events] as [ingestEvent] writes it, in a world
    whose projects table knows its project. *)
Definition record_ok `{Numbers} (w : World) (k : string * string)
    (r : EventRecord) : Prop :=
  exists pid id time branch,
    k = (pid, timestampEventId r)
    /\ r_projectId r = Some (JStr pid)
    /\ r_eventId r = Some (JStr id) /\ UUID_V4 id = true
    /\ ISO_8601 time = true
    /\ timestampEventId r = time +:+ "#" +:+ id
    /\ truthy (r_branch r) = true
    /\ to_string_opt (r_branch r) = Ret branch
    /\ greater_than (length_of (r_branch r)) 255 = Ret false
    /\ branchTimestamp r = branch +:+ "#" +:+ time
    /\ truthy (Some (r_payload r)) = true
    /\ ((r_eventType r = Some (JStr "push") /\ push_ok (r_payload r))
        \/ (r_eventType r = Some (JStr "developer_note")
            /\ note_ok (r_payload r)))
    /\ r_parentBranch r = or_else (field "parentBranch" (r_payload r)) JNull
    /\ processingStatus r = "pending"
    /\ is_Some (projectsTable w !! pid).

Definition tables_ok `{Scrypt} `{Numbers} (w : World) : Prop :=
  map_Forall project_ok (projectsTable w)
  /\ map_Forall (record_ok w) (eventsTable w).
End Raw.

(** ** Typed bodies as JSON

    The body that the extension sends, read above at the types of its
    interfaces, as the JSON value it is: a missing field is [null], an
    array field that holds something else is a boolean of its
    truthiness, and a number that is not an integer is one half. *)

Definition json_of_string (o : option string) : Raw.Json :=
  match o with
  | Some s => Raw.JStr s
  | None => Raw.JNull
  end.

Definition json_of_array {A} (f : A -> Raw.Json) (x : field A) : Raw.Json :=
  match x with
  | Missing => Raw.JNull
  | Arr l => Raw.JArr (f <$> l)
  | NotArray t => Raw.JBool t
  end.

Definition json_of_number (n : option number) : Raw.Json :=
  match n with
  | Some (Int z) => Raw.JNum (Raw.Fin (inject_Z z))
  | Some NonInt => Raw.JNum (Raw.Fin (1 # 2))
  | None => Raw.JNull
  end.

Definition json_of_payload (p : Payload) : Raw.Json :=
  Raw.JObj
    [("commitHash", json_of_string (commitHash p));
     ("message", json_of_string (message p));
     ("author", json_of_string (author p));
     ("diff", json_of_string (diff p));
     ("changedFiles", json_of_array Raw.JStr (changedFiles p));
     ("parentBranch", json_of_string (parentBranch p));
     ("text", json_of_string (text p));
     ("filePath", json_of_string (filePath p));
     ("lineNumber", json_of_number (lineNumber p))].

Definition json_of_event (ev : Event) : Raw.Json :=
  Raw.JObj
    [("eventId", json_of_string (eventId ev));
     ("projectId", json_of_string (projectId ev));
     ("eventType", json_of_string (eventType ev));
     ("timestamp", json_of_string (timestamp ev));
     ("branch", json_of_string (branch ev));
     ("payload", match payload ev with
                 | Some p => json_of_payload p
                 | None => Raw.JNull
                 end)].

Definition json_of_member (m : TeamMember) : Raw.Json :=
  Raw.JObj
    [("name", json_of_string (member_name m));
     ("role", json_of_string (role m))].

Definition json_of_input (input : ProjectInput) : Raw.Json :=
  Raw.JObj
    [("name", json_of_string (name input));
     ("description", json_of_string (description input));
     ("languages", json_of_array Raw.JStr (languages input));
     ("frameworks", json_of_array Raw.JStr (frameworks input));
     ("defaultBranch", json_of_string (defaultBranch input));
     ("teamMembers", json_of_array json_of_member (teamMembers input))].

(** * Sample inputs *)

(** A stand-in key derivation function with the output length of
    [scryptSync(_, _, 64)]: the bytes of the plaintext and of the salt,
    padded with zeros and cut to 64 bytes. *)
Definition sample_kdf (p s : string) : list Byte.byte :=
  take 64 ((byte_of_ascii <$> chars (p +:+ s)) ++ replicate 64 Byte.x00).

Definition sample_scrypt : Scrypt.
Proof.
  refine {| scryptSync := sample_kdf |}.
  abstract (intros p s; unfold sample_kdf;
            rewrite length_take, length_app, length_replicate; lia).
Defined.

Definition sample_salt : list Byte.byte := replicate 16 Byte.x2a.

Definition sample_token : string := "c0ffee".

Definition sample_project : Project :=
  {| p_projectId := "p1"; p_name := "flowsync"; p_description := "demo";
     p_languages := ["ts"]; p_frameworks := Arr [];
     p_defaultBranch := "main"; p_teamMembers := Arr [];
     apiTokenHash := Some (@hashToken sample_scrypt sample_salt sample_token);
     createdAt := "2026-02-28T09:00:00.000Z";
     lastActivityAt := "2026-02-28T09:00:00.000Z";
     eventCount := 0 |}.

Definition sample_world : World :=
  {| projectsTable := {["p1" := sample_project]};
     eventsTable := ∅; auditTable := ∅; rawEventsBucket := ∅;
     aiQueue := []; console := [] |}.

Definition sample_headers : option Headers :=
  Some {| Authorization := Some "Bearer c0ffee"; authorization := None |}.

Definition sample_payload (hash : string) : Payload :=
  {| commitHash := Some hash; message := Some "Add login";
     author := Some "Alice"; diff := Some "diff --git a/x b/x";
     changedFiles := Missing; parentBranch := Some "main";
     text := None; filePath := None; lineNumber := None |}.

Definition sample_event (hash : string) : Event :=
  {| eventId := Some "550e8400-e29b-41d4-a716-446655440000";
     projectId := Some "p1";
     eventType := Some "push";
     timestamp := Some "2026-02-28T10:00:00.000Z";
     branch := Some "feature/auth";
     payload := Some (sample_payload hash) |}.

Definition sample_hash : string := "0123456789abcdef0123456789abcdef01234567".

(** The sample event sent again four seconds later, under the same event
    id. *)
Definition sample_resent : Event :=
  {| eventId := Some "550e8400-e29b-41d4-a716-446655440000";
     projectId := Some "p1";
     eventType := Some "push";
     timestamp := Some "2026-02-28T10:00:04.000Z";
     branch := Some "feature/auth";
     payload := Some (sample_payload sample_hash) |}.

Definition sample_now : string := "2026-02-28T10:00:01.000Z".

Definition s3_down : Faults :=
  {| getProjectFails := false; putProjectFails := false;
     putEventFails := false; putObjectFails := true;
     invokeFails := false; putAuditFails := false |}.

(** A run in which the archive, the invocation and the audit write all
    fail. *)
Definition side_effects_down : Faults :=
  {| getProjectFails := false; putProjectFails := false;
     putEventFails := false; putObjectFails := true;
     invokeFails := true; putAuditFails := true |}.

Definition sample_entropy : Entropy :=
  {| randomUUID := "7d444840-9dc0-41d1-b245-5ffdce74fad2";
     tokenBytes := replicate 32 Byte.xab;
     saltBytes := sample_salt |}.

(** Two deliveries of one push event, the second with the bucket down,
    and the creation of a project between them. *)
Definition sample_input : ProjectInput :=
  {| name := Some "flowsync"; description := Some "demo";
     languages := Arr ["TypeScript"]; frameworks := Missing;
     defaultBranch := Some "main"; teamMembers := Missing |}.

Definition sample_calls : list Call :=
  [ {| c_faults := no_faults; c_entropy := sample_entropy;
       c_now := sample_now;
       c_request := post_event sample_headers (sample_event sample_hash) |};
    {| c_faults := no_faults; c_entropy := sample_entropy;
       c_now := sample_now;
       c_request :=
         {| httpMethod := Some "POST"; resource := Some "/api/v1/projects";
            headers := None; req_body := ProjectBody sample_input;
            pathProjectId := None |} |};
    {| c_faults := s3_down; c_entropy := sample_entropy;
       c_now := "2026-02-28T10:00:07.000Z";
       c_request := post_event sample_headers (sample_event sample_hash) |} ].

Definition sample_note : Event :=
  {| eventId := Some "550e8400-e29b-41d4-a716-446655440001";
     projectId := Some "p1";
     eventType := Some "developer_note";
     timestamp := Some "2026-02-28T10:05:00.000Z";
     branch := Some "feature/auth";
     payload :=
       Some {| commitHash := None; message := None; author := Some "Alice";
               diff := None; changedFiles := Missing; parentBranch := None;
               text := Some "rate limit is per user";
               filePath := Some "src/auth/login.ts";
               lineNumber := Some (Int 42) |} |}.

Definition sample_git : Git :=
  {| getWorkspaceRoot := Some "/repo";
     execSync := fun cmd =>
       if String.eqb cmd "git diff HEAD~1 HEAD" then Ret "diff --git a/x b/x
"
       else if prefixb (chars "git log") (chars cmd)
       then Ret (sample_hash +:+ "|Add login|Alice|2026-02-28T10:00:00+00:00")
       else if String.eqb cmd "git config user.name" then Ret "Alice"
       else Throw "fatal" |}.

(** A workspace whose last commit changed 60,000 characters. *)
Definition long_diff : string := str (replicate (Z.to_nat 60000) "a"%char).

Definition long_git : Git :=
  {| getWorkspaceRoot := Some "/repo";
     execSync := fun cmd =>
       if String.eqb cmd "git diff HEAD~1 HEAD" then Ret long_diff
       else Throw "fatal" |}.

(** The post that the extension makes for the push of [sample_git] on
    [feature/auth], for a project id and a token. *)
Definition sample_post (pid tok : string) : Post :=
  {| post_url := "https://api.flowsync.dev/api/v1/events";
     post_token := tok;
     post_body :=
       {| ce_eventId := "550e8400-e29b-41d4-a716-446655440000";
          ce_projectId := pid;
          ce_eventType := "push";
          ce_timestamp := "2026-02-28T10:00:00.000Z";
          ce_branch := "feature/auth";
          ce_payload :=
            {| pp_commitHash := sample_hash;
               pp_message := "Add login";
               pp_diff := "diff --git a/x b/x";
               pp_author := "Alice";
               pp_parentBranch := Some "main" |} |} |}.

(** A stand-in codec: the lengths of the project id and of the backend
    URL in unary, then the three fields. *)
Fixpoint ones (l : list ascii) : nat * list ascii :=
  match l with
  | c :: l' =>
      if Ascii.eqb c "1" then let '(n, rest) := ones l' in (S n, rest)
      else (0, l')
  | [] => (0, [])
  end.

Definition sample_stringify (c : FlowSyncConfig) : string :=
  str (replicate (String.length (cfg_projectId c)) "1"%char
       ++ "0"%char
       :: replicate (String.length (cfg_backendUrl c)) "1"%char
       ++ "0"%char
       :: chars (cfg_projectId c) ++ chars (cfg_backendUrl c)
       ++ chars (cfg_defaultBranch c)).

Definition sample_parse (raw : string) : ParsedConfig :=
  let l := chars raw in
  let '(n1, l1) := ones (take (length l - 1) l) in
  let '(n2, l2) := ones l1 in
  ConfigValue (Some (str (take n1 l2)))
    (Some (str (take n2 (drop n1 l2))))
    (Some (str (drop (n1 + n2) l2))).

Definition sample_files : ConfigFiles.
Proof.
  refine {| path_join := fun a b => a +:+ "/" +:+ b;
            stringify := sample_stringify;
            parseJson := sample_parse |}.
  abstract (
    assert (forall n rest,
              ones (replicate n "1"%char ++ "0"%char :: rest) = (n, rest))
      as Hones
      by (intros n rest; induction n as [|n IH]; simpl;
          [done|by rewrite IH]);
    assert (forall s1 s2, chars (s1 +:+ s2) = chars s1 ++ chars s2) as Happ
      by (intros s1 s2; induction s1 as [|c s1 IH]; simpl;
          [done|by rewrite IH]);
    assert (forall s, String.length s = length (chars s)) as Hlen
      by (intros s; induction s as [|c s IH]; simpl; [done|by rewrite IH]);
    assert (forall l, chars (str l) = l) as Hcs
      by apply list_ascii_of_string_of_list_ascii;
    assert (forall s, str (chars s) = s) as Hsc
      by apply string_of_list_ascii_of_string;
    intros [pid url branch]; unfold sample_parse, sample_stringify;
    rewrite Happ, Hcs; simpl chars;
    rewrite length_app; simpl length;
    rewrite Nat.add_sub, take_app_length, !Hones;
    rewrite !Hlen, take_app_length;
    rewrite drop_app_length, take_app_length;
    rewrite (app_assoc (chars pid)), <- length_app, drop_app_length;
    by rewrite !Hsc).
Defined.

(** The content of [prompts/prompt_template.md]. *)
Definition prompt_template : string :=
"# Bedrock Prompt Template

<!--
  Purpose: Template for constructing prompts sent to AWS Bedrock (gpt-oss-120b).
  Usage: Fill in event details and context before sending to the AI model.
  Traceability: Always include originating event ID and project ID.
-->

## Context
- Project: [Project Name]
- Event Type: [Commit/File Change/Developer Note]
- Event ID: [Unique Identifier]
- Timestamp: [YYYY-MM-DD HH:MM:SS]
- Author: [Name or ID]
- Project ID: [Project Identifier]

## Event Details
- Commit Message: [If applicable]
- Code Diff: [If applicable]
- Developer Note: [If applicable]

## Instructions
- Extract developer intent and purpose of changes.
- Identify changed functions, classes, modules.
- Detect relationships between modified files.
- Extract key concepts, decisions, and action items.
- Output must be deterministic for identical input.

## Source
- Originating Event ID: [Event ID]
- Source: [VS Code Extension/Event Ingestion Backend]

".

(** [prompt_template] as a text with placeholders. *)
Definition template_segs : list Seg :=
  [Txt (chars "# Bedrock Prompt Template

<!--
  Purpose: Template for constructing prompts sent to AWS Bedrock (gpt-oss-120b).
  Usage: Fill in event details and context before sending to the AI model.
  Traceability: Always include originating event ID and project ID.
-->

## Context
- Project: ");
   Hole (chars "[Project Name]");
   Txt (chars "
- Event Type: ");
   Hole (chars "[Commit/File Change/Developer Note]");
   Txt (chars "
- Event ID: ");
   Hole (chars "[Unique Identifier]");
   Txt (chars "
- Timestamp: ");
   Hole (chars "[YYYY-MM-DD HH:MM:SS]");
   Txt (chars "
- Author: ");
   Hole (chars "[Name or ID]");
   Txt (chars "
- Project ID: ");
   Hole (chars "[Project Identifier]");
   Txt (chars "

## Event Details
- Commit Message: ");
   Hole (chars "[If applicable]");
   Txt (chars "
- Code Diff: ");
   Hole (chars "[If applicable]");
   Txt (chars "
- Developer Note: ");
   Hole (chars "[If applicable]");
   Txt (chars "

## Instructions
- Extract developer intent and purpose of changes.
- Identify changed functions, classes, modules.
- Detect relationships between modified files.
- Extract key concepts, decisions, and action items.
- Output must be deterministic for identical input.

## Source
- Originating Event ID: ");
   Hole (chars "[Event ID]");
   Txt (chars "
- Source: ");
   Hole (chars "[VS Code Extension/Event Ingestion Backend]");
   Txt (chars "

")].

(** [prompt_template] with every placeholder replaced by its field. *)
Definition filledPrompt (event : PromptEvent) : string :=
  "# Bedrock Prompt Template

<!--
  Purpose: Template for constructing prompts sent to AWS Bedrock (gpt-oss-120b).
  Usage: Fill in event details and context before sending to the AI model.
  Traceability: Always include originating event ID and project ID.
-->

## Context
- Project: " +:+ or_empty (projectName event) +:+ "
- Event Type: " +:+ or_empty (pe_eventType event) +:+ "
- Event ID: " +:+ or_empty (pe_eventId event) +:+ "
- Timestamp: " +:+ or_empty (pe_timestamp event) +:+ "
- Author: " +:+ or_empty (pe_author event) +:+ "
- Project ID: " +:+ or_empty (pe_projectId event) +:+ "

## Event Details
- Commit Message: " +:+ or_empty (commitMessage event) +:+ "
- Code Diff: " +:+ or_empty (codeDiff event) +:+ "
- Developer Note: " +:+ or_empty (developerNote event) +:+ "

## Instructions
- Extract developer intent and purpose of changes.
- Identify changed functions, classes, modules.
- Detect relationships between modified files.
- Extract key concepts, decisions, and action items.
- Output must be deterministic for identical input.

## Source
- Originating Event ID: " +:+ or_empty (pe_eventId event) +:+ "
- Source: " +:+ or_empty (source event) +:+ "

".

(** The event of [test/testBedrock.js]. *)
Definition testEvent : PromptEvent :=
  {| projectName := Some "Flowsync";
     pe_eventType := Some "Commit";
     pe_eventId := Some "evt-123";
     pe_timestamp := Some "2026-02-28 10:00:00";
     pe_author := Some "devuser";
     pe_projectId := Some "proj-001";
     commitMessage := Some "Refactored backend logic";
     codeDiff := Some "diff --git ...";
     developerNote := Some "Improved performance";
     source := Some "VS Code Extension" |}.

(** A model that decodes greedily at temperature 0 and otherwise answers
    with the sample it drew. *)
Definition sampling_model : Bedrock nat string :=
  {| send := fun cmd seed =>
       if Qeq_bool (temperature (inference_config cmd)) 0
       then "greedy" else "sample " +:+ pretty seed;
     parse := fun _ => None |}.

(** Ports for the linking core: an extraction that always yields the same
    valid fields, embeddings without coordinates. *)
Definition sample_ports : Core.Ports :=
  {| Core.extract := fun _ _ =>
       {| Core.x_feature := Some "Auth"; Core.x_decision := None;
          Core.x_tasks := Some []; Core.x_stage := "FeatureDevelopment";
          Core.x_risk := None; Core.x_confidence := Some 0.9%Q;
          Core.x_entities := Some []; Core.x_modelVersion := Some "m1" |};
     Core.embed := fun _ => [];
     Core.summarize := Core.feature;
     Core.answer := fun _ _ => ("answer", true) |}.

Definition sample_push (id : string) (t : Z) : Core.PushEvent :=
  {| Core.e_eventId := id; Core.e_projectId := "p1";
     Core.e_branch := "feature/auth"; Core.e_parentBranch := Some "main";
     Core.e_author := "Alice"; Core.e_commitHash := sample_hash;
     Core.e_timestamp := t;
     Core.e_facts := {| Core.f_message := "Add login"; Core.f_diff := "+";
                        Core.f_changedFiles := [] |} |}.

Definition sample_submission (t : Z) : Core.Submission :=
  {| Core.s_projectId := "p1"; Core.s_branch := "feature/auth";
     Core.s_author := "Alice";
     Core.s_reasoning := {| Core.reasoning := "switched to JWT";
                            Core.ar_decision := None; Core.ar_tasks := [];
                            Core.ar_risk := None |};
     Core.s_timestamp := t |}.

Definition empty_store : Core.Store :=
  {| Core.records := []; Core.failed := [] |}.

Definition minutes (n : Z) : Z := n * 60 * 1000.

Definition sample_derived : Core.Derived :=
  {| Core.feature := "Auth"; Core.decision := None; Core.tasks := [];
     Core.stage := Core.FeatureDevelopment; Core.risk := None;
     Core.confidence := 0.9%Q; Core.entities := [];
     Core.modelVersion := "m1" |}.

(** The [i]-th push record of branch [feature/x], extracted at time [i]. *)
Definition feature_record (i : nat) : Core.ContextRecord :=
  {| Core.contextId := i; Core.projectId := "p1";
     Core.branch := "feature/x"; Core.author := "Alice";
     Core.parentBranch := Some "main";
     Core.commitHash := Some sample_hash;
     Core.sourceEventId := Some (pretty i);
     Core.pushedAt := Some (Z.of_nat i);
     Core.derived := Some sample_derived;
     Core.agentReasoning := None;
     Core.embedding := Some [];
     Core.status := Core.complete;
     Core.extractedAt := Some (Z.of_nat i);
     Core.loggedAt := None;
     Core.mergedInto := None; Core.mergedAt := None |}.

(** Reasoning logged on [feature/x] that no push ever bound. *)
Definition feature_orphan : Core.ContextRecord :=
  Core.new_uncommitted 11
    {| Core.s_projectId := "p1"; Core.s_branch := "feature/x";
       Core.s_author := "Alice";
       Core.s_reasoning := {| Core.reasoning := "try sessions first";
                              Core.ar_decision := None; Core.ar_tasks := [];
                              Core.ar_risk := None |};
       Core.s_timestamp := 50 |}.

(** Eleven push records and the orphan, all on [feature/x]. *)
Definition feature_store : list Core.ContextRecord :=
  (feature_record <$> seq 0 11) ++ [feature_orphan].

(** Ports that embed every text as the unit vector [(1, 0)]. *)
Definition plane_ports : Core.Ports :=
  {| Core.extract := Core.extract (Ports := sample_ports);
     Core.embed := fun _ => [1; 0]%R;
     Core.summarize := Core.feature;
     Core.answer := fun _ _ => ("answer", true) |}.

(** A complete record of branch [main] with embedding [v], confidence [c]
    and extraction time [t]. *)
Definition plane_record (i : nat) (v : list R) (c : Q) (t : Z)
  : Core.ContextRecord :=
  {| Core.contextId := i; Core.projectId := "p1";
     Core.branch := "main"; Core.author := "Alice";
     Core.parentBranch := None;
     Core.commitHash := Some sample_hash;
     Core.sourceEventId := Some (pretty i);
     Core.pushedAt := Some t;
     Core.derived :=
       Some {| Core.feature := "Auth"; Core.decision := None;
               Core.tasks := []; Core.stage := Core.FeatureDevelopment;
               Core.risk := None; Core.confidence := c;
               Core.entities := []; Core.modelVersion := "m1" |};
     Core.agentReasoning := None;
     Core.embedding := Some v;
     Core.status := Core.complete;
     Core.extractedAt := Some t;
     Core.loggedAt := None;
     Core.mergedInto := None; Core.mergedAt := None |}.

(** Three records: one orthogonal to the query, stored last in time, and
    two along it, of which the older has the higher confidence. *)
Definition plane_store : list Core.ContextRecord :=
  [plane_record 0 [0; 1]%R 0.9%Q 3;
   plane_record 1 [1; 0]%R 0.9%Q 2;
   plane_record 2 [2; 0]%R 0.95%Q 1].

(** ** Bodies that are not as the extension sends them *)

(** String forms of numbers for the samples: an integer in decimal, which
    is [Number::toString] on the integers the samples hold; [NaN] for
    every string. *)
Definition sample_numbers : Raw.Numbers :=
  {| Raw.number_to_string := fun n =>
       match n with
       | Raw.Fin q => pretty (Qnum q)
       | Raw.Inf false => "Infinity"
       | Raw.Inf true => "-Infinity"
       end;
     Raw.string_to_number := fun _ => None |}.

Definition raw_sample_world : Raw.World :=
  {| Raw.projectsTable :=
       {["p1" :=
           {| Raw.p_projectId := "p1";
              Raw.p_name := Some (Raw.JStr "flowsync");
              Raw.p_description := Some (Raw.JStr "demo");
              Raw.p_languages := Some (Raw.JArr [Raw.JStr "ts"]);
              Raw.p_frameworks := Raw.JArr [];
              Raw.p_defaultBranch := Some (Raw.JStr "main");
              Raw.p_teamMembers := Raw.JArr [];
              Raw.apiTokenHash :=
                Some (@hashToken sample_scrypt sample_salt sample_token);
              Raw.createdAt := "2026-02-28T09:00:00.000Z";
              Raw.lastActivityAt := "2026-02-28T09:00:00.000Z";
              Raw.eventCount := 0 |}]};
     Raw.eventsTable := ∅; Raw.auditTable := ∅; Raw.rawEventsBucket := ∅;
     Raw.aiQueue := []; Raw.console := [] |}.

(** A push whose timestamp and commit hash are one-element arrays, whose
    branch is the number 7 and whose diff is an array. *)
Definition untyped_push : Raw.Json :=
  Raw.JObj
    [("eventId", Raw.JStr "550e8400-e29b-41d4-a716-446655440000");
     ("projectId", Raw.JStr "p1");
     ("eventType", Raw.JStr "push");
     ("timestamp", Raw.JArr [Raw.JStr "2026-02-28T10:00:00.000Z"]);
     ("branch", Raw.JNum (Raw.Fin 7));
     ("payload",
      Raw.JObj
        [("commitHash", Raw.JArr [Raw.JStr sample_hash]);
         ("message", Raw.JStr "");
         ("author", Raw.JStr "Alice");
         ("diff", Raw.JArr [Raw.JStr "+"; Raw.JStr "-"])])].

(** A developer note whose file path is an array holding a path that
    leaves the workspace. *)
Definition untyped_note : Raw.Json :=
  Raw.JObj
    [("eventId", Raw.JStr "550e8400-e29b-41d4-a716-446655440001");
     ("projectId", Raw.JStr "p1");
     ("eventType", Raw.JStr "developer_note");
     ("timestamp", Raw.JStr "2026-02-28T10:05:00.000Z");
     ("branch", Raw.JStr "feature/auth");
     ("payload",
      Raw.JObj
        [("text", Raw.JStr "rate limit is per user");
         ("filePath", Raw.JArr [Raw.JStr "../../etc/passwd"]);
         ("lineNumber", Raw.JNum (Raw.Fin 42))])].

(** A project whose second team member is [null]. *)
Definition untyped_input : Raw.Json :=
  Raw.JObj
    [("name", Raw.JStr "flowsync");
     ("description", Raw.JStr "demo");
     ("languages", Raw.JArr [Raw.JStr "ts"]);
     ("defaultBranch", Raw.JStr "main");
     ("teamMembers",
      Raw.JArr [Raw.JObj [("name", Raw.JStr "Alice");
                          ("role", Raw.JStr "dev")];
                Raw.JNull])].


(** A project whose name is a one-element array and whose team is
    [false]. *)
Definition untyped_project : Raw.Json :=
  Raw.JObj
    [("name", Raw.JArr [Raw.JStr "flowsync"]);
     ("description", Raw.JStr "demo");
     ("languages", Raw.JArr [Raw.JStr "ts"]);
     ("defaultBranch", Raw.JStr "main");
     ("teamMembers", Raw.JBool false)].

(** The push, the project and the note that do not keep to the types of
    the extension, the note with the S3 bucket down. *)
Definition raw_sample_calls : list Raw.Call :=
  [ {| Raw.c_faults := no_faults; Raw.c_entropy := sample_entropy;
       Raw.c_now := sample_now;
       Raw.c_request :=
         Raw.post_event sample_headers (Raw.Parsed untyped_push) |};
    {| Raw.c_faults := no_faults; Raw.c_entropy := sample_entropy;
       Raw.c_now := sample_now;
       Raw.c_request := Raw.post_project (Raw.Parsed untyped_project) |};
    {| Raw.c_faults := s3_down; Raw.c_entropy := sample_entropy;
       Raw.c_now := "2026-02-28T10:00:07.000Z";
       Raw.c_request :=
         Raw.post_event sample_headers (Raw.Parsed untyped_note) |} ].

(** * Theorems *)

(** ** Strings *)

Lemma chars_str (l : list ascii) : chars (str l) = l.
Proof. apply list_ascii_of_string_of_list_ascii. Qed.

Lemma str_chars (s : string) : str (chars s) = s.
Proof. apply string_of_list_ascii_of_string. Qed.

Lemma length_chars (s : string) : length (chars s) = String.length s.
Proof. induction s as [|c s IH]; simpl; [done|]. by rewrite IH. Qed.

Lemma length_str (l : list ascii) : String.length (str l) = length l.
Proof. by rewrite <- length_chars, chars_str. Qed.

Lemma chars_app (s1 s2 : string) : chars (s1 +:+ s2) = chars s1 ++ chars s2.
Proof. induction s1 as [|c s1 IH]; simpl; [done|]. by rewrite IH. Qed.

Lemma chars_inj (s1 s2 : string) : chars s1 = chars s2 -> s1 = s2.
Proof. intros E. by rewrite <- (str_chars s1), <- (str_chars s2), E. Qed.

Lemma string_length_app (s1 s2 : string) :
  String.length (s1 +:+ s2) = String.length s1 + String.length s2.
Proof. by rewrite <- !length_chars, chars_app, length_app. Qed.

Lemma js_length_app (s1 s2 : string) :
  js_length (s1 +:+ s2) = (js_length s1 + js_length s2)%Z.
Proof. unfold js_length. rewrite string_length_app. lia. Qed.

Lemma truthy_Some (o : option string) :
  truthy o = true -> exists s, o = Some s /\ s <> "".
Proof. destruct o as [[|c s]|]; simpl; try done. intros _. by eexists. Qed.

Lemma truthy_default (o : option string) :
  truthy o = true -> o = Some (default "" o).
Proof. by intros (s & -> & _)%truthy_Some. Qed.

Lemma js_length_slice0 (n : Z) (s : string) :
  (0 <= n)%Z -> (js_length (slice0 n s) <= n)%Z.
Proof.
  intros Hn. unfold js_length, slice0. rewrite length_str, length_take. lia.
Qed.

Lemma slice0_nonempty (n : Z) (s : string) :
  (0 < n)%Z -> s <> "" -> slice0 n s <> "".
Proof.
  intros Hn Hs. unfold slice0. destruct s as [|c s]; [done|].
  destruct (Z.to_nat n) as [|k] eqn:E; [lia|]. done.
Qed.

(** ** The capture layer *)

Lemma getDiff_Some (env : Git) (d : string) :
  getDiff env = Some d ->
  d <> "" /\ (js_length d <= 50000)%Z
  /\ exists raw, git env "diff HEAD~1 HEAD" = Some raw /\ raw <> ""
       /\ d = if (js_length raw >? 50000)%Z then slice0 50000 raw else raw.
Proof.
  unfold getDiff. destruct (truthy _) eqn:Ht; simpl; [|done].
  apply truthy_Some in Ht as (raw & -> & Hraw). simpl.
  intros [= <-]. destruct (js_length raw >? 50000)%Z eqn:Hlen.
  - split; [by apply slice0_nonempty|]. split; [by apply js_length_slice0|].
    exists raw. by rewrite Hlen.
  - split; [done|]. split; [lia|]. exists raw. by rewrite Hlen.
Qed.

Lemma attempts_posts (delays : list Z) (net : nat -> bool) (k : nat)
    (p q : Post) :
  q ∈ (attempts delays net k p).1 -> q = p.
Proof.
  revert k. induction delays as [|d delays IH]; intros k; simpl.
  - by intros ?%elem_of_nil.
  - destruct (net k); simpl.
    + by intros ->%list_elem_of_singleton.
    + destruct (attempts delays net (S k) p) as [ps ok] eqn:E. simpl.
      intros [->|Hq]%elem_of_cons; [done|].
      apply (IH (S k)). by rewrite E.
Qed.

Lemma handlePushEvent_posts (env : Git) (net : nat -> bool)
    (uuid now pid url dflt tok br : string) (q : Post) :
  q ∈ posts (handlePushEvent env net uuid now pid url dflt tok br) ->
  getDiff env = Some (pp_diff (ce_payload (post_body q)))
  /\ ce_eventType (post_body q) = "push".
Proof.
  unfold handlePushEvent.
  destruct (getDiff env) as [[|c d]|]; simpl; try by intros ?%elem_of_nil.
  destruct (getLastCommitInfo env) as [ci|]; simpl;
    [|by intros ?%elem_of_nil].
  unfold transmitEvent.
  match goal with
  | |- context [attempts ?ds ?n ?k ?p] =>
      pose proof (attempts_posts ds n k p q) as Hq;
      destruct (attempts ds n k p) as [ps ok]
  end.
  simpl in Hq. destruct ok; simpl; intros ->%Hq; done.
Qed.

Lemma elem_of_check (x : string) v required ok invalid :
  x ∈ check v required ok invalid -> x = required \/ x = invalid.
Proof.
  unfold check. destruct (negb (truthy v)).
  - intros ->%list_elem_of_singleton. by left.
  - destruct (negb (ok _)).
    + intros ->%list_elem_of_singleton. by right.
    + by intros ?%elem_of_nil.
Qed.

Lemma elem_of_when (x : string) (b : bool) (msg : string) :
  x ∈ when b msg <-> b = true /\ x = msg.
Proof.
  unfold when. destruct b.
  - rewrite list_elem_of_singleton. split; [by intros ->|by intros [_ ->]].
  - rewrite elem_of_nil. split; [done|by intros [? _]].
Qed.

(** Splits a membership in a list of validation errors into its cases. *)
Ltac error_cases H :=
  rewrite ?elem_of_app, ?elem_of_when in H;
  repeat match goal with
         | H : _ \/ _ |- _ => destruct H as [H|H]
         | H : _ /\ _ |- _ => destruct H
         | H : _ ∈ check _ _ _ _ |- _ => apply elem_of_check in H
         | H : _ ∈ [] |- _ => by apply elem_of_nil in H
         | H : _ ∈ [_] |- _ => apply list_elem_of_singleton in H
         end.

Lemma diff_error_absent (ev : Event) (p : Payload) (d : string) :
  payload ev = Some p -> diff p = Some d -> (js_length d <= 50000)%Z ->
  "diff: max 50000 characters" ∉ validateEvent ev.
Proof.
  intros Hp Hd Hlen. unfold validateEvent. rewrite Hp.
  assert ("diff: max 50000 characters" ∉ push_errors p) as Hpush.
  { unfold push_errors. rewrite Hd.
    replace (js_length d >? 50000)%Z with false by lia.
    intros Hx. error_cases Hx; done. }
  assert ("diff: max 50000 characters" ∉ note_errors p) as Hnote.
  { unfold note_errors. intros Hx.
    destruct (lineNumber p) as [[z|]|]; error_cases Hx; done. }
  intros Hx.
  destruct (bool_decide (eventType ev = Some "push"));
    destruct (bool_decide (eventType ev = Some "developer_note"));
    error_cases Hx; done.
Qed.

Lemma git_diff (env : Git) :
  git env "diff HEAD~1 HEAD"
  = if truthy (getWorkspaceRoot env)
    then match execSync env "git diff HEAD~1 HEAD" with
         | Ret out => Some (trim out)
         | Throw _ => None
         end
    else None.
Proof. unfold git. by destruct (truthy _). Qed.

Lemma slice0_prefix (n : Z) (s : string) :
  (0 <= n)%Z ->
  (exists rest, s = slice0 n s +:+ rest)
  /\ js_length (slice0 n s) = Z.min n (js_length s).
Proof.
  intros Hn. split.
  - exists (str (drop (Z.to_nat n) (chars s))). apply chars_inj.
    unfold slice0. by rewrite chars_app, !chars_str, take_drop.
  - unfold js_length, slice0. rewrite length_str, length_take.
    rewrite <- (length_chars s). lia.
Qed.

Lemma drop_spaces_id (l : list ascii) :
  Forall (fun c => is_space c = false) l -> drop_spaces l = l.
Proof. destruct 1 as [|c l Hc _]; simpl; [done|]. by rewrite Hc. Qed.

Lemma trim_id (s : string) :
  Forall (fun c => is_space c = false) (chars s) -> trim s = s.
Proof.
  intros Hs. unfold trim. rewrite (drop_spaces_id _ Hs).
  rewrite drop_spaces_id by by apply Forall_reverse.
  by rewrite reverse_involutive, str_chars.
Qed.

Lemma trim_long_diff : trim long_diff = long_diff.
Proof.
  apply trim_id. unfold long_diff. rewrite chars_str.
  by apply Forall_replicate.
Qed.

Lemma js_length_long_diff : js_length long_diff = 60000%Z.
Proof.
  unfold js_length, long_diff. rewrite length_str, length_replicate. lia.
Qed.

Lemma getDiff_prefix (env : Git) (d : string) :
  getDiff env = Some d ->
  exists out rest,
    execSync env "git diff HEAD~1 HEAD" = Ret out
    /\ trim out = d +:+ rest
    /\ js_length d = Z.min (js_length (trim out)) 50000
    /\ ((js_length (trim out) <= 50000)%Z -> d = trim out).
Proof.
  intros (_ & _ & raw & Hgit & _ & ->)%getDiff_Some.
  rewrite git_diff in Hgit.
  destruct (truthy (getWorkspaceRoot env)); [|done].
  destruct (execSync env "git diff HEAD~1 HEAD") as [out|e]; [|done].
  injection Hgit as <-. exists out.
  destruct (slice0_prefix 50000 (trim out)) as [[rest Hrest] Hlen]; [lia|].
  destruct (js_length (trim out) >? 50000)%Z eqn:Hgt.
  - exists rest. split; [done|]. split; [done|]. split; lia.
  - exists "". split; [done|]. split.
    + apply chars_inj. by rewrite chars_app, app_nil_r.
    + split; [lia|done].
Qed.

(** C10. [getDiff] is null when there is no workspace, when the git command
    throws or when its trimmed output, the diff of the last two commits, is
    empty; otherwise it is the first 50,000 characters of that diff: a
    prefix of it, of the length of the diff or of 50,000 characters,
    whichever is less, and the whole diff when that has at most 50,000
    characters. So every post that [handlePushEvent] makes carries a
    non-empty prefix of the diff of at most 50,000 characters, which the
    length check of the Lambda accepts, and nothing is posted when
    [getDiff] is null. *)
Theorem getDiff_truncates (env : Git) :
  (truthy (getWorkspaceRoot env) = false -> getDiff env = None)
  /\ (forall e, execSync env "git diff HEAD~1 HEAD" = Throw e ->
        getDiff env = None)
  /\ (forall out, execSync env "git diff HEAD~1 HEAD" = Ret out ->
        trim out = "" -> getDiff env = None)
  /\ (forall out,
        truthy (getWorkspaceRoot env) = true ->
        execSync env "git diff HEAD~1 HEAD" = Ret out -> trim out <> "" ->
        exists d, getDiff env = Some d
          /\ d = (if (js_length (trim out) >? 50000)%Z
                  then slice0 50000 (trim out) else trim out)
          /\ (js_length d <= 50000)%Z
          /\ (exists rest, trim out = d +:+ rest)
          /\ js_length d = Z.min (js_length (trim out)) 50000
          /\ ((js_length (trim out) <= 50000)%Z -> d = trim out)
          /\ d <> "")
  /\ (forall net uuid now pid url dflt tok br q,
        q ∈ posts (handlePushEvent env net uuid now pid url dflt tok br) ->
        let d := pp_diff (ce_payload (post_body q)) in
        d <> "" /\ (js_length d <= 50000)%Z
        /\ ("diff: max 50000 characters"
              ∉ validateEvent (wire (post_body q)))
        /\ exists out rest,
             execSync env "git diff HEAD~1 HEAD" = Ret out
             /\ trim out = d +:+ rest
             /\ js_length d = Z.min (js_length (trim out)) 50000)
  /\ (getDiff env = None ->
      forall net uuid now pid url dflt tok br,
        posts (handlePushEvent env net uuid now pid url dflt tok br) = []).
Proof.
  split; [|split; [|split; [|split; [|split]]]].
  - intros Hroot. unfold getDiff. by rewrite git_diff, Hroot.
  - intros e He. unfold getDiff. rewrite git_diff, He.
    by destruct (truthy (getWorkspaceRoot env)).
  - intros out Hout Hempty. unfold getDiff. rewrite git_diff, Hout, Hempty.
    by destruct (truthy (getWorkspaceRoot env)).
  - intros out Hroot Hout Hne.
    assert (exists d, getDiff env = Some d
              /\ d = (if (js_length (trim out) >? 50000)%Z
                      then slice0 50000 (trim out) else trim out))
      as (d & Hd & Heq).
    { unfold getDiff. rewrite git_diff, Hroot, Hout.
      destruct (trim out) as [|c raw] eqn:Hraw; [done|]. simpl.
      by eexists. }
    exists d. split; [done|]. split; [done|].
    destruct (getDiff_Some _ _ Hd) as (Hd0 & Hlen & _).
    destruct (getDiff_prefix _ _ Hd) as (out' & rest & Hout' & Hrest & Hmin & Hid).
    rewrite Hout in Hout'. injection Hout' as <-.
    split; [done|]. split; [by exists rest|]. done.
  - intros net uuid now pid url dflt tok br q Hq d.
    apply handlePushEvent_posts in Hq as [Hd _].
    destruct (getDiff_prefix _ _ Hd) as (out & rest & Hout & Hrest & Hmin & _).
    apply getDiff_Some in Hd as (Hne & Hlen & _). fold d in Hne, Hlen.
    split; [done|]. split; [done|].
    split; [by eapply diff_error_absent|].
    by exists out, rest.
  - intros Hd net uuid now pid url dflt tok br. unfold handlePushEvent.
    by rewrite Hd.
Qed.

Lemma getDiff_truncates_witness :
  exists d rest, getDiff long_git = Some d
    /\ long_diff = d +:+ rest
    /\ js_length d = 50000%Z
    /\ js_length rest = 10000%Z.
Proof.
  destruct (getDiff_truncates long_git) as (_ & _ & _ & H & _).
  destruct (H long_diff eq_refl eq_refl) as (d & Hd & _ & _ & [rest Hrest] & Hlen & _).
  { rewrite trim_long_diff. intros E%(f_equal js_length).
    by rewrite js_length_long_diff in E. }
  rewrite trim_long_diff in Hrest, Hlen.
  rewrite js_length_long_diff in Hlen.
  exists d, rest. split; [exact Hd|]. split; [exact Hrest|].
  split; [exact Hlen|].
  apply (f_equal js_length) in Hrest.
  rewrite js_length_app, js_length_long_diff in Hrest. lia.
Defined.

(** ** Validation *)

Lemma check_nil v required ok invalid :
  check v required ok invalid = [] <-> valid ok v.
Proof.
  unfold check, valid. split.
  - destruct (truthy v) eqn:Ht; simpl; [|done].
    apply truthy_Some in Ht as (s & -> & Hs). simpl.
    destruct (ok s) eqn:Hok; simpl; [|done]. intros _. by exists s.
  - intros (s & -> & Hs & Hok). destruct s as [|c s]; [done|].
    simpl. by rewrite Hok.
Qed.

Lemma check_listed v required ok invalid :
  ~ valid ok v ->
  required ∈ check v required ok invalid
  \/ invalid ∈ check v required ok invalid.
Proof.
  intros Hv. unfold check.
  destruct (truthy v) eqn:Ht; simpl; [|left; by apply list_elem_of_singleton].
  apply truthy_Some in Ht as (s & -> & Hs). simpl.
  destruct (ok s) eqn:Hok; simpl; [|right; by apply list_elem_of_singleton].
  destruct Hv. by exists s.
Qed.

Lemma match_classes_replicate (k : ascii -> bool) (n : nat) (l : list ascii) :
  match_classes (replicate n k) l = true
  <-> length l = n /\ Forall (fun c => k c = true) l.
Proof.
  revert l. induction n as [|n IH]; intros [|c l]; simpl; try (split; [done|]).
  - done.
  - by intros [? _].
  - by intros [? _].
  - rewrite andb_true_iff, IH, Forall_cons. split.
    + intros (Hc & Hl & Hf). split; [by rewrite Hl|done].
    + intros (Hl & Hc & Hf). split; [done|]. split; [by injection Hl|done].
Qed.

Lemma COMMIT_HASH_hex40 (s : string) : COMMIT_HASH s = true <-> hex40 s.
Proof.
  unfold COMMIT_HASH, hex40.
  by rewrite match_classes_replicate, length_chars.
Qed.

Lemma validateEvent_nil (ev : Event) :
  validateEvent ev = [] ->
  exists p, payload ev = Some p
    /\ valid UUID_V4 (eventId ev) /\ valid ISO_8601 (timestamp ev)
    /\ valid (fun _ => true) (branch ev)
    /\ (eventType ev = Some "push" -> valid COMMIT_HASH (commitHash p)).
Proof.
  unfold validateEvent. destruct (payload ev) as [p|].
  - intros H. exists p. split; [done|].
    repeat (apply app_eq_nil in H as [H ?] || apply app_eq_nil in H as [? H]).
    repeat match goal with
           | H : _ ++ _ = [] |- _ => apply app_eq_nil in H as [? ?]
           end.
    repeat match goal with
           | H : check _ _ _ _ = [] |- _ => apply check_nil in H
           end.
    split; [done|]. split; [done|]. split.
    + match goal with
      | H : valid _ (branch ev) |- _ => destruct H as (b & ? & ? & _)
      end. by exists b.
    + intros Hpush. rewrite bool_decide_eq_true_2 in * by done.
      unfold push_errors in *.
      repeat match goal with
             | H : _ ++ _ = [] |- _ => apply app_eq_nil in H as [? ?]
             end.
      match goal with
      | H : check (commitHash p) _ _ _ = [] |- _ => by apply check_nil in H
      end.
  - intros H. by apply app_eq_nil in H as [_ ?].
Qed.

Lemma well_formed_of_valid (ev : Event) :
  eventType ev = Some "push" -> validateEvent ev = [] -> well_formed_push ev.
Proof.
  intros Hpush (p & Hp & Hid & Hts & Hbr & Hh)%validateEvent_nil.
  split; [done|]. split; [done|]. split; [done|].
  destruct (Hh Hpush) as (h & Hc & _ & Hok).
  exists p, h. split; [done|]. split; [done|]. by apply COMMIT_HASH_hex40.
Qed.

(** The messages of [validateEvent] for the four fields. *)
Lemma validateEvent_lists (ev : Event) :
  eventType ev = Some "push" ->
  let errors := validateEvent ev in
  (~ valid UUID_V4 (eventId ev) ->
     "eventId: required" ∈ errors
     \/ "eventId: must be a valid UUID v4" ∈ errors)
  /\ (~ valid ISO_8601 (timestamp ev) ->
        "timestamp: required" ∈ errors
        \/ "timestamp: must be valid ISO 8601 UTC" ∈ errors)
  /\ (~ valid (fun _ => true) (branch ev) -> "branch: required" ∈ errors)
  /\ (payload ev = None -> "payload: required" ∈ errors)
  /\ (forall p, payload ev = Some p ->
        ~ (exists h, commitHash p = Some h /\ hex40 h) ->
        "commitHash: required for push events" ∈ errors
        \/ "commitHash: must be exactly 40 hex characters" ∈ errors).
Proof.
  intros Hpush errors.
  assert (forall x : string,
    x ∈ check (eventId ev) "eventId: required"
          UUID_V4 "eventId: must be a valid UUID v4"
    \/ x ∈ check (timestamp ev) "timestamp: required"
          ISO_8601 "timestamp: must be valid ISO 8601 UTC"
    \/ x ∈ check (branch ev) "branch: required"
          (fun b => negb (js_length b >? 255)%Z) "branch: max 255 characters"
    -> x ∈ errors) as Hin.
  { intros x Hx. unfold errors, validateEvent.
    destruct (payload ev); rewrite !elem_of_app; tauto. }
  split; [|split; [|split; [|split]]].
  - intros [?|?]%(check_listed _ "eventId: required" _
                    "eventId: must be a valid UUID v4"); [left|right];
      apply Hin; tauto.
  - intros [?|?]%(check_listed _ "timestamp: required" _
                    "timestamp: must be valid ISO 8601 UTC"); [left|right];
      apply Hin; tauto.
  - intros Hb. apply Hin. right. right. unfold check.
    destruct (truthy (branch ev)) eqn:Ht; simpl;
      [|by apply list_elem_of_singleton].
    apply truthy_Some in Ht as (b & ? & ?). destruct Hb. by exists b.
  - intros Hp. unfold errors, validateEvent. rewrite Hp.
    rewrite elem_of_app, list_elem_of_singleton. by right.
  - intros p Hp Hh. unfold errors, validateEvent. rewrite Hp.
    rewrite bool_decide_eq_true_2 by done. unfold push_errors.
    assert (~ valid COMMIT_HASH (commitHash p)) as Hv.
    { intros (h & ? & ? & ?). apply Hh. exists h.
      by rewrite <- COMMIT_HASH_hex40. }
    apply (check_listed _ "commitHash: required for push events" _
             "commitHash: must be exactly 40 hex characters") in Hv.
    rewrite !elem_of_app. tauto.
Qed.

(** ** The events route *)

Section Ingestion.
Context `{Scrypt}.

Lemma authenticate_error faults w headers pid code err :
  authenticate faults w headers pid = Ret (AuthError code err) ->
  code = 401%Z
  /\ exists msg, err = Error "invalid_token" msg [].
Proof.
  unfold authenticate. destruct (extractToken headers) as [token|].
  - destruct (getProjectItem faults w pid) as [[Item|]|e]; simpl;
      [| |done].
    + destruct (negb (truthy (apiTokenHash Item))).
      { intros [= <- <-]. eauto. }
      destruct (verifyToken token (apiTokenHash Item)) as [[]|]; simpl;
        [done| |done].
      intros [= <- <-]. eauto.
    + intros [= <- <-]. eauto.
  - intros [= <- <-]. eauto.
Qed.

(** The world after the writes that follow validation. *)
Lemma ingestEvent_run faults now headers ev w :
  let run := ingestEvent faults now headers (EventBody ev) w in
  (exists e, authenticate faults w headers (projectId ev) = Throw e
     /\ run = (Throw e, w))
  \/ (exists code err,
        authenticate faults w headers (projectId ev)
        = Ret (AuthError code err)
        /\ run = (Ret (respond code err), w))
  \/ (exists project,
        authenticate faults w headers (projectId ev)
        = Ret (AuthProject project)
        /\ ((validateEvent ev <> []
             /\ run = (Ret (respond 400
                              (Error "validation_failed" None
                                 (validateEvent ev))), w))
            \/ (validateEvent ev = [] /\ putEventFails faults = true
                /\ run = (Throw "PutCommand failed", w))
            \/ (exists p,
                  validateEvent ev = [] /\ putEventFails faults = false
                  /\ payload ev = Some p
                  /\ run.1 = Ret (respond 200
                                    (Processing (str_of (eventId ev))
                                       (str_of (projectId ev))
                                       (str_of (branch ev))
                                       "processing" now))
                  /\ projectsTable run.2 = projectsTable w
                  /\ eventsTable run.2
                     = <[eventKey ev := eventRecord ev p now]> (eventsTable w)
                  /\ rawEventsBucket run.2
                     = (if putObjectFails faults then rawEventsBucket w
                        else <[archiveKey ev := ev]> (rawEventsBucket w))
                  /\ aiQueue run.2
                     = (if invokeFails faults then aiQueue w
                        else aiQueue w ++ [invocation ev p])
                  /\ auditTable run.2
                     = (if putAuditFails faults then auditTable w
                        else <[(str_of (eventId ev), now)
                               := auditEvent ev p now]> (auditTable w))))).
Proof.
  intros run. unfold run, ingestEvent, parse_event.
  destruct (authenticate faults w headers (projectId ev))
    as [[code err|project]|e]; [right; left; eauto| |left; eauto].
  right. right. exists project. split; [done|].
  destruct (decide (validateEvent ev = [])) as [Hv|Hv].
  - rewrite (bool_decide_eq_true_2 _ Hv). simpl.
    destruct (validateEvent_nil ev Hv) as (p & Hp & _). rewrite Hp.
    destruct (putEventFails faults) eqn:Hf; [right; left; done|].
    right. right. exists p.
    repeat (split; [done|]).
    unfold non_fatal.
    destruct (putObjectFails faults), (invokeFails faults),
      (putAuditFails faults); done.
  - rewrite (bool_decide_eq_false_2 _ Hv). simpl. left. done.
Qed.

(** Whatever is not an accepted event leaves the world as it was. *)
Lemma ingestEvent_rejected faults now headers ev w :
  ~ accepted (ingestEvent faults now headers (EventBody ev) w).1 ->
  (ingestEvent faults now headers (EventBody ev) w).2 = w.
Proof.
  intros Hna.
  destruct (ingestEvent_run faults now headers ev w)
    as [(e & _ & ->)|[(code & err & _ & ->)|(project & _ & Hrun)]];
    [done|done|].
  destruct Hrun as [(_ & ->)|[(_ & _ & ->)|(p & _ & _ & _ & Hr & _)]];
    [done|done|].
  destruct Hna. eexists. split; [exact Hr|done].
Qed.
End Ingestion.

(** C3, as stated, fails: an ill-formed push event sent without an
    [Authorization] header is answered [401 invalid_token], not
    [validation_failed]. *)
Lemma unauthenticated_event_is_not_validated :
  let ev := sample_event "xyz" in
  ~ well_formed_push ev
  /\ @ingestEvent sample_scrypt no_faults sample_now None (EventBody ev)
       sample_world
     = (Ret (respond 401
               (Error "invalid_token" (Some "Missing Authorization header")
                  [])),
        sample_world).
Proof.
  split; [|reflexivity].
  intros (_ & _ & _ & p & h & [= <-] & [= <-] & Hlen & _). done.
Qed.

(** ** The handler *)

Lemma handler_post_event `{Scrypt} faults entropy now headers ev w :
  handler faults entropy now (post_event headers ev) w
  = match ingestEvent faults now headers (EventBody ev) w with
    | (Ret r, w') => (r, w')
    | (Throw _, w') =>
        (respond 500
           (Error "internal_error" (Some "An unexpected error occurred") []),
         log "Unhandled error" w')
    end.
Proof. reflexivity. Qed.

(** C4, as stated, fails: with the S3 bucket down a well-formed event is
    answered [200 processing]; the event record is written, the archive is
    not, and the caller is told nothing. *)
Lemma s3_failure_is_swallowed :
  let ev := sample_event sample_hash in
  let run := @handler sample_scrypt s3_down sample_entropy sample_now
               (post_event sample_headers ev) sample_world in
  run.1 = respond 200
            (Processing "550e8400-e29b-41d4-a716-446655440000" "p1"
               "feature/auth" "processing" sample_now)
  /\ is_Some (eventsTable run.2 !! eventKey ev)
  /\ rawEventsBucket run.2 = ∅
  /\ console run.2 = ["[non-fatal] S3 archive failed"].
Proof. vm_compute. split; [done|]. split; [by eexists|]. done. Qed.

Lemma ingestEvent_accepted_console `{Scrypt} faults now headers ev w project :
  authenticate faults w headers (projectId ev) = Ret (AuthProject project) ->
  validateEvent ev = [] -> putEventFails faults = false ->
  console (ingestEvent faults now headers (EventBody ev) w).2
  = console w ++ non_fatal_lines faults.
Proof.
  intros Ha Hv Hf. unfold ingestEvent, parse_event. rewrite Ha.
  rewrite (bool_decide_eq_true_2 _ Hv). simpl.
  destruct (validateEvent_nil ev Hv) as (p & Hp & _). rewrite Hp, Hf.
  unfold non_fatal, non_fatal_lines.
  destruct (putObjectFails faults), (invokeFails faults),
    (putAuditFails faults); simpl; by rewrite <- ?(assoc_L (++)), ?app_nil_r.
Qed.

Lemma ingestEvent_faults `{Scrypt} faults faults' now headers ev w :
  getProjectFails faults' = getProjectFails faults ->
  putEventFails faults' = putEventFails faults ->
  (ingestEvent faults' now headers (EventBody ev) w).1
  = (ingestEvent faults now headers (EventBody ev) w).1.
Proof.
  intros Hg Hp. unfold ingestEvent, parse_event.
  assert (authenticate faults' w headers (projectId ev)
          = authenticate faults w headers (projectId ev)) as ->.
  { unfold authenticate, getProjectItem. by rewrite Hg. }
  destruct (authenticate faults w headers (projectId ev))
    as [[code err|project]|e]; [done| |done].
  destruct (negb _); [done|]. destruct (payload ev); [|done].
  rewrite Hp. by destruct (putEventFails faults).
Qed.

(** ** Re-delivery *)

Lemma filter_eq_nil {A} (P : A -> Prop) `{forall x, Decision (P x)}
    (l : list A) :
  filter P l = [] <-> Forall (fun x => ~ P x) l.
Proof.
  induction l as [|x l IH]; [by rewrite filter_nil|].
  rewrite Forall_cons, <- IH, filter_cons. destruct (decide (P x)).
  - split; [done|]. by intros [? _].
  - split; [done|]. by intros [_ ?].
Qed.

Lemma eventsOf_insert (w w' : World) (k : string * string) (r : EventRecord) :
  eventsTable w' = <[k := r]> (eventsTable w) ->
  eventsOf (r_eventId r) w = [] ->
  length (eventsOf (r_eventId r) w') = 1.
Proof.
  intros Hw' Hnone. unfold eventsOf in *. rewrite Hw'.
  rewrite <- insert_delete_eq.
  rewrite map_to_list_insert by apply lookup_delete_eq.
  rewrite fmap_cons, filter_cons_True by done. simpl. f_equal.
  apply length_zero_iff_nil, filter_eq_nil, Forall_forall.
  intros x [[kx x'] [-> Hx]]%list_elem_of_fmap.
  apply elem_of_map_to_list, lookup_delete_Some in Hx as [_ Hx].
  apply filter_eq_nil in Hnone. rewrite Forall_forall in Hnone.
  apply Hnone. apply list_elem_of_fmap. exists (kx, x'). split; [done|].
  by apply elem_of_map_to_list.
Qed.

Lemma eventsOf_same_table (eid : string) (w w' : World) :
  eventsTable w' = eventsTable w -> eventsOf eid w' = eventsOf eid w.
Proof. unfold eventsOf. by intros ->. Qed.

(** The key schema of [flowsync-context]: every item sits under its own
    event id. *)
Lemma contextTable_keyed (puts : list ContextItem) (k : string)
    (item : ContextItem) :
  contextTable puts !! k = Some item -> c_eventId item = k.
Proof.
  unfold contextTable.
  assert (forall t : gmap string ContextItem,
             (forall k item, t !! k = Some item -> c_eventId item = k) ->
             forall k item,
               foldl (fun t item => putContext item t) t puts !! k = Some item ->
               c_eventId item = k) as Hgen.
  { induction puts as [|it puts IH]; intros t Ht; simpl; [done|].
    apply IH. intros k' item'. unfold putContext.
    destruct (decide (c_eventId it = k')) as [<-|Hne].
    - rewrite lookup_insert_eq. by intros [= <-].
    - rewrite lookup_insert_ne by done. apply Ht. }
  apply Hgen. intros k' item'. by rewrite lookup_empty.
Qed.

Lemma contextsOf_at_most_one (eid : string) (puts : list ContextItem) :
  length (contextsOf eid (contextTable puts)) <= 1.
Proof.
  unfold contextsOf. set (t := contextTable puts).
  assert (forall k item, (k, item) ∈ map_to_list t -> c_eventId item = k)
    as Hkey.
  { intros k item Hin%elem_of_map_to_list. by eapply contextTable_keyed. }
  assert (filter (fun item => c_eventId item = eid) (map_to_list t).*2
          ⊆+ match t !! eid with Some item => [item] | None => [] end) as Hsub.
  { apply NoDup_submseteq.
    - apply NoDup_filter, NoDup_fmap_2_strong; [|apply NoDup_map_to_list].
      intros [k1 i1] [k2 i2] H1%Hkey H2%Hkey. simpl. intros ->. congruence.
    - intros item [Heid [[k item'] [-> Hin]]%list_elem_of_fmap]%list_elem_of_filter.
      simpl in *. pose proof (Hkey _ _ Hin) as Hk.
      apply elem_of_map_to_list in Hin.
      assert (k = eid) as -> by congruence.
      rewrite Hin. by apply list_elem_of_singleton. }
  apply submseteq_length in Hsub. destruct (t !! eid); simpl in Hsub; lia.
Qed.

(** What one run of the events route does to the events table. *)
Lemma handler_events_table `{Scrypt} faults entropy now headers ev w :
  let run := handler faults entropy now (post_event headers ev) w in
  (statusCode run.1 <> 200%Z /\ eventsTable run.2 = eventsTable w)
  \/ (statusCode run.1 = 200%Z
      /\ exists p, eventsTable run.2
           = <[eventKey ev := eventRecord ev p now]> (eventsTable w)).
Proof.
  intros run. unfold run. rewrite handler_post_event.
  pose proof (ingestEvent_run faults now headers ev w) as Hrun.
  simpl in Hrun.
  destruct Hrun as [(e & _ & ->)|[(code & err & Ha & ->)|
                    (project & _ & Hrun)]]; simpl.
  - by left.
  - apply authenticate_error in Ha as [-> _]. by left.
  - destruct Hrun as [(_ & ->)|[(_ & _ & ->)|
                      (p & _ & _ & _ & Hr & _ & Hev & _)]]; simpl;
      [by left|by left|].
    destruct (ingestEvent faults now headers (EventBody ev) w) as [out w'].
    simpl in *. subst out. right. split; [done|]. by exists p.
Qed.

(** Two deliveries of one and the same push event to the events route,
    whatever fails along the way: if the event id was unknown before, then
    the events table holds exactly one record with this id as soon as one
    delivery is accepted, and never two; and [flowsync-context], keyed by the
    event id, never holds two items for it, whatever is put into it. *)
Lemma redelivery_one_record `{Scrypt}
    faults1 faults2 entropy1 entropy2 now1 now2 headers1 headers2 ev w eid :
  eventId ev = Some eid ->
  eventsOf eid w = [] ->
  let run1 := handler faults1 entropy1 now1 (post_event headers1 ev) w in
  let run2 := handler faults2 entropy2 now2 (post_event headers2 ev) run1.2 in
  (statusCode run1.1 = 200%Z \/ statusCode run2.1 = 200%Z ->
     length (eventsOf eid run2.2) = 1)
  /\ length (eventsOf eid run2.2) <= 1
  /\ (forall puts, length (contextsOf eid (contextTable puts)) <= 1).
Proof.
  intros Heid Hnone run1 run2.
  assert (forall faults entropy now headers w0,
    let run := handler faults entropy now (post_event headers ev) w0 in
    (statusCode run.1 <> 200%Z /\ eventsTable run.2 = eventsTable w0)
    \/ (statusCode run.1 = 200%Z
        /\ exists p, eventsTable run.2
             = <[eventKey ev := eventRecord ev p now]> (eventsTable w0)))
    as Hstep.
  { intros faults entropy now headers w0. apply handler_events_table. }
  assert (forall p now, r_eventId (eventRecord ev p now) = eid) as Hrid.
  { intros p now. simpl. by rewrite Heid. }
  assert (length (eventsOf eid run2.2) <= 1
          /\ (statusCode run1.1 = 200%Z \/ statusCode run2.1 = 200%Z ->
              length (eventsOf eid run2.2) = 1)) as [Hle Heq].
  { destruct (Hstep faults1 entropy1 now1 headers1 w)
      as [[Hc1 He1]|[Hc1 (p1 & He1)]];
      destruct (Hstep faults2 entropy2 now2 headers2 run1.2)
        as [[Hc2 He2]|[Hc2 (p2 & He2)]];
      fold run1 in Hc1, He1; fold run1 run2 in Hc2, He2.
    - rewrite (eventsOf_same_table eid run1.2 run2.2 He2),
        (eventsOf_same_table eid w run1.2 He1), Hnone. simpl.
      split; [lia|]. intros [?|?]; done.
    - rewrite He1 in He2. rewrite <- (Hrid p2 now2).
      rewrite (eventsOf_insert w run2.2 _ _ He2) by by rewrite Hrid.
      split; [lia|done].
    - rewrite (eventsOf_same_table eid run1.2 run2.2 He2).
      rewrite <- (Hrid p1 now1).
      rewrite (eventsOf_insert w run1.2 _ _ He1) by by rewrite Hrid.
      split; [lia|done].
    - rewrite He1, insert_insert_eq in He2. rewrite <- (Hrid p2 now2).
      rewrite (eventsOf_insert w run2.2 _ _ He2) by by rewrite Hrid.
      split; [lia|done]. }
  split; [done|]. split; [done|]. intros puts. apply contextsOf_at_most_one.
Qed.

(** The sample event, delivered twice, is stored once. *)
Lemma redelivery_one_record_witness :
  let ev := sample_event sample_hash in
  let run1 := @handler sample_scrypt no_faults sample_entropy sample_now
                (post_event sample_headers ev) sample_world in
  let run2 := @handler sample_scrypt no_faults sample_entropy
                "2026-02-28T10:00:03.000Z"
                (post_event sample_headers ev) run1.2 in
  length (eventsOf "550e8400-e29b-41d4-a716-446655440000" run2.2) = 1.
Proof.
  intros ev run1 run2.
  apply (@redelivery_one_record sample_scrypt no_faults no_faults
           sample_entropy sample_entropy sample_now
           "2026-02-28T10:00:03.000Z" sample_headers sample_headers ev
           sample_world "550e8400-e29b-41d4-a716-446655440000").
  - reflexivity.
  - reflexivity.
  - left. vm_compute. reflexivity.
Defined.

Lemma records_with_insert_fresh (eid : string) (k : string * string)
    (r : EventRecord) (t : gmap (string * string) EventRecord) :
  t !! k = None ->
  records_with eid (<[k := r]> t)
  = (if decide (r_eventId r = eid) then 1 else 0) + records_with eid t.
Proof.
  intros Hk. unfold records_with. rewrite map_to_list_insert by done. rewrite fmap_cons. simpl.
  rewrite filter_cons. by destruct (decide (r_eventId r = eid)).
Qed.

Lemma records_with_delete (eid : string) (k : string * string)
    (t : gmap (string * string) EventRecord) :
  records_with eid (delete k t) <= records_with eid t.
Proof.
  destruct (t !! k) as [x|] eqn:Hk.
  - rewrite <- (insert_delete_id t k x Hk) at 2.
    rewrite records_with_insert_fresh by apply lookup_delete_eq. lia.
  - by rewrite delete_id.
Qed.

Lemma records_with_insert (eid : string) (k : string * string)
    (r : EventRecord) (t : gmap (string * string) EventRecord) :
  r_eventId r = eid ->
  records_with eid (<[k := r]> t) = S (records_with eid (delete k t)).
Proof.
  intros Hr. rewrite <- insert_delete_eq.
  rewrite records_with_insert_fresh by apply lookup_delete_eq.
  by rewrite decide_True.
Qed.

Lemma records_with_insert_2 (eid : string) (k1 k2 : string * string)
    (r1 r2 : EventRecord) (t : gmap (string * string) EventRecord) :
  r_eventId r1 = eid -> r_eventId r2 = eid -> records_with eid t = 0 ->
  records_with eid (<[k2 := r2]> (<[k1 := r1]> t))
  = if decide (k1 = k2) then 1 else 2.
Proof.
  intros H1 H2 H0.
  assert (forall k, records_with eid (delete k t) = 0) as Hd.
  { intros k. pose proof (records_with_delete eid k t). lia. }
  destruct (decide (k1 = k2)) as [->|Hne].
  - rewrite insert_insert_eq, records_with_insert by done. by rewrite Hd.
  - rewrite records_with_insert by done. rewrite delete_insert_ne by done.
    rewrite records_with_insert by done.
    pose proof (records_with_delete eid k1 (delete k2 t)). rewrite Hd in *. lia.
Qed.

Lemma handler_reads_projects `{Scrypt} faults entropy now headers ev w w' :
  projectsTable w' = projectsTable w ->
  (handler faults entropy now (post_event headers ev) w').1
  = (handler faults entropy now (post_event headers ev) w).1.
Proof.
  intros Hp. rewrite !handler_post_event. unfold ingestEvent, parse_event.
  assert (authenticate faults w' headers (projectId ev)
          = authenticate faults w headers (projectId ev)) as ->.
  { unfold authenticate, getProjectItem. by rewrite Hp. }
  destruct (authenticate faults w headers (projectId ev))
    as [[code err|project]|e]; [done| |done].
  destruct (negb _); [done|]. destruct (payload ev); [|done].
  by destruct (putEventFails faults).
Qed.

Lemma sort_key_same_id (ts1 ts2 eid : string) :
  ts1 +:+ "#" +:+ eid = ts2 +:+ "#" +:+ eid -> ts1 = ts2.
Proof.
  intros E%(f_equal chars). rewrite !chars_app in E.
  apply app_inv_tail in E. by apply chars_inj.
Qed.

(** C1. The events route does not detect a re-delivery. Two accepted
    deliveries under one event id and one project, the id being unknown
    before: when the second carries the timestamp of the first, the table
    holds one record with this id afterwards, which the second delivery has
    written, with its own time of reception; when it carries another
    timestamp, the table holds two records with this id, under two keys.
    The answer to the second delivery never depends on what the events
    table holds. *)
Theorem redelivery_stores_again `{Scrypt}
    faults1 faults2 entropy1 entropy2 now1 now2 headers1 headers2
    ev1 ev2 w eid ts1 ts2 :
  eventId ev1 = Some eid -> eventId ev2 = Some eid ->
  projectId ev1 = projectId ev2 ->
  timestamp ev1 = Some ts1 -> timestamp ev2 = Some ts2 ->
  eventsOf eid w = [] ->
  let run1 := handler faults1 entropy1 now1 (post_event headers1 ev1) w in
  let run2 :=
    handler faults2 entropy2 now2 (post_event headers2 ev2) run1.2 in
  statusCode run1.1 = 200%Z -> statusCode run2.1 = 200%Z ->
  length (eventsOf eid run1.2) = 1
  /\ (ts1 = ts2 -> length (eventsOf eid run2.2) = 1)
  /\ (ts1 <> ts2 ->
        length (eventsOf eid run2.2) = 2
        /\ eventKey ev1 <> eventKey ev2
        /\ exists p1 p2,
             eventsTable run2.2 !! eventKey ev1
             = Some (eventRecord ev1 p1 now1)
             /\ eventsTable run2.2 !! eventKey ev2
                = Some (eventRecord ev2 p2 now2)
             /\ r_eventId (eventRecord ev1 p1 now1) = eid
             /\ r_eventId (eventRecord ev2 p2 now2) = eid)
  /\ (exists p2,
        eventsTable run2.2 !! eventKey ev2 = Some (eventRecord ev2 p2 now2)
        /\ receivedAt (eventRecord ev2 p2 now2) = now2)
  /\ (forall w',
        projectsTable w' = projectsTable run1.2 ->
        statusCode
          (handler faults2 entropy2 now2 (post_event headers2 ev2) w').1
        = 200%Z).
Proof.
  intros Hid1 Hid2 Hpid Hts1 Hts2 Hnone run1 run2 Hc1 Hc2.
  destruct (handler_events_table faults1 entropy1 now1 headers1 ev1 w)
    as [[Hc _]|[_ (p1 & He1)]]; [done|]. fold run1 in He1.
  destruct (handler_events_table faults2 entropy2 now2 headers2 ev2 run1.2)
    as [[Hc _]|[_ (p2 & He2)]]; [done|]. fold run2 in He2.
  assert (r_eventId (eventRecord ev1 p1 now1) = eid) as Hr1
    by (simpl; by rewrite Hid1).
  assert (r_eventId (eventRecord ev2 p2 now2) = eid) as Hr2
    by (simpl; by rewrite Hid2).
  assert (forall w0, length (eventsOf eid w0)
                     = records_with eid (eventsTable w0)) as Hcount by done.
  assert (records_with eid (eventsTable w) = 0) as H0
    by (by rewrite <- Hcount, Hnone).
  assert (eventKey ev1 = eventKey ev2 <-> ts1 = ts2) as Hkey.
  { unfold eventKey. rewrite Hid1, Hid2, Hts1, Hts2, Hpid. simpl. split.
    - intros [= E]. by apply sort_key_same_id in E.
    - by intros ->. }
  split; [|split; [|split; [|split]]].
  - rewrite Hcount, He1, records_with_insert by done.
    pose proof (records_with_delete eid (eventKey ev1) (eventsTable w)). lia.
  - intros Hts. rewrite Hcount, He2, He1.
    rewrite (records_with_insert_2 eid) by done.
    by rewrite decide_True by by apply Hkey.
  - intros Hts.
    assert (eventKey ev1 <> eventKey ev2) as Hne by by rewrite Hkey.
    split; [|split; [done|]].
    + rewrite Hcount, He2, He1.
      rewrite (records_with_insert_2 eid) by done.
      by rewrite decide_False.
    + exists p1, p2. split; [|split; [|done]].
      * rewrite He2, lookup_insert_ne by done. rewrite He1.
        apply lookup_insert_eq.
      * rewrite He2. apply lookup_insert_eq.
  - exists p2. split; [|done]. rewrite He2. apply lookup_insert_eq.
  - intros w' Hw'. by rewrite (handler_reads_projects _ _ _ _ _ run1.2 w').
Qed.

Lemma redelivery_stores_again_witness :
  let run1 := @handler sample_scrypt no_faults sample_entropy sample_now
                (post_event sample_headers (sample_event sample_hash))
                sample_world in
  let run2 := @handler sample_scrypt no_faults sample_entropy
                "2026-02-28T10:00:05.000Z"
                (post_event sample_headers sample_resent) run1.2 in
  length (eventsOf "550e8400-e29b-41d4-a716-446655440000" run2.2) = 2.
Proof.
  intros run1 run2.
  destruct (@redelivery_stores_again sample_scrypt no_faults no_faults
              sample_entropy sample_entropy sample_now
              "2026-02-28T10:00:05.000Z" sample_headers sample_headers
              (sample_event sample_hash) sample_resent sample_world
              "550e8400-e29b-41d4-a716-446655440000"
              "2026-02-28T10:00:00.000Z" "2026-02-28T10:00:04.000Z"
              eq_refl eq_refl eq_refl eq_refl eq_refl eq_refl
              eq_refl eq_refl)
    as (_ & _ & Htwo & _).
  destruct Htwo as [Htwo _]; [discriminate|exact Htwo].
Defined.

(** ** Hexadecimal buffers and tokens *)

Lemma decode_hex_byte (b : Byte.byte) (l : list ascii) :
  decode_hex (hex_digit (Byte.to_N b / 16) :: hex_digit (Byte.to_N b mod 16) :: l)
  = b :: decode_hex l.
Proof. destruct b; reflexivity. Qed.

Lemma from_hex_to_hex (bs : list Byte.byte) : from_hex (to_hex bs) = bs.
Proof.
  unfold from_hex, to_hex. rewrite chars_str.
  induction bs as [|b bs IH]; [done|].
  change (decode_hex
            (hex_digit (Byte.to_N b / 16) :: hex_digit (Byte.to_N b mod 16)
             :: (bs ≫= fun b => [hex_digit (Byte.to_N b / 16);
                                 hex_digit (Byte.to_N b mod 16)]))
          = b :: bs).
  by rewrite decode_hex_byte, IH.
Qed.

Lemma to_hex_chars (bs : list Byte.byte) :
  Forall (fun c => hex c = true) (chars (to_hex bs)).
Proof.
  unfold to_hex. rewrite chars_str.
  induction bs as [|b bs IH]; [constructor|].
  change (Forall (fun c => hex c = true)
            (hex_digit (Byte.to_N b / 16) :: hex_digit (Byte.to_N b mod 16)
             :: (bs ≫= fun b => [hex_digit (Byte.to_N b / 16);
                                 hex_digit (Byte.to_N b mod 16)]))).
  repeat constructor; [by destruct b..|done].
Qed.

Lemma to_hex_nonempty (bs : list Byte.byte) : bs <> [] -> to_hex bs <> "".
Proof. by destruct bs. Qed.

Lemma truthy_to_hex (bs : list Byte.byte) :
  bs <> [] -> truthy (Some (to_hex bs)) = true.
Proof. by destruct bs. Qed.

Lemma hex_not_sep (sep c : ascii) : hex sep = false -> hex c = true -> c <> sep.
Proof. congruence. Qed.

Lemma split_on_last (sep : ascii) (l : list ascii) :
  Forall (fun c => c <> sep) l -> split_on sep l = [l].
Proof.
  induction 1 as [|c l Hc _ IH]; [done|]. simpl.
  rewrite (proj2 (Ascii.eqb_neq c sep) Hc). by rewrite IH.
Qed.

Lemma split_on_app (sep : ascii) (l1 l2 : list ascii) :
  Forall (fun c => c <> sep) l1 ->
  split_on sep (l1 ++ sep :: l2) = l1 :: split_on sep l2.
Proof.
  induction 1 as [|c l Hc _ IH]; simpl.
  - by rewrite Ascii.eqb_refl.
  - rewrite (proj2 (Ascii.eqb_neq c sep) Hc). by rewrite IH.
Qed.

Lemma js_split_pair (sep : ascii) (s1 s2 : string) :
  Forall (fun c => c <> sep) (chars s1) ->
  Forall (fun c => c <> sep) (chars s2) ->
  js_split sep (s1 +:+ String sep "" +:+ s2) = [s1; s2].
Proof.
  intros H1 H2. unfold js_split. rewrite !chars_app. simpl.
  rewrite split_on_app, split_on_last by done. simpl.
  by rewrite !str_chars.
Qed.

Lemma hashToken_split `{Scrypt} (salt : list Byte.byte) (t : string) :
  js_split ":" (hashToken salt t)
  = [to_hex salt; to_hex (scryptSync t (to_hex salt))].
Proof.
  unfold hashToken. apply js_split_pair;
    (eapply Forall_impl; [apply to_hex_chars|]);
    intros c; by apply hex_not_sep.
Qed.

(** [verifyToken] against a stored [hashToken] compares the two digests. *)
Lemma verifyToken_digest `{Scrypt} (salt : list Byte.byte) (t u : string) :
  salt <> [] ->
  verifyToken u (Some (hashToken salt t))
  = Ret (bool_decide (scryptSync u (to_hex salt) = scryptSync t (to_hex salt))).
Proof.
  intros Hsalt. unfold verifyToken. simpl (default _ _).
  rewrite hashToken_split. simpl (_ !! _).
  rewrite (truthy_to_hex salt Hsalt).
  assert (truthy (Some (to_hex (scryptSync t (to_hex salt)))) = true) as ->.
  { apply truthy_to_hex. intros E.
    pose proof (scryptSync_length t (to_hex salt)) as Hlen.
    by rewrite E in Hlen. }
  simpl. rewrite !from_hex_to_hex. unfold timingSafeEqual.
  rewrite decide_True by by rewrite !scryptSync_length.
  f_equal. apply bool_decide_ext. split; congruence.
Qed.

(** C9, amended. A plaintext is accepted against [hashToken salt t] exactly
    when its scrypt digest under the drawn salt is the digest of [t]; so [t]
    itself is accepted for any non-empty salt, and a bearer of a project
    whose stored hash is [hashToken salt t] authenticates under the same
    condition. *)
Theorem verifyToken_hashToken `{Scrypt} (salt : list Byte.byte)
    (t t' : string) :
  salt <> [] ->
  verifyToken t' (Some (hashToken salt t))
  = Ret (bool_decide (scryptSync t' (to_hex salt) = scryptSync t (to_hex salt)))
  /\ verifyToken t (Some (hashToken salt t)) = Ret true
  /\ (forall faults w headers pid project,
        extractToken headers = Some t' ->
        getProjectItem faults w pid = Ret (Some project) ->
        apiTokenHash project = Some (hashToken salt t) ->
        authenticate faults w headers pid
        = Ret (if bool_decide (scryptSync t' (to_hex salt)
                               = scryptSync t (to_hex salt))
               then AuthProject project
               else AuthError 401 (Error "invalid_token" None []))).
Proof.
  intros Hsalt. split; [by apply verifyToken_digest|]. split.
  - rewrite verifyToken_digest by done. by rewrite bool_decide_eq_true_2.
  - intros faults w headers pid project Htok Hget Hhash.
    unfold authenticate. rewrite Htok, Hget. simpl.
    rewrite Hhash.
    assert (truthy (Some (hashToken salt t)) = true) as ->.
    { unfold hashToken. by destruct (to_hex salt). }
    simpl. rewrite verifyToken_digest by done. simpl.
    by destruct (bool_decide _).
Qed.

Lemma verifyToken_hashToken_witness :
  @verifyToken sample_scrypt sample_token
    (Some (@hashToken sample_scrypt sample_salt sample_token)) = Ret true.
Proof.
  apply (@verifyToken_hashToken sample_scrypt sample_salt sample_token
           sample_token).
  done.
Defined.

(** C9, as stated, fails for every key derivation function: the digest has
    64 bytes and the plaintexts are unbounded, so two different plaintexts
    share a digest under any salt, and the second is accepted against the
    hash of the first. *)
Lemma verifyToken_accepts_collision :
  ~ exists K : Scrypt,
      forall (salt : list Byte.byte) (t t' : string),
        length salt = 16 -> t' <> t ->
        @verifyToken K t' (Some (@hashToken K salt t)) = Ret false.
Proof.
  intros [K Hclaim].
  set (salt := replicate 16 Byte.x00).
  set (B := { l : list Byte.byte | length l = 64 }).
  set (f := fun i : fin (S (card B)) =>
              (scryptSync (pretty (fin_to_nat i)) (to_hex salt)
               ↾ scryptSync_length _ _) : B).
  destruct (finite_pigeonhole f) as (i1 & i2 & Hne & Hf).
  { rewrite fin_card. lia. }
  apply (f_equal proj1_sig) in Hf. simpl in Hf.
  assert (pretty (fin_to_nat i2) <> pretty (fin_to_nat i1)) as Hplain.
  { intros E. apply Hne. symmetry. by apply (inj fin_to_nat), (inj pretty). }
  specialize (Hclaim salt _ _ eq_refl Hplain).
  rewrite (@verifyToken_digest K salt) in Hclaim by done.
  rewrite bool_decide_eq_true_2 in Hclaim by done. done.
Qed.

(** ** The extraction call *)

Example buildBedrockPrompt_testEvent :
  includes "- Commit Message: Refactored backend logic
- Code Diff: diff --git ...
- Developer Note: Improved performance
" (buildBedrockPrompt prompt_template testEvent) = true
  /\ includes "- Event ID: evt-123" (buildBedrockPrompt prompt_template testEvent)
     = true
  /\ includes "- Originating Event ID: evt-123
- Source: VS Code Extension" (buildBedrockPrompt prompt_template testEvent)
     = true.
Proof. vm_compute. done. Qed.

(** What [callBedrock] itself computes is a function of the event: two runs
    differ only if the model answers the same command differently. *)
Lemma callBedrock_follows_model {Seed Json} `{Bedrock Seed Json}
    (template : string) (event : PromptEvent) (s1 s2 : Seed) :
  send (invokeModelCommand (buildBedrockPrompt template event)) s1
  = send (invokeModelCommand (buildBedrockPrompt template event)) s2 ->
  callBedrock template event s1 = callBedrock template event s2.
Proof. unfold callBedrock. by intros ->. Qed.

(** C2 fails on the code. Every command that [callBedrock] sends asks for
    sampling at [temperature: 1] with [topP: 0.5], not for the greedy
    decoding at temperature 0 on which the documented determinism rests; a
    model that is deterministic at temperature 0 answers two runs on the
    event of [test/testBedrock.js] differently. *)
Theorem callBedrock_requests_sampling :
  (forall prompt,
     temperature (inference_config (invokeModelCommand prompt)) = 1%Q
     /\ topP (inference_config (invokeModelCommand prompt)) = 0.5%Q
     /\ ~ Qeq (temperature (inference_config (invokeModelCommand prompt))) 0)
  /\ greedy_deterministic sampling_model
  /\ @callBedrock _ _ sampling_model prompt_template testEvent 1
     <> @callBedrock _ _ sampling_model prompt_template testEvent 2.
Proof.
  split; [|split].
  - intros prompt. split; [done|]. split; [done|]. simpl. intros [=].
  - intros cmd s1 s2 Hq. simpl.
    by rewrite (proj2 (Qeq_bool_iff _ _) Hq).
  - unfold callBedrock. simpl. intros [=].
Qed.

(** ** The linking window *)

Lemma closest_elem (e : Core.PushEvent) (l : list Core.ContextRecord)
    (r : Core.ContextRecord) :
  Core.closest e l = Some r -> r ∈ l.
Proof.
  revert r. induction l as [|x l IH]; intros r; simpl; [done|].
  destruct (Core.closest e l) as [r'|].
  - destruct (Core.distance e r' <? Core.distance e x)%Z; intros [= <-].
    + right. by apply IH.
    + left.
  - intros [= <-]. left.
Qed.

Lemma closest_None (e : Core.PushEvent) (l : list Core.ContextRecord) :
  Core.closest e l = None <-> l = [].
Proof.
  destruct l as [|x l]; simpl; [done|].
  destruct (Core.closest e l) as [r'|]; [|done].
  by destruct (Core.distance e r' <? Core.distance e x)%Z.
Qed.

Lemma same_key_spec (r : Core.ContextRecord) (p b a : string) :
  Core.same_key r p b a = true
  <-> Core.projectId r = p /\ Core.branch r = b /\ Core.author r = a.
Proof.
  unfold Core.same_key. rewrite !andb_true_iff, !String.eqb_eq. tauto.
Qed.

Lemma within_window_spec (t1 t2 : Z) :
  Core.within_window t1 t2 = true <-> (Z.abs (t1 - t2) <= minutes 30)%Z.
Proof. unfold Core.within_window, Core.WINDOW, minutes. lia. Qed.

Lemma reasoning_candidate_spec (sub : Core.Submission) (r : Core.ContextRecord) :
  Core.reasoning_candidate sub r = true
  <-> (Core.projectId r = Core.s_projectId sub
       /\ Core.branch r = Core.s_branch sub
       /\ Core.author r = Core.s_author sub)
      /\ Core.status r = Core.complete
      /\ Core.agentReasoning r = None
      /\ exists t, Core.pushedAt r = Some t
           /\ (Z.abs (Core.s_timestamp sub - t) <= minutes 30)%Z.
Proof.
  unfold Core.reasoning_candidate.
  rewrite !andb_true_iff, same_key_spec, !bool_decide_eq_true.
  destruct (Core.pushedAt r) as [t|].
  - rewrite within_window_spec. split.
    + intros (((? & ?) & ?) & ?). eauto 10.
    + intros (? & ? & ? & t' & [= <-] & ?). tauto.
  - split; [by intros (_ & ?)|]. by intros (_ & _ & _ & t & ? & _).
Qed.

Lemma push_candidate_spec (e : Core.PushEvent) (r : Core.ContextRecord) :
  Core.push_candidate e r = true
  <-> (Core.projectId r = Core.e_projectId e
       /\ Core.branch r = Core.e_branch e
       /\ Core.author r = Core.e_author e)
      /\ Core.status r = Core.uncommitted
      /\ exists t, Core.loggedAt r = Some t
           /\ (Z.abs (t - Core.e_timestamp e) <= minutes 30)%Z.
Proof.
  unfold Core.push_candidate.
  rewrite !andb_true_iff, same_key_spec, !bool_decide_eq_true.
  destruct (Core.loggedAt r) as [t|].
  - rewrite within_window_spec. split.
    + intros ((? & ?) & ?). eauto 10.
    + intros (? & ? & t' & [= <-] & ?). tauto.
  - split; [by intros (_ & ?)|]. by intros (_ & _ & t & ? & _).
Qed.

(** C5. A reasoning submission is either attached to one record, a push
    record with the submission's (projectId, branch, author) whose push
    timestamp is at most 30 minutes away in either direction, or stored as a
    new, separate record; the second happens whenever every push record of
    the key lies outside the window. A push binds an uncommitted record only
    under the same conditions on the time its reasoning was submitted, and
    when every such record lies outside the window it creates a new,
    separate record. *)
Theorem linking_window `{Core.Ports} :
  (forall sub s,
     let run := Core.handleReasoning sub s in
     (run.1 = Core.complete
      /\ exists i r t,
           Core.records s !! i = Some r
           /\ Core.projectId r = Core.s_projectId sub
           /\ Core.branch r = Core.s_branch sub
           /\ Core.author r = Core.s_author sub
           /\ Core.pushedAt r = Some t
           /\ (Z.abs (Core.s_timestamp sub - t) <= minutes 30)%Z
           /\ Core.records run.2 = <[i := Core.attach sub r]> (Core.records s))
     \/ (run.1 = Core.uncommitted
         /\ Core.records run.2
            = Core.records s
              ++ [Core.new_uncommitted (length (Core.records s)) sub]))
  /\ (forall sub s,
        (forall r t, r ∈ Core.records s ->
           Core.projectId r = Core.s_projectId sub ->
           Core.branch r = Core.s_branch sub ->
           Core.author r = Core.s_author sub ->
           Core.pushedAt r = Some t ->
           (minutes 30 < Z.abs (Core.s_timestamp sub - t))%Z) ->
        Core.handleReasoning sub s
        = (Core.uncommitted,
           {| Core.records :=
                Core.records s
                ++ [Core.new_uncommitted (length (Core.records s)) sub];
              Core.failed := Core.failed s |}))
  /\ (forall now e s r' s',
        Core.handlePush now e s = (Core.Bound r', s') ->
        exists r t d v,
          r ∈ Core.records s
          /\ Core.status r = Core.uncommitted
          /\ Core.projectId r = Core.e_projectId e
          /\ Core.branch r = Core.e_branch e
          /\ Core.author r = Core.e_author e
          /\ Core.loggedAt r = Some t
          /\ (Z.abs (t - Core.e_timestamp e) <= minutes 30)%Z
          /\ r' = Core.bind_push e d v now r)
  /\ (forall now e s d,
        (forall r, r ∈ Core.records s ->
           Core.sourceEventId r <> Some (Core.e_eventId e)) ->
        (forall r t, r ∈ Core.records s ->
           Core.projectId r = Core.e_projectId e ->
           Core.branch r = Core.e_branch e ->
           Core.author r = Core.e_author e ->
           Core.loggedAt r = Some t ->
           (minutes 30 < Z.abs (t - Core.e_timestamp e))%Z) ->
        Core.validate (Core.extract false (Core.e_facts e)) = Some d ->
        exists r',
          Core.handlePush now e s
          = (Core.Fresh r',
             {| Core.records := Core.records s ++ [r'];
                Core.failed := Core.failed s |})
          /\ r' = Core.new_complete (length (Core.records s)) e d
                    (Core.embed (Core.summarize d)) now).
Proof.
  split; [|split; [|split]].
  - intros sub s run. unfold run, Core.handleReasoning.
    destruct (list_find _ _) as [[i r]|] eqn:Hfind; [left|right; done].
    split; [done|]. apply list_find_Some in Hfind as (Hi & Hc & _).
    apply Is_true_true, reasoning_candidate_spec in Hc
      as ((? & ? & ?) & _ & _ & t & ? & ?).
    exists i, r, t. done.
  - intros sub s Hfar. unfold Core.handleReasoning.
    destruct (list_find _ _) as [[i r]|] eqn:Hfind; [|done].
    apply list_find_Some in Hfind as (Hi & Hc & _).
    apply Is_true_true, reasoning_candidate_spec in Hc
      as ((Hp & Hb & Ha) & _ & _ & t & Ht & Hle).
    apply list_elem_of_lookup_2 in Hi.
    specialize (Hfar r t Hi Hp Hb Ha Ht). lia.
  - intros now e s r' s'. unfold Core.handlePush.
    destruct (existsb _ _); [done|].
    destruct (Core.closest e _) as [r|] eqn:Hc.
    + apply closest_elem, list_elem_of_filter in Hc as [Hcand Hin].
      apply Is_true_true, push_candidate_spec in Hcand
        as ((? & ? & ?) & ? & t & ? & ?).
      destruct (Core.validate _) as [d|]; [|done].
      intros [= <- _]. exists r, t, d, (Core.embed (Core.summarize d)). done.
    + by destruct (Core.validate _).
  - intros now e s d Hnew Hfar Hd. unfold Core.handlePush.
    assert (existsb
              (fun r => bool_decide (Core.sourceEventId r
                                     = Some (Core.e_eventId e)))
              (Core.records s) = false) as ->.
    { apply not_true_is_false. intros (r & Hin & Hr)%existsb_exists.
      apply list_elem_of_In in Hin. apply bool_decide_eq_true in Hr.
      by apply (Hnew r). }
    assert (filter (fun r => Core.push_candidate e r) (Core.records s) = [])
      as ->.
    { apply filter_eq_nil, Forall_forall. intros r Hin Hc.
      apply Is_true_true, push_candidate_spec in Hc
        as ((Hp & Hb & Ha) & _ & t & Ht & Hle).
      specialize (Hfar r t Hin Hp Hb Ha Ht). lia. }
    simpl. rewrite Hd. eexists. done.
Qed.

(** Scenario D of the specification: a reasoning submission 31 minutes
    after the push of an otherwise matching record. *)
Lemma linking_window_witness :
  let s1 := (@Core.handlePush sample_ports 5 (sample_push "e1" 0)
               empty_store).2 in
  let run := Core.handleReasoning (sample_submission (minutes 31)) s1 in
  run.1 = Core.uncommitted /\ length (Core.records run.2) = 2.
Proof.
  intros s1 run.
  destruct (@linking_window sample_ports) as (_ & Hfar & _).
  unfold run. rewrite Hfar; [split; reflexivity|].
  intros r t Hin _ _ _ Ht. vm_compute in Hin.
  apply list_elem_of_singleton in Hin. subst r. injection Ht as <-.
  vm_compute. done.
Defined.

(** ** Semantic search *)

Global Instance ranks_total : Total Core.ranks.
Proof.
  intros x y. unfold Core.ranks.
  destruct (Rtotal_order (Core.score x) (Core.score y)) as [?|[Hs|?]];
    [right; by left| |left; by left].
  destruct (Q_dec (Core.conf x) (Core.conf y)) as [[?|?]|Hq].
  - right. right. split; [done|]. by left.
  - left. right. split; [done|]. by left.
  - destruct (Z.le_ge_cases (Core.time (Core.ref x)) (Core.time (Core.ref y))).
    + right. right. split; [done|]. right. split; [by symmetry|done].
    + left. right. split; [done|]. right. done.
Qed.

Global Instance ranks_trans : Transitive Core.ranks.
Proof.
  intros x y z. unfold Core.ranks.
  intros [?|[Hxy [?|[Hq1 ?]]]] [?|[Hyz [?|[Hq2 ?]]]];
    try (left; lra); right; (split; [congruence|]).
  - left. by etrans.
  - left. by rewrite Hq2 in *.
  - left. by rewrite Hq1.
  - right. split; [by rewrite Hq1|lia].
Qed.

Lemma cosine_spec (a b : list R) :
  (Core.magnitude a <> 0%R -> Core.magnitude b <> 0%R ->
     Core.cosine a b
     = (Core.dot a b / (Core.magnitude a * Core.magnitude b))%R)
  /\ (Core.magnitude a = 0%R \/ Core.magnitude b = 0%R ->
        Core.cosine a b = 0%R).
Proof.
  unfold Core.cosine.
  destruct (Req_dec_T (Core.magnitude a) 0), (Req_dec_T (Core.magnitude b) 0);
    split; try done; tauto.
Qed.

Lemma StronglySorted_take {A} (R : relation A) (n : nat) (l : list A) :
  StronglySorted R l -> StronglySorted R (take n l).
Proof.
  intros Hl. rewrite <- (take_drop n l) in Hl.
  by apply StronglySorted_app_1_l in Hl.
Qed.

(** C6. When no complete record with an embedding is visible to the branch,
    [search] makes no call to the generation port and returns the
    insufficient-information result, with no answer and [grounded] false;
    so a grounded result is only ever returned for a non-empty candidate
    set. *)
Theorem search_empty_candidates `{Core.Ports} (p b query : string)
    (limit : nat) (rs : list Core.ContextRecord) :
  (Core.candidates p b rs = [] ->
     Core.search p b query limit rs
     = ({| Core.results := []; Core.answer_text := None;
           Core.grounded := false; Core.insufficient := true |}, []))
  /\ (Core.grounded (Core.search p b query limit rs).1 = true ->
        Core.candidates p b rs <> [])
  /\ ((Core.search p b query limit rs).2 <> [] ->
        Core.candidates p b rs <> []).
Proof.
  unfold Core.search.
  destruct (Core.candidates p b rs) as [|c cs]; [done|].
  split; [done|]. split; done.
Qed.

Lemma search_empty_candidates_witness :
  @Core.search sample_ports "p1" "main" "what changed?" 5 []
  = ({| Core.results := []; Core.answer_text := None;
        Core.grounded := false; Core.insufficient := true |}, []).
Proof.
  apply (@search_empty_candidates sample_ports "p1" "main" "what changed?" 5 []).
  reflexivity.
Defined.

Lemma dot_self_nonneg (a : list R) : (0 <= Core.dot a a)%R.
Proof.
  unfold Core.dot. induction a as [|x a IH]; simpl; [lra|].
  pose proof (Rle_0_sqr x) as Hx. unfold Rsqr in Hx. lra.
Qed.

Lemma dot_self_zero (a : list R) :
  Core.dot a a = 0%R <-> Forall (fun x => x = 0%R) a.
Proof.
  unfold Core.dot. induction a as [|x a IH]; simpl.
  - split; [constructor|done].
  - pose proof (Rle_0_sqr x) as Hx. unfold Rsqr in Hx.
    pose proof (dot_self_nonneg a) as Ha. unfold Core.dot in Ha.
    rewrite Forall_cons, <- IH. split.
    + intros E. split; [|lra].
      destruct (Req_dec_T x 0) as [|Hne]; [done|].
      assert (0 < x * x)%R; [|lra].
      pose proof (Rsqr_pos_lt x Hne) as H0. by unfold Rsqr in H0.
    + intros [-> ->]. lra.
Qed.

Lemma magnitude_spec (a : list R) :
  (0 <= Core.magnitude a)%R
  /\ (Core.magnitude a * Core.magnitude a)%R = Core.dot a a
  /\ (Core.magnitude a = 0%R <-> Forall (fun x => x = 0%R) a).
Proof.
  unfold Core.magnitude. split; [apply sqrt_pos|]. split.
  - apply sqrt_sqrt, dot_self_nonneg.
  - rewrite <- dot_self_zero. split.
    + intros E. apply sqrt_eq_0; [apply dot_self_nonneg|done].
    + intros ->. apply sqrt_0.
Qed.

Lemma StronglySorted_lookup_lt {A} (R : relation A) (l : list A)
    (i j : nat) (x y : A) :
  StronglySorted R l -> l !! i = Some x -> l !! j = Some y -> i < j ->
  R x y.
Proof.
  intros Hl. revert i j. induction Hl as [|z l Hl IH Hz]; intros i j.
  - by rewrite lookup_nil.
  - destruct i as [|i], j as [|j]; simpl; try lia.
    + intros [= <-] Hy%list_elem_of_lookup_2 _.
      by eapply Forall_forall in Hz.
    + intros Hx Hy Hij. apply (IH i j); [done|done|lia].
Qed.

Lemma magnitude_axis (x : R) : (0 <= x)%R -> Core.magnitude [x; 0%R] = x.
Proof.
  intros Hx. unfold Core.magnitude, Core.dot. simpl.
  replace (x * x + (0 * 0 + 0))%R with (x * x)%R by ring.
  by apply sqrt_square.
Qed.

Lemma cosine_axis (x : R) : (0 < x)%R -> Core.cosine [x; 0%R] [1; 0]%R = 1%R.
Proof.
  intros Hx. destruct (cosine_spec [x; 0%R] [1; 0]%R) as [Hf _].
  rewrite Hf; rewrite ?magnitude_axis by lra; try lra.
  unfold Core.dot. simpl. field. lra.
Qed.

Lemma cosine_orthogonal : Core.cosine [0; 1]%R [1; 0]%R = 0%R.
Proof.
  destruct (cosine_spec [0; 1]%R [1; 0]%R) as [Hf _].
  assert (Core.magnitude [0; 1]%R = 1%R) as Hm.
  { unfold Core.magnitude, Core.dot. simpl.
    replace (0 * 0 + (1 * 1 + 0))%R with (1 * 1)%R by ring.
    apply sqrt_square. lra. }
  rewrite Hf; rewrite ?Hm, ?magnitude_axis by lra; try lra.
  unfold Core.dot. simpl. field.
Qed.

Lemma plane_candidates :
  @Core.candidates "p1" "main" plane_store = plane_store.
Proof. reflexivity. Qed.

(** C8. Every result of [search] is a candidate scored by the cosine of its
    embedding [a] and the query embedding [b], [dot(a,b) / (|a| * |b|)]
    when both have a non-zero component, and [0] when one of them is all
    zeros, where [|a|] is the non-negative root of [dot(a,a)] and [dot] sums
    the products of the components; the results are the first [limit]
    entries of the candidates ordered by score descending, then higher
    confidence, then more recent [extractedAt]: an earlier result has the
    higher score, or the same score and the higher confidence, or the same
    score and confidence and an [extractedAt] no older, and every candidate
    left out ranks no higher than every result. *)
Theorem search_ranking `{Core.Ports} (p b query : string) (limit : nat)
    (rs : list Core.ContextRecord) :
  let q := Core.embed query in
  let res := Core.results (Core.search p b query limit rs).1 in
  (forall x, x ∈ res ->
     Core.ref x ∈ Core.candidates p b rs
     /\ exists a, Core.embedding (Core.ref x) = Some a
          /\ Core.score x = Core.cosine a q
          /\ (Core.magnitude a <> 0%R -> Core.magnitude q <> 0%R ->
                Core.score x
                = (Core.dot a q / (Core.magnitude a * Core.magnitude q))%R)
          /\ (Core.magnitude a = 0%R \/ Core.magnitude q = 0%R ->
                Core.score x = 0%R)
          /\ (Exists (fun v => v <> 0%R) a -> Exists (fun v => v <> 0%R) q ->
                Core.score x
                = (Core.dot a q
                   / (sqrt (Core.dot a a) * sqrt (Core.dot q q)))%R)
          /\ (Forall (fun v => v = 0%R) a \/ Forall (fun v => v = 0%R) q ->
                Core.score x = 0%R))
  /\ (forall a,
        (0 <= Core.magnitude a)%R
        /\ (Core.magnitude a * Core.magnitude a)%R = Core.dot a a
        /\ (Core.magnitude a = 0%R <-> Forall (fun v => v = 0%R) a))
  /\ (forall x y a c,
        Core.dot (x :: a) (y :: c) = (x * y + Core.dot a c)%R
        /\ Core.dot [] c = 0%R /\ Core.dot a [] = 0%R)
  /\ StronglySorted Core.ranks res
  /\ (forall i j x y,
        res !! i = Some x -> res !! j = Some y -> i < j ->
        (Core.score y < Core.score x)%R
        \/ (Core.score x = Core.score y
            /\ (Qlt (Core.conf y) (Core.conf x)
                \/ (Qeq (Core.conf x) (Core.conf y)
                    /\ (Core.time (Core.ref y) <= Core.time (Core.ref x))%Z))))
  /\ length res = limit `min` length (Core.candidates p b rs)
  /\ exists rest,
       res ++ rest ≡ₚ Core.rank q <$> Core.candidates p b rs
       /\ forall x y, x ∈ res -> y ∈ rest -> Core.ranks x y.
Proof.
  intros q res.
  set (cs := Core.candidates p b rs).
  set (sorted := merge_sort Core.ranks (Core.rank q <$> cs)).
  assert (res = take limit sorted) as ->.
  { unfold res, sorted, Core.search. fold cs. destruct cs as [|c cs'] eqn:E.
    - by destruct limit.
    - fold q. by destruct (Core.answer _ _). }
  assert (StronglySorted Core.ranks sorted) as Hsorted
    by apply (StronglySorted_merge_sort _).
  assert (sorted ≡ₚ Core.rank q <$> cs) as Hperm
    by apply merge_sort_Permutation.
  split; [|split; [|split; [|split; [|split; [|split]]]]].
  - intros x Hx%(subseteq_take limit sorted). rewrite Hperm in Hx.
    apply list_elem_of_fmap in Hx as (r & -> & Hr). simpl.
    split; [done|].
    apply list_elem_of_filter in Hr as [[a Ha] _]. exists a.
    rewrite Ha. simpl. split; [done|]. split; [done|].
    destruct (cosine_spec a q) as [Hf Hz].
    split; [done|]. split; [done|]. split.
    + intros Ha0 Hq0. apply Hf.
      * rewrite (proj2 (proj2 (magnitude_spec a))).
        intros Hall. apply Exists_exists in Ha0 as (v & Hv & Hne).
        by eapply Forall_forall in Hall.
      * rewrite (proj2 (proj2 (magnitude_spec q))).
        intros Hall. apply Exists_exists in Hq0 as (v & Hv & Hne).
        by eapply Forall_forall in Hall.
    + intros [Ha0|Hq0]; apply Hz; [left|right];
        by apply (magnitude_spec _).
  - apply magnitude_spec.
  - intros x y a c. split; [done|]. split; [done|].
    unfold Core.dot. by destruct a.
  - by apply StronglySorted_take.
  - intros i j x y Hi Hj Hij.
    apply (StronglySorted_lookup_lt Core.ranks (take limit sorted) i j);
      [by apply StronglySorted_take|done|done|done].
  - rewrite length_take. f_equal.
    by rewrite (Permutation_length Hperm), length_fmap.
  - exists (drop limit sorted). split; [by rewrite take_drop|].
    intros x y Hx Hy. rewrite <- (take_drop limit sorted) in Hsorted.
    by eapply StronglySorted_app_1_elem_of.
Qed.

Lemma search_ranking_witness :
  let res :=
    Core.results
      (@Core.search plane_ports "p1" "main" "auth?" 2 plane_store).1 in
  Core.ref <$> res
  = [plane_record 2 [2; 0]%R 0.95%Q 1; plane_record 1 [1; 0]%R 0.9%Q 2]
  /\ Core.score <$> res = [1; 1]%R.
Proof.
  intros res.
  destruct (@search_ranking plane_ports "p1" "main" "auth?" 2 plane_store)
    as (_ & _ & _ & _ & Hord & Hlen & rest & Hperm & Hrank).
  fold res in Hord, Hlen, Hperm, Hrank.
  rewrite plane_candidates in Hlen, Hperm.
  set (a := @Core.rank plane_ports [1; 0]%R (plane_record 0 [0; 1]%R 0.9%Q 3)).
  set (b := @Core.rank plane_ports [1; 0]%R (plane_record 1 [1; 0]%R 0.9%Q 2)).
  set (c := @Core.rank plane_ports [1; 0]%R (plane_record 2 [2; 0]%R 0.95%Q 1)).
  change (res ++ rest ≡ₚ [a; b; c]) in Hperm.
  assert (Core.score a = 0%R) as Ha by apply cosine_orthogonal.
  assert (Core.score b = 1%R) as Hb by (apply cosine_axis; lra).
  assert (Core.score c = 1%R) as Hc by (apply cosine_axis; lra).
  assert (~ Core.ranks a b) as Hab.
  { unfold Core.ranks. rewrite Ha, Hb. intros [?|[? _]]; lra. }
  assert (~ Core.ranks a c) as Hac.
  { unfold Core.ranks. rewrite Ha, Hc. intros [?|[? _]]; lra. }
  assert (~ Core.ranks b c) as Hbc.
  { unfold Core.ranks. rewrite Hb, Hc.
    intros [?|[_ [Hlt|[Heq _]]]]; [lra|by vm_compute in Hlt|
                                   by vm_compute in Heq]. }
  destruct res as [|x [|y [|? ?]]]; try done.
  assert (length rest = 1) as Hrest.
  { apply Permutation_length in Hperm. rewrite length_app in Hperm.
    simpl in Hperm. lia. }
  destruct rest as [|z [|? ?]]; try done. simpl in Hperm.
  assert (Core.ranks x y) as Hxy by (apply (Hord 0 1); [done|done|lia]).
  assert (Core.ranks x z) as Hxz
    by (apply Hrank; [apply list_elem_of_here|apply list_elem_of_here]).
  assert (Core.ranks y z) as Hyz
    by (apply Hrank;
        [apply list_elem_of_further, list_elem_of_here
        |apply list_elem_of_here]).
  assert (a ∈ [x; y; z]) as Hina
    by (rewrite Hperm; apply list_elem_of_here).
  assert (b ∈ [x; y; z]) as Hinb
    by (rewrite Hperm; apply list_elem_of_further, list_elem_of_here).
  assert (c ∈ [x; y; z]) as Hinc
    by (rewrite Hperm; do 2 apply list_elem_of_further;
        apply list_elem_of_here).
  assert (a <> b) as Nab by (intros E; rewrite E, Hb in Ha; lra).
  assert (a <> c) as Nac by (intros E; rewrite E, Hc in Ha; lra).
  assert (b <> c) as Nbc.
  { intros E%(f_equal (fun r => Core.contextId (Core.ref r))). done. }
  assert (z = a) as ->.
  { apply elem_of_cons in Hina as [->|Hina].
    { apply elem_of_cons in Hinb as [->|Hinb]; [done|].
      apply elem_of_cons in Hinb as [->|Hinb]; [done|].
      apply list_elem_of_singleton in Hinb as ->. done. }
    apply elem_of_cons in Hina as [->|Hina].
    { apply elem_of_cons in Hinb as [->|Hinb].
      - apply elem_of_cons in Hinc as [->|Hinc]; [done|].
        apply elem_of_cons in Hinc as [->|Hinc]; [done|].
        apply list_elem_of_singleton in Hinc as ->. done.
      - apply elem_of_cons in Hinb as [->|Hinb]; [done|].
        apply list_elem_of_singleton in Hinb as ->. done. }
    by apply list_elem_of_singleton in Hina. }
  assert (x = c /\ y = b) as [-> ->].
  { apply elem_of_cons in Hinb as [->|Hinb].
    - apply elem_of_cons in Hinc as [->|Hinc]; [done|].
      apply elem_of_cons in Hinc as [->|Hinc]; [done|].
      apply list_elem_of_singleton in Hinc. done.
    - apply elem_of_cons in Hinb as [->|Hinb].
      + apply elem_of_cons in Hinc as [->|Hinc]; [done|].
        apply elem_of_cons in Hinc as [->|Hinc]; [done|].
        apply list_elem_of_singleton in Hinc. done.
      + apply list_elem_of_singleton in Hinb. done. }
  split; [reflexivity|].
  change (Core.score <$> [c; b]) with [Core.score c; Core.score b].
  by rewrite Hb, Hc.
Defined.

(** ** Branch merges *)

Lemma mergeable_spec (source : string) (r : Core.ContextRecord) :
  Core.mergeable source r = true
  <-> Core.branch r = source /\ Core.mergedInto r = None.
Proof.
  unfold Core.mergeable.
  by rewrite andb_true_iff, String.eqb_eq, bool_decide_eq_true.
Qed.

Lemma elem_of_fetch (p : string) (sel : Core.ContextRecord -> bool)
    (rs : list Core.ContextRecord) (r : Core.ContextRecord) :
  r ∈ Core.fetch p sel None rs
  <-> r ∈ rs /\ Core.projectId r = p /\ Core.status r = Core.complete
      /\ sel r = true.
Proof.
  unfold Core.fetch. simpl. rewrite merge_sort_Permutation.
  rewrite list_elem_of_filter, Is_true_true, !andb_true_iff.
  rewrite String.eqb_eq, bool_decide_eq_true. tauto.
Qed.

Lemma elem_of_resolve_native (p b : string) (rs : list Core.ContextRecord)
    (r : Core.ContextRecord) :
  r ∈ rs -> Core.projectId r = p -> Core.status r = Core.complete ->
  Core.native_to b r = true ->
  let x := {| Core.origin := Core.branch r; Core.inherited := false;
              Core.record := r |} in
  x ∈ Core.resolve p b None rs.
Proof.
  intros Hin Hp Hs Hn x. unfold Core.resolve. apply elem_of_app. left.
  apply list_elem_of_fmap. exists r. split; [done|].
  by apply elem_of_fetch.
Qed.

(** The limit and the restriction to complete records apply to merged
    records as they do to the records created on the branch: after
    [feature/x], with eleven push records and one uncommitted record, is
    merged into [main], [resolve] on [main] with its default limit of 10
    leaves out the oldest push record, and with no limit it leaves out the
    uncommitted one. *)
Lemma resolve_misses_merged_records :
  let rs := Core.onBranchMerged "feature/x" "main" 99 feature_store in
  let oldest := Core.tag "main" 99 (feature_record 0) in
  let orphan := Core.tag "main" 99 feature_orphan in
  rs !! 0 = Some oldest /\ rs !! 11 = Some orphan
  /\ (oldest ∉ Core.record
                <$> Core.resolve "p1" "main" (Some Core.DEFAULT_LIMIT) rs)
  /\ (orphan ∉ Core.record <$> Core.resolve "p1" "main" None rs).
Proof.
  intros rs oldest orphan.
  split; [reflexivity|]. split; [reflexivity|]. split.
  - intros Hin. apply (list_elem_of_fmap_2 Core.contextId) in Hin.
    vm_compute in Hin.
    repeat (apply elem_of_cons in Hin as [Hin|Hin]; [done|]).
    by apply elem_of_nil in Hin.
  - intros Hin. apply (list_elem_of_fmap_2 Core.contextId) in Hin.
    vm_compute in Hin.
    repeat (apply elem_of_cons in Hin as [Hin|Hin]; [done|]).
    by apply elem_of_nil in Hin.
Qed.

Section merge_sort_fmap.
Context {A B : Type} (R : relation A) (R' : relation B) (f : A -> B).
Context {HR : forall x y, Decision (R x y)}.
Context {HR' : forall x y, Decision (R' x y)}.
Hypothesis Hf : forall x y, R' (f x) (f y) <-> R x y.

Lemma list_merge_fmap (l1 l2 : list A) :
  list_merge R' (f <$> l1) (f <$> l2) = f <$> list_merge R l1 l2.
Proof.
  revert l2. induction l1 as [|x1 l1 IH1]; intros l2; [by destruct l2|].
  induction l2 as [|x2 l2 IH2]; [done|].
  cbn [fmap list_fmap list_merge] in *.
  rewrite (decide_ext (R' (f x1) (f x2)) (R x1 x2) _ _ (Hf x1 x2)).
  destruct (decide (R x1 x2)).
  - cbn [fmap list_fmap]. f_equal. apply (IH1 (x2 :: l2)).
  - cbn [fmap list_fmap]. f_equal. apply IH2.
Qed.

Lemma merge_list_to_stack_fmap (st : list (option (list A))) (l : list A) :
  merge_list_to_stack R' (fmap (M:=list) (fmap (M:=option) (fmap f)) st)
    (f <$> l)
  = fmap (M:=list) (fmap (M:=option) (fmap f))
      (merge_list_to_stack R st l).
Proof.
  revert l. induction st as [|[l'|] st IH]; intros l; [done| |done].
  cbn [merge_list_to_stack fmap list_fmap option_fmap option_map].
  f_equal. rewrite <- IH. f_equal. apply list_merge_fmap.
Qed.

Lemma merge_stack_fmap (st : list (option (list A))) :
  merge_stack R' (fmap (M:=list) (fmap (M:=option) (fmap f)) st)
  = f <$> merge_stack R st.
Proof.
  induction st as [|[l'|] st IH]; [done| |done].
  cbn [merge_stack fmap list_fmap option_fmap option_map] in *.
  rewrite IH. apply list_merge_fmap.
Qed.

Lemma merge_sort_aux_fmap (st : list (option (list A))) (l : list A) :
  merge_sort_aux R' (fmap (M:=list) (fmap (M:=option) (fmap f)) st)
    (f <$> l)
  = f <$> merge_sort_aux R st l.
Proof.
  revert st. induction l as [|x l IH]; intros st.
  - apply merge_stack_fmap.
  - cbn [merge_sort_aux fmap list_fmap]. rewrite <- IH. f_equal.
    apply (merge_list_to_stack_fmap st [x]).
Qed.

Lemma merge_sort_fmap (l : list A) :
  merge_sort R' (f <$> l) = f <$> merge_sort R l.
Proof. apply (merge_sort_aux_fmap [] l). Qed.
End merge_sort_fmap.

Lemma filter_bool_fmap {A} (f : A -> A) (P Q : A -> bool) (l : list A) :
  (forall x, Q (f x) = P x) ->
  filter (fun x => Q x) (f <$> l) = f <$> filter (fun x => P x) l.
Proof.
  intros HPQ. induction l as [|x l IH]; [done|].
  rewrite fmap_cons, !filter_cons, HPQ.
  destruct (decide (P x)); by rewrite IH.
Qed.

Lemma fetch_fmap (f : Core.ContextRecord -> Core.ContextRecord)
    (p : string) (sel sel' : Core.ContextRecord -> bool)
    (limit : option nat) (rs : list Core.ContextRecord) :
  (forall r, Core.projectId (f r) = Core.projectId r) ->
  (forall r, Core.status (f r) = Core.status r) ->
  (forall r, Core.extractedAt (f r) = Core.extractedAt r) ->
  (forall r, sel' (f r) = sel r) ->
  Core.fetch p sel' limit (f <$> rs) = f <$> Core.fetch p sel limit rs.
Proof.
  intros Hp Hs Ht Hsel. unfold Core.fetch.
  rewrite (filter_bool_fmap f
             (fun r => String.eqb (Core.projectId r) p
                       && bool_decide (Core.status r = Core.complete)
                       && sel r)).
  - rewrite (merge_sort_fmap Core.newer Core.newer f).
    + destruct limit; simpl; by rewrite ?fmap_take.
    + intros x y. unfold Core.newer, Core.time. by rewrite !Ht.
  - intros r. by rewrite Hp, Hs, Hsel.
Qed.

Lemma parent_of_fmap (f : Core.ContextRecord -> Core.ContextRecord)
    (p b : string) (rs : list Core.ContextRecord) :
  (forall r, Core.projectId (f r) = Core.projectId r) ->
  (forall r, Core.branch (f r) = Core.branch r) ->
  (forall r, Core.parentBranch (f r) = Core.parentBranch r) ->
  Core.parent_of p b (f <$> rs) = Core.parent_of p b rs.
Proof.
  intros Hp Hb Hpb. unfold Core.parent_of. f_equal.
  rewrite (filter_bool_fmap f
             (fun r => String.eqb (Core.projectId r) p
                       && String.eqb (Core.branch r) b))
    by (intros r; by rewrite Hp, Hb).
  generalize (filter
                (fun r => String.eqb (Core.projectId r) p
                          && String.eqb (Core.branch r) b) rs).
  intros l. induction l as [|r l IH]; [done|].
  rewrite fmap_cons. cbn [omap list_omap]. by rewrite Hpb, IH.
Qed.

Lemma retag_fields (source target : string) (at_ : Z)
    (r : Core.ContextRecord) :
  let r' := retag source target at_ r in
  Core.contextId r' = Core.contextId r
  /\ Core.projectId r' = Core.projectId r
  /\ Core.branch r' = Core.branch r
  /\ Core.author r' = Core.author r
  /\ Core.parentBranch r' = Core.parentBranch r
  /\ Core.commitHash r' = Core.commitHash r
  /\ Core.sourceEventId r' = Core.sourceEventId r
  /\ Core.pushedAt r' = Core.pushedAt r
  /\ Core.derived r' = Core.derived r
  /\ Core.agentReasoning r' = Core.agentReasoning r
  /\ Core.embedding r' = Core.embedding r
  /\ Core.status r' = Core.status r
  /\ Core.extractedAt r' = Core.extractedAt r
  /\ Core.loggedAt r' = Core.loggedAt r.
Proof. unfold retag. by destruct (Core.mergeable source r). Qed.

Lemma native_to_retag (source target : string) (at_ : Z) (b : string)
    (r : Core.ContextRecord) :
  b = source \/ b <> target ->
  Core.native_to b (retag source target at_ r) = Core.native_to b r.
Proof.
  intros Hb. unfold retag.
  destruct (Core.mergeable source r) eqn:Hm; [|done].
  apply mergeable_spec in Hm as [Hbr Hm]. unfold Core.native_to. simpl.
  rewrite Hbr, Hm. destruct Hb as [->|Hb].
  - by rewrite String.eqb_refl.
  - f_equal. rewrite !bool_decide_eq_false_2; [done|done|congruence].
Qed.

Lemma resolve_retag (source target : string) (at_ : Z) (p b : string)
    (limit : option nat) (rs : list Core.ContextRecord) :
  b = source \/ b <> target ->
  Core.resolve p b limit (Core.onBranchMerged source target at_ rs)
  = retagged source target at_ <$> Core.resolve p b limit rs.
Proof.
  intros Hb. unfold Core.resolve.
  change (Core.onBranchMerged source target at_ rs)
    with (retag source target at_ <$> rs).
  pose proof (retag_fields source target at_) as Hf. simpl in Hf.
  rewrite parent_of_fmap by (intros r; apply (Hf r)).
  rewrite (fetch_fmap _ p (Core.native_to b)); try (intros r; apply (Hf r)).
  2: { intros r. by apply native_to_retag. }
  rewrite fmap_app, <- !list_fmap_compose. f_equal.
  - apply list_fmap_ext. intros i r _. unfold retagged. simpl.
    f_equal. apply (Hf r).
  - destruct (Core.parent_of p b rs) as [pb|]; [|done].
    rewrite (fetch_fmap _ p (fun r => String.eqb (Core.branch r) pb));
      try (intros r; apply (Hf r)).
    2: { intros r. f_equal. apply (Hf r). }
    rewrite <- !list_fmap_compose.
    apply list_fmap_ext. intros i r _. unfold retagged. simpl.
    f_equal. apply (Hf r).
Qed.

Lemma natives_resolve (p b : string) (limit : option nat)
    (rs : list Core.ContextRecord) :
  natives (Core.resolve p b limit rs)
  = Core.fetch p (Core.native_to b) limit rs.
Proof.
  unfold natives, Core.resolve. rewrite filter_app, fmap_app.
  generalize (Core.fetch p (Core.native_to b) limit rs). intros l.
  match goal with |- context [filter _ (_ <$> ?m)] =>
    match m with l => fail 1 | _ => generalize m end end.
  intros l'.
  assert (Core.record
            <$> filter (fun x => Core.inherited x = false)
                  ((fun r => {| Core.origin := Core.branch r;
                                Core.inherited := true;
                                Core.record := r |}) <$> l') = []) as ->.
  { induction l' as [|r l' IH]; [done|].
    rewrite fmap_cons, filter_cons_False; done. }
  rewrite app_nil_r. induction l as [|r l IH]; [done|].
  rewrite fmap_cons, filter_cons_True by done. rewrite fmap_cons.
  by rewrite IH.
Qed.

Lemma adopted_spec (target : string) (r : Core.ContextRecord) :
  let r' := adopted target r in
  Core.projectId r' = Core.projectId r
  /\ Core.status r' = Core.status r
  /\ Core.extractedAt r' = Core.extractedAt r
  /\ Core.native_to target r' = Core.native_to target r
  /\ Core.native_to target r' = String.eqb (Core.branch r') target
  /\ Core.mergedInto r' <> Some target.
Proof.
  unfold adopted, Core.native_to.
  destruct (bool_decide (Core.mergedInto r = Some target)) eqn:Hm; simpl.
  - rewrite String.eqb_refl, orb_true_r. done.
  - apply bool_decide_eq_false in Hm.
    rewrite (bool_decide_eq_false_2 _ Hm), orb_false_r. done.
Qed.

(** C7. [onBranchMerged] rewrites the records in place: a record with
    [branch = source] and [mergedInto] unset gets [mergedInto] and
    [mergedAt], every other record is left as it is, and no other field of
    any record changes, the branch in particular. Afterwards [resolve] on
    the target treats the tagged records as native: with an unbounded limit
    it returns, as native, every tagged record of the project that is
    complete, and for every limit its native records are those it would
    return had every record merged into the target been created there,
    with the target as its branch and no merge tag. The records remain
    retrievable under the source: for every limit [resolve] on the source,
    and on every branch other than the target, returns what it returned
    before the merge, with the new tags. *)
Theorem onBranchMerged_tags (source target : string) (at_ : Z)
    (rs : list Core.ContextRecord) :
  let rs' := Core.onBranchMerged source target at_ rs in
  length rs' = length rs
  /\ (forall i r, rs !! i = Some r ->
        exists r', rs' !! i = Some r'
          /\ (Core.branch r = source -> Core.mergedInto r = None ->
                Core.mergedInto r' = Some target
                /\ Core.mergedAt r' = Some at_)
          /\ (~ (Core.branch r = source /\ Core.mergedInto r = None) -> r' = r)
          /\ Core.contextId r' = Core.contextId r
          /\ Core.projectId r' = Core.projectId r
          /\ Core.branch r' = Core.branch r
          /\ Core.author r' = Core.author r
          /\ Core.parentBranch r' = Core.parentBranch r
          /\ Core.commitHash r' = Core.commitHash r
          /\ Core.sourceEventId r' = Core.sourceEventId r
          /\ Core.pushedAt r' = Core.pushedAt r
          /\ Core.derived r' = Core.derived r
          /\ Core.agentReasoning r' = Core.agentReasoning r
          /\ Core.embedding r' = Core.embedding r
          /\ Core.status r' = Core.status r
          /\ Core.extractedAt r' = Core.extractedAt r
          /\ Core.loggedAt r' = Core.loggedAt r)
  /\ (forall p r,
        r ∈ rs -> Core.branch r = source -> Core.mergedInto r = None ->
        Core.projectId r = p -> Core.status r = Core.complete ->
        let x := {| Core.origin := source; Core.inherited := false;
                    Core.record := Core.tag target at_ r |} in
        x ∈ Core.resolve p target None rs'
        /\ x ∈ Core.resolve p source None rs')
  /\ (forall p limit,
        natives (Core.resolve p target limit (adopted target <$> rs'))
        = adopted target <$> natives (Core.resolve p target limit rs'))
  /\ (forall r,
        Core.mergedInto (adopted target r) <> Some target
        /\ Core.native_to target (adopted target r)
           = String.eqb (Core.branch (adopted target r)) target
        /\ (Core.mergedInto r <> Some target -> adopted target r = r)
        /\ (Core.mergedInto r = Some target ->
              Core.branch (adopted target r) = target))
  /\ (forall p limit,
        Core.resolve p source limit rs'
        = retagged source target at_ <$> Core.resolve p source limit rs)
  /\ (forall p b limit, b <> target ->
        Core.resolve p b limit rs'
        = retagged source target at_ <$> Core.resolve p b limit rs).
Proof.
  intros rs'. split; [|split; [|split; [|split; [|split; [|split]]]]].
  - unfold rs', Core.onBranchMerged. by rewrite length_fmap.
  - intros i r Hi. unfold rs', Core.onBranchMerged.
    rewrite list_lookup_fmap, Hi. simpl. eexists. split; [done|].
    destruct (Core.mergeable source r) eqn:Hm.
    + apply mergeable_spec in Hm. simpl. repeat split; tauto.
    + assert (~ (Core.branch r = source /\ Core.mergedInto r = None)) as Hn.
      { rewrite <- mergeable_spec. congruence. }
      repeat split; tauto.
  - intros p r Hin Hb Hm Hp Hs x. unfold x. clear x.
    set (r' := Core.tag target at_ r).
    assert (r' ∈ rs') as Hin'.
    { unfold rs', Core.onBranchMerged. apply list_elem_of_fmap. exists r.
      split; [|done].
      by rewrite (proj2 (mergeable_spec source r) (conj Hb Hm)). }
    assert (Core.branch r' = source) as Hb' by done.
    split; rewrite <- Hb'; apply elem_of_resolve_native; try done.
    + unfold Core.native_to. simpl.
      by rewrite bool_decide_eq_true_2, orb_true_r.
    + unfold Core.native_to. rewrite Hb'.
      by rewrite String.eqb_refl.
  - intros p limit. rewrite !natives_resolve.
    apply fetch_fmap; intros r; apply (adopted_spec target r).
  - intros r. split; [apply (adopted_spec target r)|].
    split; [apply (adopted_spec target r)|].
    unfold adopted. split.
    + intros Hm. by rewrite (bool_decide_eq_false_2 _ Hm).
    + intros Hm. by rewrite (bool_decide_eq_true_2 _ Hm).
  - intros p limit. apply resolve_retag. by left.
  - intros p b limit Hb. apply resolve_retag. by right.
Qed.

Lemma onBranchMerged_tags_witness :
  let rs' := Core.onBranchMerged "feature/x" "main" 99 feature_store in
  length (natives (Core.resolve "p1" "main" (Some Core.DEFAULT_LIMIT) rs'))
  = 10
  /\ natives (Core.resolve "p1" "main" (Some Core.DEFAULT_LIMIT)
                (adopted "main" <$> rs'))
     = adopted "main"
         <$> natives (Core.resolve "p1" "main" (Some Core.DEFAULT_LIMIT) rs')
  /\ Core.resolve "p1" "feature/x" (Some Core.DEFAULT_LIMIT) rs'
     = retagged "feature/x" "main" 99
         <$> Core.resolve "p1" "feature/x" (Some Core.DEFAULT_LIMIT)
               feature_store.
Proof.
  intros rs'.
  destruct (onBranchMerged_tags "feature/x" "main" 99 feature_store)
    as (_ & _ & _ & Hnative & _ & Hsource & _).
  split; [reflexivity|]. split; [apply Hnative|apply Hsource].
Defined.

(** * Further properties of the sources *)

(** ** Bearer tokens *)

Lemma split_on_no_sep (sep : ascii) (l w : list ascii) :
  w ∈ split_on sep l -> Forall (fun c => c <> sep) w.
Proof.
  revert w. induction l as [|c l IH]; intros w; simpl.
  - intros ->%list_elem_of_singleton. constructor.
  - destruct (Ascii.eqb c sep) eqn:E.
    + intros [->|Hw]%elem_of_cons; [constructor|by apply IH].
    + apply Ascii.eqb_neq in E.
      destruct (split_on sep l) as [|w0 ws] eqn:Hs.
      * intros ->%list_elem_of_singleton. by repeat constructor.
      * intros [->|Hw]%elem_of_cons.
        -- constructor; [done|]. apply IH. left.
        -- apply IH. by right.
Qed.

Lemma js_split_no_sep (sep : ascii) (s : string) (i : nat) (part : string) :
  js_split sep s !! i = Some part -> Forall (fun c => c <> sep) (chars part).
Proof.
  unfold js_split. rewrite list_lookup_fmap.
  destruct (split_on sep (chars s) !! i) as [w|] eqn:Hw; [|done].
  intros [= <-]. rewrite chars_str.
  eapply split_on_no_sep, list_elem_of_lookup_2, Hw.
Qed.

Lemma js_split_cons (sep : ascii) (s1 s2 : string) :
  Forall (fun c => c <> sep) (chars s1) ->
  js_split sep (s1 +:+ String sep "" +:+ s2) = s1 :: js_split sep s2.
Proof.
  intros H1. unfold js_split. rewrite !chars_app. simpl.
  rewrite split_on_app by done. simpl. by rewrite str_chars.
Qed.

Lemma js_split_head (sep : ascii) (s : string) :
  exists part parts, js_split sep s = part :: parts.
Proof.
  unfold js_split. destruct (chars s) as [|c l]; simpl; [by eexists _, _|].
  destruct (Ascii.eqb c sep); [by eexists _, _|].
  destruct (split_on sep l); by eexists _, _.
Qed.

Lemma extractToken_header (a : string) (lower : option string) :
  extractToken (Some {| Authorization := Some a; authorization := lower |})
  = if negb (truthy (Some a)) then None
    else if bool_decide (js_split " " a !! 0 = Some "Bearer")
            && truthy (js_split " " a !! 1)
         then js_split " " a !! 1 else None.
Proof. reflexivity. Qed.




(** ** Stored hashes *)

Lemma length_to_hex (bs : list Byte.byte) :
  String.length (to_hex bs) = 2 * length bs.
Proof.
  unfold to_hex. rewrite length_str.
  induction bs as [|b bs IH]; [done|].
  change (length (hex_digit (Byte.to_N b / 16) :: hex_digit (Byte.to_N b mod 16)
                  :: (bs ≫= fun b => [hex_digit (Byte.to_N b / 16);
                                      hex_digit (Byte.to_N b mod 16)]))
          = 2 * length (b :: bs)).
  simpl. rewrite IH. lia.
Qed.

(** X2. The format of a stored hash. [hashToken] returns the salt and the
    digest in hexadecimal around one colon, [2 * |salt| + 129] characters in
    all; splitting at the colon and decoding gives back the salt that was
    drawn and the digest of the plaintext under the encoded salt. *)
Theorem hashToken_format `{Scrypt} (salt : list Byte.byte) (t : string) :
  let stored := hashToken salt t in
  String.length stored = 2 * length salt + 129
  /\ Forall (fun c => hex c = true \/ c = ":"%char) (chars stored)
  /\ exists a b,
       js_split ":" stored = [a; b]
       /\ from_hex a = salt
       /\ from_hex b = scryptSync t a.
Proof.
  intros stored. split; [|split].
  - unfold stored, hashToken.
    rewrite !string_length_app, !length_to_hex, scryptSync_length. simpl. lia.
  - unfold stored, hashToken. rewrite !chars_app, !Forall_app. simpl.
    split; [|split].
    + eapply Forall_impl; [apply to_hex_chars|]. by left.
    + constructor; [by right|constructor].
    + eapply Forall_impl; [apply to_hex_chars|]. by left.
  - exists (to_hex salt), (to_hex (scryptSync t (to_hex salt))).
    split; [apply hashToken_split|]. by rewrite !from_hex_to_hex.
Qed.

Lemma verifyToken_parts `{Scrypt} (t : string) (stored : option string) :
  verifyToken t stored
  = match js_split ":" (default "" stored) !! 0,
          js_split ":" (default "" stored) !! 1 with
    | Some (String c salt), Some (String d hash) =>
        if decide (length (from_hex (String d hash)) = 64)
        then Ret (bool_decide (from_hex (String d hash)
                               = scryptSync t (String c salt)))
        else Throw "ERR_CRYPTO_TIMING_SAFE_EQUAL_LENGTH"
    | _, _ => Ret false
    end.
Proof.
  unfold verifyToken.
  destruct (js_split ":" (default "" stored) !! 0) as [[|c salt]|];
    [done| |done].
  destruct (js_split ":" (default "" stored) !! 1) as [[|d hash]|];
    [done| |done].
  cbn [truthy negb orb default from_option]. rewrite from_hex_to_hex.
  unfold timingSafeEqual. rewrite scryptSync_length.
  by destruct (decide _).
Qed.

(** X3. [verifyToken] on an arbitrary stored value. It answers true exactly
    when the value splits at colons into a non-empty salt and a non-empty
    hash whose decoded bytes are the digest of the plaintext under that
    salt; it throws exactly when both parts are non-empty and the hash does
    not decode to 64 bytes; a missing value and a value without a colon
    are rejected with false. *)
Theorem verifyToken_cases `{Scrypt} (t : string) (stored : option string) :
  let parts := js_split ":" (default "" stored) in
  (verifyToken t stored = Ret true <->
     exists salt hash,
       parts !! 0 = Some salt /\ parts !! 1 = Some hash
       /\ salt <> "" /\ hash <> ""
       /\ from_hex hash = scryptSync t salt)
  /\ ((exists e, verifyToken t stored = Throw e) <->
        exists salt hash,
          parts !! 0 = Some salt /\ parts !! 1 = Some hash
          /\ salt <> "" /\ hash <> ""
          /\ length (from_hex hash) <> 64)
  /\ verifyToken t None = Ret false
  /\ (Forall (fun c => c <> ":"%char) (chars (default "" stored)) ->
      verifyToken t stored = Ret false).
Proof.
  intros parts. rewrite verifyToken_parts. fold parts.
  split; [|split; [|split]].
  - destruct (parts !! 0) as [[|c salt]|]; [| |].
    + split; [done|]. by intros (? & ? & [= <-] & _ & ? & _).
    + destruct (parts !! 1) as [[|d hash]|].
      * split; [done|]. by intros (? & ? & _ & [= <-] & _ & ? & _).
      * destruct (decide _) as [Hlen|Hlen].
        -- split.
           ++ intros [= Heq%bool_decide_eq_true]. eauto 10.
           ++ intros (? & ? & [= <-] & [= <-] & _ & _ & Heq).
              by rewrite bool_decide_eq_true_2.
        -- split; [done|].
           intros (? & ? & [= <-] & [= <-] & _ & _ & Heq).
           rewrite Heq, scryptSync_length in Hlen. done.
      * split; [done|]. by intros (? & ? & _ & ? & _).
    + split; [done|]. by intros (? & ? & ? & _).
  - destruct (parts !! 0) as [[|c salt]|]; [| |].
    + split; [by intros [? ?]|]. by intros (? & ? & [= <-] & _ & ? & _).
    + destruct (parts !! 1) as [[|d hash]|].
      * split; [by intros [? ?]|]. by intros (? & ? & _ & [= <-] & _ & ? & _).
      * destruct (decide _) as [Hlen|Hlen].
        -- split; [by intros [? ?]|].
           by intros (? & ? & [= <-] & [= <-] & _ & _ & ?).
        -- split; [eauto 10|]. intros _. by eexists.
      * split; [by intros [? ?]|]. by intros (? & ? & _ & ? & _).
    + split; [by intros [? ?]|]. by intros (? & ? & ? & _).
  - by rewrite verifyToken_parts.
  - intros Hno. unfold parts, js_split. rewrite split_on_last by done.
    simpl. by destruct (str _).
Qed.

Lemma verifyToken_cases_witness :
  @verifyToken sample_scrypt sample_token (Some "no colon in here") = Ret false.
Proof.
  destruct (@verifyToken_cases sample_scrypt sample_token
              (Some "no colon in here")) as (_ & _ & _ & H).
  apply H. repeat constructor; done.
Defined.

(** ** Authentication and project creation *)

(** X4. [authenticate] hands out a project only when the request carries a
    bearer token, the project id is a non-empty key of the projects table,
    the project is the item stored under that key and [verifyToken] accepts
    the token against its stored hash; without a bearer token it answers
    [401] without reading the table, even when the table is unreachable. *)
Theorem authenticate_sound `{Scrypt} faults w headers pid :
  (forall project,
     authenticate faults w headers pid = Ret (AuthProject project) ->
     exists token id,
       extractToken headers = Some token
       /\ pid = Some id /\ id <> ""
       /\ getProjectFails faults = false
       /\ projectsTable w !! id = Some project
       /\ verifyToken token (apiTokenHash project) = Ret true)
  /\ (extractToken headers = None ->
        authenticate faults w headers pid
        = Ret (AuthError 401
                 (Error "invalid_token" (Some "Missing Authorization header")
                    [])))
  /\ (forall token,
        extractToken headers = Some token -> getProjectFails faults = true ->
        exists e, authenticate faults w headers pid = Throw e).
Proof.
  unfold authenticate, getProjectItem. split; [|split].
  - intros project. destruct (extractToken headers) as [token|]; [|done].
    destruct (getProjectFails faults); [done|].
    destruct (truthy pid) eqn:Hpid; [|done].
    apply truthy_Some in Hpid as (id & -> & Hid). simpl.
    destruct (projectsTable w !! id) as [Item|] eqn:Hitem; simpl; [|done].
    destruct (truthy (apiTokenHash Item)); simpl; [|done].
    destruct (verifyToken token (apiTokenHash Item)) as [[]|] eqn:Hv;
      simpl; [|done|done].
    intros [= <-]. exists token, id. done.
  - by intros ->.
  - intros token -> ->. by eexists.
Qed.

Lemma authenticate_sound_witness :
  exists token,
    extractToken sample_headers = Some token
    /\ @verifyToken sample_scrypt token (apiTokenHash sample_project)
       = Ret true.
Proof.
  destruct (@authenticate_sound sample_scrypt no_faults sample_world
              sample_headers (Some "p1")) as (H & _).
  destruct (H sample_project) as (token & id & Ht & _ & _ & _ & _ & Hv).
  - vm_compute. reflexivity.
  - exists token. split; [exact Ht|exact Hv].
Defined.

Lemma createProject_ok `{Scrypt} faults entropy now input w :
  validateProjectInput input = [] -> putProjectFails faults = false ->
  let run := createProject faults entropy now (ProjectBody input) w in
  let apiToken := to_hex (tokenBytes entropy) in
  run.1 = Ret (respond 200 (Created (randomUUID entropy) apiToken))
  /\ exists record,
       projectsTable run.2 = <[randomUUID entropy := record]> (projectsTable w)
       /\ p_projectId record = randomUUID entropy
       /\ p_name record = default "" (name input)
       /\ p_description record = default "" (description input)
       /\ p_defaultBranch record = default "" (defaultBranch input)
       /\ apiTokenHash record = Some (hashToken (saltBytes entropy) apiToken)
       /\ createdAt record = now /\ lastActivityAt record = now
       /\ eventCount record = 0%Z
       /\ eventsTable run.2 = eventsTable w
       /\ rawEventsBucket run.2 = rawEventsBucket w
       /\ aiQueue run.2 = aiQueue w
       /\ auditTable run.2
          = if putAuditFails faults then auditTable w
            else <[(randomUUID entropy, now) :=
                   {| entityId := randomUUID entropy; a_timestamp := now;
                      entityType := "project"; action := "created";
                      actor := "system";
                      changes := ProjectChanges (default "" (name input))
                                   (default "" (defaultBranch input));
                      reason :=
                        Some "Project initialised via onboarding wizard" |}]>
                   (auditTable w).
Proof.
  intros Hv Hput run apiToken. unfold run, createProject, parse_project.
  rewrite Hv, Hput. simpl. split; [done|]. unfold non_fatal.
  destruct (putAuditFails faults); eexists; (split; [reflexivity|]);
    repeat split; reflexivity.
Qed.

Lemma extractToken_of_bearer (t : string) (lower : option string) :
  t <> "" -> Forall (fun c => c <> " "%char) (chars t) ->
  extractToken (Some {| Authorization := Some ("Bearer " +:+ t);
                        authorization := lower |}) = Some t.
Proof.
  intros Ht Hsp. rewrite extractToken_header.
  assert (js_split " " ("Bearer " +:+ t) = ["Bearer"; t]) as ->.
  { apply (js_split_pair " " "Bearer" t); [|done]. repeat constructor; done. }
  by destruct t.
Qed.

Lemma to_hex_no_space (bs : list Byte.byte) :
  Forall (fun c => c <> " "%char) (chars (to_hex bs)).
Proof.
  eapply Forall_impl; [apply to_hex_chars|]. intros c. by apply hex_not_sep.
Qed.

(** X5. The token that [createProject] returns opens the project it
    created: after a successful creation, a request carrying
    [Bearer <apiToken>] authenticates against the new project id, and
    [getProject] answers [200] with the name, description and default
    branch that were submitted and an event count of 0. *)
Theorem createProject_token_authenticates `{Scrypt}
    faults faults' entropy now input w :
  validateProjectInput input = [] ->
  putProjectFails faults = false ->
  getProjectFails faults' = false ->
  randomUUID entropy <> "" ->
  tokenBytes entropy <> [] ->
  saltBytes entropy <> [] ->
  let run := createProject faults entropy now (ProjectBody input) w in
  let apiToken := to_hex (tokenBytes entropy) in
  let headers := Some {| Authorization := Some ("Bearer " +:+ apiToken);
                         authorization := None |} in
  run.1 = Ret (respond 200 (Created (randomUUID entropy) apiToken))
  /\ (exists record,
        authenticate faults' run.2 headers (Some (randomUUID entropy))
        = Ret (AuthProject record))
  /\ exists view,
       getProject faults' headers (Some (randomUUID entropy)) run.2
       = (Ret (respond 200 (Info view)), run.2)
       /\ v_projectId view = randomUUID entropy
       /\ v_name view = default "" (name input)
       /\ v_description view = default "" (description input)
       /\ v_defaultBranch view = default "" (defaultBranch input)
       /\ v_eventCount view = 0%Z.
Proof.
  intros Hv Hput Hget Hid Htok Hsalt run apiToken headers.
  destruct (createProject_ok faults entropy now input w Hv Hput)
    as (Hr & record & Htab & Hpid & Hname & Hdesc & Hbr & Hhash & _ & _
        & Hcount & _).
  fold run apiToken in Hr, Htab, Hhash.
  assert (authenticate faults' run.2 headers (Some (randomUUID entropy))
          = Ret (AuthProject record)) as Hauth.
  { unfold authenticate, headers.
    rewrite extractToken_of_bearer;
      [|by apply to_hex_nonempty|apply to_hex_no_space].
    unfold getProjectItem. rewrite Hget.
    assert (truthy (Some (randomUUID entropy)) = true) as ->
      by by destruct (randomUUID entropy).
    simpl. rewrite Htab, lookup_insert_eq. simpl. rewrite Hhash.
    assert (truthy (Some (hashToken (saltBytes entropy) apiToken)) = true)
      as ->.
    { unfold hashToken. by destruct (to_hex (saltBytes entropy)). }
    simpl. rewrite verifyToken_digest by done.
    by rewrite bool_decide_eq_true_2. }
  split; [done|]. split; [by exists record|].
  eexists. split.
  - unfold getProject.
    assert (truthy (Some (randomUUID entropy)) = true) as ->
      by by destruct (randomUUID entropy).
    simpl. rewrite Hauth. reflexivity.
  - simpl. by rewrite Hpid, Hname, Hdesc, Hbr, Hcount.
Qed.

Lemma createProject_token_authenticates_witness :
  let input := {| name := Some "flowsync"; description := Some "demo";
                  languages := Arr ["TypeScript"]; frameworks := Missing;
                  defaultBranch := Some "main"; teamMembers := Missing |} in
  let run := @createProject sample_scrypt no_faults sample_entropy sample_now
               (ProjectBody input) sample_world in
  exists record,
    @authenticate sample_scrypt no_faults run.2
      (Some {| Authorization :=
                 Some ("Bearer " +:+ to_hex (tokenBytes sample_entropy));
               authorization := None |})
      (Some (randomUUID sample_entropy))
    = Ret (AuthProject record).
Proof.
  intros input run.
  apply (@createProject_token_authenticates sample_scrypt no_faults no_faults
           sample_entropy sample_now input sample_world); done.
Defined.

Lemma hashToken_not_plain `{Scrypt} (salt : list Byte.byte) (bs : list Byte.byte) :
  hashToken salt (to_hex bs) <> to_hex bs.
Proof.
  intros E. pose proof (to_hex_chars bs) as Hhex. rewrite <- E in Hhex.
  unfold hashToken in Hhex. rewrite !chars_app, !Forall_app in Hhex.
  destruct Hhex as (_ & Hc & _). simpl in Hc.
  apply Forall_cons in Hc as [Hc _]. done.
Qed.

(** ** What validation accepts *)

Lemma when_nil (b : bool) (msg : string) : when b msg = [] <-> b = false.
Proof. by destruct b. Qed.

Lemma app_nil_iff {A} (l1 l2 : list A) : l1 ++ l2 = [] <-> l1 = [] /\ l2 = [].
Proof.
  split; [apply app_eq_nil|]. by intros [-> ->].
Qed.

Lemma concat_imap_nil {A B} (f : nat -> A -> list B) (l : list A) :
  concat (imap f l) = [] <-> forall i x, l !! i = Some x -> f i x = [].
Proof.
  revert f. induction l as [|x l IH]; intros f; simpl.
  - split; [by intros _ i y|done].
  - rewrite app_nil_iff, IH. split.
    + intros [Hx Hl] [|i] y; simpl; [by intros [= <-]|apply Hl].
    + intros Hall. split; [by apply (Hall 0)|].
      intros i y Hy. by apply (Hall (S i)).
Qed.

(** X7. [validateProjectInput] reports nothing exactly for an input with a
    name of letters, digits, hyphens and underscores, a description, a
    non-empty array of languages, a default branch, frameworks and team
    members that are arrays whenever they are truthy, and a name and a role
    for every team member. *)
Theorem validateProjectInput_accepts (input : ProjectInput) :
  validateProjectInput input = []
  <-> valid NAME_REGEX (name input)
      /\ truthy (description input) = true
      /\ (exists l, languages input = Arr l /\ l <> [])
      /\ truthy (defaultBranch input) = true
      /\ (field_truthy (frameworks input) = true ->
          exists l, frameworks input = Arr l)
      /\ match teamMembers input with
         | Missing => True
         | NotArray is_truthy => is_truthy = false
         | Arr ms =>
             Forall (fun m => truthy (member_name m) = true
                              /\ truthy (role m) = true) ms
         end.
Proof.
  unfold validateProjectInput.
  rewrite !app_nil_iff, check_nil, !when_nil, !negb_false_iff.
  assert ((match languages input with Arr (_ :: _) => false | _ => true end)
          = false <-> exists l, languages input = Arr l /\ l <> []) as ->.
  { destruct (languages input) as [|[|x l]|]; split; try done;
      first [ by intros (l' & [= <-] & ?)
            | by intros (l' & ? & _)
            | intros _; by eexists ]. }
  assert (field_truthy (frameworks input) && negb (isArray (frameworks input))
          = false
          <-> (field_truthy (frameworks input) = true ->
               exists l, frameworks input = Arr l)) as ->.
  { destruct (frameworks input) as [|l|[]]; simpl; split; try done;
      first [ intros _ _; by eexists
            | intros Hl; by destruct (Hl eq_refl) ]. }
  assert ((if field_truthy (teamMembers input)
               && negb (isArray (teamMembers input))
           then ["teamMembers: must be an array"]
           else match teamMembers input with
                | Arr ms =>
                    concat (imap (fun i m =>
                       when (negb (truthy (member_name m)))
                            ("teamMembers[" +:+ pretty i +:+ "].name: required")
                       ++ when (negb (truthy (role m)))
                            ("teamMembers[" +:+ pretty i +:+ "].role: required"))
                      ms)
                | _ => []
                end) = []
          <-> match teamMembers input with
              | Missing => True
              | NotArray is_truthy => is_truthy = false
              | Arr ms =>
                  Forall (fun m => truthy (member_name m) = true
                                   /\ truthy (role m) = true) ms
              end) as ->.
  { destruct (teamMembers input) as [|ms|[]]; simpl; try done.
    rewrite concat_imap_nil, Forall_lookup. split.
    - intros Hall i m Hm. specialize (Hall i m Hm).
      apply app_nil_iff in Hall as [H1 H2].
      apply when_nil, negb_false_iff in H1.
      apply when_nil, negb_false_iff in H2. done.
    - intros Hall i m Hm. destruct (Hall i m Hm) as [-> ->]. done. }
  tauto.
Qed.

(** The conditions of [validateEvent] on the payload of a push. *)
Lemma push_errors_nil (p : Payload) :
  push_errors p = []
  <-> valid COMMIT_HASH (commitHash p)
      /\ message p <> None
      /\ truthy (author p) = true
      /\ (field_truthy (changedFiles p) = true ->
          exists l, changedFiles p = Arr l)
      /\ (forall d, diff p = Some d -> (js_length d <= 50000)%Z).
Proof.
  unfold push_errors.
  rewrite !app_nil_iff, check_nil, !when_nil, negb_false_iff,
    bool_decide_eq_false.
  assert (field_truthy (changedFiles p) && negb (isArray (changedFiles p))
          = false
          <-> (field_truthy (changedFiles p) = true ->
               exists l, changedFiles p = Arr l)) as ->.
  { destruct (changedFiles p) as [|l|[]]; simpl; split; try done;
      first [ intros _ _; by eexists
            | intros Hl; by destruct (Hl eq_refl) ]. }
  assert ((match diff p with
           | Some d => (js_length d >? 50000)%Z
           | None => false
           end) = false
          <-> forall d, diff p = Some d -> (js_length d <= 50000)%Z) as ->.
  { destruct (diff p) as [d|]; split; try done.
    - intros Hd d' [= <-]. lia.
    - intros Hd. specialize (Hd d eq_refl). lia. }
  tauto.
Qed.

(** The conditions of [validateEvent] on the payload of a note. *)
Lemma note_errors_nil (p : Payload) :
  note_errors p = []
  <-> truthy (text p) = true
      /\ valid (fun f => negb (includes ".." f)) (filePath p)
      /\ exists z, lineNumber p = Some (Int z) /\ (0 <= z)%Z.
Proof.
  unfold note_errors.
  rewrite !app_nil_iff, check_nil, when_nil, negb_false_iff.
  assert (match lineNumber p with
          | None => ["lineNumber: required for developer_note events"]
          | Some (Int z) =>
              when (z <? 0)%Z "lineNumber: must be a non-negative integer"
          | Some NonInt => ["lineNumber: must be a non-negative integer"]
          end = []
          <-> exists z, lineNumber p = Some (Int z) /\ (0 <= z)%Z) as ->.
  { destruct (lineNumber p) as [[z|]|].
    - rewrite when_nil. split.
      + intros Hz. exists z. split; [done|lia].
      + intros (z' & [= <-] & Hz). lia.
    - split; [done|]. by intros (z & ? & _).
    - split; [done|]. by intros (z & ? & _). }
  tauto.
Qed.

Lemma validateEvent_nil_iff (ev : Event) :
  validateEvent ev = []
  <-> valid UUID_V4 (eventId ev)
      /\ truthy (projectId ev) = true
      /\ (eventType ev = Some "push" \/ eventType ev = Some "developer_note")
      /\ valid ISO_8601 (timestamp ev)
      /\ valid (fun b => negb (js_length b >? 255)%Z) (branch ev)
      /\ exists p, payload ev = Some p
           /\ (eventType ev = Some "push" -> push_errors p = [])
           /\ (eventType ev = Some "developer_note" -> note_errors p = []).
Proof.
  unfold validateEvent. destruct (payload ev) as [p|].
  - rewrite !app_nil_iff, !check_nil, !when_nil, !negb_false_iff,
      orb_true_iff, !bool_decide_eq_true.
    split.
    + intros ((Hid & Hpid & Hty & Hts & Hbr) & Hpush & Hnote).
      repeat (split; [done|]). exists p. split; [done|]. split.
      * intros Ht. by rewrite bool_decide_eq_true_2 in Hpush.
      * intros Ht. by rewrite bool_decide_eq_true_2 in Hnote.
    + intros (Hid & Hpid & Hty & Hts & Hbr & p' & [= <-] & Hpush & Hnote).
      split; [done|]. split.
      * case_bool_decide; [by apply Hpush|done].
      * case_bool_decide; [by apply Hnote|done].
  - split.
    + by intros [_ ?]%app_nil_iff.
    + by intros (_ & _ & _ & _ & _ & p & ? & _).
Qed.

(** ** What the handler leaves behind *)

Section Frame.
Context `{Scrypt}.

Lemma is_POST (o : option string) (s : string) :
  s <> "" -> String.eqb (default "" o) s = true -> o = Some s.
Proof.
  intros Hs Heq. apply String.eqb_eq in Heq. destruct o; simpl in Heq.
  - by subst.
  - by subst.
Qed.

(** The world after [route] is the world before, or the one [createProject]
    or [ingestEvent] leaves when the request is theirs. *)
Lemma route_world faults entropy now req w :
  let w' := (route faults entropy now req w).2 in
  w' = w
  \/ (httpMethod req = Some "POST"
      /\ resource req = Some "/api/v1/projects"
      /\ w' = (createProject faults entropy now (req_body req) w).2)
  \/ (httpMethod req = Some "POST"
      /\ resource req = Some "/api/v1/events"
      /\ w' = (ingestEvent faults now (headers req) (req_body req) w).2).
Proof.
  unfold route.
  destruct (String.eqb (default "" (httpMethod req)) "OPTIONS");
    [by left|].
  destruct (String.eqb (default "" (httpMethod req)) "POST") eqn:Hm; simpl.
  - apply is_POST in Hm; [|done].
    destruct (String.eqb (default "" (resource req)) "/api/v1/projects")
      eqn:Hr.
    { apply is_POST in Hr; [|done]. right. left. done. }
    destruct (String.eqb (default "" (resource req)) "/api/v1/events")
      eqn:Hr'.
    { apply is_POST in Hr'; [|done]. right. right. done. }
    destruct (_ && _); [|by left].
    left. unfold getProject.
    destruct (negb _); [done|]. by destruct (authenticate _ _ _ _) as [[]|].
  - destruct (_ && _); [|by left].
    left. unfold getProject.
    destruct (negb _); [done|]. by destruct (authenticate _ _ _ _) as [[]|].
Qed.

(** The handler adds at most a line to the console. *)
Lemma handler_world faults entropy now req w :
  let w' := (route faults entropy now req w).2 in
  let w'' := (handler faults entropy now req w).2 in
  w'' = w' \/ w'' = log "Unhandled error" w'.
Proof.
  unfold handler. destruct (route faults entropy now req w) as [[r|e] w'].
  - by left.
  - by right.
Qed.

Lemma createProject_body faults entropy now body w input :
  parse_project body = Ret (Some input) ->
  createProject faults entropy now body w
  = createProject faults entropy now (ProjectBody input) w.
Proof. intros Hp. unfold createProject. by rewrite Hp. Qed.

(** [createProject] writes nothing, or the input is valid and the write to
    the projects table succeeds. *)
Lemma createProject_world faults entropy now body w :
  (createProject faults entropy now body w).2 = w
  \/ exists input,
       validateProjectInput input = [] /\ putProjectFails faults = false
       /\ createProject faults entropy now body w
          = createProject faults entropy now (ProjectBody input) w.
Proof.
  destruct (parse_project body) as [[input|]|e] eqn:Hp.
  - rewrite (createProject_body _ _ _ _ _ _ Hp).
    destruct (decide (validateProjectInput input = [])) as [Hv|Hv].
    + destruct (putProjectFails faults) eqn:Hput.
      * left. unfold createProject, parse_project. by rewrite Hv, Hput.
      * right. by exists input.
    + left. unfold createProject, parse_project.
      by rewrite (bool_decide_eq_false_2 _ Hv).
  - left. unfold createProject. by rewrite Hp.
  - left. unfold createProject. by rewrite Hp.
Qed.

(** [ingestEvent] writes nothing, or the body is an event, the request
    authenticates, the event is valid and the write to the events table
    succeeds. *)
Lemma ingestEvent_world faults now headers body w :
  let run := ingestEvent faults now headers body w in
  run.2 = w
  \/ exists ev p project,
       parse_event body = Ret (Some ev)
       /\ authenticate faults w headers (projectId ev)
          = Ret (AuthProject project)
       /\ validateEvent ev = [] /\ payload ev = Some p
       /\ projectsTable run.2 = projectsTable w
       /\ eventsTable run.2
          = <[eventKey ev := eventRecord ev p now]> (eventsTable w)
       /\ rawEventsBucket run.2
          = (if putObjectFails faults then rawEventsBucket w
             else <[archiveKey ev := ev]> (rawEventsBucket w))
       /\ aiQueue run.2
          = (if invokeFails faults then aiQueue w
             else aiQueue w ++ [invocation ev p])
       /\ auditTable run.2
          = (if putAuditFails faults then auditTable w
             else <[(str_of (eventId ev), now)
                    := auditEvent ev p now]> (auditTable w)).
Proof.
  intros run.
  destruct (parse_event body) as [[ev|]|e] eqn:Hp.
  - assert (run = ingestEvent faults now headers (EventBody ev) w) as ->.
    { unfold run, ingestEvent. by rewrite Hp. }
    destruct (ingestEvent_run faults now headers ev w)
      as [(e & _ & ->)|[(code & err & _ & ->)|(project & Ha & Hrun)]];
      [by left|by left|].
    destruct Hrun as [(_ & ->)|[(_ & _ & ->)|(p & Hv & _ & Hpl & _ & Hrun)]];
      [by left|by left|].
    right. exists ev, p, project. done.
  - left. unfold run, ingestEvent. by rewrite Hp.
  - left. unfold run, ingestEvent. by rewrite Hp.
Qed.

Lemma ingestEvent_console faults now headers body w :
  console w `prefix_of` console (ingestEvent faults now headers body w).2.
Proof.
  unfold ingestEvent.
  destruct (parse_event body) as [[ev|]|e]; [|done|done].
  destruct (authenticate _ _ _ _) as [[]|]; [done| |done].
  destruct (negb _); [done|].
  destruct (payload ev) as [p|]; [|done].
  destruct (putEventFails faults); [done|].
  unfold non_fatal.
  destruct (putObjectFails faults), (invokeFails faults),
    (putAuditFails faults); simpl;
    repeat (etrans; [|apply prefix_app_r; reflexivity]); done.
Qed.

Lemma createProject_console faults entropy now body w :
  console w `prefix_of` console (createProject faults entropy now body w).2.
Proof.
  unfold createProject.
  destruct (parse_project body) as [[input|]|e]; [|done|done].
  destruct (negb _); [done|].
  destruct (putProjectFails faults); [done|].
  unfold non_fatal. destruct (putAuditFails faults); simpl; [|done].
  by apply prefix_app_r.
Qed.

Lemma authenticate_lookup faults w headers pid project :
  authenticate faults w headers pid = Ret (AuthProject project) ->
  exists id, pid = Some id /\ id <> ""
             /\ projectsTable w !! id = Some project.
Proof.
  unfold authenticate, getProjectItem.
  destruct (extractToken headers) as [token|]; [|done].
  destruct (getProjectFails faults); [done|].
  destruct (truthy pid) eqn:Hpid; [|done].
  apply truthy_Some in Hpid as (id & -> & Hid). simpl.
  destruct (projectsTable w !! id) as [Item|] eqn:Hitem; simpl; [|done].
  destruct (truthy (apiTokenHash Item)); simpl; [|done].
  destruct (verifyToken token (apiTokenHash Item)) as [[]|]; simpl;
    [|done|done].
  intros [= <-]. by exists id.
Qed.
End Frame.

Section Stores.
Context `{Scrypt}.

(** What one invocation does to the stores: nothing, the creation of a
    project, or the ingestion of an event. *)
Lemma handler_stores faults entropy now req w :
  let w' := (handler faults entropy now req w).2 in
  console w `prefix_of` console w'
  /\ (auditTable w' = auditTable w
      \/ exists a,
           auditTable w' = <[(entityId a, a_timestamp a) := a]> (auditTable w)
           /\ action a = "created"
           /\ (entityType a = "project" \/ entityType a = "event"))
  /\ ((projectsTable w' = projectsTable w /\ eventsTable w' = eventsTable w
       /\ rawEventsBucket w' = rawEventsBucket w /\ aiQueue w' = aiQueue w
       /\ auditTable w' = auditTable w)
      \/ (httpMethod req = Some "POST"
          /\ resource req = Some "/api/v1/projects"
          /\ exists input,
               validateProjectInput input = []
               /\ projectsTable w'
                  = <[randomUUID entropy := newProject entropy now input]>
                      (projectsTable w)
               /\ eventsTable w' = eventsTable w
               /\ rawEventsBucket w' = rawEventsBucket w
               /\ aiQueue w' = aiQueue w)
      \/ (httpMethod req = Some "POST"
          /\ resource req = Some "/api/v1/events"
          /\ exists ev p project,
               authenticate faults w (headers req) (projectId ev)
               = Ret (AuthProject project)
               /\ validateEvent ev = [] /\ payload ev = Some p
               /\ projectsTable w' = projectsTable w
               /\ eventsTable w'
                  = <[eventKey ev := eventRecord ev p now]> (eventsTable w)
               /\ rawEventsBucket w'
                  = (if putObjectFails faults then rawEventsBucket w
                     else <[archiveKey ev := ev]> (rawEventsBucket w))
               /\ aiQueue w'
                  = (if invokeFails faults then aiQueue w
                     else aiQueue w ++ [invocation ev p]))).
Proof.
  intros w'.
  assert (exists w1,
            (w' = w1 \/ w' = log "Unhandled error" w1)
            /\ (w1 = w
                \/ (httpMethod req = Some "POST"
                    /\ resource req = Some "/api/v1/projects"
                    /\ w1 = (createProject faults entropy now
                               (req_body req) w).2)
                \/ (httpMethod req = Some "POST"
                    /\ resource req = Some "/api/v1/events"
                    /\ w1 = (ingestEvent faults now (headers req)
                               (req_body req) w).2)))
    as (w1 & Hlog & Hroute).
  { eexists. split; [apply handler_world|apply route_world]. }
  assert (projectsTable w' = projectsTable w1 /\ eventsTable w' = eventsTable w1
          /\ rawEventsBucket w' = rawEventsBucket w1
          /\ aiQueue w' = aiQueue w1 /\ auditTable w' = auditTable w1
          /\ console w1 `prefix_of` console w')
    as (-> & -> & -> & -> & -> & Hcon).
  { destruct Hlog as [-> | ->]; [done|].
    repeat (split; [done|]). by apply prefix_app_r. }
  clearbody w'.
  destruct Hroute as [->|[(Hm & Hr & ->)|(Hm & Hr & ->)]].
  - split; [done|]. split; [by left|]. by left.
  - split; [etrans; [apply createProject_console|exact Hcon]|].
    destruct (createProject_world faults entropy now (req_body req) w)
      as [->|(input & Hv & Hput & ->)].
    { split; [by left|]. by left. }
    unfold createProject, parse_project. rewrite Hv, Hput. simpl.
    unfold non_fatal. split.
    + destruct (putAuditFails faults); [by left|].
      right.
      exists {| entityId := randomUUID entropy; a_timestamp := now;
                entityType := "project"; action := "created";
                actor := "system";
                changes := ProjectChanges (default "" (name input))
                             (default "" (defaultBranch input));
                reason := Some "Project initialised via onboarding wizard" |}.
      split; [reflexivity|]. split; [done|by left].
    + right. left. split; [done|]. split; [done|]. exists input.
      split; [done|]. by destruct (putAuditFails faults).
  - split; [etrans; [apply ingestEvent_console|exact Hcon]|].
    destruct (ingestEvent_world faults now (headers req) (req_body req) w)
      as [->|(ev & p & project & _ & Ha & Hv & Hp & Hpt & Het & Hb & Hq
              & Hau)].
    { split; [by left|]. by left. }
    split.
    + rewrite Hau. destruct (putAuditFails faults); [by left|].
      right. exists (auditEvent ev p now). split; [done|].
      split; [done|by right].
    + right. right. split; [done|]. split; [done|].
      exists ev, p, project. done.
Qed.

Lemma grows_refl (w : World) : grows w w.
Proof. by repeat split. Qed.

Lemma grows_trans (w1 w2 w3 : World) : grows w1 w2 -> grows w2 w3 -> grows w1 w3.
Proof.
  intros (? & ? & ? & ? & ? & ?) (? & ? & ? & ? & ? & ?).
  repeat split; by etrans.
Qed.

Lemma handler_grows faults entropy now req w :
  grows w (handler faults entropy now req w).2.
Proof.
  destruct (handler_stores faults entropy now req w)
    as (Hcon & Haudit & Hst).
  assert (dom (auditTable w)
          ⊆ dom (auditTable (handler faults entropy now req w).2)) as Hdom.
  { destruct Haudit as [->|(a & -> & _)]; [done|].
    apply dom_insert_subseteq. }
  destruct Hst as [(Hp & He & Hb & Hq & _)|
                   [(_ & _ & input & _ & Hp & He & Hb & Hq)|
                    (_ & _ & ev & p & project & _ & _ & _ & Hp & He & Hb
                     & Hq)]];
    unfold grows; rewrite Hp, He, Hb, Hq.
  - done.
  - repeat split; try done. apply dom_insert_subseteq.
  - repeat split; try done.
    + apply dom_insert_subseteq.
    + destruct (putObjectFails faults); [done|apply dom_insert_subseteq].
    + destruct (invokeFails faults); [done|by apply prefix_app_r].
Qed.
End Stores.

(** X10. Which route writes what. Only [POST /api/v1/projects] changes the
    projects table, and it changes nothing but the item under the drawn id;
    only [POST /api/v1/events] changes the events table, the archive and the
    queue, and it never touches the projects table, so that an accepted
    event moves neither the event count nor the last activity of its
    project; [OPTIONS], [GET] and unrouted requests change no store. *)
Theorem handler_frame `{Scrypt} faults entropy now req w :
  let w' := (handler faults entropy now req w).2 in
  let is_route r := httpMethod req = Some "POST" /\ resource req = Some r in
  (~ is_route "/api/v1/projects" -> projectsTable w' = projectsTable w)
  /\ (forall k, k <> randomUUID entropy ->
        projectsTable w' !! k = projectsTable w !! k)
  /\ (~ is_route "/api/v1/events" ->
        eventsTable w' = eventsTable w
        /\ rawEventsBucket w' = rawEventsBucket w
        /\ aiQueue w' = aiQueue w)
  /\ (~ is_route "/api/v1/projects" -> ~ is_route "/api/v1/events" ->
        same_stores w w').
Proof.
  intros w' is_route.
  destruct (handler_stores faults entropy now req w) as (_ & _ & Hst).
  fold w' in Hst.
  destruct Hst as [(Hp & He & Hb & Hq & Ha)|
                   [(Hm & Hr & input & _ & Hp & He & Hb & Hq)|
                    (Hm & Hr & ev & p & project & _ & _ & _ & Hp & He & Hb
                     & Hq)]].
  - rewrite Hp, He, Hb, Hq. repeat split; done.
  - split; [by intros []|]. split.
    { intros k Hk. rewrite Hp. by apply lookup_insert_ne. }
    split; [done|]. by intros [].
  - split; [done|]. split; [by rewrite Hp|].
    split; [by intros []|]. intros _ []. done.
Qed.

(** X11. Nothing is ever deleted. Over any sequence of invocations, with
    any failures of the calls to AWS, every key of the four stores stays a
    key, and the queue of invocations and the console only get longer. *)
Theorem run_all_grows `{Scrypt} (calls : list Call) (w : World) :
  grows w (run_all calls w).
Proof.
  revert w. induction calls as [|c calls IH]; intros w; simpl.
  - apply grows_refl.
  - eapply grows_trans; [apply handler_grows|apply IH].
Qed.

(** ** What the tables keep *)

Section Invariants.
Context `{Scrypt}.

Lemma newProject_ok entropy now input :
  validateProjectInput input = [] ->
  project_ok (randomUUID entropy) (newProject entropy now input).
Proof.
  unfold validateProjectInput.
  rewrite !app_nil_iff, check_nil, !when_nil, !negb_false_iff.
  intros ((n & Hn & Hne & Hre) & Hd & Hl & Hb & Hf & Ht).
  unfold project_ok, newProject. simpl. rewrite Hn. simpl.
  split; [done|]. split; [done|]. split; [done|].
  split; [by destruct (description input) as [[|]|]|].
  split; [by destruct (languages input) as [|[|]|]|].
  split; [by destruct (defaultBranch input) as [[|]|]|].
  split; [by destruct (frameworks input) as [| |[]]|].
  split; [by destruct (teamMembers input) as [| |[]]|].
  split; [by eexists _, _|done].
Qed.

Lemma eventRecord_ok ev p now w :
  validateEvent ev = [] -> payload ev = Some p ->
  is_Some (projectsTable w !! str_of (projectId ev)) ->
  event_ok w (eventKey ev) (eventRecord ev p now).
Proof.
  intros Hv Hp Hproj.
  apply validateEvent_nil_iff in Hv
    as ((id & Hid & _ & Huuid) & _ & Hty & (ts & Hts & _ & Hiso)
        & (b & Hb & Hbne & Hlen) & p' & Hp' & Hpush & Hnote).
  rewrite Hp in Hp'. injection Hp' as <-.
  unfold event_ok, eventRecord, eventKey. simpl.
  rewrite Hid, Hts, Hb. simpl.
  split; [done|]. split; [by exists ts|]. split; [done|]. split; [done|].
  split; [apply negb_true_iff in Hlen; lia|].
  destruct Hty as [Hty|Hty]; rewrite Hty; simpl.
  - split; [by left|]. split; [by intros _; apply Hpush|]. done.
  - split; [by right|]. split; [done|]. split; [by intros _; apply Hnote|].
    done.
Qed.

Lemma event_ok_projects w w' k r :
  (forall id, is_Some (projectsTable w !! id) ->
              is_Some (projectsTable w' !! id)) ->
  event_ok w k r -> event_ok w' k r.
Proof.
  intros Hsub (? & ? & ? & ? & ? & ? & ? & ? & ? & ? & ?).
  repeat (split; [done|]). by apply Hsub.
Qed.

Lemma handler_tables_ok faults entropy now req w :
  tables_ok w -> tables_ok (handler faults entropy now req w).2.
Proof.
  intros [Hprojects Hevents].
  destruct (handler_stores faults entropy now req w) as (_ & _ & Hst).
  unfold tables_ok.
  destruct Hst as [(Hp & He & _)|
                   [(_ & _ & input & Hv & Hp & He & _)|
                    (_ & _ & ev & p & project & Ha & Hv & Hpl & Hp & He
                     & _)]]; rewrite Hp, He.
  - split; [done|]. intros k r Hr.
    apply (event_ok_projects w); [|by apply Hevents]. by rewrite Hp.
  - split.
    + apply map_Forall_insert_2; [|done]. by apply newProject_ok.
    + intros k r Hr. apply (event_ok_projects w); [|by apply Hevents].
      intros id Hid. rewrite Hp. apply lookup_insert_is_Some'. by right.
  - split; [done|].
    apply authenticate_lookup in Ha as (id & Hid & _ & Hlook).
    apply map_Forall_insert_2.
    + apply eventRecord_ok; [done|done|]. rewrite Hp, Hid. simpl.
      by rewrite Hlook.
    + intros k r Hr. apply (event_ok_projects w); [|by apply Hevents].
      by rewrite Hp.
Qed.

Lemma invocationKey_invocation ev p :
  invocationKey (invocation ev p) = eventKey ev.
Proof. reflexivity. Qed.

Lemma handler_side_stores_ok faults entropy now req w :
  side_stores_ok w -> side_stores_ok (handler faults entropy now req w).2.
Proof.
  intros (Hbucket & Hqueue & Haudit).
  destruct (handler_stores faults entropy now req w) as (_ & Hau & Hst).
  assert (map_Forall (fun k a =>
            k = (entityId a, a_timestamp a) /\ action a = "created"
            /\ (entityType a = "project" \/ entityType a = "event"))
            (auditTable (handler faults entropy now req w).2)) as Haudit'.
  { destruct Hau as [->|(a & -> & Ha)]; [done|].
    by apply map_Forall_insert_2. }
  unfold side_stores_ok.
  destruct Hst as [(_ & He & Hb & Hq & _)|
                   [(_ & _ & input & _ & _ & He & Hb & Hq)|
                    (_ & _ & ev & p & project & _ & Hv & Hpl & _ & He & Hb
                     & Hq)]]; rewrite ?He, ?Hb, ?Hq.
  - done.
  - done.
  - assert (forall k, is_Some (eventsTable w !! k) ->
              is_Some (<[eventKey ev := eventRecord ev p now]>
                         (eventsTable w) !! k)) as Hsub.
    { intros k Hk. apply lookup_insert_is_Some'. by right. }
    assert (is_Some (<[eventKey ev := eventRecord ev p now]>
                       (eventsTable w) !! eventKey ev)) as Hnew.
    { apply lookup_insert_is_Some'. by left. }
    split; [|split; [|done]].
    + assert (map_Forall (fun k ev' =>
                k = archiveKey ev' /\ validateEvent ev' = []
                /\ is_Some (<[eventKey ev := eventRecord ev p now]>
                              (eventsTable w) !! eventKey ev'))
                (rawEventsBucket w)) as Hold.
      { intros k ev' Hk. destruct (Hbucket k ev' Hk) as (? & ? & ?).
        split; [done|]. split; [done|]. by apply Hsub. }
      destruct (putObjectFails faults); [done|].
      by apply map_Forall_insert_2.
    + assert (Forall (fun i =>
                is_Some (<[eventKey ev := eventRecord ev p now]>
                           (eventsTable w) !! invocationKey i))
                (aiQueue w)) as Hold.
      { eapply Forall_impl; [exact Hqueue|]. intros i. apply Hsub. }
      destruct (invokeFails faults); [done|].
      apply Forall_app. split; [done|].
      apply Forall_singleton. by rewrite invocationKey_invocation.
Qed.
End Invariants.

(** X13. The archive, the queue and the audit trail stay consistent with
    the events table over any sequence of invocations: every archived
    object is a valid event under its archive key whose item is in the
    events table, every invocation of the AI Lambda names an event whose
    item is in the events table, and every audit row sits under its own
    [(entityId, timestamp)] and records the creation of a project or of an
    event. *)
Theorem run_all_side_stores_ok `{Scrypt} (calls : list Call) (w : World) :
  side_stores_ok w -> side_stores_ok (run_all calls w).
Proof.
  revert w. induction calls as [|c calls IH]; intros w Hw; simpl.
  - done.
  - apply IH. by apply handler_side_stores_ok.
Qed.

Lemma run_all_side_stores_ok_witness :
  side_stores_ok (@run_all sample_scrypt sample_calls sample_world).
Proof.
  apply (@run_all_side_stores_ok sample_scrypt sample_calls sample_world).
  split; [apply map_Forall_empty|]. split; [apply Forall_nil_2|].
  apply map_Forall_empty.
Defined.

(** ** The order of the checks on the events route *)

(** X14. On the events route the body is parsed first, the token is looked
    for second, the project is read third and the event is validated last.
    A body that does not parse is answered [400 invalid_json] whatever the
    headers; no body at all is answered [500]; without a bearer token the
    answer is [401] whatever the event; with a token and no project id the
    read of the projects table is rejected and the answer is [500], so the
    error [projectId: required] of [validateEvent] is never sent: the
    details of a [validation_failed] answer are the errors of
    [validateEvent] and never hold it. *)
Theorem events_route_precedence `{Scrypt} faults entropy now hs w :
  let post body :=
    handler faults entropy now
      {| httpMethod := Some "POST"; resource := Some "/api/v1/events";
         headers := hs; req_body := body; pathProjectId := None |} w in
  let internal_error :=
    respond 500
      (Error "internal_error" (Some "An unexpected error occurred") []) in
  post Malformed
  = (respond 400 (Error "invalid_json" (Some "Body must be valid JSON") []),
     w)
  /\ post NoBody = (internal_error, log "Unhandled error" w)
  /\ (forall ev,
        extractToken hs = None ->
        post (EventBody ev)
        = (respond 401
             (Error "invalid_token" (Some "Missing Authorization header") []),
           w))
  /\ (forall ev token,
        extractToken hs = Some token -> truthy (projectId ev) = false ->
        post (EventBody ev) = (internal_error, log "Unhandled error" w))
  /\ (forall ev m details,
        body (post (EventBody ev)).1 = Error "validation_failed" m details ->
        details = validateEvent ev
        /\ details <> []
        /\ ("projectId: required" ∉ details)
        /\ (post (EventBody ev)).2 = w).
Proof.
  intros post internal_error. split; [done|]. split; [done|].
  split; [|split].
  - intros ev Hno. unfold post. rewrite (handler_post_event _ _ _ hs ev w).
    unfold ingestEvent, parse_event, authenticate. by rewrite Hno.
  - intros ev token Htok Hpid. unfold post.
    rewrite (handler_post_event _ _ _ hs ev w).
    unfold ingestEvent, parse_event, authenticate, getProjectItem.
    rewrite Htok, Hpid. simpl. by destruct (getProjectFails faults).
  - intros ev m details. unfold post.
    rewrite (handler_post_event _ _ _ hs ev w).
    destruct (ingestEvent_run faults now hs ev w)
      as [(e & _ & ->)|[(code & err & Ha & ->)|(project & Ha & Hrun)]].
    + done.
    + simpl. apply authenticate_error in Ha as (_ & msg & ->). done.
    + destruct Hrun as [(Hv & ->)|[(_ & _ & ->)|(p & _ & _ & _ & Hr & _)]].
      * simpl. intros [= <- <-]. split; [done|]. split; [done|].
        split; [|done].
        apply authenticate_lookup in Ha as (id & Hid & Hne & _).
        assert (truthy (projectId ev) = true) as Ht.
        { rewrite Hid. by destruct id. }
        unfold validateEvent. rewrite Ht. intros Hx.
        destruct (payload ev) as [p|].
        -- assert ("projectId: required" ∉ push_errors p) as Hpush.
           { unfold push_errors. intros Hy. error_cases Hy; done. }
           assert ("projectId: required" ∉ note_errors p) as Hnote.
           { unfold note_errors. intros Hy.
             destruct (lineNumber p) as [[z|]|]; error_cases Hy; done. }
           destruct (bool_decide (eventType ev = Some "push"));
             destruct (bool_decide (eventType ev = Some "developer_note"));
             error_cases Hx; done.
        -- error_cases Hx; done.
      * done.
      * destruct (ingestEvent faults now hs (EventBody ev) w) as [out w'].
        simpl in Hr. subst out. done.
Qed.

(** ** Redelivery *)

Lemma authenticate_projects `{Scrypt} faults w w' headers pid :
  projectsTable w' = projectsTable w ->
  authenticate faults w' headers pid = authenticate faults w headers pid.
Proof.
  intros Hp. unfold authenticate, getProjectItem. by rewrite Hp.
Qed.

(** When the events route answers [200]. *)
Lemma handler_accepts `{Scrypt} faults entropy now headers ev w :
  statusCode (handler faults entropy now (post_event headers ev) w).1 = 200%Z
  <-> (exists project,
         authenticate faults w headers (projectId ev)
         = Ret (AuthProject project))
      /\ validateEvent ev = [] /\ putEventFails faults = false.
Proof.
  rewrite handler_post_event.
  destruct (ingestEvent_run faults now headers ev w)
    as [(e & Ha & ->)|[(code & err & Ha & ->)|(project & Ha & Hrun)]].
  - split; [done|]. intros ((project & Ha') & _). congruence.
  - simpl. apply authenticate_error in Ha as Hc. destruct Hc as [-> _].
    split; [done|]. intros ((project & Ha') & _). congruence.
  - destruct Hrun as [(Hv & ->)|[(_ & Hput & ->)|(p & Hv & Hput & _ & Hr & _)]].
    + split; [done|]. by intros (_ & ? & _).
    + split; [done|]. intros (_ & _ & ?). congruence.
    + destruct (ingestEvent faults now headers (EventBody ev) w) as [out w'].
      simpl in Hr. subst out. simpl. split; [|done].
      intros _. split; [by exists project|done].
Qed.

(** X15. A redelivered event is processed again. When a delivery of an
    event is accepted, a second delivery of the same request under the same
    failures is accepted too; the events table then holds the one record of
    the event, with the time of the second reception; but the AI Lambda has
    been invoked twice for it, and the audit table holds one row per
    reception when the two times differ. *)
Theorem redelivery_side_effects `{Scrypt}
    faults entropy1 entropy2 now1 now2 headers ev w :
  let run1 := handler faults entropy1 now1 (post_event headers ev) w in
  let run2 := handler faults entropy2 now2 (post_event headers ev) run1.2 in
  statusCode run1.1 = 200%Z ->
  statusCode run2.1 = 200%Z
  /\ exists p,
       payload ev = Some p
       /\ eventsTable run2.2
          = <[eventKey ev := eventRecord ev p now2]> (eventsTable w)
       /\ (invokeFails faults = false ->
             aiQueue run2.2
             = aiQueue w ++ [invocation ev p; invocation ev p])
       /\ (putObjectFails faults = false ->
             rawEventsBucket run2.2
             = <[archiveKey ev := ev]> (rawEventsBucket w))
       /\ (putAuditFails faults = false -> now1 <> now2 ->
             auditTable run2.2 !! (str_of (eventId ev), now1)
             = Some (auditEvent ev p now1)
             /\ auditTable run2.2 !! (str_of (eventId ev), now2)
                = Some (auditEvent ev p now2)).
Proof.
  intros run1 run2 H1.
  assert (forall entropy now w0,
    let run := handler faults entropy now (post_event headers ev) w0 in
    statusCode run.1 = 200%Z ->
    exists p, payload ev = Some p
      /\ projectsTable run.2 = projectsTable w0
      /\ eventsTable run.2
         = <[eventKey ev := eventRecord ev p now]> (eventsTable w0)
      /\ rawEventsBucket run.2
         = (if putObjectFails faults then rawEventsBucket w0
            else <[archiveKey ev := ev]> (rawEventsBucket w0))
      /\ aiQueue run.2
         = (if invokeFails faults then aiQueue w0
            else aiQueue w0 ++ [invocation ev p])
      /\ auditTable run.2
         = (if putAuditFails faults then auditTable w0
            else <[(str_of (eventId ev), now) := auditEvent ev p now]>
                   (auditTable w0))) as Hstep.
  { intros entropy now w0. simpl. rewrite handler_post_event.
    destruct (ingestEvent_run faults now headers ev w0)
      as [(e & _ & ->)|[(code & err & Ha & ->)|(project & _ & Hrun)]];
      [done| |].
    { simpl. apply authenticate_error in Ha as [-> _]. done. }
    destruct Hrun as [(_ & ->)|[(_ & _ & ->)|(p & _ & _ & Hp & Hr & Hrest)]];
      [done|done|].
    destruct (ingestEvent faults now headers (EventBody ev) w0) as [out w'].
    simpl in *. subst out. intros _. by exists p. }
  destruct (Hstep entropy1 now1 w H1) as (p & Hp & Hpt1 & He1 & Hb1 & Hq1 & Ha1).
  fold run1 in Hpt1, He1, Hb1, Hq1, Ha1.
  assert (statusCode run2.1 = 200%Z) as H2.
  { apply handler_accepts in H1 as ((project & Ha) & Hv & Hput).
    apply handler_accepts. split; [|done]. exists project.
    by rewrite (authenticate_projects _ w). }
  split; [done|].
  destruct (Hstep entropy2 now2 run1.2 H2)
    as (p' & Hp' & _ & He2 & Hb2 & Hq2 & Ha2).
  fold run2 in He2, Hb2, Hq2, Ha2.
  rewrite Hp in Hp'. injection Hp' as <-.
  exists p. split; [done|]. split; [|split; [|split]].
  - by rewrite He2, He1, insert_insert_eq.
  - intros Hi. rewrite Hi in Hq1, Hq2. by rewrite Hq2, Hq1, <- app_assoc.
  - intros Ho. rewrite Ho in Hb1, Hb2. by rewrite Hb2, Hb1, insert_insert_eq.
  - intros Hau Hne. rewrite Hau in Ha1, Ha2. rewrite Ha2, Ha1. split.
    + rewrite lookup_insert_ne by congruence. apply lookup_insert_eq.
    + apply lookup_insert_eq.
Qed.

Lemma redelivery_side_effects_witness :
  let ev := sample_event sample_hash in
  let run1 := @handler sample_scrypt no_faults sample_entropy sample_now
                (post_event sample_headers ev) sample_world in
  let run2 := @handler sample_scrypt no_faults sample_entropy
                "2026-02-28T10:00:07.000Z"
                (post_event sample_headers ev) run1.2 in
  statusCode run2.1 = 200%Z.
Proof.
  intros ev run1 run2.
  apply (@redelivery_side_effects sample_scrypt no_faults sample_entropy
           sample_entropy sample_now "2026-02-28T10:00:07.000Z"
           sample_headers ev sample_world).
  vm_compute. reflexivity.
Defined.

(** ** The capture layer, continued *)

Lemma attempts_spec (delays : list Z) (net : nat -> bool) (k : nat) (p : Post) :
  let run := attempts delays net k p in
  run.1 = replicate (tries (length delays) net k) p
  /\ (run.2 = true <-> exists j, j < length delays /\ net (k + j) = true)
  /\ tries (length delays) net k <= length delays
  /\ (delays <> [] -> 1 <= tries (length delays) net k)
  /\ (run.2 = true ->
      net (k + tries (length delays) net k - 1) = true
      /\ forall j, j < tries (length delays) net k - 1 -> net (k + j) = false)
  /\ (run.2 = false -> tries (length delays) net k = length delays).
Proof.
  revert k. induction delays as [|d delays IH]; intros k.
  - simpl. split; [done|].
    split; [|split; [lia|split; [done|split; [done|done]]]].
    split; [done|]. intros (j & Hj & _). lia.
  - cbn [attempts tries length]. destruct (net k) eqn:Hk.
    + cbn [fst snd]. split; [done|]. split.
      { split; [|done]. intros _. exists 0. split; [lia|].
        rewrite <- Hk. f_equal. lia. }
      split; [lia|]. split; [lia|]. split; [|done].
      intros _. split; [|intros j Hj; lia].
      rewrite <- Hk. f_equal. lia.
    + specialize (IH (S k)). cbv zeta in IH.
      destruct (attempts delays net (S k) p) as [ps ok]. cbn [fst snd] in *.
      destruct IH as (Hps & Hok & Hle & _ & Hlast & Hall).
      split; [by rewrite Hps|]. split.
      { rewrite Hok. split.
        - intros (j & Hj & Hn). exists (S j). split; [lia|].
          rewrite <- Hn. f_equal. lia.
        - intros ([|j] & Hj & Hn).
          + assert (net k = true) by (rewrite <- Hn; f_equal; lia).
            congruence.
          + exists j. split; [lia|]. rewrite <- Hn. f_equal. lia. }
      split; [lia|]. split; [lia|]. split.
      * intros Htrue. destruct (Hlast Htrue) as [Hn Hbefore].
        assert (1 <= tries (length delays) net (S k)) as Hpos.
        { apply Hok in Htrue as (j & Hj & _).
          destruct delays; simpl in *; [lia|]. destruct (net (S k)); lia. }
        split.
        -- rewrite <- Hn. f_equal. lia.
        -- intros [|j] Hj.
           ++ rewrite <- Hk. f_equal. lia.
           ++ rewrite <- (Hbefore j) by lia. f_equal. lia.
      * intros Hfalse. by rewrite (Hall Hfalse).
Qed.

(** X16. [transmitEvent] posts the same body to [<backendUrl>/api/v1/events]
    under the same token at every attempt. It makes one post more than the
    number of leading attempts that fail, at least one and at most four; it
    succeeds exactly when one of the first four attempts resolves, the
    successful post being the last one made; it throws after exactly four
    posts. *)
Theorem transmitEvent_attempts (net : nat -> bool) (backendUrl apiToken : string)
    (event : CapturedEvent) :
  let run := transmitEvent net backendUrl apiToken event in
  let n := tries 4 net 0 in
  run.1 = replicate n {| post_url := backendUrl +:+ "/api/v1/events";
                         post_token := apiToken; post_body := event |}
  /\ 1 <= n <= 4
  /\ (run.2 = true <-> exists j, j < 4 /\ net j = true)
  /\ (run.2 = true ->
        net (n - 1) = true /\ forall j, j < n - 1 -> net j = false)
  /\ (run.2 = false -> n = 4 /\ forall j, j < 4 -> net j = false).
Proof.
  intros run n.
  destruct (attempts_spec retryDelays net 0
              {| post_url := backendUrl +:+ "/api/v1/events";
                 post_token := apiToken; post_body := event |})
    as (Hps & Hok & Hle & Hpos & Hlast & Hall).
  change (length retryDelays) with 4 in *. fold n in Hps, Hle, Hpos, Hlast, Hall.
  split; [exact Hps|]. split; [split; [by apply Hpos|exact Hle]|].
  split; [exact Hok|]. split; [exact Hlast|].
  intros Hfalse. split; [by apply Hall|].
  intros j Hj. destruct (net j) eqn:Hn; [|done].
  assert (run.2 = true) as Htrue by (apply Hok; by exists j).
  congruence.
Qed.

Lemma js_split_join (sep : ascii) (parts : list string) :
  parts <> [] ->
  Forall (fun part => Forall (fun c => c <> sep) (chars part)) parts ->
  js_split sep (join sep parts) = parts.
Proof.
  intros Hne Hall. induction Hall as [|part parts Hpart Hall IH]; [done|].
  destruct parts as [|part' parts]; simpl.
  - unfold js_split. rewrite split_on_last by done. simpl.
    by rewrite str_chars.
  - rewrite js_split_cons by done. f_equal. by apply IH.
Qed.

Lemma git_run (env : Git) (args out : string) :
  truthy (getWorkspaceRoot env) = true ->
  execSync env ("git " +:+ args) = Ret out ->
  git env args = Some (trim out).
Proof. intros Hroot Hout. unfold git. by rewrite Hroot, Hout. Qed.

(** X17. [getLastCommitInfo] reads the first four [|]-separated parts of
    the trimmed output of [git log]. When that output is the join of parts
    that hold no [|], the result is null unless the first four parts exist
    and are non-empty, and then it is these four parts; whatever it returns
    has four non-empty fields without [|]. A commit subject that holds a
    [|] therefore shifts the fields: for [hash|fix a|b|Alice|date] the
    author is [b] and the timestamp is [Alice]. *)
Theorem getLastCommitInfo_fields (env : Git) :
  let cmd :=
    "git log -1 --format=" +:+ dquote +:+ "%H|%s|%an|%aI" +:+ dquote in
  (forall out parts,
     truthy (getWorkspaceRoot env) = true ->
     execSync env cmd = Ret out ->
     trim out <> "" ->
     trim out = join "|" parts ->
     Forall (fun part => Forall (fun c => c <> "|"%char) (chars part)) parts ->
     getLastCommitInfo env
     = match parts with
       | h :: m :: a :: t :: _ =>
           if truthy (Some h) && truthy (Some m) && truthy (Some a)
              && truthy (Some t)
           then Some {| ci_commitHash := h; ci_message := m;
                        ci_author := a; ci_timestamp := t |}
           else None
       | _ => None
       end)
  /\ (forall ci,
        getLastCommitInfo env = Some ci ->
        Forall (fun field =>
                  field <> ""
                  /\ Forall (fun c => c <> "|"%char) (chars field))
               [ci_commitHash ci; ci_message ci; ci_author ci;
                ci_timestamp ci])
  /\ (forall out h m1 m2 a t,
        truthy (getWorkspaceRoot env) = true ->
        execSync env cmd = Ret out ->
        trim out = join "|" [h; m1; m2; a; t] ->
        Forall (fun part => part <> ""
                            /\ Forall (fun c => c <> "|"%char) (chars part))
               [h; m1; m2; a; t] ->
        getLastCommitInfo env
        = Some {| ci_commitHash := h; ci_message := m1;
                  ci_author := m2; ci_timestamp := a |}).
Proof.
  intros cmd.
  assert (forall out parts,
     truthy (getWorkspaceRoot env) = true ->
     execSync env cmd = Ret out ->
     trim out <> "" ->
     trim out = join "|" parts ->
     Forall (fun part => Forall (fun c => c <> "|"%char) (chars part)) parts ->
     getLastCommitInfo env
     = match parts with
       | h :: m :: a :: t :: _ =>
           if truthy (Some h) && truthy (Some m) && truthy (Some a)
              && truthy (Some t)
           then Some {| ci_commitHash := h; ci_message := m;
                        ci_author := a; ci_timestamp := t |}
           else None
       | _ => None
       end) as Hparts.
  { intros out parts Hroot Hout Hne Hjoin Hall.
    assert (git env ("log -1 --format=" +:+ dquote +:+ "%H|%s|%an|%aI"
                     +:+ dquote) = Some (trim out)) as Hgit
      by by apply git_run.
    unfold getLastCommitInfo. rewrite Hgit.
    assert (truthy (Some (trim out)) = true) as ->
      by by destruct (trim out).
    simpl. rewrite Hjoin.
    assert (parts <> []) as Hparts.
    { intros ->. simpl in Hjoin. done. }
    rewrite js_split_join by done.
    destruct parts as [|h [|m [|a [|t rest]]]]; simpl.
    - done.
    - by destruct h.
    - by destruct h, m.
    - by destruct h, m, a.
    - by destruct h, m, a, t. }
  split; [exact Hparts|]. split.
  - intros ci. unfold getLastCommitInfo.
    destruct (git env _) as [raw|]; [|done].
    destruct (truthy (Some raw)); simpl; [|done].
    destruct (js_split "|" raw !! 0) as [h|] eqn:H0; [|done].
    destruct (js_split "|" raw !! 1) as [m|] eqn:H1;
      [|by rewrite orb_true_r].
    destruct (js_split "|" raw !! 2) as [a|] eqn:H2;
      [|by rewrite !orb_true_r].
    destruct (js_split "|" raw !! 3) as [t|] eqn:H3;
      [|by rewrite !orb_true_r].
    destruct h as [|ch h]; simpl; [done|].
    destruct m as [|cm m]; simpl; [done|].
    destruct a as [|ca a]; simpl; [done|].
    destruct t as [|ct t]; simpl; [done|].
    intros [= <-]. simpl.
    repeat (apply Forall_cons; split;
            [split; [done|eapply js_split_no_sep; eassumption]|]).
    apply Forall_nil_2.
  - intros out h m1 m2 a t Hroot Hout Hjoin Hall.
    assert (trim out <> "") as Hne.
    { rewrite Hjoin. apply Forall_cons in Hall as [[Hh _] _].
      by destruct h. }
    assert (Forall (fun part => Forall (fun c => c <> "|"%char) (chars part))
              [h; m1; m2; a; t]) as Hfree.
    { eapply Forall_impl; [exact Hall|]. by intros part [_ ?]. }
    rewrite (Hparts out [h; m1; m2; a; t] Hroot Hout Hne Hjoin Hfree).
    apply Forall_cons in Hall as [[Hh _] Hall].
    apply Forall_cons in Hall as [[Hm1 _] Hall].
    apply Forall_cons in Hall as [[Hm2 _] Hall].
    apply Forall_cons in Hall as [[Ha _] Hall].
    destruct h, m1, m2, a; done.
Qed.

Lemma getLastCommitInfo_fields_witness :
  getLastCommitInfo sample_git
  = Some {| ci_commitHash := sample_hash; ci_message := "Add login";
            ci_author := "Alice";
            ci_timestamp := "2026-02-28T10:00:00+00:00" |}.
Proof.
  destruct (getLastCommitInfo_fields sample_git) as (H & _).
  apply (H (sample_hash +:+ "|Add login|Alice|2026-02-28T10:00:00+00:00")
           [sample_hash; "Add login"; "Alice"; "2026-02-28T10:00:00+00:00"]).
  - reflexivity.
  - reflexivity.
  - vm_compute. discriminate.
  - vm_compute. reflexivity.
  - repeat (apply Forall_cons; split;
            [apply Forall_forall; intros c Hc E; subst c; vm_compute in Hc;
             repeat (apply elem_of_cons in Hc as [Hc|Hc]; [discriminate|]);
             by apply elem_of_nil in Hc|]).
    apply Forall_nil_2.
Defined.

(** The event that [handlePushEvent] builds. *)
Lemma handlePushEvent_run (env : Git) (net : nat -> bool)
    (uuid now pid url dflt tok br : string) :
  let run := handlePushEvent env net uuid now pid url dflt tok br in
  (getDiff env = None \/ getLastCommitInfo env = None ->
     run = {| posts := []; warned := false; notified := false |})
  /\ (forall d ci,
        getDiff env = Some d -> getLastCommitInfo env = Some ci ->
        let event :=
          {| ce_eventId := uuid; ce_projectId := pid; ce_eventType := "push";
             ce_timestamp := now; ce_branch := br;
             ce_payload :=
               {| pp_commitHash := ci_commitHash ci;
                  pp_message := ci_message ci;
                  pp_diff := d;
                  pp_author := ci_author ci;
                  pp_parentBranch :=
                    if String.eqb dflt br then None else Some dflt |} |} in
        let sent := transmitEvent net url tok event in
        run = {| posts := sent.1;
                 warned := negb sent.2;
                 notified := sent.2 && truthy (getGitUserName env) |}).
Proof.
  intros run. unfold run, handlePushEvent. split.
  - intros [-> | ->]; [done|]. by destruct (getDiff env) as [[|]|].
  - intros d ci Hd Hci. rewrite Hci.
    apply getDiff_Some in Hd as Hne. destruct Hne as (Hne & _). rewrite Hd.
    destruct d as [|c d]; [done|]. simpl.
    destruct (String.eqb dflt br); simpl;
      destruct (transmitEvent _ _ _ _) as [ps []]; done.
Qed.

(** X18. What one run of [handlePushEvent] does. Without a diff or without
    commit data it posts nothing, warns nobody and shows no notification.
    Otherwise it posts one event, between one and four times: a [push] with
    the drawn id, the time of capture (not the author date of the commit),
    the branch given by the hook, the hash, subject and author of the last
    commit, the diff, and the default branch as parent unless the push is
    on the default branch itself. It warns exactly when all four attempts
    fail, and shows the notification exactly when an attempt succeeds and
    git knows a user name; it never does both. *)
Theorem handlePushEvent_outcomes (env : Git) (net : nat -> bool)
    (uuid now pid url dflt tok br : string) :
  let run := handlePushEvent env net uuid now pid url dflt tok br in
  let n := tries 4 net 0 in
  (getDiff env = None \/ getLastCommitInfo env = None ->
     run = {| posts := []; warned := false; notified := false |})
  /\ (forall d ci,
        getDiff env = Some d -> getLastCommitInfo env = Some ci ->
        posts run
        = replicate n
            {| post_url := url +:+ "/api/v1/events";
               post_token := tok;
               post_body :=
                 {| ce_eventId := uuid; ce_projectId := pid;
                    ce_eventType := "push"; ce_timestamp := now;
                    ce_branch := br;
                    ce_payload :=
                      {| pp_commitHash := ci_commitHash ci;
                         pp_message := ci_message ci;
                         pp_diff := d;
                         pp_author := ci_author ci;
                         pp_parentBranch :=
                           if String.eqb dflt br then None
                           else Some dflt |} |} |}
        /\ 1 <= n <= 4
        /\ (warned run = true <-> forall j, j < 4 -> net j = false)
        /\ (notified run = true
            <-> (exists j, j < 4 /\ net j = true)
                /\ truthy (getGitUserName env) = true))
  /\ warned run && notified run = false
  /\ (posts run = [] -> warned run = false /\ notified run = false).
Proof.
  intros run n.
  destruct (handlePushEvent_run env net uuid now pid url dflt tok br)
    as [Hnone Hsome]. fold run in Hnone, Hsome.
  assert (forall e,
    let sent := transmitEvent net url tok e in
    sent.1 = replicate n {| post_url := url +:+ "/api/v1/events";
                            post_token := tok; post_body := e |}
    /\ 1 <= n <= 4
    /\ (sent.2 = true <-> exists j, j < 4 /\ net j = true)) as Hsent.
  { intros e.
    destruct (attempts_spec retryDelays net 0
                {| post_url := url +:+ "/api/v1/events";
                   post_token := tok; post_body := e |})
      as (Hps & Hok & Hle & Hpos & _).
    split; [exact Hps|]. split; [|exact Hok].
    split; [by apply Hpos|exact Hle]. }
  split; [exact Hnone|]. split; [|split].
  - intros d ci Hd Hci. rewrite (Hsome d ci Hd Hci). simpl.
    match goal with
    | |- context [transmitEvent net url tok ?e] =>
        destruct (Hsent e) as (Hps & Hn & Hok)
    end.
    split; [exact Hps|]. split; [exact Hn|]. split.
    + rewrite negb_true_iff, <- not_true_iff_false, Hok. split.
      * intros Hno j Hj. destruct (net j) eqn:Hnet; [|done].
        destruct Hno. by exists j.
      * intros Hall (j & Hj & Hnet). rewrite Hall in Hnet by done. done.
    + rewrite andb_true_iff. by rewrite Hok.
  - destruct (getDiff env) as [d|] eqn:Hd; [|by rewrite Hnone by by left].
    destruct (getLastCommitInfo env) as [ci|] eqn:Hci;
      [|by rewrite Hnone by by right].
    rewrite (Hsome d ci eq_refl eq_refl). simpl.
    by destruct (transmitEvent _ _ _ _).2.
  - destruct (getDiff env) as [d|] eqn:Hd; [|by rewrite Hnone by by left].
    destruct (getLastCommitInfo env) as [ci|] eqn:Hci;
      [|by rewrite Hnone by by right].
    rewrite (Hsome d ci eq_refl eq_refl). simpl.
    match goal with
    | |- context [transmitEvent net url tok ?e] =>
        destruct (Hsent e) as (Hps & Hn & _)
    end.
    rewrite Hps. destruct n; [lia|done].
Qed.

Lemma handlePushEvent_outcomes_witness :
  posts (handlePushEvent sample_git (fun _ => true)
           "550e8400-e29b-41d4-a716-446655440000" "2026-02-28T10:00:00.000Z"
           "p1" "https://api.flowsync.dev" "main" "c0ffee" "feature/auth")
  = [sample_post "p1" "c0ffee"].
Proof.
  destruct (handlePushEvent_outcomes sample_git (fun _ => true)
              "550e8400-e29b-41d4-a716-446655440000"
              "2026-02-28T10:00:00.000Z" "p1" "https://api.flowsync.dev"
              "main" "c0ffee" "feature/auth") as (_ & H & _).
  destruct (H "diff --git a/x b/x"
              {| ci_commitHash := sample_hash; ci_message := "Add login";
                 ci_author := "Alice";
                 ci_timestamp := "2026-02-28T10:00:00+00:00" |})
    as (Hposts & _).
  - vm_compute. reflexivity.
  - vm_compute. reflexivity.
  - exact Hposts.
Defined.

(** ** From the extension to the events table *)

Lemma getLastCommitInfo_nonempty (env : Git) (ci : CommitInfo) :
  getLastCommitInfo env = Some ci ->
  ci_commitHash ci <> "" /\ ci_message ci <> "" /\ ci_author ci <> ""
  /\ ci_timestamp ci <> "".
Proof.
  unfold getLastCommitInfo.
  destruct (git env _) as [raw|]; [|done].
  destruct (truthy (Some raw)); simpl; [|done].
  destruct (js_split "|" raw !! 0) as [[|ch h]|]; simpl; [done| |done].
  destruct (js_split "|" raw !! 1) as [[|cm m]|]; simpl; [done| |done].
  destruct (js_split "|" raw !! 2) as [[|ca a]|]; simpl; [done| |done].
  destruct (js_split "|" raw !! 3) as [[|ct t]|]; simpl; [done| |done].
  intros [= <-]. done.
Qed.

Lemma handlePushEvent_post (env : Git) (net : nat -> bool)
    (uuid now pid url dflt tok br : string) (q : Post) :
  q ∈ posts (handlePushEvent env net uuid now pid url dflt tok br) ->
  exists d ci,
    getDiff env = Some d /\ getLastCommitInfo env = Some ci
    /\ q = {| post_url := url +:+ "/api/v1/events";
              post_token := tok;
              post_body :=
                {| ce_eventId := uuid; ce_projectId := pid;
                   ce_eventType := "push"; ce_timestamp := now;
                   ce_branch := br;
                   ce_payload :=
                     {| pp_commitHash := ci_commitHash ci;
                        pp_message := ci_message ci;
                        pp_diff := d;
                        pp_author := ci_author ci;
                        pp_parentBranch :=
                          if String.eqb dflt br then None
                          else Some dflt |} |} |}.
Proof.
  destruct (handlePushEvent_run env net uuid now pid url dflt tok br)
    as [Hnone Hsome].
  destruct (getDiff env) as [d|] eqn:Hd;
    [|rewrite Hnone by (by left); by intros ?%elem_of_nil].
  destruct (getLastCommitInfo env) as [ci|] eqn:Hci;
    [|rewrite Hnone by (by right); by intros ?%elem_of_nil].
  rewrite (Hsome d ci eq_refl eq_refl). simpl. intros Hq.
  apply attempts_posts in Hq. exists d, ci. done.
Qed.

Lemma UUID_V4_nonempty (s : string) : UUID_V4 s = true -> s <> "".
Proof. by intros Hs ->. Qed.

Lemma ISO_8601_nonempty (s : string) : ISO_8601 s = true -> s <> "".
Proof. by intros Hs ->. Qed.

Lemma pushed_event_valid (env : Git) (net : nat -> bool)
    (uuid now pid url dflt tok br : string) (q : Post) :
  q ∈ posts (handlePushEvent env net uuid now pid url dflt tok br) ->
  UUID_V4 uuid = true -> ISO_8601 now = true -> pid <> "" ->
  br <> "" -> (js_length br <= 255)%Z ->
  (forall ci, getLastCommitInfo env = Some ci -> hex40 (ci_commitHash ci)) ->
  validateEvent (wire (post_body q)) = [].
Proof.
  intros Hq Huuid Hnow Hpid Hbr Hlen Hhash.
  apply handlePushEvent_post in Hq as (d & ci & Hd & Hci & ->).
  apply getDiff_Some in Hd as (Hdne & Hdlen & _).
  destruct (getLastCommitInfo_nonempty env ci Hci) as (_ & _ & Ha & _).
  apply validateEvent_nil_iff. simpl.
  split; [exists uuid; by split; [|split; [apply UUID_V4_nonempty|]]|].
  split; [by destruct pid|]. split; [by left|].
  split; [exists now; by split; [|split; [apply ISO_8601_nonempty|]]|].
  split.
  { exists br. split; [done|]. split; [done|]. apply negb_true_iff. lia. }
  eexists. split; [reflexivity|]. split; [|done].
  intros _. apply push_errors_nil. simpl.
  split.
  { exists (ci_commitHash ci). split; [done|].
    pose proof (Hhash ci Hci) as Hh. split.
    - intros E. rewrite E in Hh. by destruct Hh.
    - by apply COMMIT_HASH_hex40. }
  split; [done|]. split; [by destruct (ci_author ci)|]. split; [done|].
  by intros d' [= <-].
Qed.

(** X19. The event that the extension posts passes the validation of the
    Lambda. When the drawn id is a UUID v4, the time of capture has the ISO
    8601 shape, the project id is non-empty, the branch has 1 to 255
    characters and git reports a commit hash of 40 hexadecimal characters,
    [validateEvent] finds nothing to report on the body of any post of
    [handlePushEvent]: the subject and the author are non-empty because
    [getLastCommitInfo] refuses empty parts, and the diff is short enough
    because [getDiff] cuts it. *)
Theorem pushed_event_validates (env : Git) (net : nat -> bool)
    (uuid now pid url dflt tok br : string) (q : Post) :
  q ∈ posts (handlePushEvent env net uuid now pid url dflt tok br) ->
  UUID_V4 uuid = true -> ISO_8601 now = true -> pid <> "" ->
  br <> "" -> (js_length br <= 255)%Z ->
  (forall ci, getLastCommitInfo env = Some ci -> hex40 (ci_commitHash ci)) ->
  validateEvent (wire (post_body q)) = []
  /\ eventType (wire (post_body q)) = Some "push"
  /\ eventKey (wire (post_body q)) = (pid, now +:+ "#" +:+ uuid)
  /\ (forall q', q' ∈ posts (handlePushEvent env net uuid now pid url dflt
                               tok br) -> q' = q).
Proof.
  intros Hq Huuid Hnow Hpid Hbr Hlen Hhash.
  split; [by eapply pushed_event_valid|].
  apply handlePushEvent_post in Hq as Hq'.
  destruct Hq' as (d & ci & Hd & Hci & ->).
  split; [done|]. split; [done|].
  intros q' (d' & ci' & Hd' & Hci' & ->)%handlePushEvent_post.
  rewrite Hd in Hd'. rewrite Hci in Hci'.
  injection Hd' as <-. injection Hci' as <-. done.
Qed.

Lemma pushed_event_validates_witness :
  validateEvent (wire (post_body (sample_post "p1" "c0ffee"))) = [].
Proof.
  apply (pushed_event_validates sample_git (fun _ => true)
           "550e8400-e29b-41d4-a716-446655440000" "2026-02-28T10:00:00.000Z"
           "p1" "https://api.flowsync.dev" "main" "c0ffee" "feature/auth"
           (sample_post "p1" "c0ffee")).
  - vm_compute. left.
  - reflexivity.
  - reflexivity.
  - discriminate.
  - discriminate.
  - vm_compute. discriminate.
  - intros ci Hci. vm_compute in Hci. injection Hci as <-.
    split; [reflexivity|]. repeat constructor.
Defined.

Lemma authenticate_bearer `{Scrypt} faults w pid project tok :
  getProjectFails faults = false -> pid <> "" ->
  projectsTable w !! pid = Some project ->
  tok <> "" -> Forall (fun c => c <> " "%char) (chars tok) ->
  truthy (apiTokenHash project) = true ->
  verifyToken tok (apiTokenHash project) = Ret true ->
  authenticate faults w
    (Some {| Authorization := Some ("Bearer " +:+ tok);
             authorization := None |})
    (Some pid)
  = Ret (AuthProject project).
Proof.
  intros Hget Hpid Hlook Htok Hsp Hhash Hver. unfold authenticate.
  rewrite extractToken_of_bearer by done.
  unfold getProjectItem. rewrite Hget.
  assert (truthy (Some pid) = true) as -> by by destruct pid.
  simpl. rewrite Hlook. simpl. rewrite Hhash. simpl. by rewrite Hver.
Qed.

(** X20. From the creation of a project to a stored push. Let a project be
    created by [createProject], and let the extension be configured with
    the project id and the token that the creation returned. Then every
    post that [handlePushEvent] makes for a push with a UUID v4 id, an ISO
    8601 time, a branch of 1 to 255 characters and a commit hash of 40
    hexadecimal characters is answered [200] by the Lambda, provided the
    reads of the projects table and the write to the events table succeed;
    the events table then holds the record of the push under
    [(projectId, timestamp#eventId)], with the branch of the hook, the
    diff that [getDiff] captured and the default branch as parent unless
    the push is on the default branch. *)
Theorem push_after_creation_is_stored `{Scrypt}
    (env : Git) (net : nat -> bool) (uuid now url dflt br : string)
    faults0 entropy0 now0 input w faults entropy received (q : Post) :
  let created := createProject faults0 entropy0 now0 (ProjectBody input) w in
  let pid := randomUUID entropy0 in
  let tok := to_hex (tokenBytes entropy0) in
  validateProjectInput input = [] -> putProjectFails faults0 = false ->
  pid <> "" -> tokenBytes entropy0 <> [] -> saltBytes entropy0 <> [] ->
  q ∈ posts (handlePushEvent env net uuid now pid url dflt tok br) ->
  UUID_V4 uuid = true -> ISO_8601 now = true ->
  br <> "" -> (js_length br <= 255)%Z ->
  (forall ci, getLastCommitInfo env = Some ci -> hex40 (ci_commitHash ci)) ->
  getProjectFails faults = false -> putEventFails faults = false ->
  let run := handler faults entropy received (delivered q) created.2 in
  statusCode run.1 = 200%Z
  /\ exists r,
       eventsTable run.2 !! (pid, now +:+ "#" +:+ uuid) = Some r
       /\ r_eventId r = uuid /\ r_projectId r = pid /\ r_branch r = br
       /\ r_eventType r = "push"
       /\ receivedAt r = received
       /\ r_parentBranch r = (if String.eqb dflt br then None else Some dflt)
       /\ diff (r_payload r) = getDiff env.
Proof.
  intros created pid tok Hinput Hput Hpid Htok Hsalt Hq Huuid Hnow Hbr Hlen
    Hhash Hget Hwrite run.
  destruct (createProject_ok faults0 entropy0 now0 input w Hinput Hput)
    as (_ & record & Htab & _ & _ & _ & _ & Hrec & _).
  fold created pid tok in Htab, Hrec.
  pose proof (pushed_event_valid env net uuid now pid url dflt tok br q Hq
                Huuid Hnow Hpid Hbr Hlen Hhash) as Hvalid.
  apply handlePushEvent_post in Hq as (d & ci & Hd & Hci & ->).
  assert (authenticate faults created.2
            (Some {| Authorization := Some ("Bearer " +:+ tok);
                     authorization := None |}) (Some pid)
          = Ret (AuthProject record)) as Hauth.
  { apply authenticate_bearer; try done.
    - rewrite Htab. apply lookup_insert_eq.
    - by apply to_hex_nonempty.
    - apply to_hex_no_space.
    - rewrite Hrec. unfold hashToken.
      by destruct (to_hex (saltBytes entropy0)).
    - rewrite Hrec. rewrite verifyToken_digest by done.
      by rewrite bool_decide_eq_true_2. }
  match type of Hvalid with
  | validateEvent ?e = [] => set (ev := e) in *
  end.
  assert (statusCode run.1 = 200%Z) as Hcode.
  { unfold run. apply (handler_accepts faults entropy received _ ev).
    split; [by exists record|done]. }
  split; [exact Hcode|].
  unfold run in *.
  change (delivered _) with (post_event
    (Some {| Authorization := Some ("Bearer " +:+ tok);
             authorization := None |}) ev) in *.
  rewrite handler_post_event in *.
  destruct (ingestEvent_run faults received
              (Some {| Authorization := Some ("Bearer " +:+ tok);
                       authorization := None |}) ev created.2)
    as [(e & _ & Hrun)|[(code & err & Ha & Hrun)|(project & _ & Hrun)]].
  - rewrite Hrun in Hcode. done.
  - rewrite Hrun in Hcode. simpl in Hcode.
    apply authenticate_error in Ha as [-> _]. done.
  - destruct Hrun as [(_ & Hrun)|[(_ & _ & Hrun)|
                      (p & _ & _ & Hp & Hr & _ & Hev & _)]].
    + rewrite Hrun in Hcode. done.
    + rewrite Hrun in Hcode. done.
    + destruct (ingestEvent faults received _ (EventBody ev) created.2)
        as [out w'] eqn:E. simpl in *. subst out. simpl.
      injection Hp as <-. eexists. split.
      { rewrite Hev. apply lookup_insert_eq. }
      simpl. repeat (split; [done|]).
      apply getDiff_Some in Hd as Hd'. by rewrite Hd.
Qed.

Lemma push_after_creation_is_stored_witness :
  let created := @createProject sample_scrypt no_faults sample_entropy
                   sample_now (ProjectBody sample_input) sample_world in
  let q := sample_post (randomUUID sample_entropy)
             (to_hex (tokenBytes sample_entropy)) in
  statusCode (@handler sample_scrypt no_faults sample_entropy
                "2026-02-28T10:00:01.000Z" (delivered q) created.2).1
  = 200%Z.
Proof.
  intros created q.
  apply (@push_after_creation_is_stored sample_scrypt sample_git
           (fun _ => true) "550e8400-e29b-41d4-a716-446655440000"
           "2026-02-28T10:00:00.000Z" "https://api.flowsync.dev" "main"
           "feature/auth" no_faults sample_entropy sample_now sample_input
           sample_world no_faults sample_entropy "2026-02-28T10:00:01.000Z"
           q).
  - vm_compute. reflexivity.
  - reflexivity.
  - discriminate.
  - discriminate.
  - discriminate.
  - vm_compute. left.
  - reflexivity.
  - reflexivity.
  - discriminate.
  - vm_compute. discriminate.
  - intros ci Hci. vm_compute in Hci. injection Hci as <-.
    split; [reflexivity|]. repeat constructor.
  - reflexivity.
  - reflexivity.
Defined.

(** ** The project initialisation command *)

Lemma hex_hex_digit (n : N) : (n < 16)%N -> hex (hex_digit n) = true.
Proof.
  intros Hn. destruct n as [|p]; [done|].
  do 4 (destruct p as [p|p|]; try reflexivity; try lia).
Qed.

Lemma variant_hex_digit (r : N) :
  variant (hex_digit (N.lor (N.land r 3) 8)) = true.
Proof.
  change 3%N with (N.ones 2). rewrite N.land_ones.
  change (2 ^ 2)%N with 4%N.
  pose proof (N.mod_upper_bound r 4 ltac:(lia)) as Hlt.
  set (m := N.modulo r 4) in *. clearbody m.
  assert (m = 0 \/ m = 1 \/ m = 2 \/ m = 3)%N as Hc by lia.
  destruct Hc as [->|[->|[->| ->]]]; reflexivity.
Qed.

Lemma forallb_same {A} (f g : A -> bool) (l : list A) :
  (forall x, f x = g x) -> forallb f l = forallb g l.
Proof.
  intros Hfg. induction l as [|x l IH]; simpl; [done|].
  by rewrite Hfg, IH.
Qed.

(** X21. The placeholder id of [generateTempId] has the shape that the
    Lambda demands of a UUID v4, whatever is drawn: it has 36 characters
    and passes [UUID_V4], its version digit being [4] and its variant
    digit one of [8], [9], [a] and [b]. The name that the input box of the
    init command lets through is exactly a name that the [NAME_REGEX] of
    the Lambda accepts. *)
Theorem generateTempId_shape (random : nat -> N) :
  (forall i, (random i < 16)%N) ->
  UUID_V4 (generateTempId random) = true
  /\ String.length (generateTempId random) = 36
  /\ (forall value : option string,
        validateInput value = None <-> valid NAME_REGEX value).
Proof.
  intros Hr. split; [|split].
  - unfold UUID_V4, generateTempId. rewrite chars_str. simpl.
    unfold tempDigit. simpl.
    rewrite !hex_hex_digit by apply Hr. by rewrite variant_hex_digit.
  - unfold generateTempId. by rewrite length_str.
  - intros value.
    assert (forall s,
      match chars s with
      | [] => false
      | l => forallb (fun c => in_range "a" "z" c || in_range "A" "Z" c
                               || in_range "0" "9" c || is_char "-" c
                               || is_char "_" c) l
      end = NAME_REGEX s) as Hsame.
    { intros s. unfold NAME_REGEX. destruct (chars s) as [|c l]; [done|].
      apply forallb_same. intros x. unfold name_char.
      by destruct (in_range "a" "z" x), (in_range "A" "Z" x),
        (in_range "0" "9" x), (is_char "-" x), (is_char "_" x). }
    unfold validateInput, valid. cbv zeta. rewrite Hsame.
    destruct value as [s|]; simpl default.
    + destruct (truthy (Some s)) eqn:Ht; simpl.
      * destruct (NAME_REGEX s) eqn:E; simpl.
        -- split; [|done]. intros _. exists s. split; [done|].
           split; [|done]. by destruct s.
        -- split; [done|]. intros (? & [= <-] & _ & ?). congruence.
      * split; [done|]. intros (? & [= <-] & ? & _). by destruct s.
    + simpl. split; [done|]. by intros (? & ? & _).
Qed.

Lemma generateTempId_shape_witness :
  UUID_V4 (generateTempId (fun i => N.of_nat (i mod 16))) = true.
Proof.
  apply (generateTempId_shape (fun i => N.of_nat (i mod 16))).
  intros i. pose proof (Nat.mod_upper_bound i 16). lia.
Defined.

(** ** The hook listener and the notification *)

(** X22. The listener starts a capture exactly when it answers [200], and
    it answers [200] exactly to a [POST /flowsync-hook] whose body parses
    to an object with the event [post-push] and a non-empty branch; every
    other request is answered [400] or [404] and captures nothing. Every
    post that follows carries the branch named in the body of the hook
    request, and the answer to the hook does not tell whether anything was
    posted. *)
Theorem onHook_captures (env : Git) (net : nat -> bool)
    (uuid now pid url dflt tok : string) (req : HookRequest) :
  let run := onHook env net uuid now pid url dflt tok req in
  (hook_status run.1 = 200%Z
   <-> hook_method req = "POST" /\ hook_url req = "/flowsync-hook"
       /\ exists b, hook_body req = HookParsed (Some "post-push") (Some b)
                    /\ b <> "")
  /\ (is_Some run.2 <-> hook_status run.1 = 200%Z)
  /\ (hook_status run.1 = 200%Z \/ hook_status run.1 = 400%Z
      \/ hook_status run.1 = 404%Z)
  /\ (hook_status run.1 = 404%Z
      <-> ~ (hook_method req = "POST" /\ hook_url req = "/flowsync-hook"))
  /\ (forall b,
        hook_body req = HookParsed (Some "post-push") (Some b) ->
        hook_status run.1 = 200%Z ->
        run.2 = Some (handlePushEvent env net uuid now pid url dflt tok b)
        /\ forall q, q ∈ posts (handlePushEvent env net uuid now pid url dflt
                                  tok b) ->
                     ce_branch (post_body q) = b).
Proof.
  intros run. unfold run, onHook, onRequest.
  destruct (String.eqb (hook_method req) "POST") eqn:Hm; simpl.
  - apply String.eqb_eq in Hm.
    destruct (String.eqb (hook_url req) "/flowsync-hook") eqn:Hu; simpl.
    + apply String.eqb_eq in Hu.
      destruct (hook_body req) as [| |event branch] eqn:Hb; simpl.
      * split; [split; [done|by intros (_ & _ & ? & ? & _)]|].
        split; [split; [by intros []|done]|]. split; [auto|].
        split; [split; [done|by intros []]|]. done.
      * split; [split; [done|by intros (_ & _ & ? & ? & _)]|].
        split; [split; [by intros []|done]|]. split; [auto|].
        split; [split; [done|by intros []]|]. done.
      * destruct (decide (event = Some "post-push")) as [->|Hne].
        -- rewrite bool_decide_eq_true_2 by done. simpl.
           destruct branch as [[|c b]|]; simpl.
           ++ split; [split; [done|by intros (_ & _ & ? & [= <-] & ?)]|].
              split; [split; [by intros []|done]|]. split; [auto|].
              split; [split; [done|by intros []]|]. done.
           ++ split; [split; [|done]|].
              { intros _. split; [done|]. split; [done|]. by eexists. }
              split; [split; [done|by eexists]|]. split; [auto|].
              split; [split; [done|by intros []]|].
              intros b' [= <-] _. split; [done|].
              intros q (d & ci & _ & _ & ->)%handlePushEvent_post. done.
           ++ split; [split; [done|by intros (_ & _ & ? & ? & _)]|].
              split; [split; [by intros []|done]|]. split; [auto|].
              split; [split; [done|by intros []]|]. done.
        -- rewrite bool_decide_eq_false_2 by done. simpl.
           split; [split; [done|]|].
           { intros (_ & _ & ? & [= E _] & _). by destruct Hne. }
           split; [split; [by intros []|done]|]. split; [auto|].
           split; [split; [done|by intros []]|]. done.
    + apply String.eqb_neq in Hu.
      split; [split; [done|by intros (_ & ? & _)]|].
      split; [split; [by intros []|done]|]. split; [auto|].
      split; [split; [by intros _ [_ ?]|done]|]. done.
  - apply String.eqb_neq in Hm.
    split; [split; [done|by intros (? & _)]|].
    split; [split; [by intros []|done]|]. split; [auto|].
    split; [split; [by intros _ [? _]|done]|]. done.
Qed.

Lemma onHook_captures_witness :
  (onHook sample_git (fun _ => true)
     "550e8400-e29b-41d4-a716-446655440000" "2026-02-28T10:00:00.000Z"
     "p1" "https://api.flowsync.dev" "main" "c0ffee"
     {| hook_method := "POST"; hook_url := "/flowsync-hook";
        hook_body := HookParsed (Some "post-push")
                       (Some "feature/auth") |}).2
  = Some (handlePushEvent sample_git (fun _ => true)
            "550e8400-e29b-41d4-a716-446655440000"
            "2026-02-28T10:00:00.000Z" "p1" "https://api.flowsync.dev"
            "main" "c0ffee" "feature/auth").
Proof.
  destruct (onHook_captures sample_git (fun _ => true)
              "550e8400-e29b-41d4-a716-446655440000"
              "2026-02-28T10:00:00.000Z" "p1" "https://api.flowsync.dev"
              "main" "c0ffee"
              {| hook_method := "POST"; hook_url := "/flowsync-hook";
                 hook_body := HookParsed (Some "post-push")
                                (Some "feature/auth") |})
    as (_ & _ & _ & _ & H).
  destruct (H "feature/auth" eq_refl eq_refl) as [Hrun _]. exact Hrun.
Defined.




(** ** The responses of the handler *)

Section Responses.
Context `{Scrypt}.

Lemma authenticate_response faults w headers pid code err :
  authenticate faults w headers pid = Ret (AuthError code err) ->
  response_ok (respond code err) /\ code = 401%Z.
Proof.
  intros (-> & msg & ->)%authenticate_error. split; [|done].
  unfold response_ok. simpl. right. right. left. done.
Qed.

Lemma createProject_response faults entropy now b w r :
  (createProject faults entropy now b w).1 = Ret r ->
  response_ok r /\ statusCode r <> 500%Z
  /\ (statusCode r = 200%Z ->
      body r = Created (randomUUID entropy) (to_hex (tokenBytes entropy))).
Proof.
  unfold createProject.
  destruct (parse_project b) as [[input|]|e]; [|done|done].
  destruct (decide (validateProjectInput input = [])) as [Hv|Hv].
  - rewrite (bool_decide_eq_true_2 _ Hv). simpl.
    destruct (putProjectFails faults); [done|]. by intros [= <-].
  - rewrite (bool_decide_eq_false_2 _ Hv). simpl. intros [= <-].
    split; [|done]. unfold response_ok. simpl. right. left. done.
Qed.

Lemma ingestEvent_response faults now headers b w r :
  (ingestEvent faults now headers b w).1 = Ret r ->
  response_ok r /\ statusCode r <> 500%Z
  /\ (statusCode r = 200%Z ->
      exists eid pid br,
        body r = Processing eid pid br "processing" now).
Proof.
  unfold ingestEvent.
  destruct (parse_event b) as [[ev|]|e]; [|done|].
  - destruct (authenticate faults w headers (projectId ev))
      as [[code err|project]|e] eqn:Ha; [| |done].
    + intros [= <-]. apply authenticate_response in Ha as [Hok ->].
      done.
    + destruct (decide (validateEvent ev = [])) as [Hv|Hv].
      * rewrite (bool_decide_eq_true_2 _ Hv). simpl.
        destruct (payload ev) as [p|]; [|done].
        destruct (putEventFails faults); [done|]. intros [= <-].
        split; [done|]. split; [done|]. intros _. by eexists _, _, _.
      * rewrite (bool_decide_eq_false_2 _ Hv). simpl. intros [= <-].
        split; [|done]. unfold response_ok. simpl. right. left. done.
  - intros [= <-]. split; [|done]. unfold response_ok. simpl. by left.
Qed.

Lemma getProject_response faults headers pid w r :
  (getProject faults headers pid w).1 = Ret r ->
  response_ok r /\ statusCode r <> 500%Z
  /\ (statusCode r = 200%Z -> exists view, body r = Info view).
Proof.
  unfold getProject. destruct (negb (truthy pid)).
  - intros [= <-]. split; [|done]. unfold response_ok. simpl.
    right. left. done.
  - destruct (authenticate faults w headers pid)
      as [[code err|project]|e] eqn:Ha; [| |done].
    + intros [= <-]. apply authenticate_response in Ha as [Hok ->]. done.
    + intros [= <-]. split; [done|]. split; [done|]. intros _. by eexists.
Qed.

Lemma route_response faults entropy now req w r :
  (route faults entropy now req w).1 = Ret r ->
  response_ok r /\ statusCode r <> 500%Z
  /\ (statusCode r = 200%Z ->
        httpMethod req = Some "OPTIONS" /\ body r = Ok
        \/ (httpMethod req = Some "POST"
            /\ resource req = Some "/api/v1/projects"
            /\ body r
               = Created (randomUUID entropy) (to_hex (tokenBytes entropy)))
        \/ (httpMethod req = Some "POST"
            /\ resource req = Some "/api/v1/events"
            /\ exists eid pid br,
                 body r = Processing eid pid br "processing" now)
        \/ (httpMethod req = Some "GET"
            /\ resource req = Some "/api/v1/projects/{projectId}"
            /\ exists view, body r = Info view)).
Proof.
  unfold route.
  destruct (String.eqb (default "" (httpMethod req)) "OPTIONS") eqn:Ho.
  { apply is_POST in Ho; [|done]. intros [= <-].
    split; [done|]. split; [done|]. intros _. by left. }
  destruct (String.eqb (default "" (httpMethod req)) "POST"
            && String.eqb (default "" (resource req)) "/api/v1/projects")
    eqn:Hp.
  { apply andb_true_iff in Hp as [Hm Hr].
    apply is_POST in Hm; [|done]. apply is_POST in Hr; [|done].
    intros (Hok & H5 & H2)%createProject_response.
    split; [done|]. split; [done|]. intros H200. right. left. auto. }
  destruct (String.eqb (default "" (httpMethod req)) "POST"
            && String.eqb (default "" (resource req)) "/api/v1/events")
    eqn:He.
  { apply andb_true_iff in He as [Hm Hr].
    apply is_POST in Hm; [|done]. apply is_POST in Hr; [|done].
    intros (Hok & H5 & H2)%ingestEvent_response.
    split; [done|]. split; [done|]. intros H200. right. right. left. auto. }
  destruct (String.eqb (default "" (httpMethod req)) "GET"
            && String.eqb (default "" (resource req))
                 "/api/v1/projects/{projectId}") eqn:Hg.
  { apply andb_true_iff in Hg as [Hm Hr].
    apply is_POST in Hm; [|done]. apply is_POST in Hr; [|done].
    intros (Hok & H5 & H2)%getProject_response.
    split; [done|]. split; [done|]. intros H200. right. right. right. auto. }
  intros [= <-]. split; [|done]. unfold response_ok. simpl.
  right. right. right. left. done.
Qed.
End Responses.

(** X24. The responses of the handler. Every response is a success body
    under [200] or an error body under the status of its code:
    [invalid_json] and [validation_failed] (with a non-empty list of
    details) under [400], [invalid_token] under [401], [not_found] under
    [404] and [internal_error] under [500]. An exception is always
    answered by the same [500] body, which carries nothing of the
    exception, and is logged; nothing else is answered [500]. [OPTIONS]
    is answered [200] on every resource without touching anything. A
    [200] carries the new id and token on the projects route, the status
    [processing] with the time of reception on the events route and the
    project view on the [GET] route. *)
Theorem handler_responses `{Scrypt} faults entropy now req w :
  let run := handler faults entropy now req w in
  response_ok run.1
  /\ (forall e,
        (route faults entropy now req w).1 = Throw e ->
        run.1 = respond 500
                  (Error "internal_error"
                     (Some "An unexpected error occurred") [])
        /\ console run.2
           = console (route faults entropy now req w).2
             ++ ["Unhandled error"])
  /\ (statusCode run.1 = 500%Z
      <-> exists e, (route faults entropy now req w).1 = Throw e)
  /\ (httpMethod req = Some "OPTIONS" -> run = (respond 200 Ok, w))
  /\ (statusCode run.1 = 200%Z ->
        httpMethod req = Some "OPTIONS" /\ body run.1 = Ok
        \/ (httpMethod req = Some "POST"
            /\ resource req = Some "/api/v1/projects"
            /\ body run.1
               = Created (randomUUID entropy) (to_hex (tokenBytes entropy)))
        \/ (httpMethod req = Some "POST"
            /\ resource req = Some "/api/v1/events"
            /\ exists eid pid br,
                 body run.1 = Processing eid pid br "processing" now)
        \/ (httpMethod req = Some "GET"
            /\ resource req = Some "/api/v1/projects/{projectId}"
            /\ exists view, body run.1 = Info view)).
Proof.
  intros run.
  assert (httpMethod req = Some "OPTIONS" -> run = (respond 200 Ok, w))
    as Hopt.
  { intros Ho. unfold run, handler, route. by rewrite Ho. }
  pose proof (route_response faults entropy now req w) as Hret.
  unfold run, handler in *.
  destruct (route faults entropy now req w) as [[r|e] w'] eqn:E; simpl in *.
  - destruct (Hret r eq_refl) as (Hok & H5 & H2).
    split; [done|]. split; [done|]. split; [|done].
    split; [done|]. by intros [? ?].
  - split.
    { unfold response_ok. simpl. right. right. right. right. done. }
    split; [by intros e' _|]. split; [|split; [done|done]].
    split; [by eexists|done].
Qed.

Lemma handler_responses_witness :
  @handler sample_scrypt no_faults sample_entropy sample_now
    {| httpMethod := Some "OPTIONS"; resource := Some "/api/v1/events";
       headers := None; req_body := Malformed; pathProjectId := None |}
    sample_world
  = (respond 200 Ok, sample_world).
Proof.
  destruct (@handler_responses sample_scrypt no_faults sample_entropy
              sample_now
              {| httpMethod := Some "OPTIONS";
                 resource := Some "/api/v1/events";
                 headers := None; req_body := Malformed;
                 pathProjectId := None |} sample_world)
    as (_ & _ & _ & H & _).
  apply H. reflexivity.
Defined.

(** ** The timestamp pattern *)

Lemma is_char_eq (a c : ascii) : is_char a c = true <-> c = a.
Proof.
  unfold is_char. rewrite Ascii.eqb_eq. split; by intros ->.
Qed.

Lemma drop_digits_split (l : list ascii) :
  exists ds, l = ds ++ drop_digits l /\ Forall (fun c => digit c = true) ds.
Proof.
  induction l as [|c l (ds & Hl & Hds)]; simpl.
  - by exists [].
  - destruct (digit c) eqn:Hc.
    + exists (c :: ds). split; [by rewrite <- app_comm_cons, <- Hl|].
      by constructor.
    + by exists [].
Qed.

Lemma drop_digits_app (ds zone : list ascii) :
  Forall (fun c => digit c = true) ds ->
  match zone with c :: _ => digit c = false | [] => True end ->
  drop_digits (ds ++ zone) = zone.
Proof.
  intros Hds Hz. induction Hds as [|c ds Hc _ IH]; simpl.
  - destruct zone as [|c zone]; [done|]. simpl. by rewrite Hz.
  - by rewrite Hc.
Qed.

Lemma digits_2 (l : list ascii) :
  digits 2 l <-> exists a b, l = [a; b] /\ digit a = true /\ digit b = true.
Proof.
  unfold digits. split.
  - intros [Hlen Hall]. destruct l as [|a [|b [|c l]]]; try done.
    exists a, b. split; [done|].
    apply Forall_cons in Hall as [? Hall].
    by apply Forall_cons in Hall as [? _].
  - intros (a & b & -> & Ha & Hb). split; [done|]. by repeat constructor.
Qed.

Lemma digits_4 (l : list ascii) :
  digits 4 l
  <-> exists a b c d, l = [a; b; c; d] /\ digit a = true /\ digit b = true
                      /\ digit c = true /\ digit d = true.
Proof.
  unfold digits. split.
  - intros [Hlen Hall]. destruct l as [|a [|b [|c [|d [|e l]]]]]; try done.
    exists a, b, c, d. split; [done|].
    apply Forall_cons in Hall as [? Hall].
    apply Forall_cons in Hall as [? Hall].
    apply Forall_cons in Hall as [? Hall].
    by apply Forall_cons in Hall as [? _].
  - intros (a & b & c & d & -> & Ha & Hb & Hc & Hd). split; [done|].
    by repeat constructor.
Qed.

Lemma iso_zone_shape (zone : list ascii) :
  iso_zone zone = true
  <-> zone = ["Z"%char]
      \/ exists sign hh mm,
           (sign = "+"%char \/ sign = "-"%char)
           /\ digits 2 hh /\ digits 2 mm
           /\ (zone = sign :: hh ++ ":"%char :: mm
               \/ zone = sign :: hh ++ mm).
Proof.
  unfold iso_zone. cbv zeta. rewrite !orb_true_iff. split.
  - intros [[Hz|Hcolon]|Hplain].
    + left. destruct zone as [|c [|]]; cbn [match_classes] in Hz; try done.
      * rewrite andb_true_r in Hz. by apply is_char_eq in Hz as ->.
      * by rewrite andb_false_r in Hz.
    + right. destruct zone as [|sg [|a [|b [|k [|c [|d [|]]]]]]];
        cbn [match_classes] in Hcolon; rewrite ?andb_false_r in Hcolon;
        try done.
      rewrite andb_true_r, !andb_true_iff, orb_true_iff, !is_char_eq
        in Hcolon.
      destruct Hcolon as (Hsg & Ha & Hb & -> & Hc & Hd).
      exists sg, [a; b], [c; d]. split; [done|].
      split; [apply digits_2; by eexists _, _|].
      split; [apply digits_2; by eexists _, _|]. by left.
    + right. destruct zone as [|sg [|a [|b [|c [|d [|]]]]]];
        cbn [match_classes] in Hplain; rewrite ?andb_false_r in Hplain;
        try done.
      rewrite andb_true_r, !andb_true_iff, orb_true_iff, !is_char_eq
        in Hplain.
      destruct Hplain as (Hsg & Ha & Hb & Hc & Hd).
      exists sg, [a; b], [c; d]. split; [done|].
      split; [apply digits_2; by eexists _, _|].
      split; [apply digits_2; by eexists _, _|]. by right.
  - intros [->|(sg & hh & mm & Hsg & Hhh & Hmm & Hz)]; [by left; left|].
    apply digits_2 in Hhh as (a & b & -> & Ha & Hb).
    apply digits_2 in Hmm as (c & d & -> & Hc & Hd).
    assert ((is_char "+" sg || is_char "-" sg) = true) as Hsign.
    { rewrite orb_true_iff, !is_char_eq. done. }
    destruct Hz as [-> | ->]; cbn [match_classes app];
      rewrite Hsign, Ha, Hb, Hc, Hd.
    + left. right. done.
    + right. done.
Qed.

Lemma iso_zone_head (zone : list ascii) :
  iso_zone zone = true ->
  match zone with c :: _ => digit c = false /\ is_char "." c = false | [] => False end.
Proof.
  intros [->|(sg & hh & mm & [-> | ->] & _ & _ & [-> | ->])]%iso_zone_shape;
    done.
Qed.

Lemma iso_tail_shape (l : list ascii) :
  iso_tail l = true
  <-> exists frac zone,
        l = frac ++ zone
        /\ (frac = []
            \/ exists ds, frac = "."%char :: ds /\ ds <> []
                          /\ Forall (fun c => digit c = true) ds)
        /\ iso_zone zone = true.
Proof.
  split.
  - unfold iso_tail.
    destruct l as [|c [|d l]].
    { intros Hz. exists [], []. auto. }
    { intros Hz. exists [], [c]. auto. }
    destruct (is_char "." c && digit d) eqn:Hdot.
    + apply andb_true_iff in Hdot as [->%is_char_eq Hd]. intros Hz.
      destruct (drop_digits_split (d :: l)) as (ds & Hl & Hds).
      exists ("."%char :: ds), (drop_digits (d :: l)).
      split; [by rewrite <- app_comm_cons, <- Hl|]. split; [|done].
      right. exists ds. split; [done|]. split; [|done].
      intros ->. simpl in Hl. rewrite Hd in Hl.
      apply (f_equal length) in Hl.
      destruct (drop_digits_split l) as (ds' & Hl' & _).
      apply (f_equal length) in Hl'. rewrite length_app in Hl'.
      simpl in Hl. lia.
    + intros Hz. exists [], (c :: d :: l). auto.
  - intros (frac & zone & -> & Hfrac & Hz).
    pose proof (iso_zone_head zone Hz) as Hhead.
    destruct Hfrac as [->|(ds & -> & Hne & Hds)]; simpl.
    + unfold iso_tail. destruct zone as [|c [|d zone]]; try done.
      destruct Hhead as [_ ->]. done.
    + destruct ds as [|d ds]; [done|].
      apply Forall_cons in Hds as Hd. destruct Hd as [Hd _].
      unfold iso_tail. cbn [app]. rewrite Hd.
      rewrite (app_comm_cons ds zone d).
      rewrite drop_digits_app; [done|done|].
      destruct zone; [done|]. by destruct Hhead.
Qed.

(** X25. [ISO_8601] accepts exactly the strings made of a date
    [dddd-dd-dd], the letter [T], a time [dd:dd:dd], an optional fraction
    (a dot and one or more digits) and a zone that is [Z] or a signed
    offset [dd:dd] or [dddd]: the greedy reading of the fraction loses no
    match. Nothing but the shape is checked: any digits pass. *)
Theorem ISO_8601_shape (s : string) : ISO_8601 s = true <-> iso_shape s.
Proof.
  unfold ISO_8601, iso_shape. rewrite andb_true_iff, iso_tail_shape. split.
  - intros [Hdate (frac & zone & Hdrop & Hfrac & Hzone)].
    pose proof (take_drop 19 (chars s)) as Hsplit.
    rewrite Hdrop in Hsplit.
    destruct (take 19 (chars s))
      as [|y1 [|y2 [|y3 [|y4 [|k1 [|m1 [|m2 [|k2 [|d1 [|d2 [|k3 [|h1 [|h2
          [|k4 [|i1 [|i2 [|k5 [|s1 [|s2 [|]]]]]]]]]]]]]]]]]]]];
      cbn [match_classes replicate app] in Hdate;
      rewrite ?andb_false_r in Hdate; try done.
    rewrite andb_true_r, !andb_true_iff, !is_char_eq in Hdate.
    destruct Hdate as (Hy1 & Hy2 & Hy3 & Hy4 & -> & Hm1 & Hm2 & -> & Hd1
                       & Hd2 & -> & Hh1 & Hh2 & -> & Hi1 & Hi2 & -> & Hs1
                       & Hs2).
    exists [y1; y2; y3; y4], [m1; m2], [d1; d2], [h1; h2], [i1; i2],
      [s1; s2], frac, zone.
    split; [by rewrite <- Hsplit|].
    split; [apply digits_4; by eexists _, _, _, _|].
    do 5 (split; [apply digits_2; by eexists _, _|]).
    split; [done|]. by apply iso_zone_shape.
  - intros (y & mo & d & h & mi & sec & frac & zone & Hs & Hy & Hmo & Hd
            & Hh & Hmi & Hsec & Hfrac & Hzone).
    apply digits_4 in Hy as (y1 & y2 & y3 & y4 & -> & Hy1 & Hy2 & Hy3 & Hy4).
    apply digits_2 in Hmo as (m1 & m2 & -> & Hm1 & Hm2).
    apply digits_2 in Hd as (d1 & d2 & -> & Hd1 & Hd2).
    apply digits_2 in Hh as (h1 & h2 & -> & Hh1 & Hh2).
    apply digits_2 in Hmi as (i1 & i2 & -> & Hi1 & Hi2).
    apply digits_2 in Hsec as (s1 & s2 & -> & Hs1 & Hs2).
    rewrite Hs. cbn [app take drop match_classes replicate]. split.
    + rewrite Hy1, Hy2, Hy3, Hy4, Hm1, Hm2, Hd1, Hd2, Hh1, Hh2, Hi1, Hi2,
        Hs1, Hs2. done.
    + exists frac, zone. split; [done|]. split; [done|].
      by apply iso_zone_shape.
Qed.

(** ** The prompt *)

Lemma prefixb_spec (p l : list ascii) :
  prefixb p l = true <-> exists t, l = p ++ t.
Proof.
  revert l. induction p as [|a p IH]; intros l; simpl.
  - split; [by exists l|done].
  - destruct l as [|b l].
    + split; [done|]. by intros (t & ?).
    + rewrite andb_true_iff, Ascii.eqb_eq, IH. split.
      * intros [-> (t & ->)]. by exists t.
      * intros (t & [= -> ->]). split; [done|by exists t].
Qed.

Lemma find_first_here (p rest : list ascii) :
  find_first p (p ++ rest) = Some ([], rest).
Proof.
  assert (prefixb p (p ++ rest) = true) as Hp
    by (apply prefixb_spec; by exists rest).
  destruct (p ++ rest) eqn:E; simpl; rewrite Hp; rewrite <- E;
    by rewrite drop_app_length.
Qed.

Lemma find_first_plain (p l rest : list ascii) :
  Forall (fun c => c <> "["%char) l ->
  find_first ("["%char :: p) (l ++ rest)
  = (fun '(b, a) => (l ++ b, a)) <$> find_first ("["%char :: p) rest.
Proof.
  induction 1 as [|c l Hc _ IH].
  - simpl app. by destruct (find_first _ rest) as [[b a]|].
  - simpl app. cbn [find_first prefixb].
    assert (Ascii.eqb "[" c = false) as ->.
    { apply Ascii.eqb_neq. congruence. }
    cbn [andb]. rewrite IH. by destruct (find_first _ rest) as [[b a]|].
Qed.

Lemma app_sep_inj {A} (x : A) (l1 l2 t1 t2 : list A) :
  x ∉ l1 -> x ∉ l2 -> l1 ++ x :: t1 = l2 ++ x :: t2 -> l1 = l2.
Proof.
  revert l2. induction l1 as [|a l1 IH]; intros [|b l2] H1 H2; simpl.
  - done.
  - intros [= <- _]. destruct H2. left.
  - intros [= -> _]. destruct H1. left.
  - intros [= -> E]. f_equal. apply IH; [| |done].
    + intros ?. apply H1. by right.
    + intros ?. apply H2. by right.
Qed.

Lemma prefixb_bracketed (p q rest : list ascii) :
  bracketed p -> bracketed q -> p <> q -> prefixb p (q ++ rest) = false.
Proof.
  intros (ip & -> & Hp) (iq & -> & Hq) Hne.
  apply not_true_is_false. intros (t & E)%prefixb_spec.
  destruct Hne. f_equal. f_equal.
  simpl in E. injection E as E. rewrite <- !app_assoc in E. simpl in E.
  symmetry. eapply (app_sep_inj "]"%char); [| |exact E].
  - intros Hin. rewrite Forall_forall in Hq. by destruct (Hq _ Hin).
  - intros Hin. rewrite Forall_forall in Hp. by destruct (Hp _ Hin).
Qed.

Lemma find_first_hole (p q rest : list ascii) :
  bracketed p -> bracketed q -> p <> q ->
  find_first p (q ++ rest)
  = (fun '(b, a) => (q ++ b, a)) <$> find_first p rest.
Proof.
  intros Hp Hq Hne.
  pose proof (prefixb_bracketed p q rest Hp Hq Hne) as Hpre.
  destruct Hp as (ip & -> & Hp). destruct Hq as (iq & -> & Hq).
  change (("["%char :: iq ++ ["]"%char]) ++ rest)
    with ("["%char :: (iq ++ ["]"%char]) ++ rest) in *.
  cbn [find_first]. rewrite Hpre.
  rewrite (find_first_plain (ip ++ ["]"%char]) (iq ++ ["]"%char]) rest).
  - by destruct (find_first _ rest) as [[b a]|].
  - apply Forall_app. split.
    + eapply Forall_impl; [exact Hq|]. by intros c [? _].
    + by repeat constructor.
Qed.

Lemma find_first_flat (p : list ascii) (segs : list Seg) :
  bracketed p -> well_formed segs ->
  match find_first p (flat segs) with
  | Some (b, a) => forall r, flat (fill p r segs) = b ++ r ++ a
  | None => forall r, flat (fill p r segs) = flat segs
  end.
Proof.
  intros Hp Hwf. induction Hwf as [|s segs Hs _ IH].
  - destruct Hp as (ip & -> & _). done.
  - destruct s as [l|q].
    + change (flat (Txt l :: segs)) with (l ++ flat segs).
      destruct Hp as (ip & Hp & Hip). rewrite Hp in *.
      rewrite find_first_plain by done.
      destruct (find_first _ (flat segs)) as [[b a]|]; simpl.
      * intros r. change (flat (Txt l :: ?x)) with (l ++ flat x).
        by rewrite IH, <- app_assoc.
      * intros r. change (flat (Txt l :: ?x)) with (l ++ flat x).
        by rewrite IH.
    + change (flat (Hole q :: segs)) with (q ++ flat segs).
      cbn [fill]. destruct (decide (q = p)) as [->|Hne].
      * rewrite find_first_here. intros r. done.
      * rewrite find_first_hole by done.
        destruct (find_first p (flat segs)) as [[b a]|]; simpl.
        -- intros r. change (flat (Hole q :: ?x)) with (q ++ flat x).
           by rewrite IH, <- app_assoc.
        -- intros r. change (flat (Hole q :: ?x)) with (q ++ flat x).
           by rewrite IH.
Qed.

Lemma expand_plain (matched before after r : list ascii) :
  Forall (fun c => c <> "$"%char) r -> expand matched before after r = r.
Proof.
  induction 1 as [|c r Hc _ IH]; [done|].
  cbn [expand].
  assert (is_char "$" c = false) as ->.
  { apply Ascii.eqb_neq. congruence. }
  by rewrite IH.
Qed.

Lemma replace_fill (p r : string) (segs : list Seg) :
  bracketed (chars p) -> well_formed segs ->
  Forall (fun c => c <> "["%char /\ c <> "$"%char) (chars r) ->
  replace p r (str (flat segs)) = str (flat (fill (chars p) (chars r) segs))
  /\ well_formed (fill (chars p) (chars r) segs).
Proof.
  intros Hp Hwf Hr. split.
  - unfold replace. rewrite chars_str.
    pose proof (find_first_flat (chars p) segs Hp Hwf) as Hfind.
    destruct (find_first (chars p) (flat segs)) as [[b a]|].
    + rewrite Hfind, expand_plain; [done|].
      eapply Forall_impl; [exact Hr|]. by intros c [_ ?].
    + by rewrite Hfind.
  - induction Hwf as [|s segs Hs Hsegs IH]; [constructor|].
    destruct s as [l|q]; cbn [fill].
    + by constructor.
    + destruct (decide (q = chars p)).
      * constructor; [|exact Hsegs].
        eapply Forall_impl; [exact Hr|]. by intros c [? _].
      * by constructor.
Qed.

Lemma bracketedb_spec (p : list ascii) : bracketedb p = true -> bracketed p.
Proof.
  unfold bracketedb. destruct p as [|c rest]; [done|].
  destruct (reverse rest) as [|d inner] eqn:Hrev;
    [by rewrite andb_false_r|].
  rewrite !andb_true_iff, !Ascii.eqb_eq. intros (-> & -> & Hall).
  exists (reverse inner). split.
  - f_equal. rewrite <- (reverse_involutive rest), Hrev.
    by rewrite reverse_cons.
  - apply Forall_reverse, Forall_forall. intros c Hc.
    rewrite forallb_forall in Hall. specialize (Hall c).
    rewrite andb_true_iff, !negb_true_iff, !Ascii.eqb_neq in Hall.
    apply Hall. by apply list_elem_of_In.
Qed.

Lemma well_formedb_spec (segs : list Seg) :
  well_formedb segs = true -> well_formed segs.
Proof.
  unfold well_formedb, well_formed. rewrite forallb_forall, Forall_forall.
  intros Hall s Hs. specialize (Hall s (proj1 (list_elem_of_In _ _) Hs)).
  destruct s as [l|p]; [|by apply bracketedb_spec].
  apply Forall_forall. intros c Hc.
  rewrite forallb_forall in Hall. specialize (Hall c).
  rewrite negb_true_iff, Ascii.eqb_neq in Hall.
  apply Hall. by apply list_elem_of_In.
Qed.

Lemma template_segs_ok :
  prompt_template = str (flat template_segs) /\ well_formed template_segs.
Proof.
  split; [vm_compute; reflexivity|].
  apply well_formedb_spec. vm_compute. reflexivity.
Qed.

Lemma find_first_Some (p l b a : list ascii) :
  find_first p l = Some (b, a) -> l = b ++ p ++ a.
Proof.
  revert b. induction l as [|c l IH]; intros b; cbn [find_first].
  - destruct (prefixb p []) eqn:Hp; [|done].
    apply prefixb_spec in Hp as (t & Ht). intros [= <- <-].
    symmetry in Ht. by apply app_eq_nil in Ht as [-> ->].
  - destruct (prefixb p (c :: l)) eqn:Hp.
    + apply prefixb_spec in Hp as (t & Ht). intros [= <- <-].
      by rewrite Ht, drop_app_length.
    + destruct (find_first p l) as [[b' a']|]; [|done].
      intros [= <- <-]. by rewrite (IH b' eq_refl).
Qed.

Lemma clean_check (o : option string) :
  forallb (fun c => negb (Ascii.eqb c "[") && negb (Ascii.eqb c "$"))
    (chars (or_empty o)) = true ->
  clean o.
Proof.
  intros Hall. apply Forall_forall. intros c Hc.
  rewrite forallb_forall in Hall. specialize (Hall c).
  rewrite andb_true_iff, !negb_true_iff, !Ascii.eqb_neq in Hall.
  apply Hall. by apply list_elem_of_In.
Qed.

(** X26. [buildBedrockPrompt] fills the template of the repository as
    intended whenever no field of the event holds an opening bracket or a
    dollar sign: the result is the template with the project name, the
    event type, the event id, the timestamp, the author and the project id
    in the context block, the commit message, the diff and the note, in
    this order, in the three [If applicable] slots, the event id again as
    the originating event and the source; a missing field leaves an empty
    slot. A dollar sign is read as a replacement pattern: a field that is
    [$&] puts the placeholder back, for every template. *)
Theorem buildBedrockPrompt_fills (event : PromptEvent) :
  (clean (projectName event) -> clean (pe_eventType event) ->
   clean (pe_eventId event) -> clean (pe_timestamp event) ->
   clean (pe_author event) -> clean (pe_projectId event) ->
   clean (commitMessage event) -> clean (codeDiff event) ->
   clean (developerNote event) -> clean (source event) ->
   buildBedrockPrompt prompt_template event = filledPrompt event)
  /\ (forall p s, replace p "$&" s = s)
  /\ (forall template,
        buildBedrockPrompt template
          {| projectName := Some "$&"; pe_eventType := Some "$&";
             pe_eventId := Some "$&"; pe_timestamp := Some "$&";
             pe_author := Some "$&"; pe_projectId := Some "$&";
             commitMessage := Some "$&"; codeDiff := Some "$&";
             developerNote := Some "$&"; source := Some "$&" |}
        = template).
Proof.
  assert (forall p s, replace p "$&" s = s) as Hamp.
  { intros p s. unfold replace.
    destruct (find_first (chars p) (chars s)) as [[b a]|] eqn:Hfind; [|done].
    apply find_first_Some in Hfind. cbn [chars expand is_char].
    change (expand _ _ _ (chars "$&")) with (chars p ++ []).
    by rewrite app_nil_r, <- Hfind, str_chars. }
  split; [|split; [exact Hamp|]].

  - intros H1 H2 H3 H4 H5 H6 H7 H8 H9 H10.
    destruct template_segs_ok as [Htemplate Hwf].
    unfold buildBedrockPrompt, filledPrompt. rewrite Htemplate.
    unfold clean in *.
    generalize dependent (or_empty (projectName event)). intros r1 H1.
    generalize dependent (or_empty (pe_eventType event)). intros r2 H2.
    generalize dependent (or_empty (pe_eventId event)). intros r3 H3.
    generalize dependent (or_empty (pe_timestamp event)). intros r4 H4.
    generalize dependent (or_empty (pe_author event)). intros r5 H5.
    generalize dependent (or_empty (pe_projectId event)). intros r6 H6.
    generalize dependent (or_empty (commitMessage event)). intros r7 H7.
    generalize dependent (or_empty (codeDiff event)). intros r8 H8.
    generalize dependent (or_empty (developerNote event)). intros r9 H9.
    generalize dependent (or_empty (source event)). intros r10 H10.
    clear event.
    repeat match goal with
           | |- context [replace ?p ?r (str (flat ?segs))] =>
               let Hwf' := fresh "Hwf" in
               destruct (replace_fill p r segs) as [-> Hwf'];
               [by apply bracketedb_spec|assumption|assumption|]
           end.
    clear. apply chars_inj. rewrite chars_str, !chars_app.
    vm_compute. reflexivity.
  - intros template. unfold buildBedrockPrompt. cbn [or_empty truthy].
    simpl. by rewrite !Hamp.
Qed.

Lemma buildBedrockPrompt_fills_witness :
  buildBedrockPrompt prompt_template testEvent = filledPrompt testEvent.
Proof.
  destruct (buildBedrockPrompt_fills testEvent) as (H & _).
  apply H; apply clean_check; reflexivity.
Defined.

(** ** Who may read and write *)

Lemma authenticate_verified `{Scrypt} faults w headers pid project :
  authenticate faults w headers pid = Ret (AuthProject project) ->
  exists token id,
    extractToken headers = Some token /\ pid = Some id /\ id <> ""
    /\ projectsTable w !! id = Some project
    /\ verifyToken token (apiTokenHash project) = Ret true.
Proof.
  unfold authenticate, getProjectItem.
  destruct (extractToken headers) as [token|]; [|done].
  destruct (getProjectFails faults); [done|].
  destruct (truthy pid) eqn:Hpid; [|done].
  apply truthy_Some in Hpid as (id & -> & Hid). simpl.
  destruct (projectsTable w !! id) as [Item|] eqn:Hitem; simpl; [|done].
  destruct (truthy (apiTokenHash Item)); simpl; [|done].
  destruct (verifyToken token (apiTokenHash Item)) as [[]|] eqn:Hv; simpl;
    [|done|done].
  intros [= <-]. by exists token, id.
Qed.

(** X27. No event is stored and no project is shown without a token that
    verifies against the hash of that very project. When the events route
    answers [200], the request carried a bearer token, the project id of
    the event is a key of the projects table, [verifyToken] accepted the
    token against the hash stored there, and the record was stored under
    that project id; when the [GET] route answers [200], the same holds of
    the project id of the path, and the view is that of the item stored
    under it. A token of one project is thus of no use on another, unless
    it verifies against the other hash as well. The projects route asks
    for no token: its answer does not depend on the headers. *)
Theorem accepted_requests_are_authorised `{Scrypt} faults entropy now w :
  (forall headers ev,
     let run := handler faults entropy now (post_event headers ev) w in
     statusCode run.1 = 200%Z ->
     exists token id project r,
       extractToken headers = Some token
       /\ projectId ev = Some id
       /\ projectsTable w !! id = Some project
       /\ verifyToken token (apiTokenHash project) = Ret true
       /\ eventsTable run.2 !! eventKey ev = Some r
       /\ r_projectId r = id)
  /\ (forall headers pid b,
        let run :=
          handler faults entropy now
            {| httpMethod := Some "GET";
               resource := Some "/api/v1/projects/{projectId}";
               headers := headers; req_body := b; pathProjectId := pid |}
            w in
        statusCode run.1 = 200%Z ->
        exists token id project view,
          extractToken headers = Some token
          /\ pid = Some id
          /\ projectsTable w !! id = Some project
          /\ verifyToken token (apiTokenHash project) = Ret true
          /\ body run.1 = Info view
          /\ v_projectId view = p_projectId project
          /\ v_name view = p_name project
          /\ run.2 = w)
  /\ (forall headers headers' b pid pid',
        handler faults entropy now
          {| httpMethod := Some "POST"; resource := Some "/api/v1/projects";
             headers := headers; req_body := b; pathProjectId := pid |} w
        = handler faults entropy now
            {| httpMethod := Some "POST"; resource := Some "/api/v1/projects";
               headers := headers'; req_body := b; pathProjectId := pid' |}
            w).
Proof.
  split; [|split].
  - intros headers ev run Hcode.
    apply handler_accepts in Hcode as Hacc.
    destruct Hacc as ((project & Ha) & Hv & Hput).
    apply authenticate_verified in Ha as Hver.
    destruct Hver as (token & id & Htok & Hid & _ & Hlook & Hver).
    unfold run in *. rewrite handler_post_event in *.
    destruct (ingestEvent_run faults now headers ev w)
      as [(e & _ & Hrun)|[(code & err & Ha' & Hrun)|(project' & _ & Hrun)]].
    + rewrite Hrun in Hcode. done.
    + congruence.
    + destruct Hrun as [(Hv' & _)|[(_ & Hput' & _)|
                        (p & _ & _ & Hp & _ & _ & Hev & _)]];
        [done|congruence|].
      destruct (ingestEvent faults now headers (EventBody ev) w)
        as [out w'] eqn:E. simpl in *.
      destruct out as [r0|e0]; simpl.
      * exists token, id, project, (eventRecord ev p now).
        repeat (split; [done|]). split.
        -- rewrite Hev. apply lookup_insert_eq.
        -- simpl. by rewrite Hid.
      * done.
  - intros headers pid b run. unfold run, handler, route. simpl.
    unfold getProject. destruct (negb (truthy pid)); [done|].
    destruct (authenticate faults w headers pid)
      as [[code err|project]|e] eqn:Ha; simpl.
    + apply authenticate_error in Ha as [-> _]. done.
    + intros _. apply authenticate_verified in Ha
        as (token & id & Htok & Hid & _ & Hlook & Hver).
      eexists token, id, project, _. repeat (split; [done|]). done.
    + done.
  - done.
Qed.

Lemma accepted_requests_are_authorised_witness :
  exists token,
    extractToken sample_headers = Some token
    /\ @verifyToken sample_scrypt token (apiTokenHash sample_project)
       = Ret true.
Proof.
  destruct (@accepted_requests_are_authorised sample_scrypt no_faults
              sample_entropy sample_now sample_world) as (H & _).
  destruct (H sample_headers (sample_event sample_hash))
    as (token & id & project & r & Htok & Hid & Hlook & Hver & _).
  - vm_compute. reflexivity.
  - exists token. split; [exact Htok|].
    vm_compute in Hid. injection Hid as <-.
    vm_compute in Hlook. injection Hlook as <-. exact Hver.
Defined.

(** ** Uniqueness *)

Lemma createProject_newProject `{Scrypt} faults entropy now input w :
  validateProjectInput input = [] -> putProjectFails faults = false ->
  let run := createProject faults entropy now (ProjectBody input) w in
  run.1 = Ret (respond 200 (Created (randomUUID entropy)
                              (to_hex (tokenBytes entropy))))
  /\ projectsTable run.2
     = <[randomUUID entropy := newProject entropy now input]>
         (projectsTable w).
Proof.
  intros Hv Hput run. unfold run, createProject, parse_project.
  rewrite Hv, Hput. simpl. split; [done|]. unfold non_fatal.
  by destruct (putAuditFails faults).
Qed.

(** X28. [createProject] checks neither the name nor the id against the
    table. Two creations with the same valid input both succeed: when the
    drawn ids differ, the table afterwards holds two projects of the same
    name, each under its id and with its own token hash; when the drawn
    id is that of an existing project, the item of that project is
    replaced. *)
Theorem createProject_checks_no_duplicate `{Scrypt}
    faults1 faults2 entropy1 entropy2 now1 now2 input w :
  validateProjectInput input = [] ->
  putProjectFails faults1 = false -> putProjectFails faults2 = false ->
  let run1 := createProject faults1 entropy1 now1 (ProjectBody input) w in
  let run2 :=
    createProject faults2 entropy2 now2 (ProjectBody input) run1.2 in
  run1.1 = Ret (respond 200 (Created (randomUUID entropy1)
                               (to_hex (tokenBytes entropy1))))
  /\ run2.1 = Ret (respond 200 (Created (randomUUID entropy2)
                                  (to_hex (tokenBytes entropy2))))
  /\ projectsTable run2.2 !! randomUUID entropy2
     = Some (newProject entropy2 now2 input)
  /\ (randomUUID entropy1 <> randomUUID entropy2 ->
      projectsTable run2.2 !! randomUUID entropy1
      = Some (newProject entropy1 now1 input)
      /\ p_name (newProject entropy1 now1 input)
         = p_name (newProject entropy2 now2 input))
  /\ (forall old,
        projectsTable w !! randomUUID entropy1 = Some old ->
        projectsTable run1.2 !! randomUUID entropy1
        = Some (newProject entropy1 now1 input)).
Proof.
  intros Hv Hput1 Hput2 run1 run2.
  destruct (createProject_newProject faults1 entropy1 now1 input w Hv Hput1)
    as [Hr1 Ht1]. fold run1 in Hr1, Ht1.
  destruct (createProject_newProject faults2 entropy2 now2 input run1.2 Hv
              Hput2) as [Hr2 Ht2]. fold run2 in Hr2, Ht2.
  split; [done|]. split; [done|]. split; [|split].
  - rewrite Ht2. apply lookup_insert_eq.
  - intros Hne. split; [|done].
    rewrite Ht2, lookup_insert_ne by done. rewrite Ht1.
    apply lookup_insert_eq.
  - intros old _. rewrite Ht1. apply lookup_insert_eq.
Qed.

Lemma createProject_checks_no_duplicate_witness :
  let run1 := @createProject sample_scrypt no_faults sample_entropy
                sample_now (ProjectBody sample_input) sample_world in
  let run2 := @createProject sample_scrypt no_faults sample_entropy
                sample_now (ProjectBody sample_input) run1.2 in
  run2.1 = Ret (respond 200 (Created (randomUUID sample_entropy)
                               (to_hex (tokenBytes sample_entropy)))).
Proof.
  intros run1 run2.
  destruct (@createProject_checks_no_duplicate sample_scrypt no_faults
              no_faults sample_entropy sample_entropy sample_now sample_now
              sample_input sample_world) as (_ & H & _).
  - vm_compute. reflexivity.
  - reflexivity.
  - reflexivity.
  - exact H.
Defined.

Lemma match_classes_Forall (P : ascii -> Prop) (cs : list (ascii -> bool))
    (l : list ascii) :
  Forall (fun k => forall c, k c = true -> P c) cs ->
  match_classes cs l = true -> Forall P l.
Proof.
  intros Hcs. revert l. induction Hcs as [|k cs Hk _ IH]; intros [|c l];
    cbn [match_classes]; try done.
  intros [Hc Hl]%andb_true_iff. constructor; [by apply Hk|by apply IH].
Qed.

Lemma UUID_V4_no_hash (s : string) :
  UUID_V4 s = true -> Forall (fun c => c <> "#"%char) (chars s).
Proof.
  apply match_classes_Forall. simpl.
  repeat (apply Forall_cons; split; [by intros c Hc ->|]).
  apply Forall_nil_2.
Qed.

Lemma sort_key_inj (ts1 id1 ts2 id2 : string) :
  Forall (fun c => c <> "#"%char) (chars id1) ->
  Forall (fun c => c <> "#"%char) (chars id2) ->
  ts1 +:+ "#" +:+ id1 = ts2 +:+ "#" +:+ id2 -> ts1 = ts2 /\ id1 = id2.
Proof.
  intros H1 H2 E. apply (f_equal chars) in E. rewrite !chars_app in E.
  simpl in E. apply (f_equal reverse) in E.
  rewrite !reverse_app, !reverse_cons, <- !app_assoc in E. simpl in E.
  assert (reverse (chars id1) = reverse (chars id2)) as Hid.
  { eapply (app_sep_inj "#"%char); [| |exact E].
    - rewrite elem_of_reverse. intros Hin.
      rewrite Forall_forall in H1. by apply (H1 _ Hin).
    - rewrite elem_of_reverse. intros Hin.
      rewrite Forall_forall in H2. by apply (H2 _ Hin). }
  rewrite Hid in E. apply app_inv_head in E. injection E as E.
  apply (inj reverse) in Hid. apply (inj reverse) in E.
  split; by apply chars_inj.
Qed.

(** X29. Two valid events share a key of the events table only if they
    have the same project id, the same timestamp and the same event id. So
    two accepted events that differ in one of these are both in the table
    afterwards, each under its key; in particular an event that is sent
    again under the same id with a new timestamp is stored a second
    time. *)
Theorem distinct_events_are_both_stored `{Scrypt}
    faults1 faults2 entropy1 entropy2 now1 now2 headers1 headers2 ev1 ev2 w :
  let run1 := handler faults1 entropy1 now1 (post_event headers1 ev1) w in
  let run2 :=
    handler faults2 entropy2 now2 (post_event headers2 ev2) run1.2 in
  statusCode run1.1 = 200%Z -> statusCode run2.1 = 200%Z ->
  (eventKey ev1 = eventKey ev2
   <-> projectId ev1 = projectId ev2 /\ timestamp ev1 = timestamp ev2
       /\ eventId ev1 = eventId ev2)
  /\ (projectId ev1 <> projectId ev2 \/ timestamp ev1 <> timestamp ev2
      \/ eventId ev1 <> eventId ev2 ->
      exists p1 p2,
        eventsTable run2.2 !! eventKey ev1 = Some (eventRecord ev1 p1 now1)
        /\ eventsTable run2.2 !! eventKey ev2
           = Some (eventRecord ev2 p2 now2)
        /\ eventKey ev1 <> eventKey ev2
        /\ (eventId ev1 = eventId ev2 ->
            r_eventId (eventRecord ev1 p1 now1)
            = r_eventId (eventRecord ev2 p2 now2))).
Proof.
  intros run1 run2 H1 H2.
  apply handler_accepts in H1 as Hacc1. destruct Hacc1 as (_ & Hv1 & _).
  apply handler_accepts in H2 as Hacc2. destruct Hacc2 as (_ & Hv2 & _).
  assert (eventKey ev1 = eventKey ev2
          <-> projectId ev1 = projectId ev2 /\ timestamp ev1 = timestamp ev2
              /\ eventId ev1 = eventId ev2) as Hkey.
  { apply validateEvent_nil_iff in Hv1
      as ((id1 & Hid1 & _ & Hu1) & Hp1 & _ & (ts1 & Hts1 & _) & _).
    apply validateEvent_nil_iff in Hv2
      as ((id2 & Hid2 & _ & Hu2) & Hp2 & _ & (ts2 & Hts2 & _) & _).
    apply truthy_Some in Hp1 as (pid1 & Hpid1 & _).
    apply truthy_Some in Hp2 as (pid2 & Hpid2 & _).
    unfold eventKey. rewrite Hid1, Hid2, Hts1, Hts2, Hpid1, Hpid2. simpl.
    split.
    - intros [= -> E].
      apply sort_key_inj in E as [-> ->]; [done| |];
        by apply UUID_V4_no_hash.
    - by intros ([= ->] & [= ->] & [= ->]). }
  split; [exact Hkey|]. intros Hdiff.
  assert (eventKey ev1 <> eventKey ev2) as Hne.
  { intros E. apply Hkey in E as (? & ? & ?). by destruct Hdiff as [?|[?|?]]. }
  destruct (handler_events_table faults1 entropy1 now1 headers1 ev1 w)
    as [[Hc _]|[_ (p1 & He1)]]; [done|]. fold run1 in He1.
  destruct (handler_events_table faults2 entropy2 now2 headers2 ev2 run1.2)
    as [[Hc _]|[_ (p2 & He2)]]; [done|]. fold run2 in He2.
  exists p1, p2. split; [|split; [|split; [done|]]].
  - rewrite He2, lookup_insert_ne by done. rewrite He1.
    apply lookup_insert_eq.
  - rewrite He2. apply lookup_insert_eq.
  - intros E. simpl. by rewrite E.
Qed.

Lemma distinct_events_are_both_stored_witness :
  eventKey (sample_event sample_hash) <> eventKey sample_note.
Proof.
  destruct (@distinct_events_are_both_stored sample_scrypt no_faults
              no_faults sample_entropy sample_entropy sample_now
              "2026-02-28T10:05:01.000Z" sample_headers sample_headers
              (sample_event sample_hash) sample_note sample_world)
    as (_ & H).
  - vm_compute. reflexivity.
  - vm_compute. reflexivity.
  - destruct H as (p1 & p2 & _ & _ & Hne & _).
    + right. left. discriminate.
    + exact Hne.
Defined.

(** ** The configuration file *)

(** X30. What is written is read back. Without a workspace folder
    [writeConfig] throws and [readConfig] is null. With one, [writeConfig]
    changes the file [.flowsync.json] of the workspace and no other, and
    [readConfig] then returns the configuration that was written, unless
    one of its fields is empty, in which case it returns null. So a
    configuration that [readConfig] returns has no empty field, and the
    hook listener is started only with a non-empty project id, backend
    URL, default branch and token, the token being the one stored under
    [flowsync.token.<projectId>]. *)
Theorem config_round_trip `{ConfigFiles} (root : option string)
    (config : FlowSyncConfig) (files secrets : gmap string string) :
  (truthy root = false ->
     writeConfig root config files = Throw "No workspace folder open"
     /\ readConfig root files = None)
  /\ (truthy root = true ->
      exists files',
        writeConfig root config files = Ret files'
        /\ readConfig root files'
           = (if truthy (Some (cfg_projectId config))
                 && truthy (Some (cfg_backendUrl config))
                 && truthy (Some (cfg_defaultBranch config))
              then Some config else None)
        /\ forall path,
             path <> path_join (default "" root) ".flowsync.json" ->
             files' !! path = files !! path)
  /\ (forall c,
        readConfig root files = Some c ->
        cfg_projectId c <> "" /\ cfg_backendUrl c <> ""
        /\ cfg_defaultBranch c <> "")
  /\ (forall l,
        activate root files secrets = Some l ->
        l_projectId l <> "" /\ l_backendUrl l <> ""
        /\ l_defaultBranch l <> "" /\ l_apiToken l <> ""
        /\ secrets !! ("flowsync.token." +:+ l_projectId l)
           = Some (l_apiToken l)
        /\ readConfig root files
           = Some {| cfg_projectId := l_projectId l;
                     cfg_backendUrl := l_backendUrl l;
                     cfg_defaultBranch := l_defaultBranch l |}).
Proof.
  assert (forall c,
            readConfig root files = Some c ->
            cfg_projectId c <> "" /\ cfg_backendUrl c <> ""
            /\ cfg_defaultBranch c <> "") as Hread.
  { intros c. unfold readConfig. destruct (negb (truthy root)); [done|].
    destruct (files !! _) as [raw|]; [|done].
    destruct (parseJson raw) as [| |p b d]; [done|done|].
    destruct p as [[|cp p]|], b as [[|cb b]|], d as [[|cd d]|]; simpl;
      try done.
    intros [= <-]. done. }
  split; [|split; [|split; [exact Hread|]]].
  - intros Hroot. unfold writeConfig, readConfig. by rewrite Hroot.
  - intros Hroot. unfold writeConfig, readConfig. rewrite Hroot. simpl.
    eexists. split; [reflexivity|]. split.
    + rewrite lookup_insert_eq, parse_stringify.
      destruct config as [[|cp p] [|cb b] [|cd d]]; done.
    + intros path Hpath. by rewrite lookup_insert_ne.
  - intros l. unfold activate.
    destruct (readConfig root files) as [c|] eqn:Hc; [|done].
    destruct (Hread c eq_refl) as (Hp & Hb & Hd).
    unfold initializeForProject.
    destruct (secrets !! _) as [[|ct tok]|] eqn:Htok; simpl; try done.
    intros [= <-]. simpl. repeat (split; [done|]). by destruct c.
Qed.

Lemma config_round_trip_witness :
  exists files',
    @writeConfig sample_files (Some "/repo")
      {| cfg_projectId := "p1"; cfg_backendUrl := "https://api.flowsync.dev";
         cfg_defaultBranch := "main" |} ∅ = Ret files'
    /\ @readConfig sample_files (Some "/repo") files'
       = Some {| cfg_projectId := "p1";
                 cfg_backendUrl := "https://api.flowsync.dev";
                 cfg_defaultBranch := "main" |}.
Proof.
  destruct (@config_round_trip sample_files (Some "/repo")
              {| cfg_projectId := "p1";
                 cfg_backendUrl := "https://api.flowsync.dev";
                 cfg_defaultBranch := "main" |} ∅ ∅) as (_ & H & _).
  destruct (H eq_refl) as (files' & Hw & Hr & _).
  exists files'. split; [exact Hw|exact Hr].
Defined.

(** * The ingestion Lambda on arbitrary JSON *)

Section RawValidation.
Context `{Raw.Numbers}.

Lemma bind_Ret {A B} (m : outcome A) (k : A -> outcome B) (b : B) :
  m ≫= k = Ret b <-> exists a, m = Ret a /\ k a = Ret b.
Proof.
  destruct m as [a|e]; simpl.
  - split; [by exists a|]. by intros (a' & [= <-] & ?).
  - split; [done|]. by intros (a' & [=] & _).
Qed.

Lemma raw_check_nil (v : option Raw.Json) (required invalid : string)
    (ok : string -> bool) :
  Raw.check v required ok invalid = Ret [] <-> Raw.reads_as ok v.
Proof.
  unfold Raw.check, Raw.reads_as. destruct (Raw.truthy v); simpl.
  - destruct (Raw.to_string_opt v) as [s|e]; simpl.
    + unfold when. destruct (ok s) eqn:Hok; simpl.
      * split; [|done]. intros _. split; [done|]. by exists s.
      * split; [done|]. intros (_ & s' & [= <-] & ?). congruence.
    + split; [done|]. by intros (_ & s' & [=] & _).
  - split; [done|]. by intros [[=] _].
Qed.

Lemma is_string_spec (s : string) (v : option Raw.Json) :
  Raw.is_string s v = true <-> v = Some (Raw.JStr s).
Proof.
  unfold Raw.is_string. destruct v as [[| | |s'| |]|]; try (split; done).
  rewrite String.eqb_eq. split; [by intros ->|by intros [= ->]].
Qed.

Lemma bind_Ret_l {A B} (a : A) (k : A -> outcome B) : Ret a ≫= k = k a.
Proof. done. Qed.

Lemma Ret_inj {A} (a b : A) : Ret a = Ret b <-> a = b.
Proof. split; [by intros [= ->]|by intros ->]. Qed.

Lemma raw_push_errors_nil (p : Raw.Json) :
  Raw.push_errors p = Ret [] <-> Raw.push_ok p.
Proof.
  unfold Raw.push_errors, Raw.push_ok. rewrite bind_Ret. split.
  - intros (hash & Hhash & Hnil). injection Hnil as Hnil.
    apply app_nil_iff in Hnil as [-> Hnil].
    apply app_nil_iff in Hnil as [Hm%when_nil Hnil].
    apply app_nil_iff in Hnil as [Ha%when_nil Hnil].
    apply app_nil_iff in Hnil as [Hc%when_nil Hd%when_nil].
    apply raw_check_nil in Hhash.
    split; [done|]. split; [done|].
    split; [by apply negb_false_iff|]. split.
    + destruct (Raw.truthy (Raw.field "changedFiles" p)); [|by left].
      right. destruct (Raw.field "changedFiles" p) as [[]|]; try done.
      by eexists.
    + intros d Hdiff. rewrite Hdiff in Hd. lia.
  - intros (Hhash & Hm & Ha & Hc & Hd).
    apply (raw_check_nil _ "commitHash: required for push events"
             "commitHash: must be exactly 40 hex characters") in Hhash.
    exists []. split; [done|]. apply Ret_inj. rewrite Hm, Ha. simpl.
    rewrite (proj2 (when_nil _ _)).
    + apply when_nil.
      destruct (Raw.field "diff" p) as [[| | |d| |]|]; try done.
      specialize (Hd d eq_refl). lia.
    + destruct Hc as [->|[l ->]]; done.
Qed.

Lemma includes_dots_false (v : option Raw.Json) :
  Raw.truthy v = true ->
  Raw.includes_dots v = Ret false
  <-> (exists s, v = Some (Raw.JStr s) /\ s <> "" /\ includes ".." s = false)
      \/ (exists l, v = Some (Raw.JArr l) /\ Raw.JStr ".." ∉ l).
Proof.
  intros Ht. destruct v as [[|b|n|s|l|fs]|]; simpl in *; try done.
  - split; [done|]. by intros [(? & [=] & _)|(? & [=] & _)].
  - split; [done|]. by intros [(? & [=] & _)|(? & [=] & _)].
  - rewrite Ret_inj. split.
    + intros Hi. left. exists s. split; [done|]. split; [|done].
      intros ->. done.
    + by intros [(? & [= <-] & _ & ?)|(? & [=] & _)].
  - rewrite Ret_inj. split.
    + intros Hex. right. exists l. split; [done|].
      intros Hin. apply not_true_iff_false in Hex. apply Hex.
      apply existsb_exists. exists (Raw.JStr ".."). split; [|done].
      by apply list_elem_of_In.
    + intros [(? & [=] & _)|(l' & [= <-] & Hnot)].
      apply not_true_iff_false. intros (x & Hx & Heq)%existsb_exists.
      destruct x as [| | |s| |]; try done.
      apply String.eqb_eq in Heq as ->. by apply list_elem_of_In in Hx.
  - split; [done|]. by intros [(? & [=] & _)|(? & [=] & _)].
Qed.

Lemma line_number_ok (v : option Raw.Json) :
  Raw.nullish v = false
  /\ (negb (Raw.isInteger v) || Raw.negative v) = false
  <-> exists q, v = Some (Raw.JNum (Raw.Fin q)) /\ Raw.natural q.
Proof.
  unfold Raw.natural. split.
  - intros [Hn Hi]. apply orb_false_iff in Hi as [Hi Hneg].
    apply negb_false_iff in Hi.
    destruct v as [[|b|[q|neg]|s|l|fs]|]; simpl in *; try done.
    exists q. split; [done|]. split; [lia|].
    apply negb_false_iff, Qle_bool_iff in Hneg.
    unfold Qle in Hneg. simpl in Hneg. lia.
  - intros (q & -> & Hi & Hneg). simpl. split; [done|].
    apply orb_false_iff. split.
    + apply negb_false_iff. lia.
    + apply negb_false_iff, Qle_bool_iff. unfold Qle. simpl. lia.
Qed.

Lemma raw_note_errors_nil (p : Raw.Json) :
  Raw.note_errors p = Ret [] <-> Raw.note_ok p.
Proof.
  unfold Raw.note_errors, Raw.note_ok. rewrite bind_Ret.
  pose proof (includes_dots_false (Raw.field "filePath" p)) as Hdots.
  pose proof (line_number_ok (Raw.field "lineNumber" p)) as Hline.
  split.
  - intros (path & Hpath & Hnil). injection Hnil as Hnil.
    apply app_nil_iff in Hnil as [Ht%when_nil Hnil].
    apply app_nil_iff in Hnil as [-> Hnil].
    split; [by apply negb_false_iff|].
    destruct (Raw.truthy (Raw.field "filePath" p)) eqn:Hfp; [|done].
    simpl in Hpath. apply bind_Ret in Hpath as (dots & Hd & Hw).
    injection Hw as Hw. apply when_nil in Hw as ->.
    split; [by apply Hdots|]. apply Hline.
    destruct (Raw.nullish (Raw.field "lineNumber" p)); [done|].
    split; [done|]. by apply when_nil in Hnil.
  - intros (Ht & Hfp & Hln). exists [].
    assert (Raw.truthy (Raw.field "filePath" p) = true) as Htp.
    { destruct Hfp as [(s & -> & Hs & _)|(l & -> & _)]; [|done].
      simpl. by destruct s. }
    rewrite Htp. simpl. apply Hdots in Hfp; [|done]. rewrite Hfp. simpl.
    split; [done|]. apply Ret_inj. rewrite Ht. simpl.
    apply Hline in Hln as [-> Hln]. by apply when_nil.
Qed.

Lemma raw_branch_errors_nil (b : option Raw.Json) :
  Raw.branch_errors b = Ret []
  <-> Raw.truthy b = true
      /\ Raw.greater_than (Raw.length_of b) 255 = Ret false.
Proof.
  unfold Raw.branch_errors. destruct (Raw.truthy b); simpl.
  - rewrite bind_Ret. split.
    + intros (long & Hl & Hw). injection Hw as Hw. apply when_nil in Hw as ->. done.
    + intros [_ Hl]. by exists false.
  - split; [done|]. by intros [[=] _].
Qed.

Lemma raw_validateEvent_unfold (ev : Raw.Json) :
  ev <> Raw.JNull ->
  Raw.validateEvent ev
  = (id ← Raw.check (Raw.field "eventId" ev) "eventId: required"
                  UUID_V4 "eventId: must be a valid UUID v4";
             time ← Raw.check (Raw.field "timestamp" ev) "timestamp: required"
                    ISO_8601 "timestamp: must be valid ISO 8601 UTC";
             branch ← Raw.branch_errors (Raw.field "branch" ev);
             let errors :=
               id
               ++ when (negb (Raw.truthy (Raw.field "projectId" ev)))
                    "projectId: required"
               ++ when (negb (Raw.is_string "push" (Raw.field "eventType" ev)
                              || Raw.is_string "developer_note"
                                   (Raw.field "eventType" ev)))
                    "eventType: must be push or developer_note"
               ++ time ++ branch in
             match Raw.field "payload" ev with
             | Some p =>
                 if negb (Raw.truthy (Some p))
                 then Ret (errors ++ ["payload: required"])
                 else
                   push ← (if Raw.is_string "push" (Raw.field "eventType" ev)
                           then Raw.push_errors p else Ret []);
                   note ← (if Raw.is_string "developer_note"
                                (Raw.field "eventType" ev)
                           then Raw.note_errors p else Ret []);
                   Ret (errors ++ push ++ note)
             | None => Ret (errors ++ ["payload: required"])
             end).
Proof. by destruct ev. Qed.

Lemma raw_validateEvent_nil (ev : Raw.Json) :
  Raw.validateEvent ev = Ret [] <-> Raw.event_ok ev.
Proof.
  unfold Raw.event_ok.
  assert (forall x y : Prop, (ev <> Raw.JNull -> (x <-> y)) ->
            (ev = Raw.JNull -> ~ x) -> (x <-> ev <> Raw.JNull /\ y))
    as Hcase.
  { intros x y Hxy Hn.
    assert (ev = Raw.JNull \/ ev <> Raw.JNull) as [E|E]
      by (destruct ev; [by left|by right..]).
    - split; [by intros ?%Hn|]. by intros [? _].
    - specialize (Hxy E). tauto. }
  apply Hcase; [|by intros ->]. intros Hev.
  rewrite (raw_validateEvent_unfold ev Hev).
  pose proof (is_string_spec "push" (Raw.field "eventType" ev)) as Hpush.
  pose proof (is_string_spec "developer_note" (Raw.field "eventType" ev))
    as Hnote.
  rewrite !bind_Ret. split.
  - intros (id & Hid & Hrest). apply bind_Ret in Hrest as (time & Htime & Hrest).
    apply bind_Ret in Hrest as (branch & Hbranch & Hrest).
    cbv zeta in Hrest.
    destruct (Raw.field "payload" ev) as [p|] eqn:Hp;
      [|injection Hrest as Hrest; apply app_nil_iff in Hrest as [_ ?]; done].
    destruct (Raw.truthy (Some p)) eqn:Htp; simpl in Hrest;
      [|injection Hrest as Hrest; apply app_nil_iff in Hrest as [_ ?]; done].
    apply bind_Ret in Hrest as (push & Hpe & Hrest).
    apply bind_Ret in Hrest as (note & Hne & Hrest).
    injection Hrest as Hrest.
    apply app_nil_iff in Hrest as [Herr Hrest].
    apply app_nil_iff in Hrest as [-> ->].
    apply app_nil_iff in Herr as [-> Herr].
    apply app_nil_iff in Herr as [Hpid%when_nil Herr].
    apply app_nil_iff in Herr as [Hty%when_nil Herr].
    apply app_nil_iff in Herr as [-> ->].
    apply raw_check_nil in Hid, Htime.
    apply raw_branch_errors_nil in Hbranch as [Hb Hlen].
    apply negb_false_iff in Hpid. apply negb_false_iff in Hty.
    repeat (split; [done|]). exists p. split; [done|]. split; [done|].
    destruct (Raw.is_string "push" (Raw.field "eventType" ev)) eqn:E1.
    + left. split; [by apply Hpush|]. by apply raw_push_errors_nil.
    + simpl in Hty. rewrite Hty in Hne. right.
      split; [by apply Hnote|]. by apply raw_note_errors_nil.
  - intros (Hid & Hpid & Htime & Hb & Hlen & p & Hp & Htp & Hty).
    apply (raw_check_nil _ "eventId: required"
             "eventId: must be a valid UUID v4") in Hid.
    apply (raw_check_nil _ "timestamp: required"
             "timestamp: must be valid ISO 8601 UTC") in Htime.
    exists []. split; [done|]. rewrite Htime, bind_Ret_l.
    rewrite (proj2 (raw_branch_errors_nil _) (conj Hb Hlen)), bind_Ret_l.
    cbv zeta. rewrite Hp, Htp, Hpid.
    destruct Hty as [[Hty Hok]|[Hty Hok]]; rewrite Hty.
    + apply raw_push_errors_nil in Hok.
      change (Raw.is_string "push" (Some (Raw.JStr "push"))) with true.
      change (Raw.is_string "developer_note" (Some (Raw.JStr "push")))
        with false.
      cbv iota. by rewrite Hok.
    + apply raw_note_errors_nil in Hok.
      change (Raw.is_string "push" (Some (Raw.JStr "developer_note")))
        with false.
      change (Raw.is_string "developer_note"
                (Some (Raw.JStr "developer_note"))) with true.
      cbv iota. by rewrite Hok.
Qed.
End RawValidation.

Section RawIngestion.
Context `{Scrypt} `{Raw.Numbers}.

Lemma raw_authenticate_error faults w headers pid code err :
  Raw.authenticate faults w headers pid = Ret (Raw.AuthError code err) ->
  code = 401%Z /\ exists msg, err = Raw.Error "invalid_token" msg [].
Proof.
  unfold Raw.authenticate.
  destruct (extractToken headers) as [token|]; [|intros [= <- <-]; eauto].
  destruct (Raw.getProjectItem faults w pid) as [[Item|]|e]; simpl;
    [|intros [= <- <-]; eauto|done].
  destruct (negb (Raw.string_truthy _)); [intros [= <- <-]; eauto|].
  destruct (verifyToken token _) as [[]|]; simpl; [done| |done].
  intros [= <- <-]; eauto.
Qed.

Lemma raw_authenticate_lookup faults w headers pid project :
  Raw.authenticate faults w headers pid = Ret (Raw.AuthProject project) ->
  exists id token,
    pid = Some (Raw.JStr id) /\ id <> ""
    /\ Raw.projectsTable w !! id = Some project
    /\ extractToken headers = Some token
    /\ verifyToken token (Raw.apiTokenHash project) = Ret true
    /\ getProjectFails faults = false.
Proof.
  unfold Raw.authenticate, Raw.getProjectItem.
  destruct (extractToken headers) as [token|]; [|done].
  destruct (getProjectFails faults); [done|].
  destruct pid as [[| | |[|c s]| |]|]; try done. simpl.
  destruct (Raw.projectsTable w !! String c s) as [Item|] eqn:Hi; [|done].
  destruct (negb (Raw.string_truthy _)); [done|].
  destruct (verifyToken token _) as [[]|] eqn:Hv; simpl; [|done|done].
  intros [= <-]. exists (String c s), token. done.
Qed.

(** The runs of the events route. *)
Lemma raw_ingestEvent_run faults now headers body w :
  let run := Raw.ingestEvent faults now headers body w in
  (body = Raw.Unparsable
   /\ run = (Ret (Raw.respond 400
                    (Raw.Error "invalid_json"
                       (Some "Body must be valid JSON") [])), w))
  \/ exists ev,
       Raw.parse body = Ret ev
       /\ ((exists e, Raw.auth faults w headers ev = Throw e
              /\ run = (Throw e, w))
           \/ (exists code err,
                 Raw.auth faults w headers ev = Ret (Raw.AuthError code err)
                 /\ run = (Ret (Raw.respond code err), w))
           \/ (exists project,
                 Raw.auth faults w headers ev = Ret (Raw.AuthProject project)
                 /\ ((exists e, Raw.validateEvent ev = Throw e
                        /\ run = (Throw e, w))
                     \/ (exists errors,
                           Raw.validateEvent ev = Ret errors /\ errors <> []
                           /\ run = (Ret (Raw.respond 400
                                            (Raw.Error "validation_failed"
                                               None errors)), w))
                     \/ (Raw.validateEvent ev = Ret []
                         /\ (forall id time branch,
                               ~ Raw.storable ev id time branch)
                         /\ exists e, run = (Throw e, w))
                     \/ (exists id time branch,
                           Raw.validateEvent ev = Ret []
                           /\ Raw.storable ev id time branch
                           /\ putEventFails faults = true
                           /\ run = (Throw "PutCommand failed", w))
                     \/ (exists id time branch pid p record,
                           Raw.validateEvent ev = Ret []
                           /\ Raw.storable ev id time branch
                           /\ putEventFails faults = false
                           /\ Raw.field "projectId" ev = Some (Raw.JStr pid)
                           /\ Raw.field "payload" ev = Some p
                           /\ Raw.eventRecord ev p now = Ret record
                           /\ run.1
                              = Ret (Raw.respond 200
                                       (Raw.Processing
                                          (Raw.field "eventId" ev)
                                          (Raw.field "projectId" ev)
                                          (Raw.field "branch" ev)
                                          "processing" now))
                           /\ Raw.projectsTable run.2 = Raw.projectsTable w
                           /\ Raw.eventsTable run.2
                              = <[(pid, time +:+ "#" +:+ id) := record]>
                                  (Raw.eventsTable w)
                           /\ Raw.rawEventsBucket run.2
                              = (if putObjectFails faults
                                 then Raw.rawEventsBucket w
                                 else <["raw-events/" +:+ pid +:+ "/"
                                        +:+ id +:+ ".json" := ev]>
                                        (Raw.rawEventsBucket w))
                           /\ Raw.aiQueue run.2
                              = (if invokeFails faults then Raw.aiQueue w
                                 else Raw.aiQueue w ++ [Raw.invocation ev p])
                           /\ Raw.auditTable run.2
                              = (if putAuditFails faults
                                 then Raw.auditTable w
                                 else <[(id, now)
                                        := Raw.auditEvent ev p id now]>
                                        (Raw.auditTable w))
                           /\ Raw.console run.2
                              = Raw.console w ++ non_fatal_lines faults)))).
Proof.
  intros run. unfold run, Raw.ingestEvent.
  destruct body as [| |v]; simpl Raw.parse; cbv iota; [by left| |].
  - right. exists Raw.JNull. split; [done|]. left. by exists "TypeError".
  - right. exists v. split; [done|]. fold (Raw.auth faults w headers v).
    destruct (Raw.auth faults w headers v) as [[code err|project]|e] eqn:Ha;
      [right; left; eauto| |left; eauto].
    right. right. exists project. split; [done|].
    destruct (Raw.validateEvent v) as [errors|e] eqn:Hv; [|left; eauto].
    right. destruct (decide (errors = [])) as [->|Hne].
    2: { left. exists errors. rewrite (bool_decide_eq_false_2 _ Hne). done. }
    right. rewrite (bool_decide_eq_true_2 _ eq_refl). cbv iota. simpl negb.
    cbv iota.
    pose proof (proj1 (raw_validateEvent_nil _) Hv) as Hok.
    destruct Hok as (_ & _ & _ & _ & _ & _ & p & Hp & Htp & _).
    rewrite Hp.
    assert (exists pid, Raw.field "projectId" v = Some (Raw.JStr pid))
      as [pid Hpid].
    { unfold Raw.auth in Ha. destruct v; try done; simpl in Ha;
        apply raw_authenticate_lookup in Ha as (id & ? & Hid & _);
        try done. by exists id. }
    assert (Raw.nullish (Some p) = false /\ Raw.or_else (Some p) Raw.JNull = p)
      as [Hnull Hor] by (by destruct p).
    rewrite Hnull. cbv iota zeta. rewrite Hor. unfold Raw.eventRecord.
    destruct (Raw.to_string_opt (Raw.field "timestamp" v)) as [time|e]
      eqn:Ht.
    2: { left. split; [done|]. split; [|exists e; reflexivity].
         intros id time branch (_ & ? & _). congruence. }
    rewrite bind_Ret_l.
    destruct (Raw.to_string_opt (Raw.field "eventId" v)) as [ids|e] eqn:Hi.
    2: { left. split; [done|]. split; [|exists e; reflexivity].
         intros id time' branch (Hid & _). rewrite Hid in Hi. done. }
    rewrite bind_Ret_l.
    destruct (Raw.to_string_opt (Raw.field "branch" v)) as [branch|e] eqn:Hb.
    2: { left. split; [done|]. split; [|exists e; reflexivity].
         intros id time' branch (_ & _ & ?). congruence. }
    rewrite bind_Ret_l. cbn [Raw.r_projectId Raw.r_eventId
                               Raw.timestampEventId].
    rewrite Hpid.
    destruct (Raw.field "eventId" v) as [[| | |id| |]|] eqn:Hid;
      try (left; split; [done|]; split; [|exists "ValidationException"; reflexivity];
           intros id' time' branch' (? & _); congruence).
    simpl in Hi. injection Hi as <-.
    right. destruct (putEventFails faults) eqn:Hf.
    { left. exists id, time, branch. done. }
    right. exists id, time, branch, pid, p. eexists.
    split; [done|]. split; [done|]. split; [done|]. split; [done|].
    split; [done|]. split; [done|].
    unfold Raw.non_fatal, non_fatal_lines.
    destruct (putObjectFails faults), (invokeFails faults),
      (putAuditFails faults); simpl;
      rewrite <- ?(assoc_L (++)), ?app_nil_r; done.
Qed.

Lemma raw_check_cases (v : option Raw.Json) (required invalid : string)
    (ok : string -> bool) (l : list string) :
  Raw.check v required ok invalid = Ret l ->
  (Raw.reads_as ok v /\ l = [])
  \/ (~ Raw.reads_as ok v /\ (l = [required] \/ l = [invalid])).
Proof.
  unfold Raw.check, Raw.reads_as. destruct (Raw.truthy v); simpl.
  - destruct (Raw.to_string_opt v) as [s|e]; simpl; [|done].
    intros [= <-]. destruct (ok s) eqn:Hok; simpl.
    + left. split; [|done]. split; [done|]. by exists s.
    + right. split; [|by right]. intros (_ & s' & [= <-] & ?). congruence.
  - intros [= <-]. right. split; [|by left]. by intros [[=] _].
Qed.

Lemma raw_validateEvent_lists (ev : Raw.Json) (errors : list string) :
  Raw.validateEvent ev = Ret errors -> Raw.lists_failures ev errors.
Proof.
  intros Hv.
  assert (exists id time branch rest,
            Raw.check (Raw.field "eventId" ev) "eventId: required"
              UUID_V4 "eventId: must be a valid UUID v4" = Ret id
            /\ Raw.check (Raw.field "timestamp" ev) "timestamp: required"
                 ISO_8601 "timestamp: must be valid ISO 8601 UTC" = Ret time
            /\ Raw.branch_errors (Raw.field "branch" ev) = Ret branch
            /\ errors
               = (id
                  ++ when (negb (Raw.truthy (Raw.field "projectId" ev)))
                       "projectId: required"
                  ++ when (negb (Raw.is_string "push"
                                   (Raw.field "eventType" ev)
                                 || Raw.is_string "developer_note"
                                      (Raw.field "eventType" ev)))
                       "eventType: must be push or developer_note"
                  ++ time ++ branch) ++ rest
            /\ (Raw.truthy (Raw.field "payload" ev) = false ->
                  rest = ["payload: required"])
            /\ (forall p,
                  Raw.field "payload" ev = Some p ->
                  Raw.truthy (Some p) = true ->
                  Raw.field "eventType" ev = Some (Raw.JStr "push") ->
                  exists push note,
                    Raw.push_errors p = Ret push /\ rest = push ++ note))
    as (id & time & branch & rest & Hid & Htime & Hbranch & -> & Hnone & Hpush).
  { assert (ev <> Raw.JNull) as Hev by (by intros ->).
    rewrite (raw_validateEvent_unfold ev Hev) in Hv.
    apply bind_Ret in Hv as (id & Hid & Hv).
    apply bind_Ret in Hv as (time & Htime & Hv).
    apply bind_Ret in Hv as (branch & Hbranch & Hv).
    exists id, time, branch.
    cbv zeta in Hv.
    destruct (Raw.field "payload" ev) as [p|] eqn:Hp.
    2: { injection Hv as <-. eexists. split; [done|]. split; [done|].
         split; [done|]. split; [done|]. split; [done|]. done. }
    destruct (Raw.truthy (Some p)) eqn:Htp; simpl negb in Hv; cbv iota in Hv.
    2: { injection Hv as <-. eexists. split; [done|]. split; [done|].
         split; [done|]. split; [done|]. split; [done|].
         intros p' [= <-]. congruence. }
    apply bind_Ret in Hv as (push & Hpe & Hv).
    apply bind_Ret in Hv as (note & Hne & Hv). injection Hv as <-.
    exists (push ++ note). split; [done|]. split; [done|].
    split; [done|]. split; [done|]. split; [done|].
    intros p' [= <-] _ Hty. rewrite Hty in Hpe. simpl in Hpe.
    by exists push, note. }
  unfold Raw.lists_failures. split; [|split; [|split; [|split; [|split]]]].
  - intros Hno. apply raw_check_cases in Hid as [[? _]|[_ [-> | ->]]]; [done| |].
    + left. apply elem_of_app. left. apply list_elem_of_here.
    + right. apply elem_of_app. left. apply list_elem_of_here.
  - intros Hno.
    apply raw_check_cases in Htime as [[? _]|[_ [-> | ->]]]; [done| |].
    + left. rewrite !elem_of_app. left. right. right. right. left.
      apply list_elem_of_here.
    + right. rewrite !elem_of_app. left. right. right. right. left.
      apply list_elem_of_here.
  - intros Hb. unfold Raw.branch_errors in Hbranch. rewrite Hb in Hbranch.
    injection Hbranch as <-. rewrite !elem_of_app. left. do 4 right.
    apply list_elem_of_here.
  - intros Hb Hlong. unfold Raw.branch_errors in Hbranch.
    rewrite Hb, Hlong in Hbranch. injection Hbranch as <-.
    rewrite !elem_of_app. left. do 4 right. apply list_elem_of_here.
  - intros Hp. rewrite (Hnone Hp). apply elem_of_app. right.
    apply list_elem_of_here.
  - intros p Hp Htp Hty Hno.
    destruct (Hpush p Hp Htp Hty) as (push & note & Hpe & ->).
    unfold Raw.push_errors in Hpe. apply bind_Ret in Hpe as (hash & Hh & Hpe).
    injection Hpe as <-.
    apply raw_check_cases in Hh as [[? _]|[_ [-> | ->]]]; [done| |].
    + left. rewrite !elem_of_app. right. left. left. apply list_elem_of_here.
    + right. rewrite !elem_of_app. right. left. left.
      apply list_elem_of_here.
Qed.
End RawIngestion.

Section RawHandler.
Context `{Scrypt} `{Raw.Numbers}.

Lemma raw_auth_cases faults w headers ev :
  Raw.authenticates faults w headers ev.
Proof.
  unfold Raw.authenticates, Raw.auth, Raw.authenticate, Raw.getProjectItem,
    Raw.string_truthy.
  split; [by intros ->|]. split.
  - intros Hev Htok. destruct ev; try done; simpl; by rewrite Htok.
  - intros token Hev Htok.
    assert (Raw.prop "projectId" ev = Ret (Raw.field "projectId" ev)) as ->
      by (by destruct ev).
    rewrite bind_Ret_l, Htok. split; [by intros ->|]. split.
    + intros -> Hpid.
      destruct (Raw.field "projectId" ev) as [[| | |[|c s]| |]|]; try done.
      by specialize (Hpid _ eq_refl).
    + intros pid -> -> Hne. destruct pid as [|c s]; [done|]. split.
      * by intros ->.
      * intros project ->. rewrite bind_Ret_l. split; [by intros ->|].
        intros ->. simpl. split; [by intros ->|]. split; [by intros ->|].
        by intros e ->.
Qed.

Lemma raw_authenticate_error_auth faults w headers ev code err :
  Raw.auth faults w headers ev = Ret (Raw.AuthError code err) ->
  code = 401%Z /\ exists msg, err = Raw.Error "invalid_token" msg [].
Proof.
  unfold Raw.auth. destruct (Raw.prop "projectId" ev) as [pid|e]; [|done].
  apply raw_authenticate_error.
Qed.

Lemma raw_handler_post_event faults entropy now headers body w :
  Raw.handler faults entropy now (Raw.post_event headers body) w
  = match Raw.ingestEvent faults now headers body w with
    | (Ret r, w') => (r, w')
    | (Throw _, w') =>
        (Raw.respond 500
           (Raw.Error "internal_error"
              (Some "An unexpected error occurred") []),
         Raw.log "Unhandled error" w')
    end.
Proof. reflexivity. Qed.

Lemma reads_as_string (ok : string -> bool) (s : string) :
  Raw.reads_as ok (Some (Raw.JStr s)) <-> s <> "" /\ ok s = true.
Proof.
  unfold Raw.reads_as. simpl. split.
  - intros [Hs (s' & [= <-] & Hok)]. split; [|done]. by intros ->.
  - intros [Hs Hok]. split; [by destruct s|]. by exists s.
Qed.

Lemma length_of_string (s : string) :
  Raw.greater_than (Raw.length_of (Some (Raw.JStr s))) 255
  = Ret (js_length s >? 255)%Z.
Proof.
  unfold Raw.greater_than. simpl. f_equal.
  destruct (Qle_bool (inject_Z (js_length s)) (inject_Z 255)) eqn:E.
  - apply Qle_bool_iff in E. rewrite <- Zle_Qle in E. simpl. lia.
  - simpl. apply not_true_iff_false in E. rewrite Qle_bool_iff in E.
    rewrite <- Zle_Qle in E. lia.
Qed.

(** An accepted request on the events route. *)
Lemma raw_handler_accepted faults entropy now headers body w :
  let run := Raw.handler faults entropy now (Raw.post_event headers body) w in
  Raw.statusCode run.1 = 200%Z ->
  exists ev project pid id time branch p record,
    body = Raw.Parsed ev
    /\ Raw.auth faults w headers ev = Ret (Raw.AuthProject project)
    /\ Raw.event_ok ev /\ Raw.storable ev id time branch
    /\ putEventFails faults = false
    /\ Raw.field "projectId" ev = Some (Raw.JStr pid)
    /\ Raw.field "payload" ev = Some p
    /\ Raw.eventRecord ev p now = Ret record
    /\ run.1 = Raw.respond 200
                 (Raw.Processing (Raw.field "eventId" ev)
                    (Raw.field "projectId" ev) (Raw.field "branch" ev)
                    "processing" now)
    /\ Raw.projectsTable run.2 = Raw.projectsTable w
    /\ Raw.eventsTable run.2
       = <[(pid, time +:+ "#" +:+ id) := record]> (Raw.eventsTable w)
    /\ Raw.rawEventsBucket run.2
       = (if putObjectFails faults then Raw.rawEventsBucket w
          else <["raw-events/" +:+ pid +:+ "/" +:+ id +:+ ".json" := ev]>
                 (Raw.rawEventsBucket w))
    /\ Raw.aiQueue run.2
       = (if invokeFails faults then Raw.aiQueue w
          else Raw.aiQueue w ++ [Raw.invocation ev p])
    /\ Raw.auditTable run.2
       = (if putAuditFails faults then Raw.auditTable w
          else <[(id, now) := Raw.auditEvent ev p id now]> (Raw.auditTable w))
    /\ Raw.console run.2 = Raw.console w ++ non_fatal_lines faults.
Proof.
  intros run. unfold run. rewrite raw_handler_post_event.
  pose proof (raw_ingestEvent_run faults now headers body w) as Hrun.
  cbv zeta in Hrun.
  destruct Hrun as [[-> ->]|(ev & Hparse & Hrun)]; [done|].
  destruct Hrun as [(e & Ha & ->)|[(code & err & Ha & ->)|
                    (project & Ha & Hrun)]]; [done| |].
  { apply raw_authenticate_error_auth in Ha as [-> _]. done. }
  destruct Hrun as [(e & Hv & ->)|[(errors & Hv & Hne & ->)|
                    [(Hv & Hno & e & ->)|
                     [(id & time & branch & Hv & Hst & Hf & ->)|
                      (id & time & branch & pid & p & record & Hv & Hst
                       & Hf & Hpid & Hp & Hrec & Hr & Hrest)]]]];
    [done..|].
  intros _. exists ev, project, pid, id, time, branch, p, record.
  assert (body = Raw.Parsed ev) as ->.
  { destruct body as [| |v]; try done.
    simpl in Hparse. by injection Hparse as ->. }
  apply raw_validateEvent_nil in Hv.
  destruct (Raw.ingestEvent faults now headers (Raw.Parsed ev) w)
    as [out w'] eqn:E. simpl in *. subst out. done.
Qed.

(** C3, amended. The events route on an arbitrary body. A request is
    answered [200] exactly when the body parses to a value whose
    [projectId] names a project against which the bearer token verifies,
    [validateEvent] reports nothing, the event id is a string, the
    timestamp and the branch have string forms, and the write to the
    events table succeeds. An accepted event has a UUID v4 string as
    [eventId], a truthy [timestamp] whose string form matches [ISO_8601], a
    truthy [branch] and, in a push, a truthy [commitHash] whose string form
    has exactly 40 hexadecimal characters; where these fields are strings,
    the strings themselves are as required, the branch of 1 to 255
    characters; and its record is in the events table. A request that is
    not answered [200] leaves every store as it was. A body that does not
    parse is answered [400 invalid_json]; an exception of the
    authentication (no body, a project id that is no non-empty string under
    a token, a lookup that fails) [500]; a token that is missing or does
    not verify, and an unknown project, [401 invalid_token], whatever the
    event holds; a validation that throws, an event that DynamoDB turns
    away and a failed write [500]; and a validation that reports errors
    [400 validation_failed] with these errors, which name every one of
    [eventId], [timestamp], [branch] and [commitHash] that is not as
    required, and a payload that is missing. *)
Theorem ingestEvent_validates faults entropy now headers body w :
  let run := Raw.handler faults entropy now (Raw.post_event headers body) w in
  let internal_error :=
    Raw.respond 500
      (Raw.Error "internal_error" (Some "An unexpected error occurred") [])
  in
  (Raw.statusCode run.1 = 200%Z
   <-> exists ev project id time branch,
         body = Raw.Parsed ev
         /\ Raw.auth faults w headers ev = Ret (Raw.AuthProject project)
         /\ Raw.event_ok ev /\ Raw.storable ev id time branch
         /\ putEventFails faults = false)
  /\ (Raw.statusCode run.1 = 200%Z ->
      exists ev pid id time branch p record,
        body = Raw.Parsed ev
        /\ Raw.field "projectId" ev = Some (Raw.JStr pid)
        /\ Raw.field "eventId" ev = Some (Raw.JStr id)
        /\ UUID_V4 id = true
        /\ Raw.truthy (Raw.field "timestamp" ev) = true
        /\ Raw.to_string_opt (Raw.field "timestamp" ev) = Ret time
        /\ ISO_8601 time = true
        /\ Raw.truthy (Raw.field "branch" ev) = true
        /\ Raw.to_string_opt (Raw.field "branch" ev) = Ret branch
        /\ Raw.field "payload" ev = Some p
        /\ (Raw.field "eventType" ev = Some (Raw.JStr "push") ->
              Raw.truthy (Raw.field "commitHash" p) = true
              /\ exists h,
                   Raw.to_string_opt (Raw.field "commitHash" p) = Ret h
                   /\ hex40 h)
        /\ (forall s, Raw.field "timestamp" ev = Some (Raw.JStr s) ->
              s <> "" /\ ISO_8601 s = true)
        /\ (forall s, Raw.field "branch" ev = Some (Raw.JStr s) ->
              s <> "" /\ (js_length s <= 255)%Z)
        /\ (forall s, Raw.field "eventType" ev = Some (Raw.JStr "push") ->
              Raw.field "commitHash" p = Some (Raw.JStr s) -> hex40 s)
        /\ Raw.eventRecord ev p now = Ret record
        /\ Raw.eventsTable run.2
           = <[(pid, time +:+ "#" +:+ id) := record]> (Raw.eventsTable w))
  /\ (Raw.statusCode run.1 <> 200%Z -> Raw.same_stores w run.2)
  /\ (body = Raw.Unparsable ->
        run = (Raw.respond 400
                 (Raw.Error "invalid_json"
                    (Some "Body must be valid JSON") []), w))
  /\ (forall ev, Raw.parse body = Ret ev ->
        Raw.authenticates faults w headers ev
        /\ (forall e, Raw.auth faults w headers ev = Throw e ->
              run = (internal_error, Raw.log "Unhandled error" w))
        /\ (forall code err,
              Raw.auth faults w headers ev = Ret (Raw.AuthError code err) ->
              code = 401%Z
              /\ (exists msg, err = Raw.Error "invalid_token" msg [])
              /\ run = (Raw.respond 401 err, w))
        /\ (forall project,
              Raw.auth faults w headers ev = Ret (Raw.AuthProject project) ->
              (forall e, Raw.validateEvent ev = Throw e ->
                 run = (internal_error, Raw.log "Unhandled error" w))
              /\ (forall errors,
                    Raw.validateEvent ev = Ret errors -> errors <> [] ->
                    run = (Raw.respond 400
                             (Raw.Error "validation_failed" None errors), w)
                    /\ Raw.lists_failures ev errors)
              /\ (Raw.validateEvent ev = Ret [] ->
                    (putEventFails faults = true
                     \/ forall id time branch, ~ Raw.storable ev id time branch) ->
                    run = (internal_error, Raw.log "Unhandled error" w)))).
Proof.
  intros run internal_error. unfold run.
  rewrite raw_handler_post_event.
  pose proof (raw_ingestEvent_run faults now headers body w) as Hrun.
  cbv zeta in Hrun.
  destruct Hrun as [[-> Hrun]|(ev & Hparse & Hrun)].
  { rewrite Hrun. simpl. split; [|split; [|split; [|split]]].
    - split; [done|]. by intros (ev & ? & ? & ? & ? & [=] & _).
    - done.
    - by repeat split.
    - done.
    - intros ev [=]. }
  assert (body <> Raw.Unparsable) as Hbody by (by intros ->).
  assert (forall ev', body = Raw.Parsed ev' -> ev' = ev) as Hsame.
  { intros ev' ->. by injection Hparse as ->. }
  assert (forall ev', Raw.parse body = Ret ev' -> ev' = ev) as Hsame'.
  { intros ev' Hp. rewrite Hparse in Hp. by injection Hp as ->. }
  destruct Hrun as [(e & Ha & Hrun)|[(code & err & Ha & Hrun)|
                    (project & Ha & Hrun)]].
  - rewrite Hrun. simpl. split; [|split; [|split; [|split]]].
    + split; [done|]. intros (ev' & ? & ? & ? & ? & Hb & Ha' & _).
      rewrite (Hsame _ Hb) in Ha'. congruence.
    + done.
    + by repeat split.
    + done.
    + intros ev' ->%Hsame'. split; [apply raw_auth_cases|].
      split; [done|]. split; intros; congruence.
  - rewrite Hrun. simpl.
    destruct (raw_authenticate_error_auth faults w headers ev code err Ha)
      as [-> Herr].
    split; [|split; [|split; [|split]]].
    + split; [done|]. intros (ev' & ? & ? & ? & ? & Hb & Ha' & _).
      rewrite (Hsame _ Hb) in Ha'. congruence.
    + done.
    + by repeat split.
    + done.
    + intros ev' ->%Hsame'. split; [apply raw_auth_cases|].
      split; [intros; congruence|]. split; [|intros; congruence].
      intros code' err' Ha'. rewrite Ha in Ha'. injection Ha' as <- <-.
      done.
  - assert (forall ev' project',
              body = Raw.Parsed ev' ->
              Raw.auth faults w headers ev' = Ret (Raw.AuthProject project') ->
              ev' = ev) as Hev by (intros ev' ? Hb _; by apply Hsame).
    destruct Hrun as [(e & Hv & Hrun)|[(errors & Hv & Hne & Hrun)|
                      [(Hv & Hno & e & Hrun)|
                       [(id & time & branch & Hv & Hst & Hf & Hrun)|
                        (id & time & branch & pid & p & record & Hv & Hst
                         & Hf & Hpid & Hp & Hrec & Hr & Hpr & Het & Hb & Hq
                         & Hau & Hcon)]]]].
    + rewrite Hrun. simpl. split; [|split; [|split; [|split]]].
      * split; [done|]. intros (ev' & ? & ? & ? & ? & Hb & _ & Hok & _).
        rewrite (Hsame _ Hb) in Hok. apply raw_validateEvent_nil in Hok.
        congruence.
      * done.
      * by repeat split.
      * done.
      * intros ev' ->%Hsame'. split; [apply raw_auth_cases|].
        split; [intros; congruence|]. split; [intros; congruence|].
        intros _ _. split; [done|]. split; intros; congruence.
    + rewrite Hrun. simpl. split; [|split; [|split; [|split]]].
      * split; [done|]. intros (ev' & ? & ? & ? & ? & Hb & _ & Hok & _).
        rewrite (Hsame _ Hb) in Hok. apply raw_validateEvent_nil in Hok.
        congruence.
      * done.
      * by repeat split.
      * done.
      * intros ev' ->%Hsame'. split; [apply raw_auth_cases|].
        split; [intros; congruence|]. split; [intros; congruence|].
        intros _ _. split; [intros; congruence|]. split.
        -- intros errors' Hv' _. rewrite Hv in Hv'. injection Hv' as <-.
           split; [done|]. by apply raw_validateEvent_lists.
        -- intros; congruence.
    + rewrite Hrun. simpl. split; [|split; [|split; [|split]]].
      * split; [done|].
        intros (ev' & ? & id & time & branch & Hb & _ & _ & Hst & _).
        rewrite (Hsame _ Hb) in Hst. by apply Hno in Hst.
      * done.
      * by repeat split.
      * done.
      * intros ev' ->%Hsame'. split; [apply raw_auth_cases|].
        split; [intros; congruence|]. split; [intros; congruence|].
        intros _ _. split; [intros; congruence|].
        split; [intros; congruence|]. done.
    + rewrite Hrun. simpl. split; [|split; [|split; [|split]]].
      * split; [done|]. intros (ev' & ? & ? & ? & ? & _ & _ & _ & _ & ?).
        congruence.
      * done.
      * by repeat split.
      * done.
      * intros ev' ->%Hsame'. split; [apply raw_auth_cases|].
        split; [intros; congruence|]. split; [intros; congruence|].
        intros _ _. split; [intros; congruence|].
        split; [intros; congruence|]. done.
    + assert (body = Raw.Parsed ev) as Hbody'.
      { destruct body as [| |v]; try done.
        simpl in Hparse. by injection Hparse as ->. }
      destruct (Raw.ingestEvent faults now headers body w)
        as [out w'] eqn:E. simpl in *. subst out. simpl.
      pose proof (proj1 (raw_validateEvent_nil ev) Hv) as Hok.
      split; [|split; [|split; [|split]]].
      * split; [|done]. intros _. by exists ev, project, id, time, branch.
      * intros _. exists ev, pid, id, time, branch, p, record.
        destruct Hst as (Hid & Htime & Hbr).
        destruct Hok as (_ & Hidok & _ & Htok & Hbt & Hlen & p' & Hp' & _
                         & Hty).
        rewrite Hp in Hp'. injection Hp' as <-.
        rewrite Hid in Hidok. apply reads_as_string in Hidok as [_ Hu].
        destruct Htok as [Htt (time' & Htime' & Hiso)].
        rewrite Htime in Htime'. injection Htime' as <-.
        repeat (split; [done|]).
        split; [|split; [|split; [|split]]]; [| | | |done].
        -- intros Hpush. destruct Hty as [[_ Hpok]|[Hnote _]];
             [|congruence].
           destruct Hpok as ([Hct (h & Hh & Hhex)] & _).
           split; [done|]. exists h. split; [done|].
           by apply COMMIT_HASH_hex40.
        -- intros s Hs. rewrite Hs in Htt, Htime. simpl in Htime.
           injection Htime as ->. split; [|done]. intros ->. done.
        -- intros s Hs. rewrite Hs in Hbt, Hlen. split.
           ++ intros ->. done.
           ++ rewrite length_of_string in Hlen. injection Hlen as Hlen. lia.
        -- intros s Hpush Hs. destruct Hty as [[_ Hpok]|[Hnote _]];
             [|congruence].
           destruct Hpok as ([Hct (h & Hh & Hhex)] & _).
           rewrite Hs in Hh. simpl in Hh. injection Hh as <-.
           by apply COMMIT_HASH_hex40.
      * done.
      * done.
      * intros ev' ->%Hsame'. split; [apply raw_auth_cases|].
        split; [intros; congruence|]. split; [intros; congruence|].
        intros _ _. split; [intros; congruence|].
        split; [intros; congruence|].
        intros _ [?|Hno]; [congruence|]. by apply Hno in Hst.
Qed.
End RawHandler.


(** ** The typed reading agrees with the code on typed bodies *)

Section Agreement.
Context `{Raw.Numbers}.

Lemma truthy_json_of_string (o : option string) :
  Raw.truthy (Some (json_of_string o)) = truthy o.
Proof. by destruct o as [[|c s]|]. Qed.

Lemma check_json_of_string (o : option string) (required invalid : string)
    (ok : string -> bool) :
  Raw.check (Some (json_of_string o)) required ok invalid
  = Ret (check o required ok invalid).
Proof.
  unfold Raw.check, check. rewrite truthy_json_of_string.
  by destruct o as [[|c s]|].
Qed.

Lemma branch_errors_json_of_string (o : option string) :
  Raw.branch_errors (Some (json_of_string o))
  = Ret (check o "branch: required"
           (fun b => negb (js_length b >? 255)%Z)
           "branch: max 255 characters").
Proof.
  unfold Raw.branch_errors, check. rewrite truthy_json_of_string.
  destruct o as [[|c s]|]; try done.
  cbn [truthy negb json_of_string default].
  rewrite length_of_string, bind_Ret_l.
  change (Datatypes.id (String c s)) with (String c s).
  by destruct (js_length (String c s) >? 255)%Z.
Qed.

Lemma push_errors_json_of_payload (p : Payload) :
  Raw.push_errors (json_of_payload p) = Ret (push_errors p).
Proof.
  unfold Raw.push_errors, push_errors.
  change (Raw.field "commitHash" (json_of_payload p))
    with (Some (json_of_string (commitHash p))).
  rewrite check_json_of_string, bind_Ret_l. do 2 f_equal.
  change (Raw.field "message" (json_of_payload p))
    with (Some (json_of_string (message p))).
  change (Raw.field "author" (json_of_payload p))
    with (Some (json_of_string (author p))).
  change (Raw.field "changedFiles" (json_of_payload p))
    with (Some (json_of_array Raw.JStr (changedFiles p))).
  change (Raw.field "diff" (json_of_payload p))
    with (Some (json_of_string (diff p))).
  rewrite truthy_json_of_string. f_equal; [by destruct (message p)|].
  f_equal. f_equal.
  - by destruct (changedFiles p) as [|l|[]].
  - by destruct (diff p).
Qed.

Lemma line_number_json (n : option number) :
  (if Raw.nullish (Some (json_of_number n))
   then ["lineNumber: required for developer_note events"]
   else when (negb (Raw.isInteger (Some (json_of_number n)))
              || Raw.negative (Some (json_of_number n)))
          "lineNumber: must be a non-negative integer")
  = match n with
    | None => ["lineNumber: required for developer_note events"]
    | Some (Int z) =>
        when (z <? 0)%Z "lineNumber: must be a non-negative integer"
    | Some NonInt => ["lineNumber: must be a non-negative integer"]
    end.
Proof.
  destruct n as [[z|]|]; try done.
  cbn [json_of_number Raw.nullish Raw.isInteger Raw.negative inject_Z
       Qnum Qden].
  rewrite Z.mod_1_r. cbn [Z.eqb negb orb]. f_equal.
  destruct (Qle_bool 0 (inject_Z z)) eqn:E.
  - apply Qle_bool_iff in E. unfold Qle in E. simpl in E.
    symmetry. apply Z.ltb_ge. lia.
  - apply not_true_iff_false in E. rewrite Qle_bool_iff in E.
    unfold Qle in E. simpl in E. symmetry. apply Z.ltb_lt. lia.
Qed.

Lemma note_errors_json_of_payload (p : Payload) :
  Raw.note_errors (json_of_payload p) = Ret (note_errors p).
Proof.
  unfold Raw.note_errors, note_errors.
  change (Raw.field "filePath" (json_of_payload p))
    with (Some (json_of_string (filePath p))).
  change (Raw.field "text" (json_of_payload p))
    with (Some (json_of_string (text p))).
  change (Raw.field "lineNumber" (json_of_payload p))
    with (Some (json_of_number (lineNumber p))).
  rewrite !truthy_json_of_string.
  assert ((if negb (truthy (filePath p))
           then Ret ["filePath: required for developer_note events"]
           else dots ← Raw.includes_dots (Some (json_of_string (filePath p)));
                Ret (when dots
                       "filePath: directory traversal (..) not allowed"))
          = Ret (check (filePath p)
                   "filePath: required for developer_note events"
                   (fun f => negb (includes ".." f))
                   "filePath: directory traversal (..) not allowed")) as ->.
  { unfold check. destruct (filePath p) as [[|c s]|]; try done. simpl.
    by destruct (includes ".." (String c s)). }
  rewrite bind_Ret_l. do 3 f_equal. apply line_number_json.
Qed.

Lemma validateEvent_json_of_event (ev : Event) :
  Raw.validateEvent (json_of_event ev) = Ret (validateEvent ev).
Proof.
  rewrite raw_validateEvent_unfold by done. unfold validateEvent.
  change (Raw.field "eventId" (json_of_event ev))
    with (Some (json_of_string (eventId ev))).
  change (Raw.field "projectId" (json_of_event ev))
    with (Some (json_of_string (projectId ev))).
  change (Raw.field "eventType" (json_of_event ev))
    with (Some (json_of_string (eventType ev))).
  change (Raw.field "timestamp" (json_of_event ev))
    with (Some (json_of_string (timestamp ev))).
  change (Raw.field "branch" (json_of_event ev))
    with (Some (json_of_string (branch ev))).
  change (Raw.field "payload" (json_of_event ev))
    with (Some (match payload ev with
                | Some p => json_of_payload p
                | None => Raw.JNull
                end)).
  rewrite !check_json_of_string, branch_errors_json_of_string, !bind_Ret_l.
  rewrite truthy_json_of_string. cbv zeta.
  assert (forall s, Raw.is_string s (Some (json_of_string (eventType ev)))
                    = bool_decide (eventType ev = Some s)) as Hty.
  { intros s. destruct (eventType ev) as [s'|]; simpl; [|done].
    destruct (String.eqb_spec s' s) as [->|Hne].
    - by rewrite bool_decide_eq_true_2.
    - rewrite bool_decide_eq_false_2; [done|]. by intros [= ->]. }
  rewrite !Hty. destruct (payload ev) as [p|]; [|done].
  change (Raw.truthy (Some (json_of_payload p))) with true.
  cbn [negb]. cbv iota.
  destruct (bool_decide (eventType ev = Some "push")) eqn:E1;
    destruct (bool_decide (eventType ev = Some "developer_note")) eqn:E2;
    rewrite ?push_errors_json_of_payload, ?note_errors_json_of_payload,
      ?bind_Ret_l; done.
Qed.

Lemma member_errors_json_of_member (i : nat) (ms : list TeamMember) :
  Raw.member_errors i (json_of_member <$> ms)
  = Ret (concat (imap (fun j m =>
           when (negb (truthy (member_name m)))
                ("teamMembers[" +:+ pretty (i + j) +:+ "].name: required")
           ++ when (negb (truthy (role m)))
                ("teamMembers[" +:+ pretty (i + j) +:+ "].role: required"))
          ms)).
Proof.
  revert i. induction ms as [|m ms IH]; intros i; [done|].
  rewrite fmap_cons. cbn [Raw.member_errors json_of_member].
  rewrite IH, bind_Ret_l.
  change (Raw.field "name" (json_of_member m))
    with (Some (json_of_string (member_name m))).
  change (Raw.field "role" (json_of_member m))
    with (Some (json_of_string (role m))).
  rewrite !truthy_json_of_string. cbn [imap concat].
  rewrite Nat.add_0_r, <- !(assoc_L (++)). do 3 f_equal.
  f_equal. apply imap_ext. intros j m' _. simpl.
  by replace (i + S j) with (S (i + j)) by lia.
Qed.

Lemma validateProjectInput_json_of_input (input : ProjectInput) :
  Raw.validateProjectInput (json_of_input input)
  = Ret (validateProjectInput input).
Proof.
  unfold Raw.validateProjectInput, validateProjectInput.
  set (j := json_of_input input).
  assert (forall A (x y : A),
            match j with Raw.JNull => x | _ => y end = y) as -> by done.
  change (Raw.field "name" j) with (Some (json_of_string (name input))).
  change (Raw.field "description" j)
    with (Some (json_of_string (description input))).
  change (Raw.field "languages" j)
    with (Some (json_of_array Raw.JStr (languages input))).
  change (Raw.field "frameworks" j)
    with (Some (json_of_array Raw.JStr (frameworks input))).
  change (Raw.field "defaultBranch" j)
    with (Some (json_of_string (defaultBranch input))).
  change (Raw.field "teamMembers" j)
    with (Some (json_of_array json_of_member (teamMembers input))).
  cbv zeta.
  rewrite check_json_of_string, bind_Ret_l, !truthy_json_of_string.
  assert (forall A (f : A -> Raw.Json) (x : field A),
            Raw.truthy (Some (json_of_array f x)) = field_truthy x
            /\ Raw.isArray (Some (json_of_array f x)) = isArray x) as Harr.
  { intros A f x. by destruct x as [|l|[]]. }
  rewrite !(proj1 (Harr _ _ _)), !(proj2 (Harr _ _ _)).
  destruct (teamMembers input) as [|ms|t] eqn:Htm;
    cbn [field_truthy isArray negb andb json_of_array].
  - cbn [mbind outcome_bind]. do 4 f_equal.
    by destruct (languages input) as [|[|x l]|[]].
  - rewrite (member_errors_json_of_member 0). cbn [mbind outcome_bind].
    do 4 f_equal. by destruct (languages input) as [|[|x l]|[]].
  - destruct t; cbn [mbind outcome_bind]; do 4 f_equal;
      by destruct (languages input) as [|[|x l]|[]].
Qed.
End Agreement.

(** A push whose timestamp and commit hash are one-element arrays and whose
    branch is the number 7 is accepted and stored as it came. *)
Lemma ingestEvent_validates_witness :
  let run := @Raw.handler sample_scrypt sample_numbers no_faults
               sample_entropy sample_now
               (Raw.post_event sample_headers (Raw.Parsed untyped_push))
               raw_sample_world in
  exists record,
    Raw.eventsTable run.2
      !! ("p1",
          "2026-02-28T10:00:00.000Z#550e8400-e29b-41d4-a716-446655440000")
    = Some record
    /\ Raw.r_branch record = Some (Raw.JNum (Raw.Fin 7))
    /\ Raw.branchTimestamp record = "7#2026-02-28T10:00:00.000Z"
    /\ Raw.field "commitHash" (Raw.r_payload record)
       = Some (Raw.JArr [Raw.JStr sample_hash]).
Proof.
  intros run.
  destruct (@ingestEvent_validates sample_scrypt sample_numbers no_faults
              sample_entropy sample_now sample_headers
              (Raw.Parsed untyped_push) raw_sample_world)
    as (_ & Hok & _).
  destruct Hok as (ev & pid & id & time & branch & p & record & Hev & Hpid
                   & Hid & _ & _ & Htime & _ & _ & Hbranch & Hp & _ & _ & _
                   & _ & Hrec & Htable).
  - vm_compute. reflexivity.
  - injection Hev as <-. injection Hpid as <-. injection Hid as <-.
    injection Htime as <-. injection Hp as <-.
    fold run in Htable. exists record. rewrite Htable, lookup_insert_eq.
    split; [done|]. vm_compute in Hrec. injection Hrec as <-. done.
Defined.

(** ** Failures on the events route *)

Section RawFailures.
Context `{Scrypt} `{Raw.Numbers}.

Lemma raw_auth_faults faults faults' w headers ev :
  getProjectFails faults' = getProjectFails faults ->
  Raw.auth faults' w headers ev = Raw.auth faults w headers ev.
Proof.
  intros E. unfold Raw.auth, Raw.authenticate, Raw.getProjectItem.
  by rewrite E.
Qed.

Lemma raw_ingestEvent_faults faults faults' now headers body w :
  getProjectFails faults' = getProjectFails faults ->
  putEventFails faults' = putEventFails faults ->
  (Raw.ingestEvent faults' now headers body w).1
  = (Raw.ingestEvent faults now headers body w).1.
Proof.
  intros Hg Hp. unfold Raw.ingestEvent.
  destruct (Raw.parse body) as [ev|e]; [|done].
  fold (Raw.auth faults' w headers ev). fold (Raw.auth faults w headers ev).
  rewrite (raw_auth_faults faults faults' w headers ev Hg).
  destruct (Raw.auth faults w headers ev) as [[code err|project]|e]; [done| |done].
  destruct (Raw.validateEvent ev) as [errors|e]; [|done].
  destruct (negb _); [done|].
  destruct (Raw.nullish _); [done|]. cbv zeta.
  destruct (Raw.eventRecord _ _ _) as [record|e]; [|done].
  destruct (Raw.r_projectId record) as [[| | |pid| |]|]; try done.
  destruct (Raw.r_eventId record) as [[| | |id| |]|]; try done.
  rewrite Hp. by destruct (putEventFails faults).
Qed.

(** C4, amended. On the events route the answer is decided by the parse of
    the body, the authentication, the validation and the write to the
    events table, in this order, and by nothing else. A body that does not
    parse is answered [400]; an exception during authentication [500]; a
    token that is missing or does not verify [401]; a validation that
    throws [500], one that reports errors [400] with them; an event that
    DynamoDB turns away and a failed write to the events table [500]. In
    all these cases every table, the bucket and the queue are as they were,
    and only the exceptions leave a line on the console. In every other case
    the answer is [200], whether or not the S3 archive, the invocation of
    the AI Lambda and the audit write fail: the event record is in the
    events table, each failed step leaves its store untouched, and the
    console gains one [non-fatal] line for each failed step and nothing
    else. *)
Theorem handler_failures faults entropy now headers body w :
  let run := Raw.handler faults entropy now (Raw.post_event headers body) w in
  let internal_error :=
    Raw.respond 500
      (Raw.Error "internal_error" (Some "An unexpected error occurred") []) in
  let failed := (internal_error, Raw.log "Unhandled error" w) in
  (body = Raw.Unparsable ->
     run = (Raw.respond 400
              (Raw.Error "invalid_json" (Some "Body must be valid JSON") []),
            w))
  /\ (forall ev, Raw.parse body = Ret ev ->
        (forall e, Raw.auth faults w headers ev = Throw e -> run = failed)
        /\ (forall code err,
              Raw.auth faults w headers ev = Ret (Raw.AuthError code err) ->
              code = 401%Z /\ run = (Raw.respond 401 err, w))
        /\ (forall project,
              Raw.auth faults w headers ev = Ret (Raw.AuthProject project) ->
              (forall e, Raw.validateEvent ev = Throw e -> run = failed)
              /\ (forall errors,
                    Raw.validateEvent ev = Ret errors -> errors <> [] ->
                    run = (Raw.respond 400
                             (Raw.Error "validation_failed" None errors), w))
              /\ (Raw.validateEvent ev = Ret [] ->
                    (forall id time branch,
                       ~ Raw.storable ev id time branch) ->
                    run = failed)
              /\ (forall id time branch,
                    Raw.validateEvent ev = Ret [] ->
                    Raw.storable ev id time branch ->
                    (putEventFails faults = true -> run = failed)
                    /\ (putEventFails faults = false ->
                        exists pid p record,
                          Raw.field "projectId" ev = Some (Raw.JStr pid)
                          /\ Raw.field "payload" ev = Some p
                          /\ Raw.eventRecord ev p now = Ret record
                          /\ run.1
                             = Raw.respond 200
                                 (Raw.Processing (Raw.field "eventId" ev)
                                    (Raw.field "projectId" ev)
                                    (Raw.field "branch" ev)
                                    "processing" now)
                          /\ Raw.projectsTable run.2 = Raw.projectsTable w
                          /\ Raw.eventsTable run.2
                             = <[(pid, time +:+ "#" +:+ id) := record]>
                                 (Raw.eventsTable w)
                          /\ Raw.rawEventsBucket run.2
                             = (if putObjectFails faults
                                then Raw.rawEventsBucket w
                                else <["raw-events/" +:+ pid +:+ "/"
                                       +:+ id +:+ ".json" := ev]>
                                       (Raw.rawEventsBucket w))
                          /\ Raw.aiQueue run.2
                             = (if invokeFails faults then Raw.aiQueue w
                                else Raw.aiQueue w ++ [Raw.invocation ev p])
                          /\ Raw.auditTable run.2
                             = (if putAuditFails faults
                                then Raw.auditTable w
                                else <[(id, now)
                                       := Raw.auditEvent ev p id now]>
                                       (Raw.auditTable w))
                          /\ Raw.console run.2
                             = Raw.console w ++ non_fatal_lines faults))))
  /\ (Raw.statusCode run.1 = 200%Z
      <-> exists ev project id time branch,
            body = Raw.Parsed ev
            /\ Raw.auth faults w headers ev = Ret (Raw.AuthProject project)
            /\ Raw.validateEvent ev = Ret []
            /\ Raw.storable ev id time branch
            /\ putEventFails faults = false)
  /\ (Raw.statusCode run.1 = 200%Z \/ Raw.statusCode run.1 = 400%Z
      \/ Raw.statusCode run.1 = 401%Z \/ Raw.statusCode run.1 = 500%Z)
  /\ (Raw.statusCode run.1 <> 200%Z ->
        Raw.same_stores w run.2
        /\ (Raw.console run.2 = Raw.console w
            \/ (Raw.statusCode run.1 = 500%Z
                /\ Raw.console run.2
                   = Raw.console w ++ ["Unhandled error"])))
  /\ (forall faults',
        getProjectFails faults' = getProjectFails faults ->
        putEventFails faults' = putEventFails faults ->
        (Raw.handler faults' entropy now (Raw.post_event headers body) w).1
        = run.1).
Proof.
  intros run internal_error failed.
  assert (forall faults',
            getProjectFails faults' = getProjectFails faults ->
            putEventFails faults' = putEventFails faults ->
            (Raw.handler faults' entropy now
               (Raw.post_event headers body) w).1 = run.1) as Hindep.
  { intros faults' Hg Hp. unfold run. rewrite !raw_handler_post_event.
    pose proof (raw_ingestEvent_faults faults faults' now headers body w
                  Hg Hp) as E.
    destruct (Raw.ingestEvent faults' now headers body w) as [o1 w1].
    destruct (Raw.ingestEvent faults now headers body w) as [o2 w2].
    simpl in E. subst o2. by destruct o1. }
  assert (forall st, Raw.same_stores st st) as Hrefl by (by repeat split).
  assert (forall st, Raw.same_stores st (Raw.log "Unhandled error" st))
    as Hlog by (by repeat split).
  split; [|split; [|split; [|split; [|split; [|exact Hindep]]]]];
    clear Hindep; unfold failed, run; clear failed run;
    rewrite raw_handler_post_event;
    pose proof (raw_ingestEvent_run faults now headers body w) as Hrun;
    cbv zeta in Hrun.
  - intros ->. by destruct Hrun as [[_ ->]|(ev & [=] & _)].
  - intros ev Hparse.
    destruct Hrun as [[-> _]|(ev' & Hparse' & Hrun)]; [done|].
    rewrite Hparse in Hparse'. injection Hparse' as <-.
    destruct Hrun as [(e & Ha & Hrun)|[(code & err & Ha & Hrun)|
                      (project & Ha & Hrun)]].
    { rewrite Hrun. simpl. split; [done|]. split; intros; congruence. }
    { rewrite Hrun. simpl.
      destruct (raw_authenticate_error_auth faults w headers ev code err Ha)
        as [-> Herr].
      split; [intros; congruence|]. split; [|intros; congruence].
      intros code' err' Ha'. rewrite Ha in Ha'. by injection Ha' as <- <-. }
    split; [intros; congruence|]. split; [intros; congruence|].
    intros _ _.
    destruct Hrun as [(e & Hv & Hrun)|[(errors & Hv & Hne & Hrun)|
                      [(Hv & Hno & e & Hrun)|
                       [(id & time & branch & Hv & Hst & Hf & Hrun)|
                        (id & time & branch & pid & p & record & Hv & Hst
                         & Hf & Hpid & Hp & Hrec & Hr & Hrest)]]]].
    + rewrite Hrun. simpl. split; [done|].
      split; [intros; congruence|]. split; [intros; congruence|].
      intros; congruence.
    + rewrite Hrun. simpl. split; [intros; congruence|]. split.
      * intros errors' Hv' _. rewrite Hv in Hv'. by injection Hv' as <-.
      * split; intros; congruence.
    + rewrite Hrun. simpl. split; [intros; congruence|].
      split; [intros; congruence|]. split; [done|].
      intros id time branch _ Hst. by apply Hno in Hst.
    + rewrite Hrun. simpl. split; [intros; congruence|].
      split; [intros; congruence|]. split; [done|].
      intros id' time' branch' _ _. split; [done|]. intros; congruence.
    + split; [intros; congruence|]. split; [intros; congruence|]. split.
      { intros _ Hno. by apply Hno in Hst. }
      intros id' time' branch' _ Hst'. split; [intros; congruence|].
      intros _. exists pid, p, record.
      destruct Hst as (Hid & Htime & Hbr).
      destruct Hst' as (Hid' & Htime' & Hbr').
      rewrite Hid in Hid'. injection Hid' as <-.
      rewrite Htime in Htime'. injection Htime' as <-.
      destruct (Raw.ingestEvent faults now headers body w)
        as [out w'] eqn:E. simpl in *. subst out. done.
  - destruct Hrun as [[-> Hrun]|(ev & Hparse & Hrun)].
    { rewrite Hrun. simpl. split; [done|].
      by intros (ev & ? & ? & ? & ? & [=] & _). }
    assert (forall ev', body = Raw.Parsed ev' -> ev' = ev) as Hsame.
    { intros ev' ->. by injection Hparse as ->. }
    destruct Hrun as [(e & Ha & Hrun)|[(code & err & Ha & Hrun)|
                      (project & Ha & Hrun)]].
    { rewrite Hrun. simpl. split; [done|].
      intros (ev' & ? & ? & ? & ? & Hb & Ha' & _).
      rewrite (Hsame _ Hb) in Ha'. congruence. }
    { rewrite Hrun. simpl.
      destruct (raw_authenticate_error_auth faults w headers ev code err Ha)
        as [-> Herr].
      split; [done|]. intros (ev' & ? & ? & ? & ? & Hb & Ha' & _).
      rewrite (Hsame _ Hb) in Ha'. congruence. }
    destruct Hrun as [(e & Hv & Hrun)|[(errors & Hv & Hne & Hrun)|
                      [(Hv & Hno & e & Hrun)|
                       [(id & time & branch & Hv & Hst & Hf & Hrun)|
                        (id & time & branch & pid & p & record & Hv & Hst
                         & Hf & Hpid & Hp & Hrec & Hr & Hrest)]]]].
    + rewrite Hrun. simpl. split; [done|].
      intros (ev' & ? & ? & ? & ? & Hb & _ & Hok & _).
      rewrite (Hsame _ Hb) in Hok. congruence.
    + rewrite Hrun. simpl. split; [done|].
      intros (ev' & ? & ? & ? & ? & Hb & _ & Hok & _).
      rewrite (Hsame _ Hb) in Hok. congruence.
    + rewrite Hrun. simpl. split; [done|].
      intros (ev' & ? & id & time & branch & Hb & _ & _ & Hst & _).
      rewrite (Hsame _ Hb) in Hst. by apply Hno in Hst.
    + rewrite Hrun. simpl. split; [done|].
      intros (ev' & ? & ? & ? & ? & _ & _ & _ & _ & ?). congruence.
    + assert (body = Raw.Parsed ev) as Hbody.
      { destruct body as [| |v]; try done.
        simpl in Hparse. by injection Hparse as ->. }
      destruct (Raw.ingestEvent faults now headers body w)
        as [out w'] eqn:E. simpl in *. subst out. simpl.
      split; [|done]. intros _. by exists ev, project, id, time, branch.
  - destruct Hrun as [[-> Hrun]|(ev & Hparse & Hrun)].
    { rewrite Hrun. simpl. tauto. }
    destruct Hrun as [(e & Ha & Hrun)|[(code & err & Ha & Hrun)|
                      (project & Ha & Hrun)]].
    { rewrite Hrun. simpl. tauto. }
    { rewrite Hrun. simpl.
      destruct (raw_authenticate_error_auth faults w headers ev code err Ha)
        as [-> Herr]. tauto. }
    destruct Hrun as [(e & Hv & Hrun)|[(errors & Hv & Hne & Hrun)|
                      [(Hv & Hno & e & Hrun)|
                       [(id & time & branch & Hv & Hst & Hf & Hrun)|
                        (id & time & branch & pid & p & record & Hv & Hst
                         & Hf & Hpid & Hp & Hrec & Hr & Hrest)]]]];
      try (rewrite Hrun; simpl; tauto).
    destruct (Raw.ingestEvent faults now headers body w)
      as [out w'] eqn:E. simpl in *. subst out. simpl. tauto.
  - destruct Hrun as [[-> Hrun]|(ev & Hparse & Hrun)].
    { rewrite Hrun. simpl. intros _. split; [done|by left]. }
    destruct Hrun as [(e & Ha & Hrun)|[(code & err & Ha & Hrun)|
                      (project & Ha & Hrun)]].
    { rewrite Hrun. simpl. intros _. split; [done|by right]. }
    { rewrite Hrun. simpl. intros _. split; [done|by left]. }
    destruct Hrun as [(e & Hv & Hrun)|[(errors & Hv & Hne & Hrun)|
                      [(Hv & Hno & e & Hrun)|
                       [(id & time & branch & Hv & Hst & Hf & Hrun)|
                        (id & time & branch & pid & p & record & Hv & Hst
                         & Hf & Hpid & Hp & Hrec & Hr & Hrest)]]]];
      try (rewrite Hrun; simpl; intros _; split; [done|by right]);
      try (rewrite Hrun; simpl; intros _; split; [done|by left]).
    destruct (Raw.ingestEvent faults now headers body w)
      as [out w'] eqn:E. simpl in *. subst out. simpl. done.
Qed.
End RawFailures.

(** The sample event with the archive, the AI Lambda and the audit table
    down: answered [200], stored, and three lines on the console. *)
Lemma handler_failures_witness :
  let ev := json_of_event (sample_event sample_hash) in
  let run := @Raw.handler sample_scrypt sample_numbers side_effects_down
               sample_entropy sample_now
               (Raw.post_event sample_headers (Raw.Parsed ev))
               raw_sample_world in
  Raw.statusCode run.1 = 200%Z
  /\ is_Some
       (Raw.eventsTable run.2
          !! ("p1",
              "2026-02-28T10:00:00.000Z#550e8400-e29b-41d4-a716-446655440000"))
  /\ Raw.rawEventsBucket run.2 = Raw.rawEventsBucket raw_sample_world
  /\ Raw.aiQueue run.2 = Raw.aiQueue raw_sample_world
  /\ Raw.auditTable run.2 = Raw.auditTable raw_sample_world
  /\ Raw.console run.2
     = Raw.console raw_sample_world
       ++ ["[non-fatal] S3 archive failed"; "[non-fatal] AI invoke failed";
           "[non-fatal] Audit write failed"].
Proof.
  intros ev run.
  destruct (@handler_failures sample_scrypt sample_numbers side_effects_down
              sample_entropy sample_now sample_headers (Raw.Parsed ev)
              raw_sample_world)
    as (_ & Hev & _).
  destruct (Hev ev eq_refl) as (_ & _ & Hok).
  assert (exists project,
            @Raw.auth sample_scrypt side_effects_down raw_sample_world
              sample_headers ev = Ret (Raw.AuthProject project))
    as [project Ha] by (vm_compute; by eexists).
  destruct (Hok project Ha) as (_ & _ & _ & Hst).
  destruct (Hst "550e8400-e29b-41d4-a716-446655440000"
              "2026-02-28T10:00:00.000Z" "feature/auth") as [_ Hgood].
  - vm_compute. reflexivity.
  - by repeat split.
  - destruct (Hgood eq_refl)
      as (pid & p & record & Hpid & _ & _ & Hr & _ & Hevents & Hb & Hq & Hau
          & Hcon).
    injection Hpid as <-. fold run in Hr, Hevents, Hb, Hq, Hau, Hcon.
    split; [by rewrite Hr|].
    split; [rewrite Hevents, lookup_insert_eq; by eexists|].
    split; [exact Hb|]. split; [exact Hq|]. split; [exact Hau|exact Hcon].
Defined.

Section RawExtras.
Context `{Scrypt} `{Raw.Numbers}.

Lemma reads_as_singleton (ok : string -> bool) (s : string) :
  Raw.reads_as ok (Some (Raw.JArr [Raw.JStr s])) <-> ok s = true.
Proof.
  unfold Raw.reads_as. simpl. split.
  - by intros [_ (s' & [= <-] & Hok)].
  - intros Hok. split; [done|]. by exists s.
Qed.

Lemma length_of_array (l : list Raw.Json) :
  Raw.greater_than (Raw.length_of (Some (Raw.JArr l))) 255
  = Ret (255 <? length l).
Proof.
  unfold Raw.greater_than. simpl. f_equal.
  destruct (Qle_bool (inject_Z (Z.of_nat (length l))) (inject_Z 255)) eqn:E.
  - apply Qle_bool_iff in E. rewrite <- Zle_Qle in E. simpl.
    symmetry. apply Nat.ltb_ge. lia.
  - simpl. apply not_true_iff_false in E. rewrite Qle_bool_iff in E.
    rewrite <- Zle_Qle in E. symmetry. apply Nat.ltb_lt. lia.
Qed.

(** X8. [validateEvent] on an arbitrary value. It reports nothing exactly
    for a value other than [null] with a truthy [eventId], [timestamp] and,
    in a push, [commitHash] whose string forms match the patterns, a truthy
    [projectId], a truthy [branch] whose [length] is not above 255, an
    [eventType] that is the string [push] or [developer_note], and a truthy
    payload; in a push, with a message that is not [null], a truthy author,
    [changedFiles] falsy or an array, and no string of more than 50,000
    characters as diff; in a note, with a truthy text, a file path that is
    a non-empty string without [..] or an array without the element [..],
    and a line number that is a natural number. A string is read as itself:
    for strings these are the conditions on the strings, the branch of 1 to
    255 characters. A one-element array of a string is read as that string;
    a number has no [length] and passes the check of the branch; an array
    passes it with up to 255 elements. On the events of the extension this
    is the typed [validateEvent]. *)
Theorem validateEvent_accepts (ev : Raw.Json) :
  (Raw.validateEvent ev = Ret [] <-> Raw.event_ok ev)
  /\ (forall ok s,
        Raw.reads_as ok (Some (Raw.JStr s)) <-> s <> "" /\ ok s = true)
  /\ (forall ok s,
        Raw.reads_as ok (Some (Raw.JArr [Raw.JStr s])) <-> ok s = true)
  /\ (forall s,
        Raw.truthy (Some (Raw.JStr s)) = true
        /\ Raw.greater_than (Raw.length_of (Some (Raw.JStr s))) 255
           = Ret false
        <-> (1 <= js_length s <= 255)%Z)
  /\ (forall n,
        Raw.greater_than (Raw.length_of (Some (Raw.JNum n))) 255 = Ret false)
  /\ (forall l,
        Raw.truthy (Some (Raw.JArr l)) = true
        /\ Raw.greater_than (Raw.length_of (Some (Raw.JArr l))) 255
           = Ret (255 <? length l))
  /\ (forall typed : Event,
        Raw.validateEvent (json_of_event typed) = Ret (validateEvent typed)).
Proof.
  split; [apply raw_validateEvent_nil|].
  split; [apply reads_as_string|].
  split; [apply reads_as_singleton|].
  split; [|split; [done|split]].
  - intros s. rewrite length_of_string.
    destruct (Z.gtb_spec (js_length s) 255) as [Hgt|Hle]; split.
    + by intros [_ [=]].
    + lia.
    + intros [Hs _]. destruct s as [|c s]; [done|].
      unfold js_length in *. simpl String.length in *. lia.
    + intros Hlen. split; [|done]. destruct s as [|c s]; [|done].
      unfold js_length in Hlen. simpl in Hlen. lia.
  - intros l. split; [done|]. apply length_of_array.
  - apply validateEvent_json_of_event.
Qed.

(** X9. A developer note that the events route answers with [200] has a
    truthy text, a line number that is a natural number, and a file path
    that is a non-empty string without [..] or an array that does not have
    the string [..] among its elements; the record stored under its key
    carries this payload. Nothing more is asked of an array: the note
    whose file path is the one-element array of [../../etc/passwd] is
    stored with it. *)
Theorem stored_note_paths faults entropy now headers ev w :
  let run :=
    Raw.handler faults entropy now
      (Raw.post_event headers (Raw.Parsed ev)) w in
  Raw.field "eventType" ev = Some (Raw.JStr "developer_note") ->
  Raw.statusCode run.1 = 200%Z ->
  exists pid id time p record,
    Raw.field "payload" ev = Some p
    /\ Raw.truthy (Raw.field "text" p) = true
    /\ (exists q, Raw.field "lineNumber" p = Some (Raw.JNum (Raw.Fin q))
          /\ Raw.natural q)
    /\ ((exists s, Raw.field "filePath" p = Some (Raw.JStr s)
           /\ s <> "" /\ includes ".." s = false)
        \/ (exists l, Raw.field "filePath" p = Some (Raw.JArr l)
              /\ Raw.JStr ".." ∉ l))
    /\ Raw.eventsTable run.2 !! (pid, time +:+ "#" +:+ id) = Some record
    /\ Raw.r_payload record = p.
Proof.
  intros run Hty Hok.
  destruct (raw_handler_accepted faults entropy now headers
              (Raw.Parsed ev) w Hok)
    as (ev' & project & pid & id & time & branch & p & record & [= <-] & _
        & Hev & _ & _ & _ & Hp & Hrec & _ & _ & Htable & _).
  fold run in Htable.
  destruct Hev as (_ & _ & _ & _ & _ & _ & p' & Hp' & _ & Hnote).
  rewrite Hp in Hp'. injection Hp' as <-.
  destruct Hnote as [[Hpush _]|[_ (Htext & Hpath & Hline)]]; [congruence|].
  exists pid, id, time, p, record. repeat (split; [done|]).
  split; [by rewrite Htable, lookup_insert_eq|].
  unfold Raw.eventRecord in Hrec.
  destruct (Raw.to_string_opt (Raw.field "timestamp" ev)); [|done].
  destruct (Raw.to_string_opt (Raw.field "eventId" ev)); [|done].
  destruct (Raw.to_string_opt (Raw.field "branch" ev)); [|done].
  simpl in Hrec. by injection Hrec as <-.
Qed.
End RawExtras.

(** The note whose file path is the one-element array of [../../etc/passwd]
    is stored. *)
Lemma stored_note_paths_witness :
  let run := @Raw.handler sample_scrypt sample_numbers no_faults
               sample_entropy sample_now
               (Raw.post_event sample_headers (Raw.Parsed untyped_note))
               raw_sample_world in
  exists k record,
    Raw.eventsTable run.2 !! k = Some record
    /\ Raw.field "filePath" (Raw.r_payload record)
       = Some (Raw.JArr [Raw.JStr "../../etc/passwd"]).
Proof.
  intros run.
  destruct (@stored_note_paths sample_scrypt sample_numbers no_faults
              sample_entropy sample_now sample_headers untyped_note
              raw_sample_world eq_refl)
    as (pid & id & time & p & record & Hp & _ & _ & _ & Hrec & Hpay).
  - vm_compute. reflexivity.
  - fold run in Hrec. exists (pid, time +:+ "#" +:+ id), record.
    split; [exact Hrec|]. rewrite Hpay. injection Hp as <-. reflexivity.
Defined.

Section RawProjects.
Context `{Scrypt} `{Raw.Numbers}.

Lemma bind_Throw {A B} (m : outcome A) (k : A -> outcome B) (e : string) :
  m ≫= k = Throw e
  <-> (m = Throw e \/ exists a, m = Ret a /\ k a = Throw e).
Proof.
  destruct m as [a|e']; simpl.
  - split; [right; by exists a|]. by intros [[=]|(a' & [= <-] & ?)].
  - split; [intros [= ->]; by left|]. by intros [[= ->]|(a' & [=] & _)].
Qed.

Lemma raw_member_errors_cases (i : nat) (ms : list Raw.Json) :
  (Raw.JNull ∈ ms /\ Raw.member_errors i ms = Throw "TypeError")
  \/ ((Raw.JNull ∉ ms)
      /\ exists errors, Raw.member_errors i ms = Ret errors
        /\ (errors = [] <-> Forall Raw.member_ok ms)).
Proof.
  revert i. induction ms as [|m ms IH]; intros i.
  - right. split; [by intros ?%elem_of_nil|]. exists []. done.
  - assert (m = Raw.JNull \/ m <> Raw.JNull) as [->|Hm]
      by (destruct m; [by left|by right..]).
    { left. split; [apply list_elem_of_here|done]. }
    assert (Raw.member_errors i (m :: ms)
            = (rest ← Raw.member_errors (S i) ms;
               Ret (when (negb (Raw.truthy (Raw.field "name" m)))
                      ("teamMembers[" +:+ pretty i +:+ "].name: required")
                    ++ when (negb (Raw.truthy (Raw.field "role" m)))
                         ("teamMembers[" +:+ pretty i
                          +:+ "].role: required")
                    ++ rest))) as -> by (by destruct m).
    destruct (IH (S i)) as [[Hin ->]|(Hnot & errors & -> & Hnil)].
    + left. split; [by apply list_elem_of_further|done].
    + right. split.
      { intros [?|?]%elem_of_cons; [congruence|done]. }
      eexists. split; [done|]. rewrite Forall_cons, <- Hnil.
      rewrite !app_nil_iff, !when_nil, !negb_false_iff.
      unfold Raw.member_ok. tauto.
Qed.

Lemma raw_validateProjectInput_unfold (input : Raw.Json) :
  input <> Raw.JNull ->
  Raw.validateProjectInput input
  = (name ← Raw.check (Raw.field "name" input) "name: required"
               NAME_REGEX "name: alphanumeric, hyphens, underscores only";
     members ←
       (let teamMembers := Raw.field "teamMembers" input in
        if Raw.truthy teamMembers && negb (Raw.isArray teamMembers)
        then Ret ["teamMembers: must be an array"]
        else match teamMembers with
             | Some (Raw.JArr ms) => Raw.member_errors 0 ms
             | _ => Ret []
             end);
     Ret (name
          ++ when (negb (Raw.truthy (Raw.field "description" input)))
               "description: required"
          ++ when (match Raw.field "languages" input with
                   | Some (Raw.JArr (_ :: _)) => false
                   | _ => true
                   end)
               "languages: required, must be a non-empty array"
          ++ when (negb (Raw.truthy (Raw.field "defaultBranch" input)))
               "defaultBranch: required"
          ++ when (Raw.truthy (Raw.field "frameworks" input)
                   && negb (Raw.isArray (Raw.field "frameworks" input)))
               "frameworks: must be an array"
          ++ members)).
Proof. by destruct input. Qed.

(** The errors of the team members. *)
Lemma raw_members_cases (v : option Raw.Json) :
  let members :=
    if Raw.truthy v && negb (Raw.isArray v)
    then Ret ["teamMembers: must be an array"]
    else match v with
         | Some (Raw.JArr ms) => Raw.member_errors 0 ms
         | _ => Ret []
         end in
  ((exists ms, v = Some (Raw.JArr ms) /\ Raw.JNull ∈ ms)
   /\ members = Throw "TypeError")
  \/ (~ (exists ms, v = Some (Raw.JArr ms) /\ Raw.JNull ∈ ms)
      /\ exists errors, members = Ret errors
           /\ (errors = []
               <-> Raw.truthy v = false
                   \/ exists ms, v = Some (Raw.JArr ms)
                        /\ Forall Raw.member_ok ms)).
Proof.
  intros members. unfold members.
  assert ((exists ms, v = Some (Raw.JArr ms))
          \/ Raw.isArray v = false) as [[ms ->]|Hno].
  { destruct v as [[|b|n|s|ms|fs]|]; try (by right). left. by exists ms. }
  - simpl.
    destruct (raw_member_errors_cases 0 ms)
      as [[Hin Hm]|(Hnot & errors & Hm & Hnil)].
    + left. split; [by exists ms|done].
    + right. split; [by intros (? & [= <-] & ?)|]. exists errors.
      split; [done|]. rewrite Hnil. split.
      * intros Hall. right. by exists ms.
      * by intros [?|(? & [= <-] & ?)].
  - right. split.
    { intros (ms & -> & _). done. }
    rewrite Hno. simpl. rewrite andb_true_r.
    destruct (Raw.truthy v) eqn:Ht.
    + eexists. split; [done|]. split; [done|].
      intros [?|(ms & -> & _)]; done.
    + exists []. split; [by destruct v as [[]|]|]. split; [by left|done].
Qed.

Lemma raw_check_Throw (v : option Raw.Json) (required invalid : string)
    (ok : string -> bool) (e : string) :
  Raw.check v required ok invalid = Throw e
  <-> Raw.truthy v = true /\ Raw.to_string_opt v = Throw e.
Proof.
  unfold Raw.check. destruct (Raw.truthy v); simpl.
  - destruct (Raw.to_string_opt v) as [s|e']; simpl.
    + split; [done|]. by intros [_ [=]].
    + split; [by intros [= ->]|]. by intros [_ [= ->]].
  - split; [done|]. by intros [[=] _].
Qed.

(** [validateProjectInput] throws on [null], on a name that has no string
    form and on a team member that is [null], and on nothing else. *)
Lemma raw_validateProjectInput_Throw (input : Raw.Json) :
  (exists e, Raw.validateProjectInput input = Throw e)
  <-> input = Raw.JNull
      \/ (Raw.truthy (Raw.field "name" input) = true
          /\ exists e, Raw.to_string_opt (Raw.field "name" input) = Throw e)
      \/ (exists ms, Raw.field "teamMembers" input = Some (Raw.JArr ms)
            /\ Raw.JNull ∈ ms).
Proof.
  assert (input = Raw.JNull \/ input <> Raw.JNull) as [->|Hin]
    by (destruct input; [by left|by right..]).
  { split; [by left|]. intros _. by exists "TypeError". }
  rewrite (raw_validateProjectInput_unfold input Hin).
  pose proof (raw_members_cases (Raw.field "teamMembers" input)) as Hm.
  cbv zeta in Hm. split.
  - intros [e He]. right. apply bind_Throw in He as [He|(name & Hn & He)].
    + left. apply raw_check_Throw in He as [? ?]. eauto.
    + right. apply bind_Throw in He as [He|(members & _ & [=])].
      destruct Hm as [[Hnull _]|(_ & errors & Hr & _)]; [done|].
      cbv zeta in He. congruence.
  - intros [?|[[Ht [e He]]|Hnull]]; [done| |].
    + exists e. apply bind_Throw. left. by apply raw_check_Throw.
    + destruct Hm as [[_ Hthrow]|[Hno _]]; [|done].
      destruct (Raw.check (Raw.field "name" input) "name: required"
                  NAME_REGEX
                  "name: alphanumeric, hyphens, underscores only")
        as [name|e] eqn:Hc.
      * exists "TypeError". rewrite bind_Ret_l. cbv zeta.
        by rewrite Hthrow.
      * by exists e.
Qed.

Lemma raw_validateProjectInput_nil (input : Raw.Json) :
  Raw.validateProjectInput input = Ret [] <-> Raw.input_ok input.
Proof.
  unfold Raw.input_ok.
  assert (input = Raw.JNull \/ input <> Raw.JNull) as [->|Hin]
    by (destruct input; [by left|by right..]).
  { split; [done|]. by intros [? _]. }
  rewrite (raw_validateProjectInput_unfold input Hin).
  pose proof (raw_members_cases (Raw.field "teamMembers" input)) as Hm.
  cbv zeta in Hm. cbv zeta.
  assert (forall v : option Raw.Json,
            (Raw.truthy v && negb (Raw.isArray v)) = false
            <-> Raw.truthy v = false \/ exists l, v = Some (Raw.JArr l))
    as Harr.
  { intros v. split.
    - intros E. destruct (Raw.truthy v) eqn:Ht; [|by left]. right.
      destruct v as [[|b|n|s|l|fs]|]; try (simpl in E; done). by exists l.
    - intros [->|(l & ->)]; done. }
  assert (forall v : option Raw.Json,
            match v with
            | Some (Raw.JArr (_ :: _)) => false
            | _ => true
            end = false <-> exists x l, v = Some (Raw.JArr (x :: l)))
    as Hlang.
  { intros v. split.
    - intros E. destruct v as [[|b|n|s|[|x l]|fs]|]; try done.
      by exists x, l.
    - by intros (x & l & ->). }
  split.
  - intros Hv. apply bind_Ret in Hv as (name & Hname & Hv).
    apply bind_Ret in Hv as (members & Hmem & Hv). injection Hv as Hv.
    apply app_nil_iff in Hv as [-> Hv].
    apply app_nil_iff in Hv as [Hd%when_nil Hv].
    apply app_nil_iff in Hv as [Hl%when_nil Hv].
    apply app_nil_iff in Hv as [Hb%when_nil Hv].
    apply app_nil_iff in Hv as [Hf%when_nil ->].
    apply raw_check_nil in Hname. apply negb_false_iff in Hd, Hb.
    apply Hlang in Hl. apply Harr in Hf.
    repeat (split; [done|]).
    destruct Hm as [[_ Hthrow]|(_ & errors & Hr & Hnil)]; [congruence|].
    rewrite Hmem in Hr. injection Hr as <-. by apply Hnil.
  - intros (_ & Hname & Hd & Hl & Hb & Hf & Hmem).
    apply (raw_check_nil _ "name: required"
             "name: alphanumeric, hyphens, underscores only") in Hname.
    rewrite Hname, bind_Ret_l.
    destruct Hm as [[Hnull _]|(_ & errors & Hr & Hnil)].
    { destruct Hnull as (ms & Hms & Hnull).
      destruct Hmem as [Ht|(ms' & Hms' & Hall)].
      - rewrite Hms in Ht. done.
      - rewrite Hms in Hms'. injection Hms' as <-.
        rewrite Forall_forall in Hall. by destruct (Hall _ Hnull) as [? _]. }
    rewrite Hr, bind_Ret_l. apply Hnil in Hmem as ->.
    rewrite Hd, Hb. apply Hlang in Hl as ->. apply Harr in Hf as ->. done.
Qed.

(** The runs of the projects route. *)
Lemma raw_createProject_run faults entropy now body w :
  let run := Raw.createProject faults entropy now body w in
  (body = Raw.Unparsable /\ run = (Throw "SyntaxError", w))
  \/ exists input,
       Raw.parse body = Ret input
       /\ ((exists e, Raw.validateProjectInput input = Throw e
              /\ run = (Throw e, w))
           \/ (exists errors,
                 Raw.validateProjectInput input = Ret errors /\ errors <> []
                 /\ run = (Ret (Raw.respond 400
                                  (Raw.Error "validation_failed" None
                                     errors)), w))
           \/ (Raw.validateProjectInput input = Ret []
               /\ putProjectFails faults = true
               /\ run = (Throw "PutCommand failed", w))
           \/ (Raw.validateProjectInput input = Ret []
               /\ putProjectFails faults = false
               /\ run.1 = Ret (Raw.respond 200
                                 (Raw.Created (randomUUID entropy)
                                    (to_hex (tokenBytes entropy))))
               /\ Raw.projectsTable run.2
                  = <[randomUUID entropy := Raw.newProject entropy now input]>
                      (Raw.projectsTable w)
               /\ Raw.eventsTable run.2 = Raw.eventsTable w
               /\ Raw.rawEventsBucket run.2 = Raw.rawEventsBucket w
               /\ Raw.aiQueue run.2 = Raw.aiQueue w
               /\ Raw.auditTable run.2
                  = (if putAuditFails faults then Raw.auditTable w
                     else <[(randomUUID entropy, now)
                            := Raw.auditProject entropy now input]>
                            (Raw.auditTable w))
               /\ Raw.console run.2
                  = Raw.console w
                    ++ (if putAuditFails faults
                        then ["[non-fatal] Audit write failed"] else []))).
Proof.
  intros run. unfold run, Raw.createProject.
  destruct body as [| |v]; simpl Raw.parse; [by left| |].
  - right. exists Raw.JNull. split; [done|]. left. by exists "TypeError".
  - right. exists v. split; [done|]. rewrite bind_Ret_l.
    destruct (Raw.validateProjectInput v) as [errors|e] eqn:Hv;
      [|left; by exists e].
    rewrite bind_Ret_l. right.
    destruct (decide (errors = [])) as [->|Hne].
    2: { left. exists errors. by rewrite (bool_decide_eq_false_2 _ Hne). }
    right. rewrite (bool_decide_eq_true_2 _ eq_refl). cbn [negb].
    destruct (putProjectFails faults) eqn:Hf; [by left|]. right.
    repeat (split; [done|]).
    unfold Raw.non_fatal. destruct (putAuditFails faults); simpl;
      by rewrite ?app_nil_r.
Qed.

Lemma raw_handler_post_project faults entropy now body w :
  Raw.handler faults entropy now (Raw.post_project body) w
  = match Raw.createProject faults entropy now body w with
    | (Ret r, w') => (r, w')
    | (Throw _, w') =>
        (Raw.respond 500
           (Raw.Error "internal_error"
              (Some "An unexpected error occurred") []),
         Raw.log "Unhandled error" w')
    end.
Proof. reflexivity. Qed.

(** X6. The outcomes of [createProject] on an arbitrary body. It throws
    exactly when the body does not parse, when it is missing or [null],
    when the name is truthy and has no string form, when [teamMembers] is
    an array with a [null] in it, or when a valid input meets a failed
    write; it then leaves the world as it was and the handler answers
    [500]. An input with errors is answered [400 validation_failed] with
    them and writes nothing. The answer is [200] exactly for a valid input
    whose write succeeds, and always one of [200], [400] and [500]; a
    created project is stored under the drawn id with the name of the
    input as it came and with the hash of the returned token, never the
    token itself, and no event, archive or invocation is touched. *)
Theorem createProject_outcomes faults entropy now body w :
  let run := Raw.createProject faults entropy now body w in
  let answer :=
    (Raw.handler faults entropy now (Raw.post_project body) w).1 in
  ((exists e, run.1 = Throw e)
   <-> body = Raw.Unparsable
       \/ exists input,
            Raw.parse body = Ret input
            /\ (input = Raw.JNull
                \/ (Raw.truthy (Raw.field "name" input) = true
                    /\ exists e,
                         Raw.to_string_opt (Raw.field "name" input)
                         = Throw e)
                \/ (exists ms,
                      Raw.field "teamMembers" input = Some (Raw.JArr ms)
                      /\ Raw.JNull ∈ ms)
                \/ (Raw.input_ok input /\ putProjectFails faults = true)))
  /\ ((exists e, run.1 = Throw e) ->
        run.2 = w /\ Raw.statusCode answer = 500%Z)
  /\ (forall input errors,
        Raw.parse body = Ret input ->
        Raw.validateProjectInput input = Ret errors -> errors <> [] ->
        run = (Ret (Raw.respond 400
                      (Raw.Error "validation_failed" None errors)), w))
  /\ (Raw.statusCode answer = 200%Z
      <-> exists input,
            Raw.parse body = Ret input /\ Raw.input_ok input
            /\ putProjectFails faults = false)
  /\ (Raw.statusCode answer = 200%Z \/ Raw.statusCode answer = 400%Z
      \/ Raw.statusCode answer = 500%Z)
  /\ (forall input,
        Raw.parse body = Ret input -> Raw.input_ok input ->
        putProjectFails faults = false ->
        let apiToken := to_hex (tokenBytes entropy) in
        let record := Raw.newProject entropy now input in
        run.1 = Ret (Raw.respond 200
                       (Raw.Created (randomUUID entropy) apiToken))
        /\ Raw.projectsTable run.2
           = <[randomUUID entropy := record]> (Raw.projectsTable w)
        /\ Raw.apiTokenHash record
           = Some (hashToken (saltBytes entropy) apiToken)
        /\ Raw.apiTokenHash record <> Some apiToken
        /\ Raw.p_name record = Raw.field "name" input
        /\ Raw.eventsTable run.2 = Raw.eventsTable w
        /\ Raw.rawEventsBucket run.2 = Raw.rawEventsBucket w
        /\ Raw.aiQueue run.2 = Raw.aiQueue w).
Proof.
  intros run answer. unfold answer. rewrite raw_handler_post_project.
  fold run.
  pose proof (raw_createProject_run faults entropy now body w) as Hrun.
  cbv zeta in Hrun. fold run in Hrun.
  assert (forall input, Raw.input_ok input ->
            ~ (input = Raw.JNull
               \/ (Raw.truthy (Raw.field "name" input) = true
                   /\ exists e,
                        Raw.to_string_opt (Raw.field "name" input) = Throw e)
               \/ (exists ms,
                     Raw.field "teamMembers" input = Some (Raw.JArr ms)
                     /\ Raw.JNull ∈ ms))) as Hexcl.
  { intros input Hok%raw_validateProjectInput_nil
      [e He]%raw_validateProjectInput_Throw. congruence. }
  destruct Hrun as [[-> Hrun]|(input & Hparse & Hrun)].
  { rewrite Hrun. simpl.
    split; [|split; [|split; [|split; [|split]]]]; try done.
    - split; [by left|]. intros _. by eexists.
    - split; [done|]. by intros (? & [=] & _).
    - tauto. }
  assert (forall input', Raw.parse body = Ret input' -> input' = input)
    as Hsame.
  { intros input' Hp. rewrite Hparse in Hp. by injection Hp as ->. }
  assert (body <> Raw.Unparsable) as Hbody by (by intros ->).
  destruct Hrun as [(e & Hv & Hrun)|[(errors & Hv & Hne & Hrun)|
                    [(Hv & Hf & Hrun)|
                     (Hv & Hf & Hr & Hpr & Hev & Hb & Hq & Hau & Hcon)]]].
  - rewrite Hrun. simpl.
    assert (exists e, Raw.validateProjectInput input = Throw e) as Hthrow
      by by exists e.
    apply raw_validateProjectInput_Throw in Hthrow.
    split; [|split; [|split; [|split; [|split]]]]; try done.
    + split; [|by intros _; eexists]. intros _. right. exists input.
      split; [done|]. tauto.
    + intros input' errors ->%Hsame. congruence.
    + split; [done|]. intros (input' & ->%Hsame & Hok & _).
      by apply Hexcl in Hok.
    + tauto.
    + intros input' ->%Hsame Hok. by apply Hexcl in Hok.
  - rewrite Hrun. simpl.
    split; [|split; [|split; [|split; [|split]]]].
    + split; [by intros [? [=]]|].
      intros [?|(input' & ->%Hsame & Hcase)]; [done|].
      assert (exists e, Raw.validateProjectInput input = Throw e) as [? ?];
        [|congruence].
      apply raw_validateProjectInput_Throw.
      destruct Hcase as [?|[?|[?|[Hok%raw_validateProjectInput_nil _]]]];
        [tauto|tauto|tauto|congruence].
    + by intros [? [=]].
    + intros input' errors' ->%Hsame Hv' _. rewrite Hv in Hv'.
      by injection Hv' as <-.
    + split; [done|].
      intros (input' & ->%Hsame & Hok%raw_validateProjectInput_nil & _).
      congruence.
    + tauto.
    + intros input' ->%Hsame Hok%raw_validateProjectInput_nil. congruence.
  - rewrite Hrun. simpl.
    split; [|split; [|split; [|split; [|split]]]]; try done.
    + split; [|by intros _; eexists]. intros _. right. exists input.
      split; [done|]. do 3 right. split; [|done].
      by apply raw_validateProjectInput_nil.
    + intros input' errors ->%Hsame Hv'. rewrite Hv in Hv'.
      by injection Hv' as <-.
    + split; [done|]. intros (? & _ & _ & ?). congruence.
    + tauto.
    + intros; congruence.
  - destruct run as [out w'] eqn:E. simpl in *. subst out. simpl.
    split; [|split; [|split; [|split; [|split]]]].
    + split; [by intros [? [=]]|].
      intros [?|(input' & ->%Hsame & Hcase)]; [done|].
      destruct Hcase as [?|[?|[?|[_ ?]]]]; [| | |congruence];
        exfalso; apply (Hexcl input);
        try (by apply raw_validateProjectInput_nil); tauto.
    + by intros [? [=]].
    + intros input' errors' ->%Hsame Hv' Hne. rewrite Hv in Hv'.
      by injection Hv' as <-.
    + split; [|done]. intros _. exists input. split; [done|].
      split; [|done]. by apply raw_validateProjectInput_nil.
    + tauto.
    + intros input' ->%Hsame _ _. repeat (split; [done|]).
      split; [|done]. simpl. intros [= E'].
      by apply hashToken_not_plain in E'.
Qed.
End RawProjects.

(** A team with a [null] member: the handler answers [500]. *)
Lemma createProject_outcomes_witness :
  let response :=
    (@Raw.handler sample_scrypt sample_numbers no_faults sample_entropy
       sample_now (Raw.post_project (Raw.Parsed untyped_input))
       raw_sample_world).1 in
  Raw.statusCode response = 500%Z.
Proof.
  intros response.
  destruct (@createProject_outcomes sample_scrypt sample_numbers no_faults
              sample_entropy sample_now (Raw.Parsed untyped_input)
              raw_sample_world) as (Hthrow & Hw & _).
  apply Hw, Hthrow. right. exists untyped_input. split; [reflexivity|].
  right. right. left.
  exists [Raw.JObj [("name", Raw.JStr "Alice"); ("role", Raw.JStr "dev")];
          Raw.JNull].
  split; [reflexivity|]. apply list_elem_of_further, list_elem_of_here.
Defined.

Section RawTables.
Context `{Scrypt} `{Raw.Numbers}.

(** What one invocation does to the two tables. *)
Lemma raw_handler_tables faults entropy now req w :
  let w' := (Raw.handler faults entropy now req w).2 in
  (Raw.projectsTable w' = Raw.projectsTable w
   /\ Raw.eventsTable w' = Raw.eventsTable w)
  \/ (exists input,
        Raw.input_ok input
        /\ Raw.projectsTable w'
           = <[randomUUID entropy := Raw.newProject entropy now input]>
               (Raw.projectsTable w)
        /\ Raw.eventsTable w' = Raw.eventsTable w)
  \/ (exists ev project pid id time branch p record,
        Raw.auth faults w (Raw.headers req) ev
        = Ret (Raw.AuthProject project)
        /\ Raw.event_ok ev /\ Raw.storable ev id time branch
        /\ Raw.field "projectId" ev = Some (Raw.JStr pid)
        /\ Raw.field "payload" ev = Some p
        /\ Raw.eventRecord ev p now = Ret record
        /\ Raw.projectsTable w' = Raw.projectsTable w
        /\ Raw.eventsTable w'
           = <[(pid, time +:+ "#" +:+ id) := record]> (Raw.eventsTable w)).
Proof.
  intros w'. unfold w', Raw.handler, Raw.route.
  destruct (String.eqb _ "OPTIONS"); [by left|].
  destruct (String.eqb _ "POST" && String.eqb _ "/api/v1/projects").
  { pose proof (raw_createProject_run faults entropy now (Raw.req_body req) w)
      as Hrun. cbv zeta in Hrun.
    destruct Hrun as [[_ ->]|(input & _ & Hrun)]; [by left|].
    destruct Hrun as [(e & _ & ->)|[(errors & _ & _ & ->)|
                      [(_ & _ & ->)|(Hv & _ & Hr & Hpr & Hev & _)]]];
      try (by left).
    right. left. exists input.
    destruct (Raw.createProject _ _ _ _ _) as [out w1]. simpl in *.
    subst out. split; [by apply raw_validateProjectInput_nil|]. done. }
  destruct (String.eqb _ "POST" && String.eqb _ "/api/v1/events").
  { pose proof (raw_ingestEvent_run faults now (Raw.headers req)
                  (Raw.req_body req) w) as Hrun. cbv zeta in Hrun.
    destruct Hrun as [[_ ->]|(ev & _ & Hrun)]; [by left|].
    destruct Hrun as [(e & _ & ->)|[(code & err & _ & ->)|
                      (project & Ha & Hrun)]]; [by left|by left|].
    destruct Hrun as [(e & _ & ->)|[(errors & _ & _ & ->)|
                      [(_ & _ & e & ->)|
                       [(id & time & branch & _ & _ & _ & ->)|
                        (id & time & branch & pid & p & record & Hv & Hst
                         & _ & Hpid & Hp & Hrec & Hr & Hpr & Het & _)]]]];
      try (by left).
    right. right. exists ev, project, pid, id, time, branch, p, record.
    destruct (Raw.ingestEvent _ _ _ _ _) as [out w1]. simpl in *.
    subst out. split; [done|].
    split; [by apply raw_validateEvent_nil|]. done. }
  destruct (String.eqb _ "GET" && String.eqb _ _); [|by left].
  unfold Raw.getProject. destruct (negb _); [by left|].
  destruct (Raw.authenticate _ _ _ _) as [[]|]; by left.
Qed.

Lemma raw_newProject_ok entropy now input :
  Raw.input_ok input ->
  Raw.project_ok (randomUUID entropy) (Raw.newProject entropy now input).
Proof.
  intros (_ & Hname & Hd & Hl & Hb & Hf & Hm). unfold Raw.project_ok.
  simpl. repeat (split; [done|]).
  assert (forall v : option Raw.Json,
            (Raw.truthy v = false \/ exists l, v = Some (Raw.JArr l)) ->
            Raw.array_or_falsy (Raw.or_else v (Raw.JArr []))) as Harr.
  { intros v [Hv|[l ->]]; [|split; [done|by exists l]].
    destruct v as [[|b|n|s|l|fs]|]; try done;
      (split; [done|]); intros Ht; simpl in *;
      first [congruence|by eexists]. }
  split; [by apply Harr|]. split.
  { apply Harr. destruct Hm as [?|(ms & ? & _)]; [by left|right; eauto]. }
  split.
  { intros ms Hms. destruct Hm as [Ht|(ms' & Hms' & Hall)].
    - destruct (Raw.field "teamMembers" input) as [[|b|n|s|l|fs]|];
        simpl in *; try done; injection Hms as <-; constructor.
    - rewrite Hms' in Hms. simpl in Hms. by injection Hms as <-. }
  split; [|done]. by eexists _, _.
Qed.

Lemma raw_record_ok_grows w w' k r :
  (forall pid, is_Some (Raw.projectsTable w !! pid) ->
               is_Some (Raw.projectsTable w' !! pid)) ->
  Raw.record_ok w k r -> Raw.record_ok w' k r.
Proof.
  intros Hsub (pid & id & time & branch & Hr). exists pid, id, time, branch.
  destruct Hr as (? & ? & ? & ? & ? & ? & ? & ? & ? & ? & ? & ? & ? & ? & ?).
  repeat (split; [done|]). by apply Hsub.
Qed.

Lemma raw_eventRecord_ok faults w headers ev project pid id time branch p
    record now :
  Raw.auth faults w headers ev = Ret (Raw.AuthProject project) ->
  Raw.event_ok ev -> Raw.storable ev id time branch ->
  Raw.field "projectId" ev = Some (Raw.JStr pid) ->
  Raw.field "payload" ev = Some p ->
  Raw.eventRecord ev p now = Ret record ->
  Raw.record_ok w (pid, time +:+ "#" +:+ id) record.
Proof.
  intros Ha (Hev & Hid & _ & Hts & Hb & Hlen & p' & Hp' & Htp & Hty)
    (Hids & Htime & Hbranch) Hpid Hp Hrec.
  rewrite Hp in Hp'. injection Hp' as <-.
  unfold Raw.eventRecord in Hrec. rewrite Htime, Hbranch, Hids in Hrec.
  simpl in Hrec. injection Hrec as <-.
  exists pid, id, time, branch. simpl.
  rewrite Hids in Hid. apply reads_as_string in Hid as [_ Hu].
  destruct Hts as [_ (time' & Htime' & Hiso)].
  rewrite Htime in Htime'. injection Htime' as <-.
  repeat (split; [done|]).
  unfold Raw.auth in Ha. assert (Raw.prop "projectId" ev
                                 = Ret (Raw.field "projectId" ev)) as Hprop
    by (by destruct ev).
  rewrite Hprop, bind_Ret_l, Hpid in Ha.
  apply raw_authenticate_lookup in Ha as (pid' & _ & [= <-] & _ & Hl & _).
  by eexists.
Qed.

Lemma raw_handler_tables_ok faults entropy now req w :
  Raw.tables_ok w ->
  Raw.tables_ok (Raw.handler faults entropy now req w).2.
Proof.
  intros [Hprojects Hevents].
  destruct (raw_handler_tables faults entropy now req w)
    as [[Hp He]|[(input & Hok & Hp & He)|
        (ev & project & pid & id & time & branch & p & record & Ha & Hok
         & Hst & Hpid & Hpl & Hrec & Hp & He)]];
    unfold Raw.tables_ok; rewrite Hp, He.
  - split; [done|]. intros k r Hk. eapply raw_record_ok_grows; [|by eapply Hevents].
    intros pid'. by rewrite Hp.
  - split.
    + apply map_Forall_insert_2; [by apply raw_newProject_ok|done].
    + intros k r Hk. eapply raw_record_ok_grows; [|by eapply Hevents].
      intros pid' Hin. rewrite Hp.
      destruct (decide (randomUUID entropy = pid')) as [<-|Hne].
      * rewrite lookup_insert_eq. by eexists.
      * by rewrite lookup_insert_ne.
  - split; [done|]. apply map_Forall_insert_2.
    + eapply raw_record_ok_grows;
        [|by eapply (raw_eventRecord_ok faults w (Raw.headers req))].
      intros pid'. by rewrite Hp.
    + intros k r Hk. eapply raw_record_ok_grows; [|by eapply Hevents].
      intros pid'. by rewrite Hp.
Qed.

(** X12. The tables keep their shape over any sequence of invocations,
    whatever the bodies. If every project item sits under its own id, has a
    truthy name whose string form [NAME_REGEX] accepts, a truthy
    description and default branch, a non-empty array of languages,
    frameworks and team members that are arrays or falsy and not [null],
    no team member that is [null] or lacks a name or a role, a token hash
    in salted form, and no recorded activity; and every event record sits
    under its project id and [timestamp#eventId], has string ids, a UUID v4
    event id, an ISO 8601 time, a truthy branch within the length limit, a
    payload as [validateEvent] asks for its type, status [pending], and a
    project in the projects table; then the same holds after any list of
    requests under any faults. *)
Theorem run_all_tables_ok (calls : list Raw.Call) (w : Raw.World) :
  Raw.tables_ok w -> Raw.tables_ok (Raw.run_all calls w).
Proof.
  revert w. induction calls as [|c calls IH]; intros w Hw; simpl.
  - done.
  - apply IH. by apply raw_handler_tables_ok.
Qed.
End RawTables.

(** The sample calls with bodies that are not as the extension sends them. *)
Lemma run_all_tables_ok_witness :
  let w := @Raw.run_all sample_scrypt sample_numbers raw_sample_calls
             raw_sample_world in
  size (Raw.projectsTable w) = 2 /\ size (Raw.eventsTable w) = 2
  /\ @Raw.tables_ok sample_scrypt sample_numbers w.
Proof.
  intros w. split; [reflexivity|]. split; [reflexivity|].
  assert (@Raw.tables_ok sample_scrypt sample_numbers raw_sample_world)
    as Hw.
  { split; [|apply map_Forall_empty].
    apply map_Forall_singleton. unfold Raw.project_ok. simpl.
    split; [done|]. split; [split; [done|by eexists]|].
    split; [done|]. split; [by eexists _, _|]. split; [done|].
    split; [split; [done|by eexists]|]. split; [split; [done|by eexists]|].
    split; [by intros ms [= <-]|]. split; [|done].
    by exists sample_salt, sample_token. }
  exact (@run_all_tables_ok sample_scrypt sample_numbers raw_sample_calls
           raw_sample_world Hw).
Defined.
